(** * BusTub buffer management core: replacers, page table, buffer pool

    A shallow embedding of

    - [src/buffer/lru_replacer.cpp]           (module [LRU]),
    - [src/buffer/lru_k_replacer.cpp]         (module [LRUK]),
    - [src/container/hash/extendible_hash_table.cpp] (module [Hash]),
    - [src/buffer/buffer_pool_manager_instance.cpp]  (module [BPM]),

    together with the properties the specification states about them.

    Conventions.

    - Every public operation runs under the component's latch from its
      first to its last statement, so an operation is modelled as one
      atomic state transformer.
    - A result of type [option _] is [None] where the C++ program has no
      defined continuation: a failed [assert], an out-of-bounds array
      access, a dangling pointer dereference or a signed overflow.
    - [size_t] is 64 bits wide; its arithmetic is written with the
      wrap-around [wrap64].
    - Heap objects that are shared through pointers (list nodes, hash
      buckets) live in an explicit store, and pointers are addresses into
      that store. *)

From Stdlib Require Import ZArith Lia List Bool.
From stdpp Require Import base decidable option list numbers gmap sorting.

Local Open Scope Z_scope.

(** ** Machine integers *)

Definition wrap64 (z : Z) : Z := z mod 2 ^ 64.

(** The conversion [(size_t)x] of a (signed) [int]. *)
Definition to_size_t (z : Z) : Z := wrap64 z.

(** [assert(c)] *)
Definition assert (c : bool) : option unit := if c then Some tt else None.

(** [1 << d] on [int]: undefined unless the result is representable. *)
Definition shl1 (d : Z) : option Z :=
  _ ← assert ((0 <=? d) && (d <? 31)); Some (2 ^ d).

(** ** Arrays indexed by machine integers

    [v[i]] for reading and [v[i] = x] for writing; out of bounds there is
    no defined result. *)
Definition zlookup {A} (l : list A) (i : Z) : option A :=
  if i <? 0 then None else l !! Z.to_nat i.

Definition zstore {A} (l : list A) (i : Z) (x : A) : option (list A) :=
  _ ← assert ((0 <=? i) && (i <? Z.of_nat (length l)));
  Some (<[Z.to_nat i := x]> l).

(** [i] and [j] agree on their [n] low bits. *)
Definition low_eq (n i j : Z) : Prop := i mod 2 ^ n = j mod 2 ^ n.


(** * The legacy LRU replacer ([lru_replacer.cpp]) *)

Module LRU.

(** The intrusive circular list hanging off [dummy_node_] is the list
    [list_] of the frame ids of its nodes, from [dummy_node_->next_] (the
    most recently unpinned) to [dummy_node_->prev_] (the tail).  A node is
    addressed by the frame id it was created with, so the
    [unordered_map<frame_id_t, ListNode*>] [frames_] is its key set. *)
Record LRUReplacer := mkLRU {
  page_size_ : Z;
  cur_size_ : Z;
  list_ : list Z;
  frames_ : gset Z
}.

(** [LRUReplacer::LRUReplacer(num_pages)] *)
Definition new (num_pages : Z) : LRUReplacer :=
  mkLRU num_pages 0 [] ∅.

(** The out-parameter [frame_id_t *frame_id] is returned as an option:
    [None] when [Victim] does not write through it. *)
Definition Victim (r : LRUReplacer) : option (bool * option Z * LRUReplacer) :=
  if cur_size_ r =? 0 then Some (false, None, r)
  else
    match last (list_ r) with
    | None => None (* [least_used] would be the dummy node, which is then freed *)
    | Some least_used =>
        Some (false, Some least_used,
              mkLRU (page_size_ r) (wrap64 (cur_size_ r - 1))
                    (removelast (list_ r)) (frames_ r ∖ {[least_used]}))
    end.

Definition Pin (frame_id : Z) (r : LRUReplacer) : LRUReplacer :=
  if bool_decide (frame_id ∈ frames_ r) then
    mkLRU (page_size_ r) (wrap64 (cur_size_ r - 1))
          (filter (λ g, g ≠ frame_id) (list_ r)) (frames_ r ∖ {[frame_id]})
  else r.

Definition Unpin (frame_id : Z) (r : LRUReplacer) : LRUReplacer :=
  if bool_decide (frame_id ∈ frames_ r) then r
  else if cur_size_ r =? page_size_ r then r
  else mkLRU (page_size_ r) (wrap64 (cur_size_ r + 1))
             (frame_id :: list_ r) ({[frame_id]} ∪ frames_ r).

Definition Size (r : LRUReplacer) : Z := cur_size_ r.

(** States reached from the constructor by the public operations. *)
Inductive reachable (num_pages : Z) : LRUReplacer → Prop :=
| reach_new : reachable num_pages (new num_pages)
| reach_Victim r b o r' :
    reachable num_pages r → Victim r = Some (b, o, r') → reachable num_pages r'
| reach_Pin r f : reachable num_pages r → reachable num_pages (Pin f r)
| reach_Unpin r f : reachable num_pages r → reachable num_pages (Unpin f r).

(** The public operations as calls, and one call on a state. *)
Inductive op :=
| OpVictim
| OpPin (frame_id : Z)
| OpUnpin (frame_id : Z).

Definition exec (o : op) (r : LRUReplacer) : option LRUReplacer :=
  match o with
  | OpVictim => '(_, _, r') ← Victim r; Some r'
  | OpPin f => Some (Pin f r)
  | OpUnpin f => Some (Unpin f r)
  end.

(** From the claim's words, "least recently unpinned": for every frame,
    the number of the call that put it into the replacer, if the replacer
    holds it.  [unpinned_step i r r' at] updates the record over call
    number [i], which took the replacer from [r] to [r']: a frame that
    [frames_] has after the call and had not before it was put there by
    this call; a frame that [frames_] has before and after keeps its
    number (so an [Unpin] of a frame that is held already does not count);
    a frame that [frames_] has not after the call has none. *)
Definition unpinned_step (i : nat) (r r' : LRUReplacer) (at_ : Z → option nat)
    : Z → option nat :=
  λ f, if bool_decide (f ∈ frames_ r')
       then (if bool_decide (f ∈ frames_ r) then at_ f else Some i)
       else None.

(** A run of calls, numbered from [i] on, together with that record. *)
Fixpoint run (i : nat) (ops : list op) (r : LRUReplacer) (at_ : Z → option nat)
    : option (LRUReplacer * (Z → option nat)) :=
  match ops with
  | [] => Some (r, at_)
  | o :: ops => r' ← exec o r; run (S i) ops r' (unpinned_step i r r' at_)
  end.

(** The representation invariant. *)
Record wf (r : LRUReplacer) : Prop := mkwf {
  wf_size : cur_size_ r = Z.of_nat (length (list_ r));
  wf_bound : cur_size_ r ≤ page_size_ r < 2 ^ 64;
  wf_nodup : NoDup (list_ r);
  wf_frames : ∀ f, f ∈ frames_ r ↔ f ∈ list_ r
}.

End LRU.


(** * The LRU-K replacer ([lru_k_replacer.cpp], [lru_k_replacer.h]) *)

Module LRUK.

(** [struct ListNode], without its two link fields: the links are the
    positions in [history_list] and [buffer_list] below. *)
Record ListNode := mkNode {
  frame_id_ : Z;
  access_times_ : Z;
  evictable_ : bool
}.

(** The two circular lists are the lists of the addresses of their nodes,
    from [dummy->next_] (head) to [dummy->prev_] (tail).  A node is only
    ever allocated by [new ListNode(frame_id)] when no node is registered
    for [frame_id], and is registered under that key at once, so the frame
    id serves as the node's address in the store [nodes]; a map
    [unordered_map<frame_id_t, ListNode*>] then sends each of its keys to
    the address equal to that key and is given by its key set. *)
Record LRUKReplacer := mkLRUK {
  curr_size_ : Z;
  replacer_size_ : Z;
  k_ : Z;
  nodes : gmap Z ListNode;
  history_list : list Z;
  history_frames_ : gset Z;
  history_frame_size_ : Z;
  buffer_list : list Z;
  buffer_frames_ : gset Z;
  buffer_frame_size_ : Z
}.

Definition set_curr_size (c : Z) (r : LRUKReplacer) : LRUKReplacer :=
  mkLRUK c (replacer_size_ r) (k_ r) (nodes r)
         (history_list r) (history_frames_ r) (history_frame_size_ r)
         (buffer_list r) (buffer_frames_ r) (buffer_frame_size_ r).

Definition set_nodes (m : gmap Z ListNode) (r : LRUKReplacer) : LRUKReplacer :=
  mkLRUK (curr_size_ r) (replacer_size_ r) (k_ r) m
         (history_list r) (history_frames_ r) (history_frame_size_ r)
         (buffer_list r) (buffer_frames_ r) (buffer_frame_size_ r).

Definition set_lists (h b : list Z) (r : LRUKReplacer) : LRUKReplacer :=
  mkLRUK (curr_size_ r) (replacer_size_ r) (k_ r) (nodes r)
         h (history_frames_ r) (history_frame_size_ r)
         b (buffer_frames_ r) (buffer_frame_size_ r).

Definition set_history_frames (s : gset Z) (n : Z) (r : LRUKReplacer) : LRUKReplacer :=
  mkLRUK (curr_size_ r) (replacer_size_ r) (k_ r) (nodes r)
         (history_list r) s n
         (buffer_list r) (buffer_frames_ r) (buffer_frame_size_ r).

Definition set_buffer_frames (s : gset Z) (n : Z) (r : LRUKReplacer) : LRUKReplacer :=
  mkLRUK (curr_size_ r) (replacer_size_ r) (k_ r) (nodes r)
         (history_list r) (history_frames_ r) (history_frame_size_ r)
         (buffer_list r) s n.

(** [LRUKReplacer::LRUKReplacer(num_frames, k)] *)
Definition new (num_frames k : Z) : LRUKReplacer :=
  mkLRUK 0 num_frames k ∅ [] ∅ 0 [] ∅ 0.

Inductive dummy := history_dummy_ | buffer_dummy_.

Definition GetNode (frame_id : Z) (r : LRUKReplacer) : option (option Z) :=
  let in_history := bool_decide (frame_id ∈ history_frames_ r) in
  let in_buffer := bool_decide (frame_id ∈ buffer_frames_ r) in
  _ ← assert (negb (in_history && in_buffer));
  Some (if in_history || in_buffer then Some frame_id else None).

Definition InsertNode (d : dummy) (newNode : Z) (r : LRUKReplacer) : LRUKReplacer :=
  match d with
  | history_dummy_ => set_lists (newNode :: history_list r) (buffer_list r) r
  | buffer_dummy_ => set_lists (history_list r) (newNode :: buffer_list r) r
  end.

(** Unlinks [node] from the list it is linked in. *)
Definition EvictNodeFromList (node : Z) (r : LRUKReplacer) : LRUKReplacer :=
  set_lists (filter (λ a, a ≠ node) (history_list r))
            (filter (λ a, a ≠ node) (buffer_list r)) r.

Definition MoveNodeToHead (d : dummy) (node : Z) (r : LRUKReplacer) : LRUKReplacer :=
  InsertNode d node (EvictNodeFromList node r).

(** [node->evictable_] for a linked node. *)
Definition node_evictable (r : LRUKReplacer) (node : Z) : bool :=
  match nodes r !! node with
  | Some n => evictable_ n
  | None => false
  end.

(** Walks from [head->prev_] along [prev_], that is from the tail up. *)
Definition GetFirstEvictableNode (in_history : bool) (r : LRUKReplacer) : option Z :=
  let l := if in_history then history_list r else buffer_list r in
  List.find (node_evictable r) (rev l).

(** [Evict(frame_id_t *frame_id) -> bool]: [Some f] stands for the result
    [true] with [*frame_id = f], [None] for [false]. *)
Definition Evict (r : LRUKReplacer) : option (option Z * LRUKReplacer) :=
  if curr_size_ r =? 0 then Some (None, r)
  else
    let '(in_history, node) :=
      match GetFirstEvictableNode true r with
      | Some node => (true, Some node)
      | None => (false, GetFirstEvictableNode false r)
      end in
    node ← node;
    n ← nodes r !! node;
    let frame_id := frame_id_ n in
    let r := EvictNodeFromList node r in
    let r :=
      if in_history : bool
      then set_history_frames (history_frames_ r ∖ {[frame_id]})
                              (wrap64 (history_frame_size_ r - 1)) r
      else set_buffer_frames (buffer_frames_ r ∖ {[frame_id]})
                             (wrap64 (buffer_frame_size_ r - 1)) r in
    let r := set_nodes (delete node (nodes r)) r in
    Some (Some frame_id, set_curr_size (wrap64 (curr_size_ r - 1)) r).

(** The part of [RecordAccess] after [node] has been found or created. *)
Definition RecordAccess_node (frame_id node : Z) (r : LRUKReplacer) : option LRUKReplacer :=
  n ← nodes r !! node;
  let times := wrap64 (access_times_ n + 1) in
  let r := set_nodes (<[node := mkNode (frame_id_ n) times (evictable_ n)]> (nodes r)) r in
  if times =? k_ r then
    let r := EvictNodeFromList node r in
    let r := set_history_frames (history_frames_ r ∖ {[frame_id]})
                                (wrap64 (history_frame_size_ r - 1)) r in
    let r := InsertNode buffer_dummy_ node r in
    Some (set_buffer_frames ({[frame_id]} ∪ buffer_frames_ r)
                            (wrap64 (buffer_frame_size_ r + 1)) r)
  else if times <? k_ r then
    if negb (times =? 1) then Some (MoveNodeToHead history_dummy_ node r)
    else Some r
  else Some (MoveNodeToHead buffer_dummy_ node r).

Definition RecordAccess (frame_id : Z) (r : LRUKReplacer) : option LRUKReplacer :=
  _ ← assert (to_size_t frame_id <=? replacer_size_ r);
  node ← GetNode frame_id r;
  match node with
  | None =>
      if wrap64 (history_frame_size_ r + buffer_frame_size_ r) =? replacer_size_ r
      then Some r
      else
        let r := set_nodes (<[frame_id := mkNode frame_id 0 false]> (nodes r)) r in
        let r := InsertNode history_dummy_ frame_id r in
        let r := set_history_frames ({[frame_id]} ∪ history_frames_ r)
                                    (wrap64 (history_frame_size_ r + 1)) r in
        RecordAccess_node frame_id frame_id r
  | Some node => RecordAccess_node frame_id node r
  end.

Definition SetEvictable (frame_id : Z) (set_evictable : bool) (r : LRUKReplacer)
    : option LRUKReplacer :=
  _ ← assert (to_size_t frame_id <=? replacer_size_ r);
  node ← GetNode frame_id r;
  match node with
  | None => Some r
  | Some node =>
      n ← nodes r !! node;
      if bool_decide (evictable_ n = set_evictable) then Some r
      else
        let r := set_nodes
                   (<[node := mkNode (frame_id_ n) (access_times_ n) set_evictable]> (nodes r)) r in
        Some (set_curr_size
                (wrap64 (curr_size_ r + (if set_evictable then 1 else -1))) r)
  end.

Definition Remove (frame_id : Z) (r : LRUKReplacer) : option LRUKReplacer :=
  _ ← assert (to_size_t frame_id <=? replacer_size_ r);
  node ← GetNode frame_id r;
  match node with
  | None => Some r
  | Some node =>
      n ← nodes r !! node;
      if negb (evictable_ n) then Some r
      else
        let r := EvictNodeFromList node r in
        let in_history := bool_decide (frame_id ∈ history_frames_ r) in
        let r :=
          if in_history
          then set_history_frames (history_frames_ r ∖ {[frame_id]})
                                  (wrap64 (history_frame_size_ r - 1)) r
          else set_buffer_frames (buffer_frames_ r ∖ {[frame_id]})
                                 (wrap64 (buffer_frame_size_ r - 1)) r in
        let r := set_nodes (delete node (nodes r)) r in
        Some (set_curr_size (wrap64 (curr_size_ r - 1)) r)
  end.

Definition Size (r : LRUKReplacer) : Z := curr_size_ r.

(** A frame is tracked when one of the two maps has an entry for it. *)
Definition tracked (r : LRUKReplacer) (f : Z) : Prop :=
  f ∈ history_frames_ r ∨ f ∈ buffer_frames_ r.

(** Every node in the store carries the frame id it is addressed by. *)
Definition addr_ok (r : LRUKReplacer) : Prop :=
  ∀ a n, nodes r !! a = Some n → frame_id_ n = a.

(** The store holds tracked nodes only, each under its frame id. *)
Definition heap_ok (r : LRUKReplacer) : Prop :=
  addr_ok r ∧ ∀ a, is_Some (nodes r !! a) → tracked r a.

Definition all_nodes (r : LRUKReplacer) : list Z := history_list r ++ buffer_list r.

(** The number of nodes of [l] whose [evictable_] flag is set. *)
Definition count_evictable (r : LRUKReplacer) (l : list Z) : nat :=
  length (filter (λ a, node_evictable r a = true) l).

(** The representation invariant, for a replacer on which at most [B]
    operations have run. *)
Record wf (B : Z) (r : LRUKReplacer) : Prop := mkwf {
  wf_k : 1 ≤ k_ r < 2 ^ 64;
  wf_cap : Z.of_nat (length (all_nodes r)) ≤ replacer_size_ r < 2 ^ 64;
  wf_hsize : history_frame_size_ r = Z.of_nat (length (history_list r));
  wf_bsize : buffer_frame_size_ r = Z.of_nat (length (buffer_list r));
  wf_nodup : NoDup (all_nodes r);
  wf_hframes : ∀ f, f ∈ history_frames_ r ↔ f ∈ history_list r;
  wf_bframes : ∀ f, f ∈ buffer_frames_ r ↔ f ∈ buffer_list r;
  wf_nodes : ∀ a, is_Some (nodes r !! a) ↔ a ∈ all_nodes r;
  wf_addr : addr_ok r;
  wf_times : ∀ a n, nodes r !! a = Some n → 1 ≤ access_times_ n ≤ B;
  wf_htimes : ∀ a n, a ∈ history_list r → nodes r !! a = Some n → access_times_ n < k_ r;
  wf_btimes : ∀ a n, a ∈ buffer_list r → nodes r !! a = Some n → k_ r ≤ access_times_ n;
  wf_curr : curr_size_ r = Z.of_nat (count_evictable r (all_nodes r))
}.

(** The public operations, and runs of them from the constructor. *)
Inductive op :=
| OpRecordAccess (frame_id : Z)
| OpSetEvictable (frame_id : Z) (set_evictable : bool)
| OpRemove (frame_id : Z)
| OpEvict.

Definition exec (o : op) (r : LRUKReplacer) : option LRUKReplacer :=
  match o with
  | OpRecordAccess f => RecordAccess f r
  | OpSetEvictable f b => SetEvictable f b r
  | OpRemove f => Remove f r
  | OpEvict => snd <$> Evict r
  end.

Fixpoint run (ops : list op) (r : LRUKReplacer) : option LRUKReplacer :=
  match ops with
  | [] => Some r
  | o :: ops => r' ← exec o r; run ops r'
  end.

End LRUK.

(** * The extendible hash table ([extendible_hash_table.cpp]) *)

Module Hash.

Section ExtendibleHashTable.

Context {K V : Type} `{EqDecision K}.

(** [std::hash<K>()(key)] *)
Variable hash : K → Z.

(** ** Buckets *)

(** [prefix_] is written by the constructor only and is left out. *)
Record Bucket := mkBucket {
  size_ : Z;
  depth_ : Z;
  list_ : list (K * V)
}.

(** Modelled from the spec: the bucket's inline members [IsFull],
    [IsOverflow], [GetDepth], [IncrementDepth], [GetCopiedItems] and
    [ClearItems] are declared in [extendible_hash_table.h], which is not
    among the sources.  A bucket holds at most [size_] entries and has room
    while it holds fewer. *)
Definition IsFull (b : Bucket) : bool := Z.of_nat (length (list_ b)) =? size_ b.

Definition IsOverflow (b : Bucket) : bool := size_ b <? Z.of_nat (length (list_ b)).

Definition GetDepth (b : Bucket) : Z := depth_ b.

Definition IncrementDepth (b : Bucket) : Bucket :=
  mkBucket (size_ b) (depth_ b + 1) (list_ b).

Definition GetCopiedItems (b : Bucket) : list (K * V) := list_ b.

Definition ClearItems (b : Bucket) : Bucket := mkBucket (size_ b) (depth_ b) [].

Definition has_key (key : K) (kv : K * V) : bool := bool_decide (kv.1 = key).

(** [Bucket::Find(key, value) -> bool], the out-parameter as an option. *)
Definition Bucket_Find (key : K) (b : Bucket) : option (option V) :=
  _ ← assert (Z.of_nat (length (list_ b)) <=? size_ b);
  Some (snd <$> List.find (has_key key) (list_ b)).

(** [list_.erase(iter)] at the first entry with the key. *)
Fixpoint erase_first (key : K) (l : list (K * V)) : option (list (K * V)) :=
  match l with
  | [] => None
  | kv :: l => if has_key key kv then Some l else (kv ::.) <$> erase_first key l
  end.

Definition Bucket_Remove (key : K) (b : Bucket) : option (bool * Bucket) :=
  _ ← assert (Z.of_nat (length (list_ b)) <=? size_ b);
  match erase_first key (list_ b) with
  | Some l => Some (true, mkBucket (size_ b) (depth_ b) l)
  | None => Some (false, b)
  end.

(** [iter->second = value] at the first entry with the key. *)
Fixpoint assign_first (key : K) (value : V) (l : list (K * V)) : option (list (K * V)) :=
  match l with
  | [] => None
  | kv :: l =>
      if has_key key kv then Some ((kv.1, value) :: l)
      else (kv ::.) <$> assign_first key value l
  end.

Definition Bucket_Insert (key : K) (value : V) (b : Bucket) : bool * Bucket :=
  if IsOverflow b then (false, b)
  else
    match assign_first key value (list_ b) with
    | Some l => (true, mkBucket (size_ b) (depth_ b) l)
    | None =>
        if IsFull b then (false, b)
        else (true, mkBucket (size_ b) (depth_ b) (list_ b ++ [(key, value)]))
    end.

(** ** The table *)

(** The directory holds [shared_ptr<Bucket>]s: addresses into the store
    [buckets].  [make_shared] allocates the next unused address. *)
Record ExtendibleHashTable := mkTable {
  global_depth_ : Z;
  bucket_size_ : Z;
  num_buckets_ : Z;
  dir_ : list nat;
  buckets : list Bucket
}.

Definition set_dir (d : list nat) (t : ExtendibleHashTable) : ExtendibleHashTable :=
  mkTable (global_depth_ t) (bucket_size_ t) (num_buckets_ t) d (buckets t).

Definition set_buckets (bs : list Bucket) (t : ExtendibleHashTable) : ExtendibleHashTable :=
  mkTable (global_depth_ t) (bucket_size_ t) (num_buckets_ t) (dir_ t) bs.

Definition set_global_depth (g : Z) (t : ExtendibleHashTable) : ExtendibleHashTable :=
  mkTable g (bucket_size_ t) (num_buckets_ t) (dir_ t) (buckets t).

(** [ExtendibleHashTable(bucket_size)] *)
Definition new (bucket_size : Z) : ExtendibleHashTable :=
  mkTable 0 bucket_size 1 [0%nat] [mkBucket bucket_size 0 []].

Definition IndexOf (key : K) (t : ExtendibleHashTable) : option Z :=
  m ← shl1 (global_depth_ t);
  let mask := m - 1 in
  Some (Z.land (hash key) mask).

Definition PairIndex (bucket_no local_depth : Z) : option Z :=
  m ← shl1 (local_depth - 1);
  Some (Z.lxor bucket_no m).

Definition GetGlobalDepth (t : ExtendibleHashTable) : Z := global_depth_ t.

Definition GetLocalDepth (dir_index : Z) (t : ExtendibleHashTable) : option Z :=
  a ← zlookup (dir_ t) dir_index;
  b ← buckets t !! a;
  Some (GetDepth b).

Definition GetNumBuckets (t : ExtendibleHashTable) : Z := num_buckets_ t.

(** [Find(key, value) -> bool], the out-parameter as an option. *)
Definition Find (key : K) (t : ExtendibleHashTable) : option (option V) :=
  idx ← IndexOf key t;
  bucket ← zlookup (dir_ t) idx;
  b ← buckets t !! bucket;
  Bucket_Find key b.

Definition Remove (key : K) (t : ExtendibleHashTable) : option (bool * ExtendibleHashTable) :=
  idx ← IndexOf key t;
  bucket ← zlookup (dir_ t) idx;
  b ← buckets t !! bucket;
  '(found, b) ← Bucket_Remove key b;
  Some (found, set_buckets (<[bucket := b]> (buckets t)) t).

(** [for (int i = 0; i < 1 << global_depth_; i++) dir_.push_back(dir_[i]);]
    with [n] iterations left. *)
Fixpoint grow_dir (n i : nat) (dir : list nat) : option (list nat) :=
  match n with
  | O => Some dir
  | S n => a ← dir !! i; grow_dir n (S i) (dir ++ [a])
  end.

(** [for (int i = ...; i >= 0; i -= index_diff) dir_[i] = dir_[pair_index];]
    The fuel bounds the number of iterations; [i + 1] is enough of it. *)
Fixpoint rewire_down (fuel : nat) (i index_diff pair_index : Z) (dir : list nat)
    : option (list nat) :=
  if i <? 0 then Some dir
  else
    match fuel with
    | O => None
    | S fuel =>
        a ← zlookup dir pair_index;
        dir ← zstore dir i a;
        rewire_down fuel (i - index_diff) index_diff pair_index dir
    end.

(** [for (size_t i = ...; i < dir_size; i += index_diff) dir_[i] = dir_[pair_index];] *)
Fixpoint rewire_up (fuel : nat) (i index_diff pair_index dir_size : Z) (dir : list nat)
    : option (list nat) :=
  if dir_size <=? i then Some dir
  else
    match fuel with
    | O => None
    | S fuel =>
        a ← zlookup dir pair_index;
        dir ← zstore dir i a;
        rewire_up fuel (i + index_diff) index_diff pair_index dir_size dir
    end.

(** The loop over [itemsToInsert]; a failing [Bucket::Insert] is only
    logged. *)
Fixpoint redistribute (items : list (K * V)) (t : ExtendibleHashTable)
    : option ExtendibleHashTable :=
  match items with
  | [] => Some t
  | (key, value) :: items =>
      cur_bucket_no ← IndexOf key t;
      a ← zlookup (dir_ t) cur_bucket_no;
      b ← buckets t !! a;
      let '(_, b) := Bucket_Insert key value b in
      redistribute items (set_buckets (<[a := b]> (buckets t)) t)
  end.

(** The body of [if (!success) { ... }] in [Insert]: the bucket at address
    [bucket], found at directory slot [bucket_no], is split. *)
Definition Split (bucket_no : Z) (bucket : nat) (t : ExtendibleHashTable)
    : option ExtendibleHashTable :=
  b ← buckets t !! bucket;
  let b := IncrementDepth b in
  let t := set_buckets (<[bucket := b]> (buckets t)) t in
  let local_depth := GetDepth b in
  t ← (if global_depth_ t <? local_depth then
         n ← shl1 (global_depth_ t);
         dir ← grow_dir (Z.to_nat n) 0 (dir_ t);
         Some (set_global_depth (global_depth_ t + 1) (set_dir dir t))
       else Some t);
  pair_index ← PairIndex bucket_no local_depth;
  let sibling := length (buckets t) in
  let t := set_buckets (buckets t ++ [mkBucket (bucket_size_ t) local_depth []]) t in
  dir ← zstore (dir_ t) pair_index sibling;
  let t := set_dir dir t in
  let itemsToInsert := GetCopiedItems b in
  let t := set_buckets (<[bucket := ClearItems b]> (buckets t)) t in
  index_diff ← shl1 local_depth;
  dir_size ← shl1 (global_depth_ t);
  dir ← rewire_down (Z.to_nat pair_index) (pair_index - index_diff) index_diff pair_index (dir_ t);
  dir ← rewire_up (Z.to_nat dir_size) (pair_index + index_diff) index_diff pair_index dir_size dir;
  redistribute itemsToInsert (set_dir dir t).

(** [Insert]: the loop [while (!complete)], with [fuel] iterations at most. *)
Fixpoint Insert (fuel : nat) (key : K) (value : V) (t : ExtendibleHashTable)
    : option ExtendibleHashTable :=
  match fuel with
  | O => None
  | S fuel =>
      bucket_no ← IndexOf key t;
      bucket ← zlookup (dir_ t) bucket_no;
      b ← buckets t !! bucket;
      let '(success, b) := Bucket_Insert key value b in
      if success then Some (set_buckets (<[bucket := b]> (buckets t)) t)
      else t ← Split bucket_no bucket t; Insert fuel key value t
  end.

(** States reached from the constructor by the public operations. *)
Inductive reachable (bucket_size : Z) : ExtendibleHashTable → Prop :=
| reach_new : reachable bucket_size (new bucket_size)
| reach_Insert t fuel key value t' :
    reachable bucket_size t → Insert fuel key value t = Some t' → reachable bucket_size t'
| reach_Remove t key found t' :
    reachable bucket_size t → Remove key t = Some (found, t') → reachable bucket_size t'
| reach_Find t key value :
    reachable bucket_size t → Find key t = Some value → reachable bucket_size t.

(** The number of directory slots that hold the address [a]. *)
Definition slots_of (a : nat) (t : ExtendibleHashTable) : nat :=
  length (filter (λ x, x = a) (dir_ t)).

(** The directory invariant, over the global depth, the directory and the
    local depths of the buckets in the store: the directory has
    [2 ^ global_depth] slots, the slots that hold the bucket of slot [i],
    of local depth [d], are those that agree with [i] on their [d] low
    bits, and every bucket of the store is held by some slot. *)
Definition dir_ok (gd : Z) (dir : list nat) (dp : list Z) : Prop :=
  0 ≤ gd ∧ Z.of_nat (length dir) = 2 ^ gd ∧
  (∀ i a, zlookup dir i = Some a →
     ∃ d, dp !! a = Some d ∧ 0 ≤ d ≤ gd ∧
          ∀ j, 0 ≤ j < 2 ^ gd → (zlookup dir j = Some a ↔ low_eq d j i)) ∧
  (∀ a, (a < length dp)%nat → ∃ i, zlookup dir i = Some a).

Definition inv (t : ExtendibleHashTable) : Prop :=
  dir_ok (global_depth_ t) (dir_ t) (depth_ <$> buckets t).

(** Every bucket holds a key once at most. *)
Definition keys_ok (t : ExtendibleHashTable) : Prop :=
  Forall (λ b, NoDup (list_ b).*1) (buckets t).

End ExtendibleHashTable.

Arguments Bucket : clear implicits.
Arguments ExtendibleHashTable : clear implicits.

(** [std::hash<int>] of libstdc++: the value itself, as a [size_t]. *)
Definition std_hash (key : Z) : Z := to_size_t key.

End Hash.

(** * The buffer pool manager ([buffer_pool_manager_instance.cpp]) *)

Module BPM.

Definition INVALID_PAGE_ID : Z := -1.

Definition INVALID_FRAME_ID : Z := -1.

Section BufferPoolManagerInstance.

(** [std::hash<page_id_t>] of the page table, and the constant
    [BUSTUB_PAGE_SIZE] of [common/config.h]. *)
Variable hash : Z → Z.
Variable PAGE_SIZE : nat.

(** Modelled from the spec: [class Page] ([storage/page/page.h]) is not
    among the sources.  A frame is a fixed-size byte buffer together with
    the page id it holds (or the sentinel), a pin count and a dirty flag;
    [ResetMemory] zeroes the buffer, and a frame starts out zeroed, empty,
    unpinned and clean. *)
Record Page := mkPage {
  data_ : list Byte.byte;
  page_id_ : Z;
  pin_count_ : Z;
  is_dirty_ : bool
}.

Definition zeroed : list Byte.byte := repeat Byte.x00 PAGE_SIZE.

Definition ResetMemory (pg : Page) : Page :=
  mkPage zeroed (page_id_ pg) (pin_count_ pg) (is_dirty_ pg).

Definition new_Page : Page := mkPage zeroed INVALID_PAGE_ID 0 false.

Definition set_page_id (p : Z) (pg : Page) : Page :=
  mkPage (data_ pg) p (pin_count_ pg) (is_dirty_ pg).

Definition set_pin_count (c : Z) (pg : Page) : Page :=
  mkPage (data_ pg) (page_id_ pg) c (is_dirty_ pg).

Definition set_is_dirty (d : bool) (pg : Page) : Page :=
  mkPage (data_ pg) (page_id_ pg) (pin_count_ pg) d.

Definition set_data (d : list Byte.byte) (pg : Page) : Page :=
  mkPage d (page_id_ pg) (pin_count_ pg) (is_dirty_ pg).

(** Modelled from the spec: [DiskManager] is an external collaborator.
    [WritePage] persists the buffer as the new contents of the page and
    [ReadPage] fills the buffer with the persisted contents. *)
Definition Disk := Z → list Byte.byte.

Definition WritePage (page_id : Z) (data : list Byte.byte) (d : Disk) : Disk :=
  λ p, if bool_decide (p = page_id) then data else d p.

Definition ReadPage (page_id : Z) (d : Disk) : list Byte.byte := d page_id.

(** The pool.  [pages_] is the array of frames, and a [Page *] is the
    index of its frame.  [deallocated] logs the calls of [DeallocatePage]. *)
Record BufferPoolManagerInstance := mkBPM {
  pool_size_ : Z;
  pages_ : list Page;
  page_table_ : Hash.ExtendibleHashTable Z Z;
  replacer_ : LRUK.LRUKReplacer;
  free_list_ : list Z;
  next_page_id_ : Z;
  disk_manager_ : Disk;
  deallocated : list Z
}.

Definition set_pages (x : list Page) (s : BufferPoolManagerInstance) :=
  mkBPM (pool_size_ s) x (page_table_ s) (replacer_ s) (free_list_ s)
        (next_page_id_ s) (disk_manager_ s) (deallocated s).

Definition set_page_table (x : Hash.ExtendibleHashTable Z Z) (s : BufferPoolManagerInstance) :=
  mkBPM (pool_size_ s) (pages_ s) x (replacer_ s) (free_list_ s)
        (next_page_id_ s) (disk_manager_ s) (deallocated s).

Definition set_replacer (x : LRUK.LRUKReplacer) (s : BufferPoolManagerInstance) :=
  mkBPM (pool_size_ s) (pages_ s) (page_table_ s) x (free_list_ s)
        (next_page_id_ s) (disk_manager_ s) (deallocated s).

Definition set_free_list (x : list Z) (s : BufferPoolManagerInstance) :=
  mkBPM (pool_size_ s) (pages_ s) (page_table_ s) (replacer_ s) x
        (next_page_id_ s) (disk_manager_ s) (deallocated s).

Definition set_next_page_id (x : Z) (s : BufferPoolManagerInstance) :=
  mkBPM (pool_size_ s) (pages_ s) (page_table_ s) (replacer_ s) (free_list_ s)
        x (disk_manager_ s) (deallocated s).

Definition set_disk_manager (x : Disk) (s : BufferPoolManagerInstance) :=
  mkBPM (pool_size_ s) (pages_ s) (page_table_ s) (replacer_ s) (free_list_ s)
        (next_page_id_ s) x (deallocated s).

Definition set_deallocated (x : list Z) (s : BufferPoolManagerInstance) :=
  mkBPM (pool_size_ s) (pages_ s) (page_table_ s) (replacer_ s) (free_list_ s)
        (next_page_id_ s) (disk_manager_ s) x.

(** The constructor.  The member constant [bucket_size_] is declared in
    the header and is taken as an argument; the page-allocation counter
    starts at 0. *)
Definition new (pool_size : Z) (disk_manager : Disk) (replacer_k bucket_size : Z)
    : BufferPoolManagerInstance :=
  mkBPM pool_size
        (repeat new_Page (Z.to_nat pool_size))
        (Hash.new bucket_size)
        (LRUK.new pool_size replacer_k)
        (Z.of_nat <$> seq 0 (Z.to_nat pool_size))
        0 disk_manager [].

(** [pages_[frame_id]], read and written. *)
Definition get_page (frame_id : Z) (s : BufferPoolManagerInstance) : option Page :=
  zlookup (pages_ s) frame_id.

Definition put_page (frame_id : Z) (pg : Page) (s : BufferPoolManagerInstance)
    : option BufferPoolManagerInstance :=
  pages ← zstore (pages_ s) frame_id pg; Some (set_pages pages s).

Definition AllocatePage (s : BufferPoolManagerInstance) : Z * BufferPoolManagerInstance :=
  (next_page_id_ s, set_next_page_id (next_page_id_ s + 1) s).

(** Modelled from the spec: [DeallocatePage] is defined in the header; the
    call is recorded. *)
Definition DeallocatePage (page_id : Z) (s : BufferPoolManagerInstance) :=
  set_deallocated (deallocated s ++ [page_id]) s.

Definition GetVictimPage (s : BufferPoolManagerInstance)
    : option (Z * BufferPoolManagerInstance) :=
  match free_list_ s with
  | frame_id :: rest =>
      let s := set_free_list rest s in
      pg ← get_page frame_id s;
      _ ← assert (bool_decide (page_id_ pg = INVALID_PAGE_ID));
      Some (frame_id, s)
  | [] =>
      '(victim, r) ← LRUK.Evict (replacer_ s);
      let s := set_replacer r s in
      match victim with
      | Some frame_id => Some (frame_id, s)
      | None => Some (INVALID_FRAME_ID, s)
      end
  end.

(** [ResetPage(page)] with [page = &pages_[frame_id]]. *)
Definition ResetPage (frame_id : Z) (s : BufferPoolManagerInstance)
    : option (bool * BufferPoolManagerInstance) :=
  pg ← get_page frame_id s;
  if bool_decide (page_id_ pg = INVALID_PAGE_ID) then Some (true, s)
  else
    '(found, pt) ← Hash.Remove hash (page_id_ pg) (page_table_ s);
    let s := set_page_table pt s in
    if found : bool then
      let s :=
        if is_dirty_ pg
        then set_disk_manager (WritePage (page_id_ pg) (data_ pg) (disk_manager_ s)) s
        else s in
      let pg := set_is_dirty false pg in
      let pg := set_page_id INVALID_PAGE_ID pg in
      let pg := set_pin_count 0 pg in
      let pg := ResetMemory pg in
      s ← put_page frame_id pg s;
      Some (true, s)
    else Some (false, s).

Definition InitPage (fuel : nat) (frame_id page_id : Z) (s : BufferPoolManagerInstance)
    : option BufferPoolManagerInstance :=
  pg ← get_page frame_id s;
  _ ← assert (bool_decide (page_id_ pg = INVALID_PAGE_ID)
              && negb (is_dirty_ pg) && (pin_count_ pg =? 0));
  let pg := set_page_id page_id pg in
  let pg := set_pin_count 1 pg in
  s ← put_page frame_id pg s;
  pt ← Hash.Insert hash fuel page_id frame_id (page_table_ s);
  Some (set_page_table pt s).

Definition UpdateFrameInfo (frame_id pin_count : Z) (s : BufferPoolManagerInstance)
    : option BufferPoolManagerInstance :=
  r ← LRUK.RecordAccess frame_id (replacer_ s);
  r ← (if pin_count =? 1 then LRUK.SetEvictable frame_id false r else Some r);
  Some (set_replacer r s).

(** [UnpinFrame(page, frame_id)] with [page = &pages_[frame_id]]. *)
Definition UnpinFrame (frame_id : Z) (s : BufferPoolManagerInstance)
    : option BufferPoolManagerInstance :=
  pg ← get_page frame_id s;
  _ ← assert (0 <? pin_count_ pg);
  let pg := set_pin_count (pin_count_ pg - 1) pg in
  s ← put_page frame_id pg s;
  if pin_count_ pg =? 0 then
    r ← LRUK.SetEvictable frame_id true (replacer_ s);
    Some (set_replacer r s)
  else Some s.

(** [NewPgImp(page_id_t *page_id) -> Page *]: [Some (p, f)] stands for the
    frame [&pages_[f]] returned with [*page_id = p], [None] for [nullptr]. *)
Definition NewPgImp (fuel : nat) (s : BufferPoolManagerInstance)
    : option (option (Z * Z) * BufferPoolManagerInstance) :=
  '(frame_id, s) ← GetVictimPage s;
  if bool_decide (frame_id = INVALID_FRAME_ID) then Some (None, s)
  else
    let '(page_id, s) := AllocatePage s in
    '(_, s) ← ResetPage frame_id s;
    s ← InitPage fuel frame_id page_id s;
    pg ← get_page frame_id s;
    s ← UpdateFrameInfo frame_id (pin_count_ pg) s;
    Some (Some (page_id, frame_id), s).

Definition FetchPgImp (fuel : nat) (page_id : Z) (s : BufferPoolManagerInstance)
    : option (option Z * BufferPoolManagerInstance) :=
  found ← Hash.Find hash page_id (page_table_ s);
  match found with
  | Some frame_id =>
      pg ← get_page frame_id s;
      let pg := set_pin_count (pin_count_ pg + 1) pg in
      s ← put_page frame_id pg s;
      s ← UpdateFrameInfo frame_id (pin_count_ pg) s;
      Some (Some frame_id, s)
  | None =>
      '(frame_id, s) ← GetVictimPage s;
      if bool_decide (frame_id = INVALID_FRAME_ID) then Some (None, s)
      else
        '(_, s) ← ResetPage frame_id s;
        s ← InitPage fuel frame_id page_id s;
        pg ← get_page frame_id s;
        let pg := set_data (ReadPage page_id (disk_manager_ s)) pg in
        s ← put_page frame_id pg s;
        s ← UpdateFrameInfo frame_id (pin_count_ pg) s;
        Some (Some frame_id, s)
  end.

Definition UnpinPgImp (page_id : Z) (is_dirty : bool) (s : BufferPoolManagerInstance)
    : option (bool * BufferPoolManagerInstance) :=
  found ← Hash.Find hash page_id (page_table_ s);
  match found with
  | None => Some (false, s)
  | Some frame_id =>
      pg ← get_page frame_id s;
      _ ← assert (bool_decide (page_id_ pg = page_id));
      if pin_count_ pg =? 0 then Some (false, s)
      else
        s ← UnpinFrame frame_id s;
        s ← (if is_dirty
             then pg ← get_page frame_id s; put_page frame_id (set_is_dirty true pg) s
             else Some s);
        Some (true, s)
  end.

Definition FlushPgImp (page_id : Z) (s : BufferPoolManagerInstance)
    : option (bool * BufferPoolManagerInstance) :=
  if bool_decide (page_id = INVALID_PAGE_ID) then Some (false, s)
  else
    found ← Hash.Find hash page_id (page_table_ s);
    match found with
    | None => Some (false, s)
    | Some frame_id =>
        pg ← get_page frame_id s;
        _ ← assert (bool_decide (page_id_ pg = page_id));
        let s := set_disk_manager (WritePage page_id (data_ pg) (disk_manager_ s)) s in
        s ← put_page frame_id (set_is_dirty false pg) s;
        Some (true, s)
    end.

(** The loop of [FlushAllPgsImp] with [n] frames left, at [frame_id]. *)
Fixpoint FlushAll_loop (n : nat) (frame_id : Z) (s : BufferPoolManagerInstance)
    : option BufferPoolManagerInstance :=
  match n with
  | O => Some s
  | S n =>
      pg ← get_page frame_id s;
      s ← (if bool_decide (page_id_ pg ≠ INVALID_PAGE_ID) then
             let s := set_disk_manager
                        (WritePage (page_id_ pg) (data_ pg) (disk_manager_ s)) s in
             put_page frame_id (set_is_dirty false pg) s
           else Some s);
      FlushAll_loop n (frame_id + 1) s
  end.

Definition FlushAllPgsImp (s : BufferPoolManagerInstance) : option BufferPoolManagerInstance :=
  FlushAll_loop (Z.to_nat (pool_size_ s)) 0 s.

Definition DeletePgImp (page_id : Z) (s : BufferPoolManagerInstance)
    : option (bool * BufferPoolManagerInstance) :=
  found ← Hash.Find hash page_id (page_table_ s);
  match found with
  | None => Some (true, s)
  | Some frame_id =>
      pg ← get_page frame_id s;
      if 0 <? pin_count_ pg then Some (false, s)
      else
        '(reset, s) ← ResetPage frame_id s;
        if reset : bool then
          r ← LRUK.Remove frame_id (replacer_ s);
          let s := set_replacer r s in
          let s := set_free_list (free_list_ s ++ [frame_id]) s in
          let s := DeallocatePage page_id s in
          Some (true, s)
        else Some (false, s)
  end.

(** A caller that holds a pin on a frame writes into its buffer. *)
Definition caller_write (frame_id : Z) (bytes : list Byte.byte)
    (s : BufferPoolManagerInstance) : option BufferPoolManagerInstance :=
  pg ← get_page frame_id s;
  _ ← assert (0 <? pin_count_ pg);
  put_page frame_id (set_data bytes pg) s.

(** The public operations and their results; [OpWrite] is the caller's
    write through the [Page *] it holds pinned. *)
Inductive op :=
| OpNewPage
| OpFetchPage (page_id : Z)
| OpUnpinPage (page_id : Z) (is_dirty : bool)
| OpFlushPage (page_id : Z)
| OpFlushAllPages
| OpDeletePage (page_id : Z)
| OpWrite (frame_id : Z) (bytes : list Byte.byte).

Inductive ret :=
| RetNewPage (r : option (Z * Z))
| RetFetchPage (r : option Z)
| RetBool (b : bool)
| RetVoid.

Definition exec (fuel : nat) (o : op) (s : BufferPoolManagerInstance)
    : option (ret * BufferPoolManagerInstance) :=
  match o with
  | OpNewPage => '(r, s) ← NewPgImp fuel s; Some (RetNewPage r, s)
  | OpFetchPage p => '(r, s) ← FetchPgImp fuel p s; Some (RetFetchPage r, s)
  | OpUnpinPage p d => '(r, s) ← UnpinPgImp p d s; Some (RetBool r, s)
  | OpFlushPage p => '(r, s) ← FlushPgImp p s; Some (RetBool r, s)
  | OpFlushAllPages => s ← FlushAllPgsImp s; Some (RetVoid, s)
  | OpDeletePage p => '(r, s) ← DeletePgImp p s; Some (RetBool r, s)
  | OpWrite f bytes => s ← caller_write f bytes s; Some (RetVoid, s)
  end.

(** A run of operations from [s], with the results in order. *)
Fixpoint run (fuel : nat) (ops : list op) (s : BufferPoolManagerInstance)
    : option (list ret * BufferPoolManagerInstance) :=
  match ops with
  | [] => Some ([], s)
  | o :: ops =>
      '(r, s) ← exec fuel o s;
      '(rs, s) ← run fuel ops s;
      Some (r :: rs, s)
  end.

(** The page ids that the successful [NewPage] calls of a run returned,
    in the order of the calls. *)
Definition new_page_ids (rs : list ret) : list Z :=
  omap (λ r, match r with RetNewPage (Some (p, _)) => Some p | _ => None end) rs.

End BufferPoolManagerInstance.

End BPM.

(** * Properties *)

Lemma wrap64_small z : 0 ≤ z < 2 ^ 64 → wrap64 z = z.
Proof. intros. unfold wrap64. by apply Z.mod_small. Qed.

Lemma wrap64_range z : 0 ≤ wrap64 z < 2 ^ 64.
Proof. unfold wrap64. apply Z.mod_pos_bound. lia. Qed.

Lemma assert_Some c u : assert c = Some u → c = true.
Proof. by destruct c. Qed.

Lemma assert_true c : c = true → assert c = Some tt.
Proof. by intros ->. Qed.

(** ** Unlinking a node from a list of distinct nodes *)

Lemma filter_ne_notin (f : Z) (l : list Z) :
  f ∉ l → filter (λ g, g ≠ f) l = l.
Proof.
  induction l as [| x l IH]; [done |].
  rewrite not_elem_of_cons. intros [Hne Hin].
  rewrite filter_cons. destruct (decide (x ≠ f)) as [| n]; [| exfalso; apply n; congruence].
  f_equal. by apply IH.
Qed.

Lemma length_filter_remove (f : Z) (l : list Z) :
  NoDup l → f ∈ l → S (length (filter (λ g, g ≠ f) l)) = length l.
Proof.
  induction 1 as [| x l Hx Hl IH]; intros Hin.
  - by apply elem_of_nil in Hin.
  - rewrite filter_cons. destruct (decide (x ≠ f)) as [Hne | Heq].
    + simpl. f_equal. apply IH. apply elem_of_cons in Hin as [-> | Hin]; done.
    + assert (x = f) as -> by (destruct (decide (x = f)); done).
      simpl. f_equal. f_equal. by apply filter_ne_notin.
Qed.

Lemma last_Some_snoc {A} (l : list A) x : last l = Some x → ∃ l', l = l' ++ [x].
Proof.
  intros Hl. destruct (decide (l = [])) as [-> | Hne]; [done |].
  destruct (exists_last Hne) as (l' & y & ->).
  rewrite last_snoc in Hl. exists l'. congruence.
Qed.

(** ** Arrays indexed by machine integers *)

Lemma zstore_Some {A} (l : list A) i x l' :
  zstore l i x = Some l' →
  0 ≤ i < Z.of_nat (length l) ∧ l' = <[Z.to_nat i := x]> l.
Proof.
  unfold zstore. intros H. apply bind_Some in H as ([] & Ha & H).
  apply assert_Some in Ha. injection H as <-.
  apply andb_true_iff in Ha as [?%Z.leb_le ?%Z.ltb_lt]. split; [lia | done].
Qed.

Lemma zlookup_Some {A} (l : list A) i x :
  zlookup l i = Some x → 0 ≤ i < Z.of_nat (length l) ∧ l !! Z.to_nat i = Some x.
Proof.
  unfold zlookup. destruct (Z.ltb_spec i 0); [done |]. intros Hl.
  pose proof (lookup_lt_Some _ _ _ Hl). split; [lia | done].
Qed.

Lemma zlookup_zstore {A} (l : list A) i x l' j :
  zstore l i x = Some l' →
  zlookup l' j = if decide (j = i) then Some x else zlookup l j.
Proof.
  intros [Hi ->]%zstore_Some. unfold zlookup.
  destruct (decide (j = i)) as [-> | Hne].
  - destruct (Z.ltb_spec i 0); [lia |]. apply list_lookup_insert_eq. lia.
  - destruct (Z.ltb_spec j 0); [done |]. apply list_lookup_insert_ne. lia.
Qed.

Lemma zstore_is_Some {A} (l : list A) i x y :
  zlookup l i = Some y → is_Some (zstore l i x).
Proof.
  intros [Hi _]%zlookup_Some. unfold zstore.
  rewrite assert_true; [by eexists |].
  apply andb_true_iff. split; [apply Z.leb_le | apply Z.ltb_lt]; lia.
Qed.

Lemma zstore_length {A} (l : list A) i x l' : zstore l i x = Some l' → length l' = length l.
Proof. intros [_ ->]%zstore_Some. apply length_insert. Qed.


(** ** The legacy LRU replacer *)

Module LRU_facts.

Import LRU.

Lemma wf_new num_pages : 0 ≤ num_pages < 2 ^ 64 → wf (new num_pages).
Proof.
  intros. split; simpl; [done | lia | constructor |].
  intros f. by rewrite elem_of_empty, elem_of_nil.
Qed.

Lemma wf_Unpin f r : wf r → wf (Unpin f r).
Proof.
  intros [Hs Hb Hn Hf]. unfold Unpin.
  case_bool_decide as Hin; [by split |].
  destruct (Z.eqb_spec (cur_size_ r) (page_size_ r)); [by split |].
  split; simpl.
  - rewrite wrap64_small; lia.
  - rewrite wrap64_small; lia.
  - constructor; [by rewrite <- Hf | done].
  - intros g. rewrite elem_of_union, elem_of_singleton, elem_of_cons, Hf. done.
Qed.

Lemma wf_Pin f r : wf r → wf (Pin f r).
Proof.
  intros [Hs Hb Hn Hf]. unfold Pin.
  case_bool_decide as Hin; [| by split].
  apply Hf in Hin. pose proof (length_filter_remove f _ Hn Hin) as Hlen.
  split; simpl.
  - rewrite wrap64_small; lia.
  - rewrite wrap64_small; lia.
  - by apply NoDup_filter.
  - intros g. rewrite elem_of_difference, elem_of_singleton, list_elem_of_filter, Hf.
    tauto.
Qed.

Lemma wf_Victim r b o r' : wf r → Victim r = Some (b, o, r') → wf r'.
Proof.
  intros [Hs Hb Hn Hf]. unfold Victim.
  destruct (Z.eqb_spec (cur_size_ r) 0); [intros [= <- <- <-]; by split |].
  destruct (last (list_ r)) as [x |] eqn:Hlast; [| done].
  intros [= <- <- <-].
  apply last_Some_snoc in Hlast as [l' Hl]. rewrite Hl in *.
  rewrite length_app in Hs. simpl in Hs.
  apply NoDup_app in Hn as (Hn1 & Hn2 & _).
  split; simpl; rewrite ?removelast_last.
  - rewrite wrap64_small; lia.
  - rewrite wrap64_small; lia.
  - done.
  - intros g. rewrite elem_of_difference, elem_of_singleton, Hf, elem_of_app, list_elem_of_singleton.
    split; [intros [[? | ?] ?]; done |].
    intros Hg. split; [by left |]. intros ->. eapply Hn2; [done | by left].
Qed.

Lemma reachable_wf num_pages r :
  0 ≤ num_pages < 2 ^ 64 → reachable num_pages r → wf r.
Proof.
  intros Hn. induction 1; eauto using wf_new, wf_Victim, wf_Pin, wf_Unpin.
Qed.

(** *** The order of the list and the order of the [Unpin] calls *)

(** [f] was put into the replacer by a later call than [g]. *)
Definition newer (at_ : Z → option nat) (f g : Z) : Prop :=
  ∃ a b, at_ f = Some a ∧ at_ g = Some b ∧ (b < a)%nat.

(** After the first [i] calls of [ops]: the record has a number for the
    frames that the replacer holds and for no other; the number of a frame
    is that of an [Unpin] call for it, with no [Pin] of it since; and the
    list has the frames from the one put in last to the one put in first. *)
Record timed (ops : list op) (i : nat) (r : LRUReplacer) (at_ : Z → option nat)
    : Prop := mk_timed {
  ti_held : ∀ f, f ∈ frames_ r ↔ is_Some (at_ f);
  ti_call : ∀ f t, at_ f = Some t →
              (t < i)%nat ∧ ops !! t = Some (OpUnpin f) ∧
              ∀ j, (t < j < i)%nat → ops !! j ≠ Some (OpPin f);
  ti_order : StronglySorted (newer at_) (list_ r)
}.

Lemma newer_agree at_ at' l :
  (∀ f, f ∈ l → at' f = at_ f) →
  StronglySorted (newer at_) l → StronglySorted (newer at') l.
Proof.
  induction l as [| x l IH]; intros Hag; [constructor |].
  rewrite !StronglySorted_cons. intros [Hx Hl]. split.
  - rewrite Forall_forall in Hx |- *. intros g Hg.
    destruct (Hx g Hg) as (a & b & Ha & Hb & Hlt). exists a, b.
    rewrite !Hag by (rewrite elem_of_cons; auto). done.
  - apply IH; [| done]. intros f Hf. apply Hag. by right.
Qed.

Lemma newer_filter at_ (P : Z → Prop) `{!∀ x, Decision (P x)} l :
  StronglySorted (newer at_) l → StronglySorted (newer at_) (filter P l).
Proof.
  induction l as [| x l IH]; [done |]. rewrite StronglySorted_cons. intros [Hx Hl].
  destruct (decide (P x)) as [HP | HP].
  - rewrite filter_cons_True by done. apply StronglySorted_cons. split; [| by apply IH].
    rewrite Forall_forall in Hx |- *. intros g [_ Hg]%list_elem_of_filter. by apply Hx.
  - rewrite filter_cons_False by done. by apply IH.
Qed.

(** A call that adds no frame. *)
Lemma timed_shrink ops i r r' at_ :
  wf r' → timed ops i r at_ →
  (∀ g, g ∈ frames_ r' → g ∈ frames_ r) →
  (∀ g, g ∈ frames_ r' → ops !! i ≠ Some (OpPin g)) →
  StronglySorted (newer at_) (list_ r') →
  timed ops (S i) r' (unpinned_step i r r' at_).
Proof.
  intros Hwf [Hheld Hcall Hord] Hsub Hpin Hord'.
  assert (∀ g, g ∈ frames_ r' → unpinned_step i r r' at_ g = at_ g) as Hag.
  { intros g Hg. unfold unpinned_step.
    by rewrite !bool_decide_eq_true_2 by auto. }
  split.
  - intros f. split.
    + intros Hf. rewrite Hag by done. apply Hheld. auto.
    + unfold unpinned_step. case_bool_decide; [done |]. by intros [? ?].
  - intros f t Hf.
    assert (f ∈ frames_ r') as Hin
      by (unfold unpinned_step in Hf; by case_bool_decide).
    rewrite Hag in Hf by done. destruct (Hcall f t Hf) as (Hlt & Hop & Hno).
    split_and!; [lia | done |]. intros j Hj.
    destruct (decide (j = i)) as [-> | Hne]; [by apply Hpin | apply Hno; lia].
  - apply (newer_agree at_); [| done]. intros f Hf. apply Hag.
    by apply (wf_frames _ Hwf).
Qed.

Lemma timed_exec ops i o r r' at_ :
  wf r → timed ops i r at_ → ops !! i = Some o → exec o r = Some r' →
  timed ops (S i) r' (unpinned_step i r r' at_).
Proof.
  intros Hwf Hti Ho Hex. pose proof Hti as [Hheld Hcall Hord].
  destruct o as [| f | f]; cbn [exec] in Hex.
  - apply bind_Some in Hex as ([[b o] r0] & Hv & Hex). injection Hex as <-.
    pose proof (wf_Victim _ _ _ _ Hwf Hv) as Hwf'.
    apply timed_shrink; [done | done | | by rewrite Ho | ].
    + unfold Victim in Hv. destruct (cur_size_ r =? 0); [by simplify_eq |].
      destruct (last (list_ r)); [| done]. injection Hv as <- <- <-. cbn.
      intros g. rewrite elem_of_difference. tauto.
    + unfold Victim in Hv. destruct (cur_size_ r =? 0); [by simplify_eq |].
      destruct (last (list_ r)) as [x |] eqn:Hlast; [| done].
      injection Hv as <- <- <-. cbn.
      apply last_Some_snoc in Hlast as [l Hl]. rewrite Hl in *.
      rewrite removelast_last. by eapply StronglySorted_app_1_l.
  - injection Hex as <-. pose proof (wf_Pin f _ Hwf) as Hwf'.
    apply timed_shrink; [done | done | | |].
    + unfold Pin. case_bool_decide; [| done]. cbn.
      intros g. rewrite elem_of_difference. tauto.
    + rewrite Ho. intros g Hg [= ->]. revert Hg. unfold Pin.
      case_bool_decide as Hf; [| done]. cbn.
      rewrite elem_of_difference, elem_of_singleton. tauto.
    + unfold Pin. case_bool_decide; [| done]. cbn. by apply newer_filter.
  - injection Hex as <-. pose proof (wf_Unpin f _ Hwf) as Hwf'.
    destruct (decide (f ∈ frames_ r ∨ cur_size_ r = page_size_ r)) as [Hno | Hadd].
    + assert (Unpin f r = r) as Hr.
      { unfold Unpin. case_bool_decide as Hf; [done |].
        destruct (Z.eqb_spec (cur_size_ r) (page_size_ r)); [done | tauto]. }
      rewrite Hr in *. apply timed_shrink; [done | done | done | by rewrite Ho | done].
    + assert (f ∉ frames_ r) as Hf by tauto.
      assert (Unpin f r = mkLRU (page_size_ r) (wrap64 (cur_size_ r + 1))
                            (f :: list_ r) ({[f]} ∪ frames_ r)) as Hr.
      { unfold Unpin. rewrite bool_decide_eq_false_2 by done.
        destruct (Z.eqb_spec (cur_size_ r) (page_size_ r)); [tauto | done]. }
      rewrite Hr in *. clear Hr.
      assert (unpinned_step i r (mkLRU (page_size_ r) (wrap64 (cur_size_ r + 1))
                                  (f :: list_ r) ({[f]} ∪ frames_ r)) at_ f = Some i)
        as Hnew.
      { unfold unpinned_step. cbn.
        rewrite bool_decide_eq_true_2 by (rewrite elem_of_union, elem_of_singleton; auto).
        by rewrite bool_decide_eq_false_2. }
      assert (∀ g, g ∈ frames_ r →
                unpinned_step i r (mkLRU (page_size_ r) (wrap64 (cur_size_ r + 1))
                                     (f :: list_ r) ({[f]} ∪ frames_ r)) at_ g = at_ g)
        as Hold.
      { intros g Hg. unfold unpinned_step. cbn.
        rewrite bool_decide_eq_true_2 by (rewrite elem_of_union; auto).
        by rewrite bool_decide_eq_true_2. }
      split.
      * intros g. cbn. rewrite elem_of_union, elem_of_singleton. split.
        -- intros [-> | Hg]; [by rewrite Hnew | rewrite Hold by done; by apply Hheld].
        -- unfold unpinned_step. cbn. case_bool_decide as Hg; [| by intros [? ?]].
           intros _. by rewrite elem_of_union, elem_of_singleton in Hg.
      * intros g t Hg. destruct (decide (g = f)) as [-> | Hne].
        -- rewrite Hnew in Hg. injection Hg as <-. split_and!; [lia | done |].
           intros j Hj. lia.
        -- assert (g ∈ frames_ r) as Hin.
           { unfold unpinned_step in Hg. cbn in Hg. case_bool_decide as Hg'; [| done].
             rewrite elem_of_union, elem_of_singleton in Hg'. tauto. }
           rewrite Hold in Hg by done. destruct (Hcall g t Hg) as (Hlt & Hop & Hno).
           split_and!; [lia | done |]. intros j Hj.
           destruct (decide (j = i)) as [-> | Hji]; [by rewrite Ho | apply Hno; lia].
      * cbn. apply StronglySorted_cons. split.
        -- rewrite Forall_forall. intros g Hg. apply (wf_frames _ Hwf) in Hg.
           pose proof (proj1 (Hheld g) Hg) as [b Hb].
           exists i, b. rewrite Hnew, Hold by done. split_and!; [done | done |].
           by destruct (Hcall g b Hb).
        -- apply (newer_agree at_); [| done]. intros g Hg. apply Hold.
           by apply (wf_frames _ Hwf).
Qed.

Lemma wf_exec o r r' : wf r → exec o r = Some r' → wf r'.
Proof.
  intros Hwf. destruct o as [| f | f]; cbn [exec]; intros Hex.
  - apply bind_Some in Hex as ([[b o] r0] & Hv & Hex). injection Hex as <-.
    by eapply wf_Victim.
  - injection Hex as <-. by apply wf_Pin.
  - injection Hex as <-. by apply wf_Unpin.
Qed.

Lemma timed_run ops : ∀ before r at_ r' at',
  wf r → timed (before ++ ops) (length before) r at_ →
  run (length before) ops r at_ = Some (r', at') →
  wf r' ∧ timed (before ++ ops) (length (before ++ ops)) r' at'.
Proof.
  induction ops as [| o ops IH]; intros before r at_ r' at' Hwf Hti; cbn [run].
  - intros [= <- <-]. by rewrite app_nil_r in *.
  - intros Hrun. apply bind_Some in Hrun as (r1 & Hex & Hrun).
    assert ((before ++ o :: ops) !! length before = Some o) as Ho
      by (by rewrite lookup_app_r, Nat.sub_diag by lia).
    pose proof (timed_exec _ _ _ _ _ _ Hwf Hti Ho Hex) as Hti1.
    replace (before ++ o :: ops) with ((before ++ [o]) ++ ops) in *
      by (by rewrite <- app_assoc).
    apply (IH (before ++ [o]) r1 (unpinned_step (length before) r r1 at_) r' at');
      [by eapply wf_exec | |].
    + by rewrite length_app, Nat.add_1_r.
    + by rewrite length_app, Nat.add_1_r.
Qed.

Lemma timed_new ops num_pages : timed ops 0 (new num_pages) (λ _, None).
Proof.
  split.
  - intros f. cbn. rewrite elem_of_empty. split; [done | by intros [? ?]].
  - done.
  - constructor.
Qed.

(** The runs reach the states of [reachable], and no other. *)
Lemma run_snoc ops : ∀ i r at_ r' at' o r'',
  run i ops r at_ = Some (r', at') → exec o r' = Some r'' →
  run i (ops ++ [o]) r at_
  = Some (r'', unpinned_step (i + length ops) r' r'' at').
Proof.
  induction ops as [| o1 ops IH]; intros i r at_ r' at' o r'' Hrun Hex; simpl in *.
  - injection Hrun as <- <-. rewrite Hex. simpl. by rewrite Nat.add_0_r.
  - destruct (exec o1 r) as [r1 |] eqn:H1; [| done]. simpl in *.
    rewrite (IH _ _ _ _ _ _ _ Hrun Hex). do 3 f_equal. lia.
Qed.

Lemma reachable_run num_pages r :
  reachable num_pages r →
  ∃ ops at_, run 0 ops (new num_pages) (λ _, None) = Some (r, at_).
Proof.
  induction 1 as [| r b o r' _ (ops & at_ & IH) HV
                  | r f _ (ops & at_ & IH) | r f _ (ops & at_ & IH)].
  - by exists [], (λ _, None).
  - exists (ops ++ [OpVictim]). eexists.
    apply (run_snoc _ _ _ _ _ _ _ _ IH). simpl. by rewrite HV.
  - exists (ops ++ [OpPin f]). eexists. by apply (run_snoc _ _ _ _ _ _ _ _ IH).
  - exists (ops ++ [OpUnpin f]). eexists. by apply (run_snoc _ _ _ _ _ _ _ _ IH).
Qed.

Lemma exec_reachable num_pages o r r' :
  reachable num_pages r → exec o r = Some r' → reachable num_pages r'.
Proof.
  intros Hr Hex. destruct o as [| f | f]; simpl in Hex.
  - destruct (Victim r) as [[[b o] r1] |] eqn:HV; [| done]. simpl in Hex.
    injection Hex as <-. by eapply reach_Victim.
  - injection Hex as <-. by apply reach_Pin.
  - injection Hex as <-. by apply reach_Unpin.
Qed.

Lemma run_reachable num_pages ops : ∀ i r at_ r' at',
  reachable num_pages r → run i ops r at_ = Some (r', at') → reachable num_pages r'.
Proof.
  induction ops as [| o ops IH]; intros i r at_ r' at' Hr Hrun; simpl in Hrun.
  - by injection Hrun as <- _.
  - destruct (exec o r) as [r1 |] eqn:H1; [| done]. simpl in Hrun.
    eapply IH; [| done]. by eapply exec_reachable.
Qed.

(** C10.  After any calls of [Victim], [Pin] and [Unpin] on a new
    replacer: when the replacer is empty, [Victim] returns false and writes
    nothing; when it holds at least one frame, [Victim] unlinks the tail of
    the list, stores its id in the out-parameter, erases it from [frames_],
    decrements [Size()] by one, and nevertheless returns false.  The frame
    it takes is the least recently unpinned one: each frame that the
    replacer holds was put there by an [Unpin] call for it, with no [Pin]
    of it since, and the frame taken is the one whose call is the oldest
    among them.  An [Unpin] of a frame that is held already is not such a
    call: it changes nothing. *)
Theorem Victim_returns_false num_pages ops r at_ :
  0 ≤ num_pages < 2 ^ 64 →
  run 0 ops (new num_pages) (λ _, None) = Some (r, at_) →
  (∀ f, f ∈ frames_ r ↔ is_Some (at_ f)) ∧
  (∀ f t, at_ f = Some t →
          ops !! t = Some (OpUnpin f) ∧
          ∀ j, (t < j)%nat → ops !! j ≠ Some (OpPin f)) ∧
  (∀ f, f ∈ frames_ r → Unpin f r = r) ∧
  (Size r = 0 → Victim r = Some (false, None, r)) ∧
  (1 ≤ Size r →
   ∃ l least_used r' t,
     list_ r = l ++ [least_used] ∧
     Victim r = Some (false, Some least_used, r') ∧
     list_ r' = l ∧
     (least_used ∉ frames_ r') ∧
     Size r' = Size r - 1 ∧
     at_ least_used = Some t ∧
     ∀ g u, at_ g = Some u → g ≠ least_used → (t < u)%nat).
Proof.
  intros Hn Hrun.
  destruct (timed_run ops [] _ _ _ _ (wf_new _ Hn) (timed_new _ _) Hrun)
    as [Hwf [Hheld Hcall Hord]].
  cbn [app length] in *.
  destruct Hwf as [Hs Hb Hnd Hf]. unfold Size, Victim. split_and!.
  - done.
  - intros f t Hft. destruct (Hcall f t Hft) as (Hlt & Hop & Hno). split; [done |].
    intros j Hj. destruct (decide (j < length ops)%nat) as [Hjl | Hjl].
    + apply Hno. lia.
    + rewrite lookup_ge_None_2 by lia. done.
  - intros f Hin. unfold Unpin. by rewrite bool_decide_eq_true_2.
  - intros ->. done.
  - intros Hpos. destruct (Z.eqb_spec (cur_size_ r) 0); [lia |].
    destruct (last (list_ r)) as [x |] eqn:Hlast.
    + apply last_Some_snoc in Hlast as [l Hl].
      assert (x ∈ frames_ r) as Hx
        by (apply Hf; rewrite Hl, elem_of_app, list_elem_of_singleton; auto).
      destruct (proj1 (Hheld x) Hx) as [t Ht].
      exists l, x. eexists. exists t. split; [done |]. split; [done |]. simpl.
      rewrite Hl, removelast_last. split; [done |].
      split; [rewrite elem_of_difference, elem_of_singleton; tauto |].
      split; [rewrite wrap64_small; lia |]. split; [done |].
      intros g u Hg Hne.
      assert (g ∈ l) as Hgl.
      { assert (g ∈ list_ r) as Hgr by (apply Hf, Hheld; by eexists).
        rewrite Hl, elem_of_app, list_elem_of_singleton in Hgr. tauto. }
      rewrite Hl in Hord.
      destruct (StronglySorted_app_1_elem_of _ _ _ g x Hord Hgl) as (a & b & Ha & Hb' & Hlt);
        [by apply list_elem_of_singleton |].
      congruence.
    + apply last_None in Hlast. rewrite Hlast in Hs. simpl in Hs. lia.
Qed.

(** [Unpin] links at the head. *)
Lemma Unpin_links_at_head f r :
  f ∉ frames_ r → cur_size_ r ≠ page_size_ r → list_ (Unpin f r) = f :: list_ r.
Proof.
  intros Hin Hne. unfold Unpin. rewrite bool_decide_eq_false_2 by done.
  destruct (Z.eqb_spec (cur_size_ r) (page_size_ r)); done.
Qed.

(** An [Unpin] of a frame that is held does not move it: frames 1 and 2
    are unpinned in this order and frame 1 is unpinned once more; the
    record still has call 0 for frame 1 and call 1 for frame 2, and
    [Victim] takes frame 1. *)
Lemma Unpin_of_held_frame_keeps_place :
  ∃ r at_ r',
    run 0 [OpUnpin 1; OpUnpin 2; OpUnpin 1] (new 3) (λ _, None) = Some (r, at_) ∧
    list_ r = [2; 1] ∧ at_ 1 = Some 0%nat ∧ at_ 2 = Some 1%nat ∧
    Victim r = Some (false, Some 1, r') ∧ list_ r' = [2].
Proof.
  eexists _, _, _. split; [reflexivity |]. split_and!; vm_compute; reflexivity.
Qed.

(** Frames 1 and 2 are unpinned in this order and frame 1 is unpinned
    once more: [Victim] takes frame 1. *)
Lemma Victim_returns_false_witness :
  ∃ r at_,
    run 0 [OpUnpin 1; OpUnpin 2; OpUnpin 1] (new 3) (λ _, None) = Some (r, at_) ∧
    1 ≤ Size r ∧
    ∃ l least_used r' t,
      list_ r = l ++ [least_used] ∧
      Victim r = Some (false, Some least_used, r') ∧
      list_ r' = l ∧ (least_used ∉ frames_ r') ∧ Size r' = Size r - 1 ∧
      at_ least_used = Some t ∧
      ∀ g u, at_ g = Some u → g ≠ least_used → (t < u)%nat.
Proof.
  eexists _, _. split; [reflexivity |]. split; [vm_compute; discriminate |].
  apply (Victim_returns_false 3 [OpUnpin 1; OpUnpin 2; OpUnpin 1]).
  - lia.
  - reflexivity.
  - vm_compute. discriminate.
Defined.

End LRU_facts.

(** ** The legacy LRU replacer: capacity, [Pin], [Unpin] and the order of victims *)

Module LRU_props.

Import LRU LRU_facts.

(** [n] calls of [Victim] that each yield a frame, with the frames in the
    order of the calls. *)
Fixpoint drain (n : nat) (r : LRUReplacer) : option (list Z * LRUReplacer) :=
  match n with
  | O => Some ([], r)
  | S n =>
      '(_, o, r) ← Victim r;
      f ← o;
      '(fs, r) ← drain n r;
      Some (f :: fs, r)
  end.

(** [Unpin] of the frames of [fs], from left to right. *)
Definition unpin_all (fs : list Z) (r : LRUReplacer) : LRUReplacer :=
  foldl (λ r f, Unpin f r) r fs.

Lemma reachable_capacity num_pages r : reachable num_pages r → page_size_ r = num_pages.
Proof.
  induction 1 as [| r b o r' _ IH Hv | r f _ IH | r f _ IH]; [done | | |].
  - unfold Victim in Hv. destruct (cur_size_ r =? 0); [by simplify_eq |].
    destruct (last (list_ r)); by simplify_eq.
  - unfold Pin. by case_bool_decide.
  - unfold Unpin. case_bool_decide; [done |]. by destruct (cur_size_ r =? page_size_ r).
Qed.

(** X1.  The replacer never holds more frames than its capacity, holds a frame
    once at most, and [Size()] is the number of frames it holds. *)
Theorem LRU_size_within_capacity num_pages r :
  0 ≤ num_pages < 2 ^ 64 →
  reachable num_pages r →
  Size r = Z.of_nat (length (list_ r)) ∧
  0 ≤ Size r ≤ num_pages ∧
  NoDup (list_ r) ∧
  ∀ f, f ∈ frames_ r ↔ f ∈ list_ r.
Proof.
  intros Hn Hr. pose proof (reachable_capacity _ _ Hr) as Hc.
  destruct (reachable_wf _ _ Hn Hr) as [Hs Hb Hnd Hf]. unfold Size.
  split; [done |]. split; [lia |]. done.
Qed.

Lemma LRU_size_within_capacity_witness :
  let r := Unpin 3 (Unpin 2 (Unpin 1 (new 2))) in
  Size r = Z.of_nat (length (list_ r)) ∧
  0 ≤ Size r ≤ 2 ∧
  NoDup (list_ r) ∧
  ∀ f, f ∈ frames_ r ↔ f ∈ list_ r.
Proof.
  apply (LRU_size_within_capacity 2 (Unpin 3 (Unpin 2 (Unpin 1 (new 2))))).
  - lia.
  - apply reach_Unpin, reach_Unpin, reach_Unpin, reach_new.
Defined.

(** X2.  [Unpin] of a frame that the replacer holds already, or on a full
    replacer, changes nothing (the frame keeps its place in the list);
    otherwise the frame is linked at the head and [Size()] grows by one. *)
Theorem Unpin_cases num_pages r f :
  0 ≤ num_pages < 2 ^ 64 →
  reachable num_pages r →
  (f ∈ frames_ r ∨ Size r = num_pages → Unpin f r = r) ∧
  ((f ∉ frames_ r) → Size r < num_pages →
   list_ (Unpin f r) = f :: list_ r ∧
   Size (Unpin f r) = Size r + 1 ∧
   frames_ (Unpin f r) = {[f]} ∪ frames_ r).
Proof.
  intros Hn Hr. pose proof (reachable_capacity _ _ Hr) as Hc.
  destruct (reachable_wf _ _ Hn Hr) as [Hs Hb Hnd Hf]. unfold Size, Unpin. split.
  - intros [Hin | Hfull].
    + by rewrite bool_decide_eq_true_2.
    + case_bool_decide; [done |]. by rewrite (proj2 (Z.eqb_eq _ _)) by lia.
  - intros Hout Hroom. rewrite bool_decide_eq_false_2 by done.
    rewrite (proj2 (Z.eqb_neq _ _)) by lia. cbn [list_ cur_size_ frames_].
    rewrite wrap64_small by lia. done.
Qed.

Lemma Unpin_cases_witness :
  (1 ∈ frames_ (Unpin 1 (new 2)) ∨ Size (Unpin 1 (new 2)) = 2 →
   Unpin 1 (Unpin 1 (new 2)) = Unpin 1 (new 2)) ∧
  ((7 ∉ frames_ (Unpin 1 (new 2))) → Size (Unpin 1 (new 2)) < 2 →
   list_ (Unpin 7 (Unpin 1 (new 2))) = 7 :: list_ (Unpin 1 (new 2)) ∧
   Size (Unpin 7 (Unpin 1 (new 2))) = Size (Unpin 1 (new 2)) + 1 ∧
   frames_ (Unpin 7 (Unpin 1 (new 2))) = {[7]} ∪ frames_ (Unpin 1 (new 2))).
Proof.
  split.
  - apply (Unpin_cases 2 (Unpin 1 (new 2)) 1); [lia | apply reach_Unpin, reach_new].
  - apply (Unpin_cases 2 (Unpin 1 (new 2)) 7); [lia | apply reach_Unpin, reach_new].
Defined.

Lemma Pin_absent f r : f ∉ frames_ r → Pin f r = r.
Proof. intros Hout. unfold Pin. by rewrite bool_decide_eq_false_2. Qed.

(** X3.  [Pin] of a frame that the replacer does not hold changes nothing;
    otherwise it unlinks the frame, the other frames keep their order, and
    [Size()] drops by one.  [Pin] undoes an [Unpin] that added the frame. *)
Theorem Pin_cases num_pages r f :
  0 ≤ num_pages < 2 ^ 64 →
  reachable num_pages r →
  ((f ∉ frames_ r) → Pin f r = r) ∧
  (f ∈ frames_ r →
   list_ (Pin f r) = filter (λ g, g ≠ f) (list_ r) ∧
   Size (Pin f r) = Size r - 1 ∧
   (f ∉ frames_ (Pin f r))) ∧
  ((f ∉ frames_ r) → Size r < num_pages → Pin f (Unpin f r) = r).
Proof.
  intros Hn Hr. pose proof (reachable_capacity _ _ Hr) as Hc.
  destruct (reachable_wf _ _ Hn Hr) as [Hs Hb Hnd Hf]. split_and!.
  - apply Pin_absent.
  - intros Hin. unfold Size, Pin. rewrite bool_decide_eq_true_2 by done.
    cbn [list_ cur_size_ frames_]. split; [done |].
    assert (f ∈ list_ r) as Hl by (by apply Hf).
    apply list_elem_of_lookup in Hl as [i Hi]. apply lookup_lt_Some in Hi.
    rewrite wrap64_small by lia. split; [done |].
    rewrite elem_of_difference, elem_of_singleton. tauto.
  - intros Hout Hroom. unfold Unpin. rewrite bool_decide_eq_false_2 by done.
    rewrite (proj2 (Z.eqb_neq _ _)) by (unfold Size in Hroom; lia).
    unfold Pin. cbn [list_ cur_size_ frames_ page_size_].
    rewrite bool_decide_eq_true_2
      by (rewrite elem_of_union, elem_of_singleton; by left).
    unfold Size in Hroom. rewrite (wrap64_small (cur_size_ r + 1)) by lia.
    rewrite wrap64_small by lia.
    rewrite filter_cons_False by (intros Hne; by apply Hne).
    rewrite filter_ne_notin by (by rewrite <- Hf).
    replace (cur_size_ r + 1 - 1) with (cur_size_ r) by lia.
    assert (({[f]} ∪ frames_ r) ∖ {[f]} = frames_ r) as ->.
    { apply set_eq. intros x.
      rewrite elem_of_difference, elem_of_union, elem_of_singleton.
      split; [tauto |]. intros Hx. split; [by right |]. by intros ->. }
    by destruct r.
Qed.

Lemma Pin_cases_witness :
  ((5 ∉ frames_ (Unpin 2 (Unpin 1 (new 3)))) →
   Pin 5 (Unpin 2 (Unpin 1 (new 3))) = Unpin 2 (Unpin 1 (new 3))) ∧
  (1 ∈ frames_ (Unpin 2 (Unpin 1 (new 3))) →
   list_ (Pin 1 (Unpin 2 (Unpin 1 (new 3))))
   = filter (λ g, g ≠ 1) (list_ (Unpin 2 (Unpin 1 (new 3)))) ∧
   Size (Pin 1 (Unpin 2 (Unpin 1 (new 3)))) = Size (Unpin 2 (Unpin 1 (new 3))) - 1 ∧
   (1 ∉ frames_ (Pin 1 (Unpin 2 (Unpin 1 (new 3)))))) ∧
  ((5 ∉ frames_ (Unpin 2 (Unpin 1 (new 3)))) → Size (Unpin 2 (Unpin 1 (new 3))) < 3 →
   Pin 5 (Unpin 5 (Unpin 2 (Unpin 1 (new 3)))) = Unpin 2 (Unpin 1 (new 3))).
Proof.
  split_and!.
  - apply (Pin_cases 3 (Unpin 2 (Unpin 1 (new 3))) 5);
      [lia | apply reach_Unpin, reach_Unpin, reach_new].
  - apply (Pin_cases 3 (Unpin 2 (Unpin 1 (new 3))) 1);
      [lia | apply reach_Unpin, reach_Unpin, reach_new].
  - apply (Pin_cases 3 (Unpin 2 (Unpin 1 (new 3))) 5);
      [lia | apply reach_Unpin, reach_Unpin, reach_new].
Defined.

(** *** The order of the victims *)

Lemma drain_rev r :
  wf r → ∃ r', drain (length (list_ r)) r = Some (rev (list_ r), r') ∧
               list_ r' = [] ∧ Size r' = 0 ∧ page_size_ r' = page_size_ r.
Proof.
  remember (length (list_ r)) as n eqn:Hlen. revert r Hlen.
  induction n as [| n IH]; intros r Hlen Hwf.
  - destruct (list_ r) eqn:Hl; [| done]. exists r. cbn [drain rev].
    destruct Hwf as [Hs _ _ _]. unfold Size. rewrite Hs, Hl. done.
  - pose proof Hwf as [Hs Hb Hnd Hf].
    assert (∃ l x, list_ r = l ++ [x]) as (l & x & Hl).
    { destruct (list_ r) as [| x l _] using rev_ind; [done | eauto]. }
    rewrite Hl, length_app in Hlen. cbn [length] in Hlen.
    rewrite Hl, length_app in Hs. cbn [length] in Hs.
    cbn [drain]. unfold Victim at 1. rewrite (proj2 (Z.eqb_neq _ _)) by lia.
    rewrite Hl, last_snoc, removelast_last. cbn [mbind option_bind].
    set (r1 := mkLRU _ _ _ _).
    assert (wf r1) as Hwf1.
    { apply (wf_Victim r false (Some x) r1 Hwf). unfold Victim.
      rewrite (proj2 (Z.eqb_neq _ _)) by lia. by rewrite Hl, last_snoc, removelast_last. }
    destruct (IH r1) as (r' & Hd & Hl' & Hs' & Hp'); [cbn; lia | done |].
    cbn [list_] in Hd. rewrite Hd. cbn [mbind option_bind].
    exists r'. rewrite rev_app_distr. done.
Qed.

Lemma unpin_all_list num_pages fs r :
  wf r → page_size_ r = num_pages →
  NoDup (fs ++ list_ r) → Z.of_nat (length (fs ++ list_ r)) ≤ num_pages →
  wf (unpin_all fs r) ∧ list_ (unpin_all fs r) = rev fs ++ list_ r ∧
  page_size_ (unpin_all fs r) = num_pages.
Proof.
  revert r. induction fs as [| f fs IH]; intros r Hwf Hp Hnd Hlen; [done |].
  cbn [unpin_all foldl]. change (foldl _ ?a fs) with (unpin_all fs a).
  cbn [app] in Hnd, Hlen. apply NoDup_cons in Hnd as [Hf Hnd]. cbn [length] in Hlen.
  rewrite length_app in Hlen.
  pose proof Hwf as [Hs Hb _ Hfr].
  assert (list_ (Unpin f r) = f :: list_ r ∧ page_size_ (Unpin f r) = num_pages) as [Hl Hp1].
  { unfold Unpin. rewrite bool_decide_eq_false_2
      by (rewrite Hfr; intros Hin; apply Hf, elem_of_app; by right).
    by rewrite (proj2 (Z.eqb_neq _ _)) by lia. }
  destruct (IH (Unpin f r)) as (Hwf' & Hl' & Hp'); [by apply wf_Unpin | done | | |].
  - rewrite Hl. apply NoDup_app. apply NoDup_app in Hnd as (Hn1 & Hn2 & Hn3).
    split; [done |]. split.
    + intros x Hx. rewrite not_elem_of_cons. split; [| by apply Hn2].
      intros ->. apply Hf, elem_of_app. by left.
    + apply NoDup_cons. split; [| done]. intros Hin. apply Hf, elem_of_app. by right.
  - rewrite Hl, length_app. cbn [length]. lia.
  - split; [done |]. split; [| done]. rewrite Hl', Hl. cbn [rev]. by rewrite <- app_assoc.
Qed.

(** X4.  Frames come out in the order they went in: after [Unpin] of distinct
    frames on a new replacer with room for them, as many calls of [Victim]
    yield these frames in the order of the [Unpin] calls, and leave the
    replacer empty. *)
Theorem Victim_order_is_Unpin_order num_pages fs :
  0 ≤ num_pages < 2 ^ 64 →
  NoDup fs → Z.of_nat (length fs) ≤ num_pages →
  ∃ r', drain (length fs) (unpin_all fs (new num_pages)) = Some (fs, r') ∧
        Size r' = 0 ∧ list_ r' = [].
Proof.
  intros Hn Hnd Hlen.
  destruct (unpin_all_list num_pages fs (new num_pages)) as (Hwf & Hl & Hp);
    [by apply wf_new | done | by rewrite app_nil_r | by rewrite app_nil_r |].
  cbn [new list_] in Hl. rewrite app_nil_r in Hl.
  destruct (drain_rev _ Hwf) as (r' & Hd & Hl' & Hs' & _).
  rewrite Hl, length_rev, rev_involutive in Hd. eauto.
Qed.

Lemma Victim_order_is_Unpin_order_witness :
  ∃ r', drain 3 (unpin_all [4; 2; 9] (new 3)) = Some ([4; 2; 9], r') ∧
        Size r' = 0 ∧ list_ r' = [].
Proof.
  apply (Victim_order_is_Unpin_order 3 [4; 2; 9]).
  - lia.
  - apply (bool_decide_unpack (NoDup [4; 2; 9])). vm_compute. exact I.
  - simpl. lia.
Defined.

End LRU_props.

(** ** The LRU-K replacer *)

Module LRUK_facts.

Import LRUK.

(** *** The evictable flags, operation by operation *)

Lemma node_evictable_insert r a n g :
  node_evictable (set_nodes (<[a := n]> (nodes r)) r) g
  = if decide (a = g) then evictable_ n else node_evictable r g.
Proof.
  unfold node_evictable. simpl. rewrite lookup_insert.
  destruct (decide (a = g)); done.
Qed.

Lemma RecordAccess_node_evictable f a r r' g :
  RecordAccess_node f a r = Some r' → node_evictable r' g = node_evictable r g.
Proof.
  unfold RecordAccess_node. intros Hr.
  destruct (nodes r !! a) as [n |] eqn:Hn; simpl in Hr; [| done].
  assert (node_evictable r a = evictable_ n) as Ha
    by (unfold node_evictable; by rewrite Hn).
  repeat case_match; simplify_eq; unfold node_evictable in *; simpl;
    rewrite lookup_insert; destruct (decide (a = g)); subst; simpl; congruence.
Qed.

Lemma RecordAccess_evictable f r r' g :
  RecordAccess f r = Some r' → node_evictable r' g = true → node_evictable r g = true.
Proof.
  unfold RecordAccess. intros Hr.
  destruct (assert _); simpl in Hr; [| done].
  destruct (GetNode f r) as [[a |] |] eqn:Hg; simpl in Hr; [| | done].
  - apply RecordAccess_node_evictable with (g := g) in Hr. congruence.
  - case_match; simplify_eq; [done |].
    apply RecordAccess_node_evictable with (g := g) in Hr. rewrite Hr.
    unfold node_evictable at 1. simpl. rewrite lookup_insert.
    destruct (decide (f = g)) as [<- |]; done.
Qed.

Lemma SetEvictable_evictable_ne f b r r' g :
  SetEvictable f b r = Some r' → g ≠ f → node_evictable r' g = node_evictable r g.
Proof.
  unfold SetEvictable, GetNode. intros Hr Hne.
  simplify_option_eq; try done;
    unfold node_evictable; simpl; by rewrite lookup_insert_ne.
Qed.

Lemma GetNode_Some f r o :
  GetNode f r = Some o →
  (o = Some f ∧ tracked r f) ∨ (o = None ∧ ¬ tracked r f).
Proof.
  unfold GetNode, tracked. intros H.
  apply bind_Some in H as ([] & Has & H). apply assert_Some in Has.
  injection H as <-.
  repeat case_bool_decide; simpl in *; try done; tauto.
Qed.

Lemma SetEvictable_false_evictable f r r' :
  heap_ok r → SetEvictable f false r = Some r' → node_evictable r' f = false.
Proof.
  intros [Ha Ht]. unfold SetEvictable. intros Hr.
  apply bind_Some in Hr as ([] & _ & Hr).
  apply bind_Some in Hr as (o & Hg & Hr).
  apply GetNode_Some in Hg as [[-> Hg] | [-> Hg]].
  - apply bind_Some in Hr as (n & Hn & Hr).
    case_bool_decide as He; simplify_eq.
    + unfold node_evictable. by rewrite Hn.
    + unfold node_evictable. simpl. by rewrite lookup_insert_eq.
  - simplify_eq. unfold node_evictable.
    destruct (nodes r' !! f) eqn:Hn; [| done].
    destruct Hg. apply Ht. by rewrite Hn.
Qed.

Lemma node_evictable_delete r a g :
  node_evictable (set_nodes (delete a (nodes r)) r) g = true → node_evictable r g = true.
Proof.
  unfold node_evictable. simpl. rewrite lookup_delete.
  destruct (decide (a = g)); done.
Qed.

Lemma Remove_evictable f r r' g :
  Remove f r = Some r' → node_evictable r' g = true → node_evictable r g = true.
Proof.
  unfold Remove. intros Hr.
  apply bind_Some in Hr as ([] & _ & Hr).
  apply bind_Some in Hr as (o & Hg & Hr).
  destruct o as [a |]; [| by simplify_eq].
  apply bind_Some in Hr as (n & Hn & Hr).
  destruct (evictable_ n); simpl in Hr; [| by simplify_eq].
  injection Hr as <-. unfold node_evictable. simpl.
  case_bool_decide; simpl; rewrite lookup_delete; destruct (decide (a = g)); done.
Qed.

Lemma find_Some_rev_elem (P : Z → bool) (l : list Z) a :
  List.find P (rev l) = Some a → a ∈ l ∧ P a = true.
Proof.
  intros H. apply find_some in H as [Hin HP].
  apply in_rev in Hin. by apply list_elem_of_In in Hin.
Qed.

(** What [Evict] does when it finds a victim. *)
Lemma Evict_Some r f r' :
  Evict r = Some (Some f, r') →
  ∃ a n (in_history : bool),
    nodes r !! a = Some n ∧ f = frame_id_ n ∧ evictable_ n = true ∧
    a ∈ (if in_history then history_list r else buffer_list r) ∧
    GetFirstEvictableNode in_history r = Some a ∧
    (in_history = false → GetFirstEvictableNode true r = None) ∧
    curr_size_ r ≠ 0 ∧
    r' = set_curr_size (wrap64 (curr_size_ r - 1))
           (set_nodes (delete a (nodes r))
              ((if in_history
                then set_history_frames (history_frames_ r ∖ {[f]})
                                        (wrap64 (history_frame_size_ r - 1))
                else set_buffer_frames (buffer_frames_ r ∖ {[f]})
                                       (wrap64 (buffer_frame_size_ r - 1)))
                 (EvictNodeFromList a r))).
Proof.
  unfold Evict. destruct (Z.eqb_spec (curr_size_ r) 0) as [| Hne]; [done |].
  destruct (GetFirstEvictableNode true r) as [a |] eqn:Hh.
  - simpl. intros Hr. apply bind_Some in Hr as (n & Hn & Hr). simplify_eq.
    pose proof Hh as Hh'. apply find_Some_rev_elem in Hh' as [Hin Hev].
    unfold node_evictable in Hev. rewrite Hn in Hev.
    exists a, n, true. done.
  - intros Hr. apply bind_Some in Hr as (a & Hb & Hr).
    apply bind_Some in Hr as (n & Hn & Hr). simplify_eq.
    pose proof Hb as Hb'. apply find_Some_rev_elem in Hb' as [Hin Hev].
    unfold node_evictable in Hev. rewrite Hn in Hev.
    exists a, n, false. done.
Qed.

Lemma Evict_None r r' : Evict r = Some (None, r') → r' = r ∧ curr_size_ r = 0.
Proof.
  unfold Evict. destruct (Z.eqb_spec (curr_size_ r) 0) as [| Hne]; [by intros [= <-] |].
  destruct (GetFirstEvictableNode true r); simpl; intros Hr.
  - apply bind_Some in Hr as (n & Hn & Hr). done.
  - apply bind_Some in Hr as (a & Hb & Hr).
    apply bind_Some in Hr as (n & Hn & Hr). done.
Qed.

Lemma Evict_evictable r o r' g :
  Evict r = Some (o, r') → node_evictable r' g = true → node_evictable r g = true.
Proof.
  destruct o as [f |]; intros Hr.
  - apply Evict_Some in Hr as (a & n & ih & Hn & -> & Hev & Hin & _ & _ & _ & ->).
    unfold node_evictable. simpl. destruct ih; simpl;
      rewrite lookup_delete; destruct (decide (a = g)); done.
  - by apply Evict_None in Hr as [-> _].
Qed.

(** [Evict] only ever returns a frame whose node is flagged evictable. *)
Lemma Evict_returns_evictable r f r' :
  addr_ok r → Evict r = Some (Some f, r') → node_evictable r f = true.
Proof.
  intros Ha Hr.
  apply Evict_Some in Hr as (a & n & ih & Hn & -> & Hev & _).
  rewrite (Ha _ _ Hn). unfold node_evictable. by rewrite Hn.
Qed.

(** *** The store invariant *)

Lemma heap_ok_new num_frames k : heap_ok (new num_frames k).
Proof.
  split.
  - intros a n. simpl. by rewrite lookup_empty.
  - intros a [n Hn]. simpl in Hn. by rewrite lookup_empty in Hn.
Qed.

Lemma tracked_eq r r' :
  history_frames_ r' = history_frames_ r → buffer_frames_ r' = buffer_frames_ r →
  ∀ a, tracked r' a ↔ tracked r a.
Proof. unfold tracked. by intros -> ->. Qed.

Lemma heap_ok_RecordAccess_node f r r' :
  heap_ok r → RecordAccess_node f f r = Some r' → heap_ok r'.
Proof.
  intros [Ha Ht]. unfold RecordAccess_node. intros Hr.
  apply bind_Some in Hr as (n & Hn & Hr).
  assert (∀ r0, nodes r0 = <[f:=mkNode (frame_id_ n) (wrap64 (access_times_ n + 1)) (evictable_ n)]> (nodes r) →
               (∀ a, tracked r a → tracked r0 a) → heap_ok r0) as Hok.
  { intros r0 Hnodes Htr. split.
    - intros a m. rewrite Hnodes, lookup_insert.
      destruct (decide (f = a)) as [<- |]; [intros [= <-]; simpl; eauto | eauto].
    - intros a. rewrite Hnodes, lookup_insert.
      destruct (decide (f = a)) as [<- |]; intros Hs; apply Htr, Ht; [by rewrite Hn | done]. }
  repeat case_match; simplify_eq; apply Hok; try done; unfold tracked; simpl; intros a;
    rewrite ?elem_of_union, ?elem_of_difference, ?elem_of_singleton;
    destruct (decide (a = f)); tauto.
Qed.

Lemma heap_ok_RecordAccess f r r' :
  heap_ok r → RecordAccess f r = Some r' → heap_ok r'.
Proof.
  intros Hok. unfold RecordAccess. intros Hr.
  apply bind_Some in Hr as ([] & _ & Hr).
  apply bind_Some in Hr as (o & Hg & Hr).
  apply GetNode_Some in Hg as [[-> Hg] | [-> Hg]].
  - eauto using heap_ok_RecordAccess_node.
  - case_match; [by simplify_eq |].
    eapply heap_ok_RecordAccess_node; [| done].
    destruct Hok as [Ha Ht]. split.
    + intros a m. simpl. rewrite lookup_insert.
      destruct (decide (f = a)) as [<- |]; [by intros [= <-] | eauto].
    + intros a. unfold tracked. simpl. rewrite lookup_insert, elem_of_union, elem_of_singleton.
      destruct (decide (f = a)) as [<- |]; [tauto |].
      intros Hs. destruct (Ht _ Hs); tauto.
Qed.

Lemma heap_ok_SetEvictable f b r r' :
  heap_ok r → SetEvictable f b r = Some r' → heap_ok r'.
Proof.
  intros [Ha Ht]. unfold SetEvictable. intros Hr.
  apply bind_Some in Hr as ([] & _ & Hr).
  apply bind_Some in Hr as (o & Hg & Hr).
  apply GetNode_Some in Hg as [[-> Hg] | [-> Hg]]; [| by simplify_eq].
  apply bind_Some in Hr as (n & Hn & Hr).
  case_bool_decide; simplify_eq; [done |]. split.
  - intros a m. simpl. rewrite lookup_insert.
    destruct (decide (f = a)) as [<- |]; [intros [= <-]; simpl; eauto | eauto].
  - intros a. unfold tracked. simpl. rewrite lookup_insert.
    destruct (decide (f = a)) as [<- |]; [done | apply Ht].
Qed.

Lemma heap_ok_delete f r r0 :
  heap_ok r →
  nodes r0 = delete f (nodes r) →
  (∀ a, a ≠ f → tracked r a → tracked r0 a) →
  heap_ok r0.
Proof.
  intros [Ha Ht] Hn Htr. split.
  - intros a m. rewrite Hn, lookup_delete.
    destruct (decide (f = a)); [done | eauto].
  - intros a. rewrite Hn, lookup_delete.
    destruct (decide (f = a)); [by intros [] |]. intros Hs. apply Htr; eauto.
Qed.

Lemma heap_ok_Remove f r r' :
  heap_ok r → Remove f r = Some r' → heap_ok r'.
Proof.
  intros Hok. unfold Remove. intros Hr.
  apply bind_Some in Hr as ([] & _ & Hr).
  apply bind_Some in Hr as (o & Hg & Hr).
  apply GetNode_Some in Hg as [[-> Hg] | [-> Hg]]; [| by simplify_eq].
  apply bind_Some in Hr as (n & Hn & Hr).
  destruct (evictable_ n); simpl in Hr; [| by simplify_eq].
  injection Hr as <-.
  case_bool_decide; (eapply heap_ok_delete; [done | reflexivity |]);
    intros a Hne; unfold tracked; simpl;
    rewrite elem_of_difference, elem_of_singleton; tauto.
Qed.

Lemma heap_ok_Evict r o r' :
  heap_ok r → Evict r = Some (o, r') → heap_ok r'.
Proof.
  intros Hok Hr. destruct o as [f |].
  - apply Evict_Some in Hr as (a & n & ih & Hn & -> & Hev & Hin & _ & _ & _ & ->).
    pose proof (proj1 Hok _ _ Hn) as Hfa.
    destruct ih; (eapply heap_ok_delete; [done | reflexivity |]);
      intros x Hne; unfold tracked; rewrite Hfa; simpl;
      rewrite elem_of_difference, elem_of_singleton; tauto.
  - by apply Evict_None in Hr as [-> _].
Qed.

#[local] Arguments Z.eqb : simpl never.
#[local] Arguments Z.ltb : simpl never.
#[local] Arguments Z.leb : simpl never.
#[local] Arguments wrap64 : simpl never.

(** Reduction of the record projections, and of nothing else. *)
Ltac psimpl :=
  cbn [mbind option_bind curr_size_ replacer_size_ k_ nodes history_list history_frames_
       history_frame_size_ buffer_list buffer_frames_ buffer_frame_size_
       frame_id_ access_times_ evictable_ set_curr_size set_nodes set_lists
       set_history_frames set_buffer_frames InsertNode EvictNodeFromList MoveNodeToHead].

Tactic Notation "psimpl" "in" hyp(H) :=
  cbn [mbind option_bind curr_size_ replacer_size_ k_ nodes history_list history_frames_
       history_frame_size_ buffer_list buffer_frames_ buffer_frame_size_
       frame_id_ access_times_ evictable_ set_curr_size set_nodes set_lists
       set_history_frames set_buffer_frames InsertNode EvictNodeFromList MoveNodeToHead] in H.

(** *** The representation invariant *)

Lemma perm_unlink (f : Z) (l : list Z) :
  NoDup l → f ∈ l → l ≡ₚ f :: filter (λ a, a ≠ f) l.
Proof.
  induction 1 as [| x l Hx Hl IH]; intros Hin; [by apply elem_of_nil in Hin |].
  rewrite filter_cons. destruct (decide (x ≠ f)) as [Hne | Heq].
  - apply elem_of_cons in Hin as [-> | Hin]; [done |].
    rewrite (IH Hin) at 1. apply Permutation_swap.
  - assert (x = f) as -> by (destruct (decide (x = f)); done).
    by rewrite filter_ne_notin.
Qed.

Lemma count_evictable_ext r r' l :
  (∀ a, a ∈ l → node_evictable r' a = node_evictable r a) →
  count_evictable r' l = count_evictable r l.
Proof.
  unfold count_evictable. intros Hext. f_equal.
  induction l as [| x l IH]; [done |].
  rewrite !filter_cons, (Hext x) by left.
  rewrite IH by (intros a Ha; apply Hext; by right). done.
Qed.

Lemma count_evictable_perm r l l' :
  l ≡ₚ l' → count_evictable r l = count_evictable r l'.
Proof. unfold count_evictable. by intros ->. Qed.

Lemma count_evictable_cons r f l :
  count_evictable r (f :: l)
  = ((if node_evictable r f then 1 else 0) + count_evictable r l)%nat.
Proof.
  unfold count_evictable. rewrite filter_cons.
  destruct (node_evictable r f); by case_decide.
Qed.

Lemma count_evictable_le r l : (count_evictable r l ≤ length l)%nat.
Proof. apply length_filter. Qed.

Lemma count_evictable_unlink r f l :
  NoDup l → f ∈ l →
  count_evictable r l
  = ((if node_evictable r f then 1 else 0) + count_evictable r (filter (λ a, a ≠ f) l))%nat.
Proof.
  intros Hnd Hin. rewrite (count_evictable_perm _ _ _ (perm_unlink f l Hnd Hin)).
  apply count_evictable_cons.
Qed.

Lemma wf_tracked B r f : wf B r → tracked r f ↔ f ∈ all_nodes r.
Proof.
  intros Hwf. unfold tracked, all_nodes.
  rewrite elem_of_app, (wf_hframes _ _ Hwf), (wf_bframes _ _ Hwf). done.
Qed.

Lemma wf_disjoint B r f : wf B r → f ∈ history_list r → f ∈ buffer_list r → False.
Proof.
  intros Hwf Hh Hb. pose proof (wf_nodup _ _ Hwf) as Hnd.
  apply NoDup_app in Hnd as (_ & Hd & _). by apply (Hd f).
Qed.

Lemma wf_mono B B' r : wf B r → B ≤ B' → wf B' r.
Proof.
  intros [] ?. split; try done. intros a n Hn. specialize (wf_times0 a n Hn). lia.
Qed.

Lemma wf_constructor num_frames k :
  0 ≤ num_frames < 2 ^ 64 → 1 ≤ k < 2 ^ 64 → wf 0 (new num_frames k).
Proof.
  intros Hn Hk. split; simpl; try done; try lia.
  all: try (intros a; rewrite ?elem_of_empty, ?lookup_empty, ?elem_of_nil; try done).
  constructor.
Qed.

Lemma GetNode_wf B r f :
  wf B r → GetNode f r = Some (if decide (f ∈ all_nodes r) then Some f else None).
Proof.
  intros Hwf. unfold GetNode, all_nodes.
  pose proof (wf_hframes _ _ Hwf f) as Hh. pose proof (wf_bframes _ _ Hwf f) as Hb.
  pose proof (wf_disjoint _ _ f Hwf) as Hd.
  rewrite assert_true.
  - simpl. f_equal. repeat case_bool_decide; case_decide as Hin; try done;
      rewrite elem_of_app in Hin; tauto.
  - repeat case_bool_decide; try done. tauto.
Qed.

(** A node is updated without a change of its flag, and the lists are
    rearranged. *)
Lemma wf_update B B' r f n n' H' hf' hs' B'l bf' bs' :
  wf B r → B ≤ B' →
  nodes r !! f = Some n →
  frame_id_ n' = f → evictable_ n' = evictable_ n →
  1 ≤ access_times_ n' ≤ B' →
  H' ++ B'l ≡ₚ all_nodes r →
  (f ∈ H' → access_times_ n' < k_ r) →
  (f ∈ B'l → k_ r ≤ access_times_ n') →
  (∀ a, a ≠ f → a ∈ H' → a ∈ history_list r) →
  (∀ a, a ≠ f → a ∈ B'l → a ∈ buffer_list r) →
  (∀ a, a ∈ hf' ↔ a ∈ H') → (∀ a, a ∈ bf' ↔ a ∈ B'l) →
  hs' = Z.of_nat (length H') → bs' = Z.of_nat (length B'l) →
  wf B' (mkLRUK (curr_size_ r) (replacer_size_ r) (k_ r) (<[f := n']> (nodes r))
                H' hf' hs' B'l bf' bs').
Proof.
  intros [Hk Hcap Hhs Hbs Hnd Hhf Hbf Hno Had Hti Hht Hbt Hcu] HB Hn Hid Hev Ht Hperm
    Hth Htb HH HBl Hhf' Hbf' -> ->.
  split; simpl; unfold all_nodes, addr_ok; simpl.
  - done.
  - by rewrite Hperm.
  - done.
  - done.
  - by rewrite Hperm.
  - done.
  - done.
  - intros a. rewrite Hperm, <- Hno, lookup_insert.
    destruct (decide (f = a)) as [<- |]; [| done]. rewrite Hn. split; by eexists.
  - intros a m. rewrite lookup_insert.
    destruct (decide (f = a)) as [<- |]; [by intros [= <-] | apply Had].
  - intros a m. rewrite lookup_insert.
    destruct (decide (f = a)) as [<- |]; [by intros [= <-] |].
    intros Hm. specialize (Hti a m Hm). lia.
  - intros a m Ha. rewrite lookup_insert.
    destruct (decide (f = a)) as [<- |]; [intros [= <-]; auto |].
    apply Hht, HH; done.
  - intros a m Ha. rewrite lookup_insert.
    destruct (decide (f = a)) as [<- |]; [intros [= <-]; auto |].
    apply Hbt, HBl; done.
  - rewrite Hcu. f_equal. rewrite (count_evictable_perm _ _ _ Hperm).
    symmetry. apply count_evictable_ext. intros a _.
    unfold node_evictable. simpl. rewrite lookup_insert.
    destruct (decide (f = a)) as [<- |]; [by rewrite Hn | done].
Qed.

(** A node that is not flagged is created. *)
Lemma wf_insert B B' r f t H' hf' hs' B'l bf' bs' :
  wf B r → B ≤ B' →
  f ∉ all_nodes r → Z.of_nat (length (all_nodes r)) < replacer_size_ r →
  1 ≤ t ≤ B' →
  (H' = f :: history_list r ∧ B'l = buffer_list r ∧ t < k_ r) ∨
  (H' = history_list r ∧ B'l = f :: buffer_list r ∧ k_ r ≤ t) →
  (∀ a, a ∈ hf' ↔ a ∈ H') → (∀ a, a ∈ bf' ↔ a ∈ B'l) →
  hs' = Z.of_nat (length H') → bs' = Z.of_nat (length B'l) →
  wf B' (mkLRUK (curr_size_ r) (replacer_size_ r) (k_ r)
                (<[f := mkNode f t false]> (nodes r))
                H' hf' hs' B'l bf' bs').
Proof.
  intros [Hk Hcap Hhs Hbs Hnd Hhf Hbf Hno Had Hti Hht Hbt Hcu] HB Hf Hfull Ht Hl
    Hhf' Hbf' -> ->.
  assert (H' ++ B'l ≡ₚ f :: all_nodes r) as Hperm.
  { unfold all_nodes. destruct Hl as [(-> & -> & _) | (-> & -> & _)]; [done |].
    by rewrite <- Permutation_middle. }
  assert (nodes r !! f = None) as Hnone.
  { destruct (nodes r !! f) eqn:Hn; [| done]. destruct Hf. apply Hno. by eexists. }
  split; simpl; unfold all_nodes, addr_ok; simpl.
  - done.
  - rewrite Hperm. simpl. unfold all_nodes in *. lia.
  - done.
  - done.
  - rewrite Hperm. by constructor.
  - done.
  - done.
  - intros a. rewrite Hperm, elem_of_cons, <- Hno, lookup_insert.
    destruct (decide (f = a)) as [<- |]; [split; [by left | by eexists] |].
    split; [by right | intros [-> | ?]; done].
  - intros a m. rewrite lookup_insert.
    destruct (decide (f = a)) as [<- |]; [by intros [= <-] | apply Had].
  - intros a m. rewrite lookup_insert.
    destruct (decide (f = a)) as [<- |]; [by intros [= <-] |].
    intros Hm. specialize (Hti a m Hm). lia.
  - intros a m Ha. rewrite lookup_insert.
    destruct (decide (f = a)) as [<- |].
    + intros [= <-]. simpl. destruct Hl as [(-> & -> & ?) | (-> & -> & ?)]; [done |].
      destruct Hf. apply elem_of_app. by left.
    + apply Hht. destruct Hl as [(-> & -> & ?) | (-> & -> & ?)]; [| done].
      apply elem_of_cons in Ha as [-> | Ha]; done.
  - intros a m Ha. rewrite lookup_insert.
    destruct (decide (f = a)) as [<- |].
    + intros [= <-]. simpl. destruct Hl as [(-> & -> & ?) | (-> & -> & ?)]; [| done].
      destruct Hf. apply elem_of_app. by right.
    + apply Hbt. destruct Hl as [(-> & -> & ?) | (-> & -> & ?)]; [done |].
      apply elem_of_cons in Ha as [-> | Ha]; done.
  - rewrite Hcu. f_equal. rewrite (count_evictable_perm _ _ _ Hperm).
    rewrite count_evictable_cons. unfold node_evictable at 1. simpl.
    rewrite lookup_insert_eq. simpl. symmetry. apply count_evictable_ext.
    intros a Ha. unfold node_evictable. simpl. rewrite lookup_insert_ne; [done |].
    intros <-. done.
Qed.

Lemma wf_update_p B B' r r' f n n' :
  wf B r → B ≤ B' →
  nodes r !! f = Some n →
  frame_id_ n' = f → evictable_ n' = evictable_ n →
  1 ≤ access_times_ n' ≤ B' →
  curr_size_ r' = curr_size_ r → replacer_size_ r' = replacer_size_ r → k_ r' = k_ r →
  nodes r' = <[f := n']> (nodes r) →
  history_list r' ++ buffer_list r' ≡ₚ all_nodes r →
  (f ∈ history_list r' → access_times_ n' < k_ r) →
  (f ∈ buffer_list r' → k_ r ≤ access_times_ n') →
  (∀ a, a ≠ f → a ∈ history_list r' → a ∈ history_list r) →
  (∀ a, a ≠ f → a ∈ buffer_list r' → a ∈ buffer_list r) →
  (∀ a, a ∈ history_frames_ r' ↔ a ∈ history_list r') →
  (∀ a, a ∈ buffer_frames_ r' ↔ a ∈ buffer_list r') →
  history_frame_size_ r' = Z.of_nat (length (history_list r')) →
  buffer_frame_size_ r' = Z.of_nat (length (buffer_list r')) →
  wf B' r'.
Proof.
  intros Hwf ? ? ? ? ? Hc Hrs Hk Hn. destruct r'. cbn in Hc, Hrs, Hk, Hn |- *.
  rewrite Hc, Hrs, Hk, Hn. intros. by eapply (wf_update B).
Qed.

Lemma wf_insert_p B B' r r' f t :
  wf B r → B ≤ B' →
  f ∉ all_nodes r → Z.of_nat (length (all_nodes r)) < replacer_size_ r →
  1 ≤ t ≤ B' →
  curr_size_ r' = curr_size_ r → replacer_size_ r' = replacer_size_ r → k_ r' = k_ r →
  nodes r' = <[f := mkNode f t false]> (nodes r) →
  (history_list r' = f :: history_list r ∧ buffer_list r' = buffer_list r ∧ t < k_ r) ∨
  (history_list r' = history_list r ∧ buffer_list r' = f :: buffer_list r ∧ k_ r ≤ t) →
  (∀ a, a ∈ history_frames_ r' ↔ a ∈ history_list r') →
  (∀ a, a ∈ buffer_frames_ r' ↔ a ∈ buffer_list r') →
  history_frame_size_ r' = Z.of_nat (length (history_list r')) →
  buffer_frame_size_ r' = Z.of_nat (length (buffer_list r')) →
  wf B' r'.
Proof.
  intros Hwf ? ? ? ? Hc Hrs Hk Hn. destruct r'. cbn in Hc, Hrs, Hk, Hn |- *.
  rewrite Hc, Hrs, Hk, Hn. intros. by eapply (wf_insert B).
Qed.

Lemma assert_in_range r f :
  to_size_t f ≤ replacer_size_ r →
  assert (to_size_t f <=? replacer_size_ r) = Some tt.
Proof. intros Hf. apply assert_true. by apply Z.leb_le. Qed.

Lemma wf_sizes B r :
  wf B r →
  history_frame_size_ r + buffer_frame_size_ r = Z.of_nat (length (all_nodes r)) ∧
  0 ≤ history_frame_size_ r ∧ 0 ≤ buffer_frame_size_ r ∧
  Z.of_nat (length (all_nodes r)) ≤ replacer_size_ r < 2 ^ 64.
Proof.
  intros []. unfold all_nodes in *. rewrite length_app in *. lia.
Qed.

(** [RecordAccess] on a frame that is not tracked. *)
Lemma RecordAccess_untracked B r f :
  wf B r → 0 ≤ B → to_size_t f ≤ replacer_size_ r → f ∉ all_nodes r →
  if decide (Z.of_nat (length (all_nodes r)) = replacer_size_ r)
  then RecordAccess f r = Some r
  else ∃ r',
      RecordAccess f r = Some r' ∧ wf (B + 1) r' ∧
      nodes r' = <[f := mkNode f 1 false]> (nodes r) ∧
      curr_size_ r' = curr_size_ r ∧
      if decide (k_ r = 1)
      then history_list r' = history_list r ∧ buffer_list r' = f :: buffer_list r
      else history_list r' = f :: history_list r ∧ buffer_list r' = buffer_list r.
Proof.
  intros Hwf HB Hf Hin. pose proof (wf_sizes _ _ Hwf) as (Hsum & Hh0 & Hb0 & Hcap).
  pose proof (wf_k _ _ Hwf) as Hk.
  unfold RecordAccess. rewrite assert_in_range, (GetNode_wf B) by done. psimpl.
  rewrite (decide_False (P := f ∈ all_nodes r)) by done.
  rewrite wrap64_small by lia. rewrite Hsum.
  case_decide as Hfull.
  - apply Z.eqb_eq in Hfull. by rewrite Hfull.
  - apply Z.eqb_neq in Hfull as Hfull'. rewrite Hfull'.
    unfold RecordAccess_node. psimpl. rewrite lookup_insert_eq. psimpl.
    rewrite insert_insert_eq. change (wrap64 (0 + 1)) with 1.
    pose proof (wf_hsize _ _ Hwf) as Hhs. pose proof (wf_bsize _ _ Hwf) as Hbs.
    pose proof (wf_hframes _ _ Hwf) as Hhf. pose proof (wf_bframes _ _ Hwf) as Hbf.
    assert ((f ∉ history_list r) ∧ (f ∉ buffer_list r)) as [Hfh Hfb].
    { unfold all_nodes in Hin. rewrite elem_of_app in Hin. tauto. }
    destruct (Z.eqb_spec 1 (k_ r)) as [Hk1 | Hk1].
    + eexists. split; [done |]. rewrite decide_True by lia.
      psimpl.
      rewrite filter_cons, decide_False by (intros Hne; by apply Hne).
      rewrite !filter_ne_notin by done.
      split; [| done].
      eapply (wf_insert_p B _ r _ f 1); try done; psimpl; try lia.
      * right. split_and!; try done. lia.
      * intros a. rewrite elem_of_difference, elem_of_union, elem_of_singleton, Hhf.
        split; [tauto |]. intros Ha. split; [tauto |]. by intros ->.
      * intros a. rewrite elem_of_union, elem_of_singleton, elem_of_cons, Hbf. done.
      * rewrite (wrap64_small (_ + 1)) by lia. rewrite wrap64_small by lia. lia.
      * cbn [length]. rewrite wrap64_small by lia. lia.
    + destruct (Z.ltb_spec 1 (k_ r)); [| lia].
      eexists. split; [done |]. rewrite decide_False by lia.
      psimpl.
      split; [| done].
      eapply (wf_insert_p B _ r _ f 1); try done; psimpl; try lia.
      * left. split_and!; try done.
      * intros a. rewrite elem_of_union, elem_of_singleton, elem_of_cons, Hhf. done.
      * cbn [length]. rewrite wrap64_small by lia. lia.
Qed.

Lemma wf_node_place B r f n :
  wf B r → nodes r !! f = Some n →
  (f ∈ history_list r ∧ (f ∉ buffer_list r) ∧ access_times_ n < k_ r) ∨
  (f ∈ buffer_list r ∧ (f ∉ history_list r) ∧ k_ r ≤ access_times_ n).
Proof.
  intros Hwf Hn. assert (f ∈ all_nodes r) as Hin by (apply (wf_nodes _ _ Hwf); by eexists).
  unfold all_nodes in Hin. apply elem_of_app in Hin as [Hin | Hin]; [left | right].
  - split_and!; [done | | by eapply wf_htimes]. intros ?. by eapply wf_disjoint.
  - split_and!; [done | | by eapply wf_btimes]. intros ?. by eapply wf_disjoint.
Qed.

Lemma wf_history_nodup B r : wf B r → NoDup (history_list r) ∧ NoDup (buffer_list r).
Proof. intros Hwf. pose proof (wf_nodup _ _ Hwf) as Hnd. apply NoDup_app in Hnd. tauto. Qed.

(** [RecordAccess] on a tracked frame. *)
Lemma RecordAccess_tracked B r f n :
  wf B r → B + 1 < 2 ^ 64 → to_size_t f ≤ replacer_size_ r → nodes r !! f = Some n →
  ∃ r',
    RecordAccess f r = Some r' ∧ wf (B + 1) r' ∧
    nodes r' = <[f := mkNode f (access_times_ n + 1) (evictable_ n)]> (nodes r) ∧
    curr_size_ r' = curr_size_ r ∧
    if decide (access_times_ n + 1 = k_ r)
    then history_list r' = filter (λ a, a ≠ f) (history_list r) ∧
         buffer_list r' = f :: buffer_list r
    else if decide (access_times_ n + 1 < k_ r)
    then history_list r' = f :: filter (λ a, a ≠ f) (history_list r) ∧
         buffer_list r' = buffer_list r
    else history_list r' = history_list r ∧
         buffer_list r' = f :: filter (λ a, a ≠ f) (buffer_list r).
Proof.
  intros Hwf HB Hf Hn. pose proof (wf_sizes _ _ Hwf) as (Hsum & Hh0 & Hb0 & Hcap).
  pose proof (wf_k _ _ Hwf) as Hk. pose proof (wf_times _ _ Hwf _ _ Hn) as Ht.
  pose proof (wf_addr _ _ Hwf _ _ Hn) as Hid.
  pose proof (wf_hsize _ _ Hwf) as Hhs. pose proof (wf_bsize _ _ Hwf) as Hbs.
  pose proof (wf_hframes _ _ Hwf) as Hhf. pose proof (wf_bframes _ _ Hwf) as Hbf.
  pose proof (wf_history_nodup _ _ Hwf) as [Hndh Hndb].
  assert (f ∈ all_nodes r) as Hin by (apply (wf_nodes _ _ Hwf); by eexists).
  unfold RecordAccess. rewrite assert_in_range, (GetNode_wf B) by done. psimpl.
  rewrite decide_True by done. unfold RecordAccess_node. rewrite Hn. psimpl.
  rewrite Hid, wrap64_small by lia.
  psimpl.
  destruct (wf_node_place _ _ _ _ Hwf Hn) as [(Hh & Hb & Hlt) | (Hb & Hh & Hge)].
  - (* in the history list *)
    pose proof (length_filter_remove f _ Hndh Hh) as Hlen.
    pose proof (perm_unlink f _ Hndh Hh) as Hperm.
    rewrite (filter_ne_notin f (buffer_list r)) by done.
    destruct (Z.eqb_spec (access_times_ n + 1) (k_ r)) as [Heq | Hne].
    + eexists. split; [done |]. rewrite decide_True by done. split; [| done].
      eapply (wf_update_p B _ r _ f n (mkNode f (access_times_ n + 1) (evictable_ n)));
        try done; psimpl; try lia.
      * unfold all_nodes. rewrite <- Permutation_middle. rewrite Hperm at 2. done.
      * rewrite list_elem_of_filter. tauto.
      * intros a Hna. rewrite list_elem_of_filter. tauto.
      * intros a Hna. rewrite elem_of_cons. tauto.
      * intros a. rewrite elem_of_difference, elem_of_singleton, list_elem_of_filter, Hhf.
        tauto.
      * intros a. rewrite elem_of_union, elem_of_singleton, elem_of_cons, Hbf. done.
      * cbn [length]. rewrite wrap64_small by lia. lia.
      * cbn [length]. rewrite wrap64_small by lia. lia.
    + destruct (Z.ltb_spec (access_times_ n + 1) (k_ r)); [| lia].
      destruct (Z.eqb_spec (access_times_ n + 1) 1); [lia |]. psimpl.
      eexists. split; [done |]. rewrite decide_False, decide_True by done.
      split; [| done].
      eapply (wf_update_p B _ r _ f n (mkNode f (access_times_ n + 1) (evictable_ n)));
        try done; psimpl; try lia.
      * unfold all_nodes. by rewrite <- Hperm.
      * intros a Hna. rewrite elem_of_cons, list_elem_of_filter. tauto.
      * intros a. rewrite elem_of_cons, list_elem_of_filter, Hhf.
        destruct (decide (a = f)) as [-> |]; tauto.
      * cbn [length]. lia.
  - (* in the cache list *)
    pose proof (length_filter_remove f _ Hndb Hb) as Hlen.
    pose proof (perm_unlink f _ Hndb Hb) as Hperm.
    rewrite (filter_ne_notin f (history_list r)) by done.
    destruct (Z.eqb_spec (access_times_ n + 1) (k_ r)) as [Heq | Hne]; [lia |].
    destruct (Z.ltb_spec (access_times_ n + 1) (k_ r)); [lia |].
    eexists. split; [done |]. rewrite !decide_False by lia.
    split; [| done].
    eapply (wf_update_p B _ r _ f n (mkNode f (access_times_ n + 1) (evictable_ n)));
        try done; psimpl; try lia.
    * unfold all_nodes. rewrite <- Permutation_middle. rewrite Hperm at 2.
      by rewrite Permutation_middle.
    * intros a Hna. rewrite elem_of_cons, list_elem_of_filter. tauto.
    * intros a. rewrite elem_of_cons, list_elem_of_filter, Hbf.
      destruct (decide (a = f)) as [-> |]; tauto.
    * cbn [length]. lia.
Qed.

(** The flag of a node is flipped. *)
Lemma wf_flag B r f n (b : bool) :
  wf B r → nodes r !! f = Some n → evictable_ n ≠ b →
  wf B (set_curr_size (wrap64 (curr_size_ r + (if b then 1 else -1)))
          (set_nodes (<[f := mkNode (frame_id_ n) (access_times_ n) b]> (nodes r)) r)) ∧
  wrap64 (curr_size_ r + (if b then 1 else -1)) = curr_size_ r + (if b then 1 else -1).
Proof.
  intros Hwf Hn Hb.
  assert (f ∈ all_nodes r) as Hin by (apply (wf_nodes _ _ Hwf); by eexists).
  destruct Hwf as [Hk Hcap Hhs Hbs Hnd Hhf Hbf Hno Had Hti Hht Hbt Hcu].
  set (r' := set_nodes (<[f := mkNode (frame_id_ n) (access_times_ n) b]> (nodes r)) r).
  assert (Z.of_nat (count_evictable r' (all_nodes r))
          = curr_size_ r + (if b then 1 else -1)) as Hcount.
  { rewrite Hcu, !(count_evictable_unlink _ f (all_nodes r)) by done.
    rewrite (count_evictable_ext r r' (filter _ _)).
    2:{ intros a [Ha _]%list_elem_of_filter. unfold node_evictable, r'. simpl.
        by rewrite lookup_insert_ne. }
    assert (node_evictable r' f = b) as ->
      by (unfold node_evictable, r'; simpl; by rewrite lookup_insert_eq).
    assert (node_evictable r f = evictable_ n) as ->
      by (unfold node_evictable; by rewrite Hn).
    destruct (evictable_ n), b; try done; lia. }
  pose proof (count_evictable_le r' (all_nodes r)) as Hle.
  assert (wrap64 (curr_size_ r + (if b then 1 else -1))
          = curr_size_ r + (if b then 1 else -1)) as Hw by (apply wrap64_small; lia).
  split; [| done]. rewrite Hw.
  split; simpl; unfold all_nodes, addr_ok in *; simpl.
  - done.
  - done.
  - done.
  - done.
  - done.
  - done.
  - done.
  - intros a. rewrite <- Hno, lookup_insert.
    destruct (decide (f = a)) as [<- |]; [| done]. rewrite Hn. split; by eexists.
  - intros a m. rewrite lookup_insert.
    destruct (decide (f = a)) as [<- |]; [intros [= <-]; simpl; eauto | apply Had].
  - intros a m. rewrite lookup_insert.
    destruct (decide (f = a)) as [<- |]; [intros [= <-]; simpl; eauto | apply Hti].
  - intros a m Ha. rewrite lookup_insert.
    destruct (decide (f = a)) as [<- |]; [intros [= <-]; simpl; eauto | by apply Hht].
  - intros a m Ha. rewrite lookup_insert.
    destruct (decide (f = a)) as [<- |]; [intros [= <-]; simpl; eauto | by apply Hbt].
  - rewrite <- Hcount. done.
Qed.

(** A flagged node is unlinked and freed. *)
Lemma wf_delete B r f n c' hf' hs' bf' bs' :
  wf B r → nodes r !! f = Some n → evictable_ n = true →
  c' = wrap64 (curr_size_ r - 1) →
  (∀ a, a ∈ hf' ↔ a ∈ filter (λ a, a ≠ f) (history_list r)) →
  (∀ a, a ∈ bf' ↔ a ∈ filter (λ a, a ≠ f) (buffer_list r)) →
  hs' = Z.of_nat (length (filter (λ a, a ≠ f) (history_list r))) →
  bs' = Z.of_nat (length (filter (λ a, a ≠ f) (buffer_list r))) →
  wf B (mkLRUK c' (replacer_size_ r) (k_ r) (delete f (nodes r))
               (filter (λ a, a ≠ f) (history_list r)) hf' hs'
               (filter (λ a, a ≠ f) (buffer_list r)) bf' bs') ∧
  c' = curr_size_ r - 1.
Proof.
  intros Hwf Hn Hev -> Hhf' Hbf' -> ->.
  assert (f ∈ all_nodes r) as Hin by (apply (wf_nodes _ _ Hwf); by eexists).
  destruct Hwf as [Hk Hcap Hhs Hbs Hnd Hhf Hbf Hno Had Hti Hht Hbt Hcu].
  pose proof (count_evictable_unlink r f _ Hnd Hin) as Hcount.
  unfold node_evictable at 1 in Hcount. rewrite Hn, Hev in Hcount.
  pose proof (count_evictable_le r (all_nodes r)) as Hle.
  pose proof (length_filter_remove f _ Hnd Hin) as Hlen.
  assert (wrap64 (curr_size_ r - 1) = curr_size_ r - 1) as Hw by (apply wrap64_small; lia).
  split; [| done]. rewrite Hw. unfold all_nodes in *. rewrite filter_app in *.
  split; simpl; unfold all_nodes, addr_ok in *; simpl.
  - done.
  - rewrite <- Hlen in Hcap. lia.
  - done.
  - done.
  - rewrite <- filter_app. by apply NoDup_filter.
  - done.
  - done.
  - intros a. rewrite <- filter_app, list_elem_of_filter, <- Hno, lookup_delete.
    destruct (decide (f = a)) as [<- |]; [| by intuition].
    split; [by intros [] | tauto].
  - intros a m. rewrite lookup_delete. destruct (decide (f = a)); [done | apply Had].
  - intros a m. rewrite lookup_delete. destruct (decide (f = a)); [done | apply Hti].
  - intros a m [_ Ha]%list_elem_of_filter. rewrite lookup_delete.
    destruct (decide (f = a)); [done | by apply Hht].
  - intros a m [_ Ha]%list_elem_of_filter. rewrite lookup_delete.
    destruct (decide (f = a)); [done | by apply Hbt].
  - rewrite Hcu, Hcount. rewrite Nat2Z.inj_add. change (Z.of_nat 1) with 1.
    replace (1 + Z.of_nat _ - 1) with (Z.of_nat (count_evictable r
      (filter (λ a, a ≠ f) (history_list r) ++ filter (λ a, a ≠ f) (buffer_list r)))) by lia.
    f_equal. symmetry. apply count_evictable_ext.
    intros a Ha. rewrite <- filter_app in Ha. apply list_elem_of_filter in Ha as [Ha _].
    unfold node_evictable. simpl. by rewrite lookup_delete_ne.
Qed.

Lemma wf_delete_p B r r' f n :
  wf B r → nodes r !! f = Some n → evictable_ n = true →
  curr_size_ r' = wrap64 (curr_size_ r - 1) →
  replacer_size_ r' = replacer_size_ r → k_ r' = k_ r →
  nodes r' = delete f (nodes r) →
  history_list r' = filter (λ a, a ≠ f) (history_list r) →
  buffer_list r' = filter (λ a, a ≠ f) (buffer_list r) →
  (∀ a, a ∈ history_frames_ r' ↔ a ∈ history_list r') →
  (∀ a, a ∈ buffer_frames_ r' ↔ a ∈ buffer_list r') →
  history_frame_size_ r' = Z.of_nat (length (history_list r')) →
  buffer_frame_size_ r' = Z.of_nat (length (buffer_list r')) →
  wf B r' ∧ curr_size_ r' = curr_size_ r - 1.
Proof.
  intros Hwf Hn Hev Hc Hrs Hk Hnodes Hh Hb. destruct r'.
  cbn in Hc, Hrs, Hk, Hnodes, Hh, Hb |- *. rewrite Hrs, Hk, Hnodes, Hh, Hb.
  intros. by eapply (wf_delete B).
Qed.

Lemma assert_le_Some r f u :
  assert (to_size_t f <=? replacer_size_ r) = Some u → to_size_t f ≤ replacer_size_ r.
Proof. intros H%assert_Some. by apply Z.leb_le. Qed.

Lemma RecordAccess_wf B r f r' :
  wf B r → 0 ≤ B → B + 1 < 2 ^ 64 → RecordAccess f r = Some r' → wf (B + 1) r'.
Proof.
  intros Hwf HB0 HB Hr. pose proof Hr as Hr'. unfold RecordAccess in Hr'.
  apply bind_Some in Hr' as (u & Hf%assert_le_Some & _).
  destruct (decide (f ∈ all_nodes r)) as [Hin | Hin].
  - apply (wf_nodes _ _ Hwf) in Hin as [n Hn].
    destruct (RecordAccess_tracked B r f n) as (r0 & Hr0 & Hwf0 & _); try done.
    congruence.
  - pose proof (RecordAccess_untracked B r f Hwf HB0 Hf Hin) as Hspec.
    case_decide.
    + assert (r' = r) as -> by congruence. apply (wf_mono B); [done | lia].
    + destruct Hspec as (r0 & Hr0 & Hwf0 & _). congruence.
Qed.

Lemma SetEvictable_wf B r f b r' :
  wf B r → SetEvictable f b r = Some r' → wf B r'.
Proof.
  intros Hwf. unfold SetEvictable. intros Hr.
  apply bind_Some in Hr as (u & _ & Hr). rewrite (GetNode_wf B) in Hr by done.
  psimpl in Hr. case_decide; [| by simplify_eq].
  apply bind_Some in Hr as (n & Hn & Hr).
  case_bool_decide as Hb; [by simplify_eq |]. injection Hr as <-.
  by apply (wf_flag B r f n b).
Qed.

Lemma Remove_wf B r f r' :
  wf B r → Remove f r = Some r' → wf B r'.
Proof.
  intros Hwf. unfold Remove. intros Hr.
  apply bind_Some in Hr as (u & _ & Hr). rewrite (GetNode_wf B) in Hr by done.
  psimpl in Hr. case_decide; [| by simplify_eq].
  apply bind_Some in Hr as (n & Hn & Hr).
  destruct (evictable_ n) eqn:Hev; cbn [negb] in Hr; [| by simplify_eq].
  pose proof (wf_sizes _ _ Hwf) as (Hsum & Hh0 & Hb0 & Hcap).
  pose proof (wf_hsize _ _ Hwf) as Hhs. pose proof (wf_bsize _ _ Hwf) as Hbs.
  pose proof (wf_hframes _ _ Hwf) as Hhf. pose proof (wf_bframes _ _ Hwf) as Hbf.
  pose proof (wf_history_nodup _ _ Hwf) as [Hndh Hndb].
  destruct (wf_node_place _ _ _ _ Hwf Hn) as [(Hh & Hb & _) | (Hb & Hh & _)].
  - rewrite bool_decide_eq_true_2 in Hr by (psimpl; by apply Hhf).
    injection Hr as <-.
    pose proof (length_filter_remove f _ Hndh Hh) as Hlen.
    eapply (wf_delete_p B r _ f n); try done; psimpl; try done.
    + intros a. rewrite elem_of_difference, elem_of_singleton, list_elem_of_filter, Hhf.
      tauto.
    + intros a. by rewrite filter_ne_notin.
    + rewrite wrap64_small by lia. lia.
    + by rewrite filter_ne_notin.
  - rewrite bool_decide_eq_false_2 in Hr by (psimpl; by rewrite Hhf).
    injection Hr as <-.
    pose proof (length_filter_remove f _ Hndb Hb) as Hlen.
    eapply (wf_delete_p B r _ f n); try done; psimpl; try done.
    + intros a. by rewrite filter_ne_notin.
    + intros a. rewrite elem_of_difference, elem_of_singleton, list_elem_of_filter, Hbf.
      tauto.
    + by rewrite filter_ne_notin.
    + rewrite wrap64_small by lia. lia.
Qed.

(** *** The victim of [Evict] *)

(** The search from the tail finds the last node that satisfies [P]. *)
Lemma find_rev_tail (P : Z → bool) (l : list Z) :
  match List.find P (rev l) with
  | Some a => ∃ l1 l2, l = l1 ++ a :: l2 ∧ P a = true ∧ Forall (λ x, P x = false) l2
  | None => Forall (λ x, P x = false) l
  end.
Proof.
  induction l as [| x l IH] using rev_ind; [by constructor |].
  rewrite rev_app_distr. cbn [rev app List.find]. destruct (P x) eqn:Hx.
  - exists l, []. by rewrite Forall_nil.
  - destruct (List.find P (rev l)) as [a |].
    + destruct IH as (l1 & l2 & -> & Ha & Hl2). exists l1, (l2 ++ [x]).
      rewrite <- app_assoc. split_and!; try done.
      apply Forall_app. split; [done |]. by constructor.
    + apply Forall_app. split; [done |]. by constructor.
Qed.

Lemma count_evictable_zero r l :
  count_evictable r l = 0%nat ↔ Forall (λ x, node_evictable r x = false) l.
Proof.
  induction l as [| x l IH]; [by split; [constructor |] |].
  rewrite count_evictable_cons, Forall_cons, <- IH.
  destruct (node_evictable r x); split; try done; try lia; by intros [? ?].
Qed.

Lemma filter_unlink_middle (a : Z) (l1 l2 : list Z) :
  NoDup (l1 ++ a :: l2) → filter (λ x, x ≠ a) (l1 ++ a :: l2) = l1 ++ l2.
Proof.
  intros Hnd. apply NoDup_app in Hnd as (_ & Hd & Hnd2).
  apply NoDup_cons in Hnd2 as [Ha2 _].
  rewrite filter_app, filter_cons.
  rewrite decide_False by (intros Hne; by apply Hne).
  rewrite !filter_ne_notin; [done | done |].
  intros Ha1. apply (Hd a Ha1). by left.
Qed.

(** What [Evict] does in a well-formed state. *)
Lemma Evict_spec B r :
  wf B r →
  (Evict r = Some (None, r) ∧
   Forall (λ x, node_evictable r x = false) (all_nodes r)) ∨
  (∃ a l1 l2 r' (in_history : bool),
      (if in_history then history_list r else buffer_list r) = l1 ++ a :: l2 ∧
      node_evictable r a = true ∧
      Forall (λ x, node_evictable r x = false) l2 ∧
      (in_history = false → Forall (λ x, node_evictable r x = false) (history_list r)) ∧
      Evict r = Some (Some a, r') ∧
      wf B r' ∧
      history_list r' = (if in_history then l1 ++ l2 else history_list r) ∧
      buffer_list r' = (if in_history then buffer_list r else l1 ++ l2) ∧
      nodes r' = delete a (nodes r) ∧
      curr_size_ r' = curr_size_ r - 1).
Proof.
  intros Hwf. pose proof (wf_curr _ _ Hwf) as Hcu.
  pose proof (wf_sizes _ _ Hwf) as (Hsum & Hh0 & Hb0 & Hcap).
  pose proof (wf_hsize _ _ Hwf) as Hhs. pose proof (wf_bsize _ _ Hwf) as Hbs.
  pose proof (wf_hframes _ _ Hwf) as Hhf. pose proof (wf_bframes _ _ Hwf) as Hbf.
  pose proof (wf_history_nodup _ _ Hwf) as [Hndh Hndb].
  unfold Evict. destruct (Z.eqb_spec (curr_size_ r) 0) as [Hz | Hnz].
  { left. split; [done |]. apply count_evictable_zero. lia. }
  right. unfold GetFirstEvictableNode.
  pose proof (find_rev_tail (node_evictable r) (history_list r)) as Hfh.
  pose proof (find_rev_tail (node_evictable r) (buffer_list r)) as Hfb.
  destruct (List.find (node_evictable r) (rev (history_list r))) as [a |].
  - destruct Hfh as (l1 & l2 & Hl & Ha & Hl2).
    assert (a ∈ history_list r) as Hin by (rewrite Hl, elem_of_app, elem_of_cons; tauto).
    destruct (wf_nodes _ _ Hwf a) as [_ [n Hn]]; [apply elem_of_app; tauto |].
    pose proof (wf_addr _ _ Hwf _ _ Hn) as Hid.
    assert (evictable_ n = true) as Hev by (unfold node_evictable in Ha; by rewrite Hn in Ha).
    destruct (wf_node_place _ _ _ _ Hwf Hn) as [(_ & Hb & _) | (Hb & Hh & _)]; [| done].
    psimpl. rewrite Hn. psimpl. rewrite Hid.
    pose proof (length_filter_remove a _ Hndh Hin) as Hlen.
    exists a, l1, l2. eexists. exists true. split_and!; try done.
    + eapply (wf_delete_p B r _ a n); try done; psimpl; try done.
      * intros x. rewrite elem_of_difference, elem_of_singleton, list_elem_of_filter, Hhf.
        tauto.
      * intros x. by rewrite filter_ne_notin.
      * rewrite wrap64_small by lia. lia.
      * by rewrite filter_ne_notin.
    + psimpl. rewrite Hl. apply filter_unlink_middle. by rewrite <- Hl.
    + psimpl. by apply filter_ne_notin.
    + eapply (wf_delete_p B r _ a n); try done; psimpl; try done.
      * intros x. rewrite elem_of_difference, elem_of_singleton, list_elem_of_filter, Hhf.
        tauto.
      * intros x. by rewrite filter_ne_notin.
      * rewrite wrap64_small by lia. lia.
      * by rewrite filter_ne_notin.
  - destruct (List.find (node_evictable r) (rev (buffer_list r))) as [a |].
    + destruct Hfb as (l1 & l2 & Hl & Ha & Hl2).
      assert (a ∈ buffer_list r) as Hin by (rewrite Hl, elem_of_app, elem_of_cons; tauto).
      destruct (wf_nodes _ _ Hwf a) as [_ [n Hn]]; [apply elem_of_app; tauto |].
      pose proof (wf_addr _ _ Hwf _ _ Hn) as Hid.
      assert (evictable_ n = true) as Hev
        by (unfold node_evictable in Ha; by rewrite Hn in Ha).
      destruct (wf_node_place _ _ _ _ Hwf Hn) as [(Hh & Hb & _) | (_ & Hh & _)]; [done |].
      psimpl. rewrite Hn. psimpl. rewrite Hid.
      pose proof (length_filter_remove a _ Hndb Hin) as Hlen.
      exists a, l1, l2. eexists. exists false. split_and!; try done.
      * eapply (wf_delete_p B r _ a n); try done; psimpl; try done.
        -- intros x. by rewrite filter_ne_notin.
        -- intros x.
           rewrite elem_of_difference, elem_of_singleton, list_elem_of_filter, Hbf. tauto.
        -- by rewrite filter_ne_notin.
        -- rewrite wrap64_small by lia. lia.
      * psimpl. by apply filter_ne_notin.
      * psimpl. rewrite Hl. apply filter_unlink_middle. by rewrite <- Hl.
      * eapply (wf_delete_p B r _ a n); try done; psimpl; try done.
        -- intros x. by rewrite filter_ne_notin.
        -- intros x.
           rewrite elem_of_difference, elem_of_singleton, list_elem_of_filter, Hbf. tauto.
        -- by rewrite filter_ne_notin.
        -- rewrite wrap64_small by lia. lia.
    + exfalso. apply Hnz. rewrite Hcu.
      assert (count_evictable r (all_nodes r) = 0%nat) as ->; [| done].
      apply count_evictable_zero, Forall_app. done.
Qed.

Lemma Evict_wf B r o r' : wf B r → Evict r = Some (o, r') → wf B r'.
Proof.
  intros Hwf Hr. destruct (Evict_spec B r Hwf) as [[He _] | (a & l1 & l2 & r0 & ih & H0)].
  - congruence.
  - destruct H0 as (_ & _ & _ & _ & He & Hwf0 & _). congruence.
Qed.

Lemma exec_wf B o r r' :
  wf B r → 0 ≤ B → B + 1 < 2 ^ 64 → exec o r = Some r' → wf (B + 1) r'.
Proof.
  intros Hwf HB0 HB. destruct o; cbn [exec]; intros Hr.
  - by eapply RecordAccess_wf.
  - apply (wf_mono B); [by eapply SetEvictable_wf | lia].
  - apply (wf_mono B); [by eapply Remove_wf | lia].
  - apply fmap_Some in Hr as ([o r0] & He & ->).
    apply (wf_mono B); [by eapply Evict_wf | lia].
Qed.

Lemma run_wf B ops r r' :
  wf B r → 0 ≤ B → B + Z.of_nat (length ops) < 2 ^ 64 →
  run ops r = Some r' → wf (B + Z.of_nat (length ops)) r'.
Proof.
  revert B r. induction ops as [| o ops IH]; intros B r Hwf HB0 HB; cbn [run length].
  - intros [= <-]. by rewrite Z.add_0_r.
  - intros Hr. apply bind_Some in Hr as (r1 & Hex & Hr).
    cbn [length] in HB. rewrite Nat2Z.inj_succ in HB. rewrite Nat2Z.inj_succ.
    replace (B + Z.succ (Z.of_nat (length ops))) with (B + 1 + Z.of_nat (length ops)) by lia.
    apply (IH (B + 1) r1); [apply (exec_wf B o r); [done | lia | lia | done] | lia | lia | done].
Qed.

(** *** States reached from the constructor *)

Lemma reach_wf num_frames k ops r :
  0 ≤ num_frames < 2 ^ 64 → 1 ≤ k < 2 ^ 64 → Z.of_nat (length ops) < 2 ^ 64 →
  run ops (new num_frames k) = Some r → wf (Z.of_nat (length ops)) r.
Proof.
  intros Hn Hk Hlen Hrun.
  apply (run_wf 0 ops (new num_frames k)); [by apply wf_constructor | done | lia | done].
Qed.

(** The two counters add up to the number of tracked frames. *)
Lemma tracked_count B r :
  wf B r →
  history_frame_size_ r + buffer_frame_size_ r
  = Z.of_nat (size (history_frames_ r ∪ buffer_frames_ r)).
Proof.
  intros Hwf. pose proof (wf_sizes _ _ Hwf) as (-> & _).
  assert (history_frames_ r ∪ buffer_frames_ r = list_to_set (all_nodes r)) as ->.
  { apply set_eq. intros x.
    rewrite elem_of_union, elem_of_list_to_set. apply (wf_tracked _ _ _ Hwf). }
  rewrite size_list_to_set; [done | apply (wf_nodup _ _ Hwf)].
Qed.

(** *** Evaluation of the operations on explicit states *)

Ltac solve_member :=
  repeat first [ rewrite elem_of_union | rewrite elem_of_difference
               | rewrite elem_of_singleton | rewrite elem_of_empty ];
  intuition congruence.

Ltac eval_member :=
  repeat match goal with
  | |- context [bool_decide (?x ∈ ?S)] =>
      first [ rewrite (bool_decide_eq_true_2 (x ∈ S)) by solve_member
            | rewrite (bool_decide_eq_false_2 (x ∈ S)) by solve_member ]
  end.

Ltac eval_wrap :=
  repeat match goal with
  | |- context [wrap64 ?e] =>
      let v := eval vm_compute in (wrap64 e) in change (wrap64 e) with v
  end.

Ltac eval_test :=
  repeat match goal with
  | |- context [Z.eqb ?a ?b] =>
      first [ rewrite (proj2 (Z.eqb_eq a b)) by lia
            | rewrite (proj2 (Z.eqb_neq a b)) by lia ]
  | |- context [Z.ltb ?a ?b] =>
      first [ rewrite (proj2 (Z.ltb_lt a b)) by lia
            | rewrite (proj2 (Z.ltb_ge a b)) by lia ]
  end.

Ltac eval_lookup :=
  repeat first
    [ rewrite lookup_insert_eq
    | rewrite lookup_insert_ne by done
    | rewrite lookup_delete_eq
    | rewrite lookup_delete_ne by done
    | rewrite lookup_empty ].

Ltac eval_filter :=
  repeat first
    [ rewrite filter_nil
    | rewrite filter_cons_True by done
    | rewrite filter_cons_False by (intros Hne'; by apply Hne') ].

Ltac eval_norm :=
  cbv [set_curr_size set_nodes set_lists set_history_frames set_buffer_frames
       InsertNode EvictNodeFromList MoveNodeToHead
       curr_size_ replacer_size_ k_ nodes history_list history_frames_
       history_frame_size_ buffer_list buffer_frames_ buffer_frame_size_
       frame_id_ access_times_ evictable_].

Ltac eval_op :=
  eval_norm; eval_member; cbn [andb orb negb assert mbind option_bind]; eval_norm;
  eval_wrap; eval_test; eval_lookup; eval_norm; eval_filter; cbn [negb];
  rewrite ?insert_insert_eq.

Lemma in_range n f : 0 ≤ n < 2 ^ 64 → 0 ≤ f ≤ n → assert (to_size_t f <=? n) = Some tt.
Proof.
  intros Hn Hf. apply assert_true, Z.leb_le. unfold to_size_t. rewrite wrap64_small; lia.
Qed.

Lemma run_step o ops r r1 r2 :
  exec o r = Some r1 → run ops r1 = Some r2 → run (o :: ops) r = Some r2.
Proof. intros H1 H2. cbn [run]. by rewrite H1. Qed.

Ltac eval_RecordAccess :=
  unfold RecordAccess; eval_norm; rewrite in_range by (done || lia);
  unfold GetNode; eval_op; unfold RecordAccess_node; eval_op; eval_op;
  cbn [mbind option_bind].

Ltac eval_SetEvictable :=
  unfold SetEvictable; eval_norm; rewrite in_range by (done || lia);
  unfold GetNode; eval_op;
  rewrite ?(bool_decide_eq_false_2 (false = true)) by done; eval_op;
  cbn [mbind option_bind].

Ltac eval_step :=
  eapply run_step;
  [ cbn [exec];
    lazymatch goal with
    | |- RecordAccess _ _ = _ => eval_RecordAccess
    | |- SetEvictable _ _ _ = _ => eval_SetEvictable
    end; reflexivity |].

Ltac eval_Evict :=
  unfold Evict, GetFirstEvictableNode; eval_norm; eval_test;
  cbn [rev app List.find]; unfold node_evictable; eval_op;
  cbn [rev app List.find mbind option_bind]; eval_op.

(** The scenario of the LRU-K description with K = 3, for two frames that
    are marked evictable before the first eviction. *)
Lemma scenario_marked n A B :
  2 ≤ n < 2 ^ 64 → 0 ≤ A ≤ n → 0 ≤ B ≤ n → A ≠ B →
  ∃ r1 r2 r3 r4,
    run [OpRecordAccess A; OpRecordAccess A; OpRecordAccess A; OpRecordAccess B;
         OpSetEvictable A true; OpSetEvictable B true] (new n 3) = Some r1 ∧
    Evict r1 = Some (Some B, r2) ∧
    run [OpRecordAccess B; OpRecordAccess B; OpRecordAccess A] r2 = Some r3 ∧
    Evict r3 = Some (Some A, r4).
Proof.
  intros Hn HA HB HAB. do 4 eexists. split_and!.
  - unfold new. do 6 eval_step. reflexivity.
  - eval_Evict. reflexivity.
  - do 3 eval_step. reflexivity.
  - eval_Evict. reflexivity.
Qed.

(** C2 (as amended).  In every state reached from the constructor with
    K at least 1, [Evict] either finds no tracked frame evictable and
    returns none without a change, or returns the evictable node nearest to
    the tail of the history list, and when the history list has none the
    one nearest to the tail of the cache list; that node is unlinked from
    its list, dropped from the tracking map and the store, and [Size] goes
    down by one.  With K = 3, after three accesses to frame A and one to
    frame B, both marked evictable, [Evict] yields B; after two more
    accesses to B and one more to A, [Evict] yields A. *)
Theorem Evict_tail_most_evictable :
  (∀ num_frames k ops r,
      0 ≤ num_frames < 2 ^ 64 → 1 ≤ k < 2 ^ 64 → Z.of_nat (length ops) < 2 ^ 64 →
      run ops (new num_frames k) = Some r →
      ((∀ f, tracked r f → node_evictable r f = false) ∧ Evict r = Some (None, r)) ∨
      (∃ a l1 l2 r',
          Evict r = Some (Some a, r') ∧
          tracked r a ∧ node_evictable r a = true ∧
          Forall (λ x, node_evictable r x = false) l2 ∧
          (history_list r = l1 ++ a :: l2 ∧
           history_list r' = l1 ++ l2 ∧ buffer_list r' = buffer_list r
           ∨
           Forall (λ x, node_evictable r x = false) (history_list r) ∧
           buffer_list r = l1 ++ a :: l2 ∧
           buffer_list r' = l1 ++ l2 ∧ history_list r' = history_list r) ∧
          ¬ tracked r' a ∧ a ∉ all_nodes r' ∧ nodes r' = delete a (nodes r) ∧
          Size r' = Size r - 1)) ∧
  (∀ num_frames A B,
      2 ≤ num_frames < 2 ^ 64 → 0 ≤ A ≤ num_frames → 0 ≤ B ≤ num_frames → A ≠ B →
      ∃ r1 r2 r3 r4,
        run [OpRecordAccess A; OpRecordAccess A; OpRecordAccess A; OpRecordAccess B;
             OpSetEvictable A true; OpSetEvictable B true] (new num_frames 3) = Some r1 ∧
        Evict r1 = Some (Some B, r2) ∧
        run [OpRecordAccess B; OpRecordAccess B; OpRecordAccess A] r2 = Some r3 ∧
        Evict r3 = Some (Some A, r4)).
Proof.
  split; [| apply scenario_marked].
  intros num_frames k ops r Hn Hk Hlen Hrun.
  pose proof (reach_wf _ _ _ _ Hn Hk Hlen Hrun) as Hwf.
  destruct (Evict_spec _ r Hwf) as [[He Hall] | (a & l1 & l2 & r' & ih & H)].
  - left. split; [| done]. intros f Hf.
    apply (wf_tracked _ _ _ Hwf) in Hf. rewrite Forall_forall in Hall. by apply Hall.
  - right. destruct H as (Hl & Ha & Hl2 & Hh & He & Hwf' & Hh' & Hb' & Hnd & Hcu).
    assert (a ∉ all_nodes r') as Hout.
    { rewrite <- (wf_nodes _ _ Hwf'), Hnd, lookup_delete_eq. by intros [? ?]. }
    exists a, l1, l2, r'. split_and!; try done.
    + apply (wf_tracked _ _ _ Hwf). unfold all_nodes.
      destruct ih; rewrite Hl, !elem_of_app, elem_of_cons; tauto.
    + destruct ih; [left | right]; auto.
    + by rewrite (wf_tracked _ _ _ Hwf').
Qed.

(** The scenario with accesses only: no frame is ever marked evictable and
    [Evict] finds nothing.  And when every node is marked evictable, the
    one that the second round of accesses creates for frame 2 included,
    the second [Evict] yields frame 2 again, from the history list. *)
Lemma Evict_scenario_as_stated :
  (∃ r, run [OpRecordAccess 1; OpRecordAccess 1; OpRecordAccess 1; OpRecordAccess 2]
            (new 7 3) = Some r ∧
        Evict r = Some (None, r)) ∧
  (∃ r1 r2 r3 r4,
      run [OpRecordAccess 1; OpRecordAccess 1; OpRecordAccess 1; OpRecordAccess 2;
           OpSetEvictable 1 true; OpSetEvictable 2 true] (new 7 3) = Some r1 ∧
      Evict r1 = Some (Some 2, r2) ∧
      run [OpRecordAccess 2; OpSetEvictable 2 true; OpRecordAccess 2; OpRecordAccess 1] r2
      = Some r3 ∧
      Evict r3 = Some (Some 2, r4)).
Proof.
  split.
  - eexists. split; [vm_compute; reflexivity | reflexivity].
  - eexists _, _, _, _. split; [vm_compute; reflexivity |].
    split; [vm_compute; reflexivity |]. split; [vm_compute; reflexivity |].
    vm_compute; reflexivity.
Qed.

Lemma Evict_tail_most_evictable_witness :
  (∃ r r',
      run [OpRecordAccess 1; OpRecordAccess 2; OpSetEvictable 1 true] (new 7 2) = Some r ∧
      Evict r = Some (Some 1, r') ∧ history_list r = [2; 1] ∧ history_list r' = [2]) ∧
  (∃ r1 r2 r3 r4,
      run [OpRecordAccess 1; OpRecordAccess 1; OpRecordAccess 1; OpRecordAccess 2;
           OpSetEvictable 1 true; OpSetEvictable 2 true] (new 7 3) = Some r1 ∧
      Evict r1 = Some (Some 2, r2) ∧
      run [OpRecordAccess 2; OpRecordAccess 2; OpRecordAccess 1] r2 = Some r3 ∧
      Evict r3 = Some (Some 1, r4)).
Proof.
  split.
  - pose (ops := [OpRecordAccess 1; OpRecordAccess 2; OpSetEvictable 1 true]).
    pose (r := mkLRUK 1 7 2
                 (<[1 := mkNode 1 1 true]> (<[2 := mkNode 2 1 false]> ∅))
                 [2; 1] ({[2]} ∪ ({[1]} ∪ ∅)) 2 [] ∅ 0).
    assert (run ops (new 7 2) = Some r) as Hrun by (vm_compute; reflexivity).
    destruct (proj1 Evict_tail_most_evictable 7 2 ops r
                ltac:(lia) ltac:(lia) ltac:(simpl; lia) Hrun)
      as [[_ He] | (a & l1 & l2 & r' & He & _)].
    + vm_compute in He. discriminate He.
    + exists r, r'. vm_compute in He. injection He as <- <-.
      split_and!; [exact Hrun | vm_compute; reflexivity | reflexivity | reflexivity].
  - apply (proj2 Evict_tail_most_evictable 7 1 2); [lia | lia | lia | lia].
Defined.

(** C8 (as amended).  In a state reached from the constructor with K at
    least 1, [RecordAccess f] for a frame id that passes the range check:
    on an untracked frame it changes nothing when [replacer_size_] frames
    are tracked, and otherwise creates a node with access count 1 and
    evictable flag false, at the head of the history list when K exceeds 1
    and at the head of the cache list when K is 1; on a tracked frame it
    adds one to the access count and, when the count reaches K, unlinks the
    node from the history list and links it at the head of the cache list,
    when the count exceeds K moves it to the head of the cache list, and
    when the count is strictly between 1 and K moves it to the head of the
    history list. *)
Theorem RecordAccess_spec num_frames k ops r f :
  0 ≤ num_frames < 2 ^ 64 → 1 ≤ k < 2 ^ 64 → Z.of_nat (length ops) + 1 < 2 ^ 64 →
  run ops (new num_frames k) = Some r →
  to_size_t f ≤ replacer_size_ r →
  Z.of_nat (size (history_frames_ r ∪ buffer_frames_ r)) ≤ replacer_size_ r ∧
  (¬ tracked r f →
   (Z.of_nat (size (history_frames_ r ∪ buffer_frames_ r)) = replacer_size_ r →
    RecordAccess f r = Some r) ∧
   (Z.of_nat (size (history_frames_ r ∪ buffer_frames_ r)) < replacer_size_ r →
    ∃ r', RecordAccess f r = Some r' ∧
          nodes r' = <[f := mkNode f 1 false]> (nodes r) ∧
          (1 < k_ r →
           history_list r' = f :: history_list r ∧ buffer_list r' = buffer_list r) ∧
          (k_ r = 1 →
           history_list r' = history_list r ∧ buffer_list r' = f :: buffer_list r))) ∧
  (tracked r f →
   ∃ n r', nodes r !! f = Some n ∧
           RecordAccess f r = Some r' ∧
           nodes r' = <[f := mkNode f (access_times_ n + 1) (evictable_ n)]> (nodes r) ∧
           (access_times_ n + 1 = k_ r →
            f ∈ history_list r ∧
            history_list r' = filter (λ a, a ≠ f) (history_list r) ∧
            buffer_list r' = f :: buffer_list r) ∧
           (k_ r < access_times_ n + 1 →
            history_list r' = history_list r ∧
            buffer_list r' = f :: filter (λ a, a ≠ f) (buffer_list r)) ∧
           (1 < access_times_ n + 1 < k_ r →
            history_list r' = f :: filter (λ a, a ≠ f) (history_list r) ∧
            buffer_list r' = buffer_list r)).
Proof.
  intros Hn Hk Hlen Hrun Hf.
  assert (Z.of_nat (length ops) < 2 ^ 64) as Hlen' by lia.
  pose proof (reach_wf _ _ _ _ Hn Hk Hlen' Hrun) as Hwf.
  pose proof (tracked_count _ _ Hwf) as Hcount.
  pose proof (wf_sizes _ _ Hwf) as (Hsum & _ & _ & Hcap).
  rewrite <- Hcount, Hsum. split; [lia |]. split.
  - intros Hnt. rewrite (wf_tracked _ _ _ Hwf) in Hnt.
    pose proof (RecordAccess_untracked _ r f Hwf ltac:(lia) Hf Hnt) as Hra.
    split; intros Hfull.
    + by rewrite decide_True in Hra.
    + rewrite decide_False in Hra by lia.
      destruct Hra as (r' & Hr' & _ & Hnd & _ & Hl). exists r'. split_and!; try done.
      * intros Hk1. by rewrite decide_False in Hl by lia.
      * intros Hk1. by rewrite decide_True in Hl.
  - intros Ht. rewrite (wf_tracked _ _ _ Hwf) in Ht.
    destruct (proj2 (wf_nodes _ _ Hwf f) Ht) as [n Hnode].
    destruct (RecordAccess_tracked _ r f n Hwf Hlen Hf Hnode)
      as (r' & Hr' & _ & Hnd & _ & Hl).
    exists n, r'. split_and!; try done.
    + intros Heq. rewrite decide_True in Hl by done. split; [| done].
      destruct (wf_node_place _ _ _ _ Hwf Hnode) as [(? & _) | (_ & _ & Hge)]; [done | lia].
    + intros Hgt. rewrite decide_False in Hl by lia. by rewrite decide_False in Hl by lia.
    + intros Hlt. rewrite decide_False in Hl by lia. by rewrite decide_True in Hl by lia.
Qed.

Lemma RecordAccess_spec_witness :
  ∃ r', RecordAccess 1 (new 7 2) = Some r' ∧
        nodes r' = <[1 := mkNode 1 1 false]> ∅ ∧
        history_list r' = [1] ∧ buffer_list r' = [].
Proof.
  destruct (RecordAccess_spec 7 2 [] (new 7 2) 1
              ltac:(lia) ltac:(lia) ltac:(simpl; lia) eq_refl ltac:(vm_compute; discriminate))
    as (_ & Hun & _).
  destruct Hun as [_ Hnew].
  - unfold tracked, new. cbn [history_frames_ buffer_frames_].
    rewrite !elem_of_empty. tauto.
  - destruct Hnew as (r' & Hr' & Hnd & Hl & _); [vm_compute; reflexivity |].
    exists r'. destruct Hl as [Hh Hb]; [vm_compute; reflexivity |]. done.
Defined.

(** With K = 1 the node of a new frame ends in the cache list. *)
Lemma RecordAccess_k1_new_node_in_cache :
  ∃ r', RecordAccess 1 (new 7 1) = Some r' ∧
        history_list r' = [] ∧ buffer_list r' = [1].
Proof. eexists. split; [vm_compute; reflexivity | split; reflexivity]. Qed.

End LRUK_facts.

(** ** The LRU-K replacer: assertions, representation, [SetEvictable] and [Remove] *)

Module LRUK_props.

Import LRUK LRUK_facts.

#[local] Arguments Z.eqb : simpl never.
#[local] Arguments Z.ltb : simpl never.
#[local] Arguments Z.leb : simpl never.
#[local] Arguments wrap64 : simpl never.

(** *** The parameters of the replacer *)

Lemma RecordAccess_params f r r' :
  RecordAccess f r = Some r' → replacer_size_ r' = replacer_size_ r ∧ k_ r' = k_ r.
Proof.
  unfold RecordAccess, RecordAccess_node. intros H.
  apply bind_Some in H as (u & _ & H). apply bind_Some in H as (node & _ & H).
  destruct node as [node |].
  - apply bind_Some in H as (n & _ & H). psimpl in H.
    repeat case_match; by simplify_eq.
  - case_match; [by simplify_eq |].
    apply bind_Some in H as (n & _ & H). psimpl in H.
    repeat case_match; by simplify_eq.
Qed.

Lemma SetEvictable_params f b r r' :
  SetEvictable f b r = Some r' → replacer_size_ r' = replacer_size_ r ∧ k_ r' = k_ r.
Proof.
  unfold SetEvictable. intros H.
  apply bind_Some in H as (u & _ & H). apply bind_Some in H as (node & _ & H).
  destruct node as [node |]; [| by simplify_eq].
  apply bind_Some in H as (n & _ & H). case_match; by simplify_eq.
Qed.

Lemma Remove_params f r r' :
  Remove f r = Some r' → replacer_size_ r' = replacer_size_ r ∧ k_ r' = k_ r.
Proof.
  unfold Remove. intros H.
  apply bind_Some in H as (u & _ & H). apply bind_Some in H as (node & _ & H).
  destruct node as [node |]; [| by simplify_eq].
  apply bind_Some in H as (n & _ & H). psimpl in H.
  repeat case_match; by simplify_eq.
Qed.

Lemma Evict_params o r r' :
  Evict r = Some (o, r') → replacer_size_ r' = replacer_size_ r ∧ k_ r' = k_ r.
Proof.
  unfold Evict. intros H. case_match; [by simplify_eq |].
  destruct (GetFirstEvictableNode true r) as [a |].
  - apply bind_Some in H as (node & _ & H). apply bind_Some in H as (n & _ & H).
    psimpl in H. by simplify_eq.
  - apply bind_Some in H as (node & _ & H). apply bind_Some in H as (n & _ & H).
    psimpl in H. by simplify_eq.
Qed.

Lemma exec_params o r r' :
  exec o r = Some r' → replacer_size_ r' = replacer_size_ r ∧ k_ r' = k_ r.
Proof.
  destruct o; cbn [exec]; intros H.
  - by eapply RecordAccess_params.
  - by eapply SetEvictable_params.
  - by eapply Remove_params.
  - apply fmap_Some in H as ([o r0] & H & ->). by eapply Evict_params.
Qed.

Lemma run_params ops r r' :
  run ops r = Some r' → replacer_size_ r' = replacer_size_ r ∧ k_ r' = k_ r.
Proof.
  revert r. induction ops as [| o ops IH]; intros r; cbn [run]; [by intros [= <-] |].
  intros H. apply bind_Some in H as (r1 & H1 & H).
  apply exec_params in H1 as [<- <-]. by apply IH.
Qed.

(** *** No assertion fails *)

(** The frame id of an operation passes the range assertion of a replacer
    for [num_frames] frames. *)
Definition op_in_range (num_frames : Z) (o : op) : Prop :=
  match o with
  | OpRecordAccess f | OpSetEvictable f _ | OpRemove f => to_size_t f ≤ num_frames
  | OpEvict => True
  end.

Lemma SetEvictable_total B r f b :
  wf B r → to_size_t f ≤ replacer_size_ r → is_Some (SetEvictable f b r).
Proof.
  intros Hwf Hf. unfold SetEvictable. rewrite assert_in_range by done.
  cbn [mbind option_bind]. rewrite (GetNode_wf B) by done. cbn [mbind option_bind].
  case_decide as Hin; [| by eexists].
  apply (wf_nodes _ _ Hwf) in Hin as [n ->]. cbn [mbind option_bind].
  case_bool_decide; by eexists.
Qed.

Lemma Remove_total B r f :
  wf B r → to_size_t f ≤ replacer_size_ r → is_Some (Remove f r).
Proof.
  intros Hwf Hf. unfold Remove. rewrite assert_in_range by done.
  cbn [mbind option_bind]. rewrite (GetNode_wf B) by done. cbn [mbind option_bind].
  case_decide as Hin; [| by eexists].
  apply (wf_nodes _ _ Hwf) in Hin as [n ->]. cbn [mbind option_bind].
  destruct (negb (evictable_ n)); by eexists.
Qed.

Lemma RecordAccess_total B r f :
  wf B r → 0 ≤ B → B + 1 < 2 ^ 64 → to_size_t f ≤ replacer_size_ r →
  is_Some (RecordAccess f r).
Proof.
  intros Hwf HB0 HB Hf. destruct (decide (f ∈ all_nodes r)) as [Hin | Hin].
  - apply (wf_nodes _ _ Hwf) in Hin as [n Hn].
    destruct (RecordAccess_tracked B r f n Hwf HB Hf Hn) as (r0 & -> & _). by eexists.
  - pose proof (RecordAccess_untracked B r f Hwf HB0 Hf Hin) as Hspec.
    case_decide; [rewrite Hspec; by eexists |].
    destruct Hspec as (r0 & -> & _). by eexists.
Qed.

Lemma exec_total B num_frames o r :
  wf B r → 0 ≤ B → B + 1 < 2 ^ 64 → replacer_size_ r = num_frames →
  op_in_range num_frames o → is_Some (exec o r).
Proof.
  intros Hwf HB0 HB Hn Ho. destruct o; cbn [exec op_in_range] in *.
  - apply (RecordAccess_total B); try done. by rewrite Hn.
  - apply (SetEvictable_total B); try done. by rewrite Hn.
  - apply (Remove_total B); try done. by rewrite Hn.
  - destruct (Evict_spec B r Hwf) as [[-> _] | (a & l1 & l2 & r' & ih & _ & _ & _ & _ & -> & _)];
      by eexists.
Qed.

Lemma run_total B num_frames ops r :
  wf B r → 0 ≤ B → B + Z.of_nat (length ops) < 2 ^ 64 →
  replacer_size_ r = num_frames →
  Forall (op_in_range num_frames) ops → is_Some (run ops r).
Proof.
  revert B r. induction ops as [| o ops IH]; intros B r Hwf HB0 HB Hn Hops; cbn [run].
  - by eexists.
  - apply Forall_cons in Hops as [Ho Hops]. cbn [length] in HB.
    destruct (exec_total B num_frames o r) as [r1 Hr1]; try done; [lia |].
    rewrite Hr1. cbn [mbind option_bind].
    apply (IH (B + 1)); try done; [| lia | lia |].
    + apply (exec_wf B o r); try done. lia.
    + apply exec_params in Hr1 as [-> _]. done.
Qed.

(** X5.  A replacer built with K at least 1 carries out every sequence of
    [RecordAccess], [SetEvictable], [Remove] and [Evict] calls whose frame
    ids pass the range assertion: the assertion of [GetNode] (a frame in
    both maps) and the one of [Evict] (a positive size but no evictable
    node) never fail. *)
Theorem replacer_assertions_hold num_frames k ops :
  0 ≤ num_frames < 2 ^ 64 → 1 ≤ k < 2 ^ 64 →
  Z.of_nat (length ops) < 2 ^ 64 →
  Forall (op_in_range num_frames) ops →
  ∃ r, run ops (new num_frames k) = Some r.
Proof.
  intros Hn Hk Hlen Hops.
  apply (run_total 0 num_frames ops (new num_frames k));
    [by apply wf_constructor | done | lia | done | done].
Qed.

Lemma replacer_assertions_hold_witness :
  ∃ r, run [OpRecordAccess 1; OpRecordAccess 7; OpSetEvictable 1 true; OpRemove 7;
            OpEvict; OpEvict; OpSetEvictable 3 false] (new 7 2) = Some r.
Proof.
  apply (replacer_assertions_hold 7 2
           [OpRecordAccess 1; OpRecordAccess 7; OpSetEvictable 1 true; OpRemove 7;
            OpEvict; OpEvict; OpSetEvictable 3 false]).
  - lia.
  - lia.
  - simpl. lia.
  - repeat constructor; vm_compute; discriminate.
Defined.

(** *** The representation, as its user sees it *)

(** X6.  In every state reached from the constructor with K at least 1:
    [Size()] is the number of tracked frames whose evictable flag is set;
    no more than [num_frames] frames are tracked; a frame is linked in one
    of the two lists only, and once; the two maps hold the frames of the
    two lists; and a tracked frame is in the history list exactly when it
    has fewer than K accesses, in the cache list exactly when it has K or
    more. *)
Theorem replacer_representation num_frames k ops r :
  0 ≤ num_frames < 2 ^ 64 → 1 ≤ k < 2 ^ 64 →
  Z.of_nat (length ops) < 2 ^ 64 →
  run ops (new num_frames k) = Some r →
  Size r = Z.of_nat (count_evictable r (all_nodes r)) ∧
  0 ≤ Size r ≤ Z.of_nat (length (all_nodes r)) ∧
  Z.of_nat (length (all_nodes r)) ≤ num_frames ∧
  NoDup (history_list r ++ buffer_list r) ∧
  (∀ f, f ∈ history_frames_ r ↔ f ∈ history_list r) ∧
  (∀ f, f ∈ buffer_frames_ r ↔ f ∈ buffer_list r) ∧
  (∀ f, tracked r f →
        ∃ n, nodes r !! f = Some n ∧ frame_id_ n = f ∧ 1 ≤ access_times_ n ∧
             (f ∈ history_list r ↔ access_times_ n < k) ∧
             (f ∈ buffer_list r ↔ k ≤ access_times_ n)).
Proof.
  intros Hn Hk Hlen Hrun.
  pose proof (reach_wf _ _ _ _ Hn Hk Hlen Hrun) as Hwf.
  apply run_params in Hrun as [Hrs Hkk]. cbn [new replacer_size_ k_] in Hrs, Hkk.
  pose proof (wf_sizes _ _ Hwf) as (_ & _ & _ & Hcap).
  pose proof (count_evictable_le r (all_nodes r)) as Hle.
  unfold Size. rewrite (wf_curr _ _ Hwf). split_and!; try lia.
  - apply (wf_nodup _ _ Hwf).
  - apply (wf_hframes _ _ Hwf).
  - apply (wf_bframes _ _ Hwf).
  - intros f Hf. apply (wf_tracked _ _ _ Hwf) in Hf.
    apply (wf_nodes _ _ Hwf) in Hf as [n Hnode]. exists n.
    pose proof (wf_times _ _ Hwf _ _ Hnode) as [Ht _].
    split; [done |]. split; [by apply (wf_addr _ _ Hwf) |]. split; [done |].
    rewrite <- Hkk.
    destruct (wf_node_place _ _ _ _ Hwf Hnode) as [(Hh & Hb & Hlt) | (Hb & Hh & Hge)].
    + split; split; try done; intros; lia.
    + split; split; try done; intros; lia.
Qed.

Lemma replacer_representation_witness :
  ∃ r, run [OpRecordAccess 1; OpRecordAccess 1; OpRecordAccess 2; OpSetEvictable 2 true]
           (new 7 2) = Some r ∧
       Size r = Z.of_nat (count_evictable r (all_nodes r)) ∧
       0 ≤ Size r ≤ Z.of_nat (length (all_nodes r)) ∧
       Z.of_nat (length (all_nodes r)) ≤ 7 ∧
       NoDup (history_list r ++ buffer_list r) ∧
       (∀ f, f ∈ history_frames_ r ↔ f ∈ history_list r) ∧
       (∀ f, f ∈ buffer_frames_ r ↔ f ∈ buffer_list r) ∧
       (∀ f, tracked r f →
             ∃ n, nodes r !! f = Some n ∧ frame_id_ n = f ∧ 1 ≤ access_times_ n ∧
                  (f ∈ history_list r ↔ access_times_ n < 2) ∧
                  (f ∈ buffer_list r ↔ 2 ≤ access_times_ n)).
Proof.
  eexists. split; [vm_compute; reflexivity |].
  apply (replacer_representation 7 2
           [OpRecordAccess 1; OpRecordAccess 1; OpRecordAccess 2; OpSetEvictable 2 true]).
  - lia.
  - lia.
  - simpl. lia.
  - vm_compute. reflexivity.
Defined.

(** *** [SetEvictable] and [Remove] *)

Lemma SetEvictable_spec B r f b :
  wf B r → to_size_t f ≤ replacer_size_ r →
  ∃ r', SetEvictable f b r = Some r' ∧
        history_list r' = history_list r ∧ buffer_list r' = buffer_list r ∧
        history_frames_ r' = history_frames_ r ∧ buffer_frames_ r' = buffer_frames_ r ∧
        (∀ g, g ≠ f → nodes r' !! g = nodes r !! g) ∧
        ((f ∉ all_nodes r) → r' = r) ∧
        (∀ n, nodes r !! f = Some n →
              nodes r' !! f = Some (mkNode f (access_times_ n) b) ∧
              curr_size_ r' = curr_size_ r + Z.b2z b - Z.b2z (evictable_ n)).
Proof.
  intros Hwf Hf. unfold SetEvictable. rewrite assert_in_range by done.
  cbn [mbind option_bind]. rewrite (GetNode_wf B) by done. cbn [mbind option_bind].
  case_decide as Hin.
  - pose proof Hin as Hin'. apply (wf_nodes _ _ Hwf) in Hin' as [n Hn]. rewrite Hn.
    cbn [mbind option_bind]. pose proof (wf_addr _ _ Hwf _ _ Hn) as Hid.
    case_bool_decide as Hb.
    + exists r. split_and!; try done. intros n' Hn'.
      injection Hn' as <-. split; [| rewrite Hb; lia]. rewrite Hn. destruct n. cbn in *. by subst.
    + destruct (wf_flag B r f n b Hwf Hn Hb) as [_ Hw]. eexists. split; [done |].
      psimpl. split_and!; try done.
      * intros g Hg. by rewrite lookup_insert_ne.
      * intros n' Hn'. injection Hn' as <-.
        rewrite lookup_insert_eq, Hid, Hw. split; [done |].
        destruct (evictable_ n), b; cbn; try done; lia.
  - exists r. split_and!; try done. intros n Hn. exfalso. apply Hin.
    apply (wf_nodes _ _ Hwf). by eexists.
Qed.

(** X7.  [SetEvictable(f, b)], in a state reached from the constructor
    with K at least 1 and for a frame id in range, does nothing at all for
    an untracked frame; for a tracked one it sets the flag to [b] and
    moves [Size()] by the difference (one up, one down, or none when the
    flag had that value already).  The lists, the access counts and the
    other frames stay as they are. *)
Theorem SetEvictable_cases num_frames k ops r f b :
  0 ≤ num_frames < 2 ^ 64 → 1 ≤ k < 2 ^ 64 →
  Z.of_nat (length ops) < 2 ^ 64 →
  run ops (new num_frames k) = Some r →
  to_size_t f ≤ num_frames →
  ∃ r', SetEvictable f b r = Some r' ∧
        history_list r' = history_list r ∧ buffer_list r' = buffer_list r ∧
        (∀ g, tracked r' g ↔ tracked r g) ∧
        (∀ g, g ≠ f → nodes r' !! g = nodes r !! g) ∧
        (¬ tracked r f → r' = r) ∧
        (tracked r f →
         node_evictable r' f = b ∧
         access_times_ <$> nodes r' !! f = access_times_ <$> nodes r !! f ∧
         Size r' = Size r + Z.b2z b - Z.b2z (node_evictable r f)).
Proof.
  intros Hn Hk Hlen Hrun Hf.
  pose proof (reach_wf _ _ _ _ Hn Hk Hlen Hrun) as Hwf.
  apply run_params in Hrun as [Hrs _]. cbn [new replacer_size_] in Hrs.
  destruct (SetEvictable_spec _ r f b Hwf ltac:(by rewrite Hrs))
    as (r' & Hr' & Hh & Hb & Hhf & Hbf & Hoth & Hun & Htr).
  exists r'. split_and!; try done.
  - intros g. unfold tracked. by rewrite Hhf, Hbf.
  - intros Hnt. apply Hun. by rewrite <- (wf_tracked _ _ _ Hwf).
  - intros Ht. apply (wf_tracked _ _ _ Hwf), (wf_nodes _ _ Hwf) in Ht as [n Hnode].
    destruct (Htr n Hnode) as [Hn' Hc]. unfold node_evictable, Size.
    rewrite Hn', Hnode. done.
Qed.

Lemma SetEvictable_cases_witness :
  let r := mkLRUK 0 7 2 (<[2 := mkNode 2 1 false]> (<[1 := mkNode 1 1 false]> ∅))
                  [2; 1] ({[2]} ∪ ({[1]} ∪ ∅)) 2 [] ∅ 0 in
  run [OpRecordAccess 1; OpRecordAccess 2] (new 7 2) = Some r ∧
  ∃ r', SetEvictable 1 true r = Some r' ∧
        history_list r' = history_list r ∧ buffer_list r' = buffer_list r ∧
        (∀ g, tracked r' g ↔ tracked r g) ∧
        (∀ g, g ≠ 1 → nodes r' !! g = nodes r !! g) ∧
        (¬ tracked r 1 → r' = r) ∧
        (tracked r 1 →
         node_evictable r' 1 = true ∧
         access_times_ <$> nodes r' !! 1 = access_times_ <$> nodes r !! 1 ∧
         Size r' = Size r + Z.b2z true - Z.b2z (node_evictable r 1)).
Proof.
  split; [vm_compute; reflexivity |].
  apply (SetEvictable_cases 7 2 [OpRecordAccess 1; OpRecordAccess 2]).
  - lia.
  - lia.
  - simpl. lia.
  - vm_compute. reflexivity.
  - vm_compute. discriminate.
Defined.

Lemma Remove_spec B r f :
  wf B r → to_size_t f ≤ replacer_size_ r →
  ∃ r', Remove f r = Some r' ∧ wf B r' ∧
        ((f ∉ all_nodes r) ∨ node_evictable r f = false → r' = r) ∧
        (f ∈ all_nodes r → node_evictable r f = true →
         nodes r' = delete f (nodes r) ∧
         history_list r' = filter (λ a, a ≠ f) (history_list r) ∧
         buffer_list r' = filter (λ a, a ≠ f) (buffer_list r) ∧
         curr_size_ r' = curr_size_ r - 1).
Proof.
  intros Hwf Hf. destruct (Remove_total B r f Hwf Hf) as [r' Hr'].
  exists r'. split; [done |]. split; [by eapply Remove_wf |].
  unfold Remove in Hr'. rewrite assert_in_range in Hr' by done.
  cbn [mbind option_bind] in Hr'. rewrite (GetNode_wf B) in Hr' by done.
  cbn [mbind option_bind] in Hr'. unfold node_evictable. case_decide as Hin.
  - pose proof Hin as Hin'. apply (wf_nodes _ _ Hwf) in Hin' as [n Hn].
    rewrite Hn in Hr' |- *. cbn [mbind option_bind] in Hr'.
    destruct (evictable_ n) eqn:Hev; cbn [negb] in Hr'.
    + split; [intros [? | ?]; done |]. intros _ _.
      pose proof (wf_sizes _ _ Hwf) as (Hsum & Hh0 & Hb0 & Hcap).
      pose proof (wf_hsize _ _ Hwf) as Hhs. pose proof (wf_bsize _ _ Hwf) as Hbs.
      pose proof (wf_hframes _ _ Hwf) as Hhf. pose proof (wf_bframes _ _ Hwf) as Hbf.
      pose proof (wf_history_nodup _ _ Hwf) as [Hndh Hndb].
      assert (curr_size_ r' = wrap64 (curr_size_ r - 1) ∧
              nodes r' = delete f (nodes r) ∧
              history_list r' = filter (λ a, a ≠ f) (history_list r) ∧
              buffer_list r' = filter (λ a, a ≠ f) (buffer_list r)) as (Hc & Hnd & Hh & Hb).
      { case_bool_decide; injection Hr' as <-; by psimpl. }
      split_and!; try done. rewrite Hc. apply wrap64_small.
      pose proof (wf_curr _ _ Hwf) as Hcu.
      assert (node_evictable r f = true) as Hne by (unfold node_evictable; by rewrite Hn).
      pose proof (count_evictable_le r (all_nodes r)) as Hle.
      assert (1 ≤ count_evictable r (all_nodes r))%nat as Hpos.
      { rewrite (count_evictable_unlink _ f (all_nodes r));
          [| apply (wf_nodup _ _ Hwf) | done].
        rewrite Hne. lia. }
      lia.
    + injection Hr' as <-. split; [done |]. intros _ Habs. done.
  - injection Hr' as <-. split; [done |]. intros Hin'. done.
Qed.

(** X8.  [Remove(f)], in a state reached from the constructor with K at
    least 1 and for a frame id in range, does nothing at all when the
    frame is not tracked or is not evictable; otherwise it unlinks the
    frame, drops it from the tracking maps and the store, and [Size()]
    goes down by one, the other frames keeping their order. *)
Theorem Remove_cases num_frames k ops r f :
  0 ≤ num_frames < 2 ^ 64 → 1 ≤ k < 2 ^ 64 →
  Z.of_nat (length ops) < 2 ^ 64 →
  run ops (new num_frames k) = Some r →
  to_size_t f ≤ num_frames →
  ∃ r', Remove f r = Some r' ∧
        (¬ tracked r f ∨ node_evictable r f = false → r' = r) ∧
        (tracked r f → node_evictable r f = true →
         ¬ tracked r' f ∧
         nodes r' = delete f (nodes r) ∧
         history_list r' = filter (λ a, a ≠ f) (history_list r) ∧
         buffer_list r' = filter (λ a, a ≠ f) (buffer_list r) ∧
         Size r' = Size r - 1).
Proof.
  intros Hn Hk Hlen Hrun Hf.
  pose proof (reach_wf _ _ _ _ Hn Hk Hlen Hrun) as Hwf.
  apply run_params in Hrun as [Hrs _]. cbn [new replacer_size_] in Hrs.
  destruct (Remove_spec _ r f Hwf ltac:(by rewrite Hrs)) as (r' & Hr' & Hwf' & Hno & Hyes).
  exists r'. split; [done |]. split.
  - rewrite (wf_tracked _ _ _ Hwf). exact Hno.
  - intros Ht Hev. apply (wf_tracked _ _ _ Hwf) in Ht.
    destruct (Hyes Ht Hev) as (Hnd & Hh & Hb & Hc). split_and!; try done.
    rewrite (wf_tracked _ _ _ Hwf'), <- (wf_nodes _ _ Hwf'), Hnd, lookup_delete_eq.
    by intros [? ?].
Qed.

Lemma Remove_cases_witness :
  let r := mkLRUK 1 7 2 (<[1 := mkNode 1 1 true]> (<[2 := mkNode 2 1 false]> ∅))
                  [2; 1] ({[2]} ∪ ({[1]} ∪ ∅)) 2 [] ∅ 0 in
  run [OpRecordAccess 1; OpRecordAccess 2; OpSetEvictable 1 true] (new 7 2) = Some r ∧
  ∃ r', Remove 1 r = Some r' ∧
        (¬ tracked r 1 ∨ node_evictable r 1 = false → r' = r) ∧
        (tracked r 1 → node_evictable r 1 = true →
         ¬ tracked r' 1 ∧
         nodes r' = delete 1 (nodes r) ∧
         history_list r' = filter (λ a, a ≠ 1) (history_list r) ∧
         buffer_list r' = filter (λ a, a ≠ 1) (buffer_list r) ∧
         Size r' = Size r - 1).
Proof.
  split; [vm_compute; reflexivity |].
  apply (Remove_cases 7 2 [OpRecordAccess 1; OpRecordAccess 2; OpSetEvictable 1 true]).
  - lia.
  - lia.
  - simpl. lia.
  - vm_compute. reflexivity.
  - vm_compute. discriminate.
Defined.

End LRUK_props.

(** ** The extendible hash table *)

(** *** Low bits *)

Lemma low_eq_testbit n i j :
  0 ≤ n → low_eq n i j ↔ ∀ m, 0 ≤ m < n → Z.testbit i m = Z.testbit j m.
Proof.
  intros Hn. unfold low_eq. split.
  - intros H m Hm.
    rewrite <- (Z.mod_pow2_bits_low i n m), <- (Z.mod_pow2_bits_low j n m) by lia.
    by rewrite H.
  - intros H. apply Z.bits_inj'. intros m Hm.
    destruct (Z.lt_ge_cases m n).
    + rewrite !Z.mod_pow2_bits_low by lia. apply H. lia.
    + rewrite !Z.mod_pow2_bits_high by lia. done.
Qed.

Lemma low_eq_le n m i j : 0 ≤ n ≤ m → low_eq m i j → low_eq n i j.
Proof.
  intros Hn. rewrite !low_eq_testbit by lia. intros H k Hk. apply H. lia.
Qed.

Lemma low_eq_mod n m i : 0 ≤ n ≤ m → low_eq n (i mod 2 ^ m) i.
Proof.
  intros Hn. apply low_eq_testbit; [lia |]. intros k Hk.
  apply Z.mod_pow2_bits_low. lia.
Qed.

Lemma lxor_pow2_testbit x d m :
  0 ≤ d → 0 ≤ m →
  Z.testbit (Z.lxor x (2 ^ d)) m = xorb (Z.testbit x m) (bool_decide (d = m)).
Proof.
  intros Hd Hm. rewrite Z.lxor_spec, Z.pow2_bits_eqb by lia.
  f_equal. destruct (Z.eqb_spec d m); by case_bool_decide.
Qed.

(** The pair index agrees with the slot on the bits below [d], and differs
    from it at bit [d]. *)
Lemma pair_low_eq x d : 0 ≤ d → low_eq d (Z.lxor x (2 ^ d)) x.
Proof.
  intros Hd. apply low_eq_testbit; [done |]. intros m Hm.
  rewrite lxor_pow2_testbit by lia. rewrite bool_decide_eq_false_2 by lia.
  apply xorb_false_r.
Qed.

Lemma pair_not_low_eq x d : 0 ≤ d → ¬ low_eq (d + 1) (Z.lxor x (2 ^ d)) x.
Proof.
  intros Hd. rewrite low_eq_testbit by lia. intros H.
  specialize (H d ltac:(lia)). rewrite lxor_pow2_testbit in H by lia.
  rewrite bool_decide_eq_true_2 in H by done. by destruct (Z.testbit x d).
Qed.

Lemma low_eq_split x d j :
  0 ≤ d → low_eq d j x →
  low_eq (d + 1) j x ∨ low_eq (d + 1) j (Z.lxor x (2 ^ d)).
Proof.
  intros Hd. rewrite !low_eq_testbit by lia. intros H.
  destruct (decide (Z.testbit j d = Z.testbit x d)) as [He | Hne].
  - left. intros m Hm. destruct (decide (m = d)) as [-> |]; [done | apply H; lia].
  - right. intros m Hm. rewrite lxor_pow2_testbit by lia.
    destruct (decide (m = d)) as [-> |].
    + rewrite bool_decide_eq_true_2 by done.
      destruct (Z.testbit j d), (Z.testbit x d); done.
    + rewrite bool_decide_eq_false_2 by lia. rewrite xorb_false_r. apply H. lia.
Qed.

Lemma lxor_pow2_range x d g :
  0 ≤ d < g → 0 ≤ x < 2 ^ g → 0 ≤ Z.lxor x (2 ^ d) < 2 ^ g.
Proof.
  intros Hd Hx.
  assert (0 ≤ Z.lxor x (2 ^ d)) as H0 by (apply Z.lxor_nonneg; lia).
  split; [done |].
  destruct (decide (Z.lxor x (2 ^ d) = 0)) as [-> | Hne]; [lia |].
  apply Z.log2_lt_pow2; [lia |].
  assert (Z.log2 (Z.lxor x (2 ^ d)) ≤ Z.max (Z.log2 x) (Z.log2 (2 ^ d))) as Hl
    by (apply Z.log2_lxor; lia).
  rewrite Z.log2_pow2 in Hl by lia.
  destruct (decide (x = 0)) as [-> | Hx0].
  - simpl in Hl. lia.
  - assert (Z.log2 x < g) by (apply Z.log2_lt_pow2; lia). lia.
Qed.

Lemma low_eq_near n i j : 0 ≤ n → low_eq n i j → - 2 ^ n < i - j < 2 ^ n → i = j.
Proof.
  intros Hn H Hd. unfold low_eq in H.
  pose proof (Z.pow_pos_nonneg 2 n).
  rewrite (Z.div_mod i (2 ^ n)), (Z.div_mod j (2 ^ n)) in Hd by lia.
  rewrite H in Hd.
  assert (i / 2 ^ n = j / 2 ^ n) by nia.
  rewrite (Z.div_mod i (2 ^ n)), (Z.div_mod j (2 ^ n)) by lia. congruence.
Qed.

Lemma low_eq_refl n i : low_eq n i i.
Proof. done. Qed.

Lemma low_eq_sym n i j : low_eq n i j → low_eq n j i.
Proof. unfold low_eq. congruence. Qed.

Lemma low_eq_trans n i j k : low_eq n i j → low_eq n j k → low_eq n i k.
Proof. unfold low_eq. congruence. Qed.

Lemma low_eq_add n i : low_eq n (i + 2 ^ n) i.
Proof.
  unfold low_eq. replace (i + 2 ^ n) with (i + 1 * 2 ^ n) by lia.
  apply Z_mod_plus_full.
Qed.

Lemma low_eq_sub n i : low_eq n (i - 2 ^ n) i.
Proof.
  unfold low_eq. replace (i - 2 ^ n) with (i + (-1) * 2 ^ n) by lia.
  apply Z_mod_plus_full.
Qed.

#[local] Instance low_eq_dec n i j : Decision (low_eq n i j).
Proof. unfold low_eq. apply _. Defined.

Module Hash_facts.

Import Hash.


Lemma rewire_down_spec n fuel i p dir dir' a :
  0 ≤ n → zlookup dir p = Some a → low_eq n i p → i < p →
  rewire_down fuel i (2 ^ n) p dir = Some dir' →
  length dir' = length dir ∧
  ∀ j, zlookup dir' j =
       if decide (0 ≤ j ≤ i ∧ low_eq n j p) then Some a else zlookup dir j.
Proof.
  intros Hn. revert i dir. induction fuel as [| fuel IH]; intros i dir Hp Hi Hlt; simpl.
  - destruct (Z.ltb_spec i 0) as [Hneg | Hnn]; [| done]. intros [= <-]. split; [done |].
    intros j. case_decide; [lia | done].
  - destruct (Z.ltb_spec i 0) as [Hneg | Hnn].
    { intros [= <-]. split; [done |]. intros j. case_decide; [lia | done]. }
    rewrite Hp. simpl. intros H. apply bind_Some in H as (dir1 & Hst & H).
    pose proof (zlookup_zstore _ _ _ _ p Hst) as Hp1.
    destruct (decide (p = i)); [lia |]. rewrite Hp in Hp1.
    apply IH in H as [Hlen Hj]; [| done | | lia].
    2:{ eapply low_eq_trans; [apply low_eq_sub | done]. }
    split; [by rewrite Hlen; eapply zstore_length |].
    intros j. rewrite Hj, (zlookup_zstore _ _ _ _ j Hst).
    assert (0 < 2 ^ n) as Hpow by (apply Z.pow_pos_nonneg; lia).
    destruct (decide (j = i)) as [-> | Hji].
    + rewrite (decide_True (P := 0 ≤ i ≤ i ∧ _)) by (split; [lia | done]).
      by case_decide.
    + case_decide as H1; case_decide as H2; try done.
      * destruct H2. split; [lia | tauto].
      * destruct H1. split; [| tauto].
        destruct (decide (j ≤ i - 2 ^ n)); [lia |].
        destruct Hji. apply (low_eq_near n); [done | | lia].
        eapply low_eq_trans; [apply H2 | by apply low_eq_sym].
Qed.

Lemma rewire_up_spec n fuel i p dir_size dir dir' a :
  0 ≤ n → zlookup dir p = Some a → low_eq n i p → p < i →
  rewire_up fuel i (2 ^ n) p dir_size dir = Some dir' →
  length dir' = length dir ∧
  ∀ j, zlookup dir' j =
       if decide (i ≤ j < dir_size ∧ low_eq n j p) then Some a else zlookup dir j.
Proof.
  intros Hn. revert i dir. induction fuel as [| fuel IH]; intros i dir Hp Hi Hlt; simpl.
  - destruct (Z.leb_spec dir_size i) as [Hge | Hlt']; [| done]. intros [= <-]. split; [done |].
    intros j. case_decide; [lia | done].
  - destruct (Z.leb_spec dir_size i) as [Hge | Hlt'].
    { intros [= <-]. split; [done |]. intros j. case_decide; [lia | done]. }
    rewrite Hp. simpl. intros H. apply bind_Some in H as (dir1 & Hst & H).
    pose proof (zlookup_zstore _ _ _ _ p Hst) as Hp1.
    destruct (decide (p = i)); [lia |]. rewrite Hp in Hp1.
    apply IH in H as [Hlen Hj]; [| done | | lia].
    2:{ eapply low_eq_trans; [apply low_eq_add | done]. }
    split; [by rewrite Hlen; eapply zstore_length |].
    intros j. rewrite Hj, (zlookup_zstore _ _ _ _ j Hst).
    assert (0 < 2 ^ n) as Hpow by (apply Z.pow_pos_nonneg; lia).
    destruct (decide (j = i)) as [-> | Hji].
    + rewrite (decide_True (P := i ≤ i < dir_size ∧ _)) by (split; [lia | done]).
      by case_decide.
    + case_decide as H1; case_decide as H2; try done.
      * destruct H2. split; [lia | tauto].
      * destruct H1. split; [| tauto].
        destruct (decide (i + 2 ^ n ≤ j)); [lia |].
        destruct Hji. apply (low_eq_near n); [done | | lia].
        eapply low_eq_trans; [apply H2 | by apply low_eq_sym].
Qed.

Lemma grow_dir_spec n i dir dir' :
  grow_dir n i dir = Some dir' → (i + n ≤ length dir)%nat →
  dir' = dir ++ take n (drop i dir).
Proof.
  revert i dir. induction n as [| n IH]; intros i dir; simpl.
  - intros [= <-] _. by rewrite app_nil_r.
  - intros H Hlen. apply bind_Some in H as (a & Ha & H).
    apply IH in H; [| rewrite length_app; simpl; lia].
    rewrite H, <- app_assoc. f_equal.
    rewrite (drop_S _ _ _ Ha). simpl. f_equal.
    rewrite drop_app_le by lia. rewrite take_app_le; [done |].
    rewrite length_drop. lia.
Qed.

Lemma zlookup_app_double {A} (l : list A) g j :
  0 ≤ g → Z.of_nat (length l) = 2 ^ g → 0 ≤ j < 2 ^ (g + 1) →
  zlookup (l ++ l) j = zlookup l (j mod 2 ^ g).
Proof.
  intros Hg Hl Hj. rewrite Z.pow_add_r, Z.pow_1_r in Hj by lia. unfold zlookup.
  assert (0 < 2 ^ g) as Hpow by (apply Z.pow_pos_nonneg; lia).
  pose proof (Z.mod_pos_bound j (2 ^ g) Hpow).
  destruct (Z.ltb_spec j 0); [lia |]. destruct (Z.ltb_spec (j mod 2 ^ g) 0); [lia |].
  destruct (decide (j < 2 ^ g)).
  - rewrite Z.mod_small by lia. apply lookup_app_l. lia.
  - rewrite lookup_app_r by lia. f_equal.
    replace (j mod 2 ^ g) with (j - 2 ^ g); [lia |].
    apply Z.mod_unique with 1; lia.
Qed.

Lemma dir_ok_double gd dir dp :
  dir_ok gd dir dp → dir_ok (gd + 1) (dir ++ dir) dp.
Proof.
  intros (Hg & Hl & Hs & Hall). split; [lia |].
  assert (0 < 2 ^ gd) as Hpow by (apply Z.pow_pos_nonneg; lia).
  split; [rewrite length_app, Z.pow_add_r, Z.pow_1_r; lia |].
  split.
  2:{ intros a Ha. destruct (Hall a Ha) as [i Hi]. exists i.
      pose proof (zlookup_Some _ _ _ Hi) as [Hr _].
      rewrite (zlookup_app_double _ gd), Z.mod_small; try done; try lia.
      rewrite Z.pow_add_r, Z.pow_1_r by lia. lia. }
  intros i a Hi.
  assert (0 ≤ i < 2 ^ (gd + 1)) as Hir.
  { apply zlookup_Some in Hi as [Hi _]. rewrite length_app in Hi.
    rewrite Z.pow_add_r, Z.pow_1_r by lia. lia. }
  rewrite (zlookup_app_double _ gd) in Hi by done.
  destruct (Hs _ _ Hi) as (d & Hd & Hdg & Hj).
  exists d. split; [done |]. split; [lia |]. intros j Hjr.
  rewrite (zlookup_app_double _ gd) by done.
  rewrite Hj by (apply Z.mod_pos_bound; lia).
  split; intros H.
  - eapply low_eq_trans; [apply low_eq_sym, (low_eq_mod d gd); lia |].
    eapply low_eq_trans; [apply H |]. apply low_eq_mod. lia.
  - eapply low_eq_trans; [apply (low_eq_mod d gd); lia |].
    eapply low_eq_trans; [apply H |]. apply low_eq_sym, low_eq_mod. lia.
Qed.

Lemma dir_ok_split gd dir dp x a d dir' :
  dir_ok gd dir dp →
  zlookup dir x = Some a → dp !! a = Some d → d < gd →
  length dir' = length dir →
  (∀ j, zlookup dir' j =
        if decide (0 ≤ j < 2 ^ gd ∧ low_eq (d + 1) j (Z.lxor x (2 ^ d)))
        then Some (length dp) else zlookup dir j) →
  dir_ok gd dir' (<[a := d + 1]> dp ++ [d + 1]).
Proof.
  intros (Hg & Hl & Hs & Hall) Hx Hd Hdg Hlen Hdir'.
  set (p := Z.lxor x (2 ^ d)) in *.
  destruct (Hs _ _ Hx) as (d0 & Hd0 & Hd0g & Hxa). simplify_eq.
  assert (0 ≤ x < 2 ^ gd) as Hxr by (apply zlookup_Some in Hx; lia).
  assert (∀ i c, zlookup dir i = Some c → (c < length dp)%nat) as Hfresh.
  { intros i c Hi. destruct (Hs _ _ Hi) as (? & Hc & _). by apply lookup_lt_Some in Hc. }
  assert (a < length dp)%nat as Ha by eauto.
  split; [done |]. split; [lia |]. split.
  2:{ intros c Hc. rewrite length_app, length_insert in Hc. simpl in Hc.
      pose proof (lxor_pow2_range x d gd ltac:(lia) Hxr) as Hpr. fold p in Hpr.
      destruct (decide (c = length dp)) as [-> | Hcs].
      { exists p. rewrite Hdir'. by rewrite decide_True. }
      destruct (decide (c = a)) as [-> | Hca].
      { exists x. rewrite Hdir'. rewrite decide_False; [done |].
        intros [_ Hxp]. apply (pair_not_low_eq x d); [lia |]. by apply low_eq_sym. }
      destruct (Hall c ltac:(lia)) as [i Hi]. exists i.
      rewrite Hdir'. rewrite decide_False; [done |]. intros [Hir Hip].
      apply Hca. assert (zlookup dir i = Some a) as Hia; [| congruence].
      apply Hxa; [done |]. eapply low_eq_trans; [| apply (pair_low_eq x d); lia].
      apply (low_eq_le d (d + 1)); [lia | done]. }
  intros i c Hi.
  assert (0 ≤ i < 2 ^ gd) as Hir by (apply zlookup_Some in Hi; lia).
  rewrite Hdir' in Hi. case_decide as Hci.
  - (* the sibling *)
    injection Hi as <-. exists (d + 1). split; [| split; [lia |]].
    { rewrite lookup_app_r by (rewrite length_insert; lia).
      by rewrite length_insert, Nat.sub_diag. }
    intros j Hjr. rewrite Hdir'. case_decide as Hcj; split; intros H; try done.
    + eapply low_eq_trans; [apply Hcj | apply low_eq_sym, Hci].
    + apply Hfresh in H. lia.
    + destruct Hcj. split; [done |]. eapply low_eq_trans; [apply H | apply Hci].
  - destruct (Hs _ _ Hi) as (dc & Hdc & Hdcg & Hic).
    destruct (decide (c = a)) as [-> | Hca].
    + (* the bucket that is split *)
      simplify_eq. exists (d + 1). split; [| split; [lia |]].
      { rewrite lookup_app_l by (rewrite length_insert; lia).
        by apply list_lookup_insert_eq. }
      assert (low_eq d i x) as Hix by (apply low_eq_sym, Hic; [done | done]).
      assert (low_eq (d + 1) i x) as Hix1.
      { destruct (low_eq_split x d i) as [? | ?]; [lia | done | done | tauto]. }
      intros j Hjr. rewrite Hdir'. case_decide as Hcj; split; intros H.
      * injection H as H. lia.
      * destruct (pair_not_low_eq x d); [lia |].
        eapply low_eq_trans; [apply low_eq_sym, Hcj |].
        eapply low_eq_trans; [apply H | done].
      * apply Hic in H; [| done].
        destruct (low_eq_split x d j) as [? | ?]; [lia | | | tauto].
        -- eapply low_eq_trans; [apply H | done].
        -- eapply low_eq_trans; [done | by apply low_eq_sym].
      * apply Hic; [done |]. apply (low_eq_le d (d + 1)); [lia | done].
    + exists dc. split; [| split; [lia |]].
      { rewrite lookup_app_l by (rewrite length_insert; eauto).
        by rewrite list_lookup_insert_ne. }
      intros j Hjr. rewrite Hdir'. case_decide as Hcj; split; intros H.
      * injection H as H. apply Hfresh in Hi. lia.
      * destruct Hca. apply Hic in H; [| done].
        assert (zlookup dir j = Some a) as Hja; [| congruence].
        apply Hxa; [done |]. eapply low_eq_trans; [| apply (pair_low_eq x d); lia].
        apply (low_eq_le d (d + 1)); [lia | tauto].
      * by apply Hic.
      * by apply Hic.
Qed.

Section Facts.

Context {K V : Type} `{EqDecision K}.
Variable hash : K → Z.

Implicit Types (t : ExtendibleHashTable K V) (b : Bucket K V).

Lemma shl1_Some d m : shl1 d = Some m → 0 ≤ d < 31 ∧ m = 2 ^ d.
Proof.
  unfold shl1. intros H0. apply bind_Some in H0 as ([] & Ha & H0).
  apply assert_Some, andb_true_iff in Ha as [?%Z.leb_le ?%Z.ltb_lt].
  injection H0 as <-. done.
Qed.

Lemma Bucket_Insert_depth key value b :
  depth_ (Bucket_Insert key value b).2 = depth_ b.
Proof. unfold Bucket_Insert. repeat case_match; done. Qed.

Lemma fmap_depth_insert (bs : list (Bucket K V)) a b b' :
  bs !! a = Some b → depth_ b' = depth_ b →
  depth_ <$> <[a := b']> bs = depth_ <$> bs.
Proof.
  intros Hb Hd. rewrite list_fmap_insert, Hd.
  apply list_insert_id. by rewrite list_lookup_fmap, Hb.
Qed.

(** What an operation leaves alone. *)
Definition same_frame t t' : Prop :=
  global_depth_ t' = global_depth_ t ∧ dir_ t' = dir_ t ∧
  depth_ <$> buckets t' = depth_ <$> buckets t ∧
  num_buckets_ t' = num_buckets_ t ∧ bucket_size_ t' = bucket_size_ t.

Lemma same_frame_inv t t' : same_frame t t' → inv t → inv t'.
Proof. unfold inv. by intros (-> & -> & -> & _). Qed.

Lemma same_frame_store t a b b' :
  buckets t !! a = Some b → depth_ b' = depth_ b →
  same_frame t (set_buckets (<[a := b']> (buckets t)) t).
Proof.
  intros Hb Hd. repeat split. simpl. by eapply fmap_depth_insert.
Qed.

Lemma same_frame_trans t1 t2 t3 : same_frame t1 t2 → same_frame t2 t3 → same_frame t1 t3.
Proof. unfold same_frame. intros (-> & -> & -> & -> & ->). done. Qed.

Lemma redistribute_frame items t t' :
  redistribute hash items t = Some t' → same_frame t t'.
Proof.
  revert t. induction items as [| [key value] items IH]; intros t; simpl.
  - intros [= <-]. done.
  - intros H0. apply bind_Some in H0 as (cur & Hc & H0).
    apply bind_Some in H0 as (a & Ha & H0).
    apply bind_Some in H0 as (b & Hb & H0).
    pose proof (Bucket_Insert_depth key value b) as Hd.
    destruct (Bucket_Insert key value b) as [ok b']. simpl in Hd.
    eapply same_frame_trans; [| by apply IH].
    by eapply same_frame_store.
Qed.

Lemma Split_inv bucket_no bucket t t' :
  inv t → zlookup (dir_ t) bucket_no = Some bucket →
  Split hash bucket_no bucket t = Some t' →
  inv t' ∧ num_buckets_ t' = num_buckets_ t ∧ bucket_size_ t' = bucket_size_ t.
Proof.
  intros Hinv Hslot. unfold Split. intros H0.
  apply bind_Some in H0 as (b0 & Hb0 & H0). simpl in H0.
  apply bind_Some in H0 as (t1 & Ht1 & H0).
  apply bind_Some in H0 as (p & Hp & H0).
  apply bind_Some in H0 as (dir2 & Hdir2 & H0). simpl in H0.
  apply bind_Some in H0 as (index_diff & Hdiff & H0).
  apply bind_Some in H0 as (dir_size & Hsize & H0).
  apply bind_Some in H0 as (dir3 & Hdir3 & H0).
  apply bind_Some in H0 as (dir4 & Hdir4 & H0).
  apply redistribute_frame in H0 as (Hgd' & Hd' & Hdp' & Hnb' & Hbs').
  simpl in *.
  remember (depth_ b0) as d eqn:Hdeq.
  assert ((depth_ <$> buckets t) !! bucket = Some d) as Hdp
    by (by rewrite list_lookup_fmap, Hb0, Hdeq).
  assert (length (buckets t) = length (depth_ <$> buckets t)) as Hlenb
    by (by rewrite length_fmap).
  unfold inv in Hinv. remember (depth_ <$> buckets t) as dp eqn:Hdpeq.
  pose proof Hinv as (Hg & Hl & Hs & _).
  destruct (Hs _ _ Hslot) as (d0 & Hd0 & Hd0g & _).
  rewrite Hdp in Hd0. injection Hd0 as <-.
  (* after the directory has grown, if it had to *)
  assert (∃ gd1 dir1,
             global_depth_ t1 = gd1 ∧ dir_ t1 = dir1 ∧
             buckets t1 = <[bucket := IncrementDepth b0]> (buckets t) ∧
             num_buckets_ t1 = num_buckets_ t ∧ bucket_size_ t1 = bucket_size_ t ∧
             dir_ok gd1 dir1 dp ∧ d < gd1 ∧ zlookup dir1 bucket_no = Some bucket)
    as (gd1 & dir1 & Hgd1 & Hdir1 & Hbk1 & Hnb1 & Hbs1 & Hok1 & Hdg1 & Hslot1).
  { destruct (Z.ltb_spec (global_depth_ t) (d + 1)) as [Hlt | Hge].
    - apply bind_Some in Ht1 as (n & Hn & Ht1).
      apply bind_Some in Ht1 as (dir1 & Hgrow & Ht1). injection Ht1 as <-.
      apply shl1_Some in Hn as [Hn ->]. simpl in Hgrow.
      apply grow_dir_spec in Hgrow; [| lia].
      rewrite drop_0, take_ge in Hgrow by lia. subst dir1.
      exists (global_depth_ t + 1), (dir_ t ++ dir_ t). split_and!; try done.
      + by apply dir_ok_double.
      + lia.
      + rewrite (zlookup_app_double _ (global_depth_ t)); try done.
        * pose proof (zlookup_Some _ _ _ Hslot) as [Hr _]. by rewrite Z.mod_small by lia.
        * pose proof (zlookup_Some _ _ _ Hslot) as [Hr _].
          rewrite Z.pow_add_r, Z.pow_1_r by lia. lia.
    - injection Ht1 as <-. exists (global_depth_ t), (dir_ t). split_and!; try done.
      simpl in Hge. lia. }
  rewrite Hgd1, Hdir1, Hbk1 in *.
  apply shl1_Some in Hdiff as [Hdr ->]. apply shl1_Some in Hsize as [Hgr ->].
  unfold PairIndex in Hp. apply bind_Some in Hp as (m & Hm & Hp).
  apply shl1_Some in Hm as [_ ->]. injection Hp as <-.
  replace (d + 1 - 1) with d in * by lia.
  remember (Z.lxor bucket_no (2 ^ d)) as p eqn:Hpeq.
  rewrite length_insert, Hlenb in *.
  pose proof Hok1 as (_ & Hl1 & _ & _).
  pose proof (zstore_Some _ _ _ _ Hdir2) as [Hpr _].
  pose proof (zlookup_zstore _ _ _ _ p Hdir2) as Hp2. rewrite decide_True in Hp2 by done.
  assert (0 < 2 ^ (d + 1)) as Hpow by (apply Z.pow_pos_nonneg; lia).
  apply rewire_down_spec with (a := length dp) in Hdir3 as [Hlen3 Hj3];
    [| lia | done | apply low_eq_sub | lia].
  assert (zlookup dir3 p = Some (length dp)) as Hp3.
  { rewrite Hj3. case_decide; [lia | done]. }
  apply rewire_up_spec with (a := length dp) in Hdir4 as [Hlen4 Hj4];
    [| lia | done | apply low_eq_add | lia].
  split; [| by rewrite Hnb', Hbs'].
  unfold inv. rewrite Hgd', Hd', Hdp'.
  replace (depth_ <$> _) with (<[bucket := d + 1]> dp ++ [d + 1]).
  2:{ rewrite list_fmap_insert, fmap_app, list_fmap_insert. simpl.
      rewrite <- Hdpeq, <- Hdeq.
      rewrite insert_app_l by (rewrite length_insert; by eapply lookup_lt_Some).
      by rewrite list_insert_insert_eq. }
  eapply dir_ok_split; try done.
  - rewrite Hlen4, Hlen3. by eapply zstore_length.
  - intros j. rewrite <- Hpeq, Hj4, Hj3, (zlookup_zstore _ _ _ _ j Hdir2).
    pose proof (low_eq_refl (d + 1) p) as Hpp.
    destruct (decide (j = p)) as [Hjp | Hjp].
    { rewrite Hjp. repeat case_decide; try done; destruct_and?; try lia.
      all: exfalso; match goal with H : ¬ (_ ∧ _) |- _ => apply H; split; [lia | done] end. }
    repeat case_decide; try done; destruct_and?; try lia.
    all: try (exfalso; match goal with H : ¬ (_ ∧ _) |- _ => apply H; split; [lia | done] end).
    exfalso. apply Hjp. apply (low_eq_near (d + 1)); [lia | done |].
    destruct (decide (j ≤ p - 2 ^ (d + 1))); [tauto |].
    destruct (decide (p + 2 ^ (d + 1) ≤ j)); [tauto |]. lia.
Qed.

Lemma Insert_inv fuel key value t t' :
  inv t → Insert hash fuel key value t = Some t' →
  inv t' ∧ num_buckets_ t' = num_buckets_ t ∧ bucket_size_ t' = bucket_size_ t.
Proof.
  revert t. induction fuel as [| fuel IH]; intros t Hinv; simpl; [done |].
  intros H0. apply bind_Some in H0 as (bucket_no & Hno & H0).
  apply bind_Some in H0 as (bucket & Hslot & H0).
  apply bind_Some in H0 as (b & Hb & H0).
  pose proof (Bucket_Insert_depth key value b) as Hd.
  destruct (Bucket_Insert key value b) as [success b']. simpl in Hd.
  destruct success.
  - injection H0 as <-. split; [| done].
    eapply same_frame_inv; [| done]. by eapply same_frame_store.
  - apply bind_Some in H0 as (t1 & Hsplit & H0).
    apply Split_inv in Hsplit as (Hinv1 & <- & <-); [| done | done].
    by apply IH.
Qed.

Lemma Bucket_Remove_depth key b found b' :
  Bucket_Remove key b = Some (found, b') → depth_ b' = depth_ b.
Proof.
  unfold Bucket_Remove. intros H0. apply bind_Some in H0 as ([] & _ & H0).
  destruct (erase_first key (list_ b)); by simplify_eq.
Qed.

Lemma Remove_frame key t found t' :
  Remove hash key t = Some (found, t') → same_frame t t'.
Proof.
  unfold Remove. intros H0. apply bind_Some in H0 as (idx & Hidx & H0).
  apply bind_Some in H0 as (bucket & Hslot & H0).
  apply bind_Some in H0 as (b & Hb & H0).
  apply bind_Some in H0 as ([found' b'] & Hrm & H0). injection H0 as <- <-.
  eapply same_frame_store; [done |]. by eapply Bucket_Remove_depth.
Qed.

Lemma inv_new bucket_size : inv (new (K := K) (V := V) bucket_size).
Proof.
  split; [done |]. split; [done |]. split.
  2:{ intros a Ha. simpl in Ha. exists 0. by assert (a = 0%nat) as -> by lia. }
  intros i a Hi.
  pose proof (zlookup_Some _ _ _ Hi) as [Hr Hl]. simpl in Hr.
  assert (i = 0) as -> by lia. injection Hl as <-.
  exists 0. split; [done |]. split; [done |]. intros j Hj.
  assert (j = 0) as -> by (simpl in Hj; lia). done.
Qed.

Lemma reachable_inv bucket_size t :
  reachable hash bucket_size t → inv t ∧ num_buckets_ t = 1.
Proof.
  induction 1 as [| t fuel key value t' _ [IH1 IH2] Hins
                  | t key found t' _ [IH1 IH2] Hrm | t key value _ IH _].
  - split; [apply inv_new | done].
  - apply Insert_inv in Hins as (? & -> & _); done.
  - apply Remove_frame in Hrm. split; [by eapply same_frame_inv |].
    destruct Hrm as (_ & _ & _ & -> & _). done.
  - done.
Qed.

(** *** Counting the slots of a bucket *)

Lemma length_filter_snoc {A} (P : A → Prop) `{∀ x, Decision (P x)} (l : list A) x :
  length (filter P (l ++ [x])) = (length (filter P l) + if decide (P x) then 1 else 0)%nat.
Proof.
  rewrite filter_app, length_app, filter_cons, filter_nil.
  by destruct (decide (P x)).
Qed.

(** The slots that hold [a] are counted by the indices at which they sit. *)
Lemma count_by_index (l : list nat) (a : nat) (P : Z → Prop) `{∀ j, Decision (P j)} :
  (∀ j, 0 ≤ j < Z.of_nat (length l) → (zlookup l j = Some a ↔ P j)) →
  length (filter (λ x, x = a) l) = length (filter P (seqZ 0 (Z.of_nat (length l)))).
Proof.
  induction l as [| x l IH] using rev_ind; intros HP; [done |].
  rewrite length_app, Nat2Z.inj_add. simpl length.
  rewrite seqZ_app by lia. rewrite !filter_app, !length_app.
  rewrite IH.
  2:{ intros j Hj. rewrite <- HP by (rewrite length_app; simpl; lia).
      unfold zlookup. destruct (Z.ltb_spec j 0); [lia |].
      by rewrite lookup_app_l by lia. }
  f_equal. change (Z.of_nat 1) with 1. rewrite (seqZ_cons _ 1), (seqZ_nil _ (Z.pred 1)) by lia.
  rewrite !filter_cons, !filter_nil.
  specialize (HP (Z.of_nat (length l))). rewrite length_app in HP. simpl in HP.
  unfold zlookup in HP. destruct (Z.ltb_spec (Z.of_nat (length l)) 0); [lia |].
  rewrite Nat2Z.id, lookup_app_r, Nat.sub_diag in HP by lia. simpl in HP.
  rewrite Z.add_0_l.
  destruct (decide (x = a)) as [-> |], (decide (P (Z.of_nat (length l)))); try done.
  - exfalso. apply n. apply HP; [lia | done].
  - exfalso. apply n. assert (Some x = Some a) as [=]; [| done]. apply HP; [lia | done].
Qed.

(** Within [len ≤ 2 ^ d] consecutive numbers from a multiple of [2 ^ d],
    one agrees with [r] on the [d] low bits if [r mod 2 ^ d < len], and
    none otherwise. *)
Lemma count_block d r s len :
  0 ≤ d → 0 ≤ len ≤ 2 ^ d → s mod 2 ^ d = 0 →
  length (filter (λ j, low_eq d j r) (seqZ s len))
  = if decide (r mod 2 ^ d < len) then 1%nat else 0%nat.
Proof.
  intros Hd Hlen Hs. assert (0 < 2 ^ d) as Hpow by (apply Z.pow_pos_nonneg; lia).
  pose proof (Z.mod_pos_bound r (2 ^ d) Hpow) as Hr.
  assert (0 ≤ len) as Hlen0 by lia.
  revert Hlen. pattern len. apply natlike_ind; [| | exact Hlen0].
  - intros _. rewrite seqZ_nil by lia. case_decide; [lia | done].
  - intros n Hn IH Hlen. rewrite <- Z.add_1_r, seqZ_app by lia.
    rewrite (seqZ_cons _ 1), (seqZ_nil _ (Z.pred 1)) by lia. rewrite length_filter_snoc.
    rewrite IH by lia.
    assert (low_eq d (s + n) r ↔ r mod 2 ^ d = n) as Hiff.
    { unfold low_eq. rewrite Z.add_mod, Hs, Z.add_0_l, Z.mod_mod by lia.
      rewrite (Z.mod_small n) by lia. split; congruence. }
    destruct (decide (low_eq d (s + n) r)) as [He | He]; rewrite Hiff in He;
      repeat case_decide; lia.
Qed.

Lemma count_blocks d r m :
  0 ≤ d → 0 ≤ m →
  length (filter (λ j, low_eq d j r) (seqZ 0 (m * 2 ^ d))) = Z.to_nat m.
Proof.
  intros Hd Hm. assert (0 < 2 ^ d) as Hpow by (apply Z.pow_pos_nonneg; lia).
  pattern m. apply natlike_ind; [| | lia].
  - by rewrite seqZ_nil by lia.
  - intros n Hn IH. replace (Z.succ n * 2 ^ d) with (n * 2 ^ d + 2 ^ d) by lia.
    rewrite seqZ_app by lia. rewrite filter_app, length_app, IH.
    rewrite Z.add_0_l, count_block; [| lia | lia | by apply Z_mod_mult].
    rewrite decide_True by (apply Z.mod_pos_bound; lia). lia.
Qed.

Lemma inv_slots t i a d :
  inv t → zlookup (dir_ t) i = Some a → (depth_ <$> buckets t) !! a = Some d →
  0 ≤ d ≤ global_depth_ t ∧
  slots_of a t = Z.to_nat (2 ^ (global_depth_ t - d)).
Proof.
  intros (Hg & Hl & Hs & _) Hi Hd.
  destruct (Hs _ _ Hi) as (d' & Hd' & Hdg & Hj). simplify_eq.
  split; [done |]. unfold slots_of.
  rewrite (count_by_index _ _ (λ j, low_eq d j i)) by (intros j ?; apply Hj; lia).
  rewrite Hl. replace (2 ^ global_depth_ t) with (2 ^ (global_depth_ t - d) * 2 ^ d).
  - apply count_blocks; [lia |]. apply Z.pow_nonneg. lia.
  - rewrite <- Z.pow_add_r by lia. f_equal. lia.
Qed.

(** C4.  In every state of the table reached by [Insert], [Remove] and
    [Find], the directory has [2 ^ global_depth] slots, and every bucket
    has a local depth between 0 and the global depth and is held by exactly
    [2 ^ (global_depth - local_depth)] directory slots. *)
Theorem directory_invariant bucket_size t :
  reachable hash bucket_size t →
  Z.of_nat (length (dir_ t)) = 2 ^ global_depth_ t ∧
  ∀ a b, buckets t !! a = Some b →
    0 ≤ GetDepth b ≤ GetGlobalDepth t ∧
    Z.of_nat (slots_of a t) = 2 ^ (GetGlobalDepth t - GetDepth b).
Proof.
  intros [Hinv _]%reachable_inv. pose proof Hinv as (Hg & Hl & Hs & Hall).
  split; [done |]. intros a b Hb.
  destruct (Hall a) as [i Hi]; [rewrite length_fmap; by eapply lookup_lt_Some |].
  destruct (inv_slots t i a (depth_ b)) as [Hd Hn]; try done.
  { by rewrite list_lookup_fmap, Hb. }
  unfold GetDepth, GetGlobalDepth. split; [done |].
  rewrite Hn, Z2Nat.id; [done |]. apply Z.pow_nonneg. lia.
Qed.

(** C9.  In every such state [GetNumBuckets] returns 1: the counter
    [num_buckets_] is set to 1 by the constructor and no operation writes
    it, however many buckets the splits have allocated. *)
Theorem GetNumBuckets_always_one bucket_size t :
  reachable hash bucket_size t → GetNumBuckets t = 1.
Proof. by intros [_ Hn]%reachable_inv. Qed.

(** *** Entries of the table *)

Lemma find_has_key_None (key : K) (l : list (K * V)) :
  key ∉ l.*1 → List.find (has_key key) l = None.
Proof.
  induction l as [| kv l IH]; [done |]. cbn [fmap list_fmap List.find].
  rewrite not_elem_of_cons. intros [Hne Hl]. unfold has_key at 1.
  rewrite bool_decide_eq_false_2 by done. by apply IH.
Qed.

Lemma assign_first_Some (key : K) (value : V) l l' :
  assign_first key value l = Some l' →
  l'.*1 = l.*1 ∧ length l' = length l ∧ List.find (has_key key) l' = Some (key, value).
Proof.
  revert l'. induction l as [| kv l IH]; intros l'; [done |]. cbn [assign_first].
  unfold has_key at 1. case_bool_decide as Hk.
  - intros [= <-]. cbn [fmap list_fmap fst length List.find]. split; [done |].
    split; [done |]. unfold has_key. rewrite bool_decide_eq_true_2 by done. by rewrite Hk.
  - intros H0. apply fmap_Some in H0 as (l0 & H0 & ->).
    destruct (IH _ H0) as (Hk1 & Hlen & Hf).
    cbn [fmap list_fmap length List.find]. rewrite Hlen. split; [by f_equal |].
    split; [done |]. unfold has_key at 1. by rewrite bool_decide_eq_false_2.
Qed.

Lemma assign_first_None (key : K) (value : V) l :
  assign_first key value l = None → key ∉ l.*1.
Proof.
  induction l as [| kv l IH]; [intros _; apply not_elem_of_nil |]. cbn [assign_first].
  unfold has_key at 1. case_bool_decide as Hk; [done |].
  intros H0. apply fmap_None in H0. cbn [fmap list_fmap].
  apply not_elem_of_cons. split; [congruence | by apply IH].
Qed.

Lemma find_has_key_snoc (key : K) (value : V) l :
  key ∉ l.*1 → List.find (has_key key) (l ++ [(key, value)]) = Some (key, value).
Proof.
  induction l as [| kv l IH]; cbn [app fmap list_fmap List.find].
  - intros _. unfold has_key. by rewrite bool_decide_eq_true_2.
  - rewrite not_elem_of_cons. intros [Hne Hl]. unfold has_key at 1.
    rewrite bool_decide_eq_false_2 by done. by apply IH.
Qed.

Lemma erase_first_Some (key : K) (l l' : list (K * V)) :
  erase_first key l = Some l' →
  (length l' < length l)%nat ∧ (NoDup l.*1 → NoDup l'.*1 ∧ key ∉ l'.*1).
Proof.
  revert l'. induction l as [| kv l IH]; intros l'; [done |]. cbn [erase_first].
  unfold has_key at 1. case_bool_decide as Hk.
  - intros [= <-]. cbn [length fmap list_fmap]. split; [lia |].
    intros [Hn Hnd]%NoDup_cons. by rewrite <- Hk.
  - intros H0. apply fmap_Some in H0 as (l0 & H0 & ->).
    destruct (IH _ H0) as (Hlen & Hnd). cbn [length fmap list_fmap]. split; [lia |].
    intros [Hn Hnd1]%NoDup_cons. destruct (Hnd Hnd1) as [Hnd0 Hout].
    split; [| apply not_elem_of_cons; split; [congruence | done]].
    apply NoDup_cons. split; [| done]. intros Hin. apply Hn.
    clear -H0 Hin. revert l0 H0 Hin. induction l as [| kv' l IH]; intros l0; [done |].
    cbn [erase_first]. destruct (has_key key kv').
    + intros [= <-] Hin. cbn [fmap list_fmap]. by right.
    + intros H0 Hin. apply fmap_Some in H0 as (l1 & H0 & ->).
      cbn [fmap list_fmap] in *. apply elem_of_cons in Hin as [-> | Hin]; [by left |].
      right. by eapply IH.
Qed.

Lemma erase_first_find (key : K) (l : list (K * V)) kv :
  List.find (has_key key) l = Some kv → is_Some (erase_first key l).
Proof.
  induction l as [| kv' l IH]; [done |]. cbn [List.find erase_first].
  destruct (has_key key kv'); [by eexists |].
  intros [l' ->]%IH. by eexists.
Qed.

(** After a successful [Insert] the key is found, with the value. *)
Lemma Bucket_Insert_Find (key : K) (value : V) (b b' : Bucket K V) :
  Bucket_Insert key value b = (true, b') →
  Bucket_Find key b' = Some (Some value).
Proof.
  unfold Bucket_Insert, IsOverflow, IsFull, Bucket_Find.
  destruct (Z.ltb_spec (size_ b) (Z.of_nat (length (list_ b)))) as [| Hle]; [done |].
  destruct (assign_first key value (list_ b)) as [l |] eqn:Ha.
  - intros [= <-]. cbn [list_ size_].
    apply assign_first_Some in Ha as (_ & -> & ->).
    rewrite assert_true by (by apply Z.leb_le). done.
  - destruct (Z.eqb_spec (Z.of_nat (length (list_ b))) (size_ b)) as [| Hne]; [done |].
    intros [= <-]. cbn [list_ size_].
    rewrite assert_true by (apply Z.leb_le; rewrite length_app; simpl; lia).
    cbn [mbind option_bind]. rewrite find_has_key_snoc by (by eapply assign_first_None). done.
Qed.

Lemma Insert_Find fuel (key : K) (value : V) (t t' : ExtendibleHashTable K V) :
  Insert hash fuel key value t = Some t' → Find hash key t' = Some (Some value).
Proof.
  revert t. induction fuel as [| fuel IH]; intros t; cbn [Insert]; [done |].
  intros H0. apply bind_Some in H0 as (bucket_no & Hno & H0).
  apply bind_Some in H0 as (bucket & Hslot & H0).
  apply bind_Some in H0 as (b & Hb & H0).
  destruct (Bucket_Insert key value b) as [success b'] eqn:Hins.
  destruct success.
  - injection H0 as <-. unfold Find, IndexOf in *. cbn [global_depth_ set_buckets dir_ buckets].
    rewrite Hno. cbn [mbind option_bind]. rewrite Hslot. cbn [mbind option_bind].
    rewrite list_lookup_insert_eq by (by eapply lookup_lt_Some).
    cbn [mbind option_bind]. by eapply Bucket_Insert_Find.
  - apply bind_Some in H0 as (t1 & _ & H0). by eapply IH.
Qed.

(** A key that is found can be removed. *)
Lemma Find_Remove (key : K) (value : V) (t : ExtendibleHashTable K V) :
  Find hash key t = Some (Some value) → ∃ t', Remove hash key t = Some (true, t').
Proof.
  unfold Find, Remove. intros H0.
  apply bind_Some in H0 as (idx & -> & H0). cbn [mbind option_bind].
  apply bind_Some in H0 as (bucket & -> & H0). cbn [mbind option_bind].
  apply bind_Some in H0 as (b & -> & H0). cbn [mbind option_bind].
  unfold Bucket_Find in H0. unfold Bucket_Remove.
  apply bind_Some in H0 as ([] & -> & H0). cbn [mbind option_bind].
  injection H0 as H0. apply fmap_Some in H0 as (kv & Hf & _).
  destruct (erase_first_find _ _ _ Hf) as [l ->]. by eexists.
Qed.

(** The key of a removed entry is not found any more. *)
Lemma Remove_Find (key : K) (t t' : ExtendibleHashTable K V) :
  keys_ok t → Remove hash key t = Some (true, t') → Find hash key t' = Some None.
Proof.
  unfold Find, Remove, IndexOf. intros Hk H0.
  apply bind_Some in H0 as (idx & Hidx & H0).
  apply bind_Some in H0 as (bucket & Hslot & H0).
  apply bind_Some in H0 as (b & Hb & H0).
  apply bind_Some in H0 as ([found b'] & Hrm & H0). injection H0 as -> <-.
  cbn [global_depth_ set_buckets dir_ buckets]. rewrite Hidx. cbn [mbind option_bind].
  rewrite Hslot. cbn [mbind option_bind].
  rewrite list_lookup_insert_eq by (by eapply lookup_lt_Some). cbn [mbind option_bind].
  unfold Bucket_Remove in Hrm. apply bind_Some in Hrm as ([] & Ha & Hrm).
  apply assert_Some, Z.leb_le in Ha.
  destruct (erase_first key (list_ b)) as [l |] eqn:He; [| done]. injection Hrm as <-.
  apply erase_first_Some in He as [Hlen Hnd].
  unfold Bucket_Find. cbn [list_ size_].
  rewrite assert_true by (apply Z.leb_le; lia). cbn [mbind option_bind].
  rewrite find_has_key_None; [done |]. apply Hnd.
  unfold keys_ok in Hk. rewrite Forall_forall in Hk. apply Hk.
  by eapply list_elem_of_lookup_2.
Qed.

(** *** One entry per key *)

Lemma Bucket_Insert_keys (key : K) (value : V) (b : Bucket K V) :
  NoDup (list_ b).*1 → NoDup (list_ (Bucket_Insert key value b).2).*1.
Proof.
  intros Hnd. unfold Bucket_Insert. destruct (IsOverflow b); [done |].
  destruct (assign_first key value (list_ b)) as [l |] eqn:Ha.
  - apply assign_first_Some in Ha as (Hk & _). cbn [snd list_]. by rewrite Hk.
  - destruct (IsFull b); [done |]. cbn [snd list_].
    rewrite fmap_app. apply NoDup_app. split; [done |]. split.
    + intros x Hx Hin. cbn [fmap list_fmap fst] in Hin.
      apply list_elem_of_singleton in Hin as ->. by eapply assign_first_None.
    + apply NoDup_singleton.
Qed.

Lemma keys_ok_store (t : ExtendibleHashTable K V) a b :
  keys_ok t → NoDup (list_ b).*1 → keys_ok (set_buckets (<[a := b]> (buckets t)) t).
Proof.
  unfold keys_ok. cbn [set_buckets buckets]. intros Hk Hb.
  destruct (decide (a < length (buckets t))%nat) as [Hlt | Hge].
  - by apply Forall_insert.
  - by rewrite list_insert_ge by lia.
Qed.

Lemma keys_ok_lookup (t : ExtendibleHashTable K V) a b :
  keys_ok t → buckets t !! a = Some b → NoDup (list_ b).*1.
Proof.
  unfold keys_ok. rewrite Forall_forall. intros Hk Hb. apply Hk.
  by eapply list_elem_of_lookup_2.
Qed.

Lemma redistribute_keys items (t t' : ExtendibleHashTable K V) :
  keys_ok t → redistribute hash items t = Some t' → keys_ok t'.
Proof.
  revert t. induction items as [| [key value] items IH]; intros t Hk; cbn [redistribute].
  - by intros [= <-].
  - intros H0. apply bind_Some in H0 as (no & _ & H0).
    apply bind_Some in H0 as (a & _ & H0).
    apply bind_Some in H0 as (b & Hb & H0).
    pose proof (Bucket_Insert_keys key value b (keys_ok_lookup _ _ _ Hk Hb)) as Hnd.
    destruct (Bucket_Insert key value b) as [ok b']. cbn [snd] in Hnd.
    eapply IH; [| exact H0]. by apply keys_ok_store.
Qed.

Lemma Split_keys bucket_no bucket (t t' : ExtendibleHashTable K V) :
  keys_ok t → Split hash bucket_no bucket t = Some t' → keys_ok t'.
Proof.
  unfold Split. intros Hk H0.
  apply bind_Some in H0 as (b & Hb & H0).
  apply bind_Some in H0 as (t1 & Ht1 & H0).
  apply bind_Some in H0 as (pair_index & _ & H0).
  apply bind_Some in H0 as (dir1 & _ & H0).
  apply bind_Some in H0 as (index_diff & _ & H0).
  apply bind_Some in H0 as (dir_size & _ & H0).
  apply bind_Some in H0 as (dir2 & _ & H0).
  apply bind_Some in H0 as (dir3 & _ & H0).
  eapply redistribute_keys; [| exact H0].
  assert (keys_ok t1) as Hk1.
  { assert (buckets t1 = <[bucket := IncrementDepth b]> (buckets t)) as Hbs.
    { destruct (_ <? _) in Ht1.
      - apply bind_Some in Ht1 as (n & _ & Ht1).
        apply bind_Some in Ht1 as (dir & _ & Ht1). by injection Ht1 as <-.
      - by injection Ht1 as <-. }
    unfold keys_ok. rewrite Hbs.
    apply (keys_ok_store t bucket (IncrementDepth b) Hk).
    apply (keys_ok_lookup _ _ _ Hk Hb). }
  unfold keys_ok in *. cbn [set_dir set_buckets buckets].
  destruct (decide (bucket < length (buckets t1 ++ [mkBucket (bucket_size_ t1) (GetDepth (IncrementDepth b)) []]))%nat).
  - apply Forall_insert; [| cbn; apply NoDup_nil_2].
    apply Forall_app. split; [done |]. apply Forall_singleton. cbn. apply NoDup_nil_2.
  - rewrite list_insert_ge by lia.
    apply Forall_app. split; [done |]. apply Forall_singleton. cbn. apply NoDup_nil_2.
Qed.

Lemma Insert_keys fuel (key : K) (value : V) (t t' : ExtendibleHashTable K V) :
  keys_ok t → Insert hash fuel key value t = Some t' → keys_ok t'.
Proof.
  revert t. induction fuel as [| fuel IH]; intros t Hk; cbn [Insert]; [done |].
  intros H0. apply bind_Some in H0 as (bucket_no & Hno & H0).
  apply bind_Some in H0 as (bucket & Hslot & H0).
  apply bind_Some in H0 as (b & Hb & H0).
  pose proof (Bucket_Insert_keys key value b (keys_ok_lookup _ _ _ Hk Hb)) as Hnd.
  destruct (Bucket_Insert key value b) as [success b']. cbn [snd] in Hnd.
  destruct success.
  - injection H0 as <-. by apply keys_ok_store.
  - apply bind_Some in H0 as (t1 & Hsplit & H0).
    eapply IH; [| exact H0]. by eapply Split_keys.
Qed.

Lemma Remove_keys (key : K) found (t t' : ExtendibleHashTable K V) :
  keys_ok t → Remove hash key t = Some (found, t') → keys_ok t'.
Proof.
  unfold Remove. intros Hk H0.
  apply bind_Some in H0 as (idx & _ & H0).
  apply bind_Some in H0 as (bucket & _ & H0).
  apply bind_Some in H0 as (b & Hb & H0).
  apply bind_Some in H0 as ([fd b'] & Hrm & H0). injection H0 as _ <-.
  apply keys_ok_store; [done |].
  pose proof (keys_ok_lookup _ _ _ Hk Hb) as Hnd.
  unfold Bucket_Remove in Hrm. apply bind_Some in Hrm as ([] & _ & Hrm).
  destruct (erase_first key (list_ b)) as [l |] eqn:He.
  - injection Hrm as _ <-. cbn [list_]. by apply erase_first_Some in He as [_ [? _]].
  - by injection Hrm as _ <-.
Qed.

Lemma reachable_keys_ok bucket_size (t : ExtendibleHashTable K V) :
  reachable hash bucket_size t → keys_ok t.
Proof.
  induction 1 as [| t fuel key value t' _ IH Hins | t key found t' _ IH Hrm | t key value _ IH _].
  - unfold keys_ok, new. cbn [buckets]. apply Forall_singleton. cbn. apply NoDup_nil_2.
  - by eapply Insert_keys.
  - by eapply Remove_keys.
  - done.
Qed.

End Facts.

(** Buckets of one entry and the keys 0, 1 and 2: the second and the third
    insertion each split a bucket, the third one doubles the directory. *)
Definition example_1 : ExtendibleHashTable Z Z :=
  Eval vm_compute in default (new 1) (Insert std_hash 4 0 10 (new 1)).

Definition example_2 : ExtendibleHashTable Z Z :=
  Eval vm_compute in default (new 1) (Insert std_hash 4 1 11 example_1).

Definition example_3 : ExtendibleHashTable Z Z :=
  Eval vm_compute in default (new 1) (Insert std_hash 4 2 12 example_2).

Lemma example_3_reachable : reachable std_hash 1 example_3.
Proof.
  apply (reach_Insert _ _ example_2 4 2 12); [| vm_compute; reflexivity].
  apply (reach_Insert _ _ example_1 4 1 11); [| vm_compute; reflexivity].
  apply (reach_Insert _ _ (new 1) 4 0 10); [| vm_compute; reflexivity].
  apply reach_new.
Qed.

Lemma directory_invariant_witness :
  global_depth_ example_3 = 2 ∧
  Z.of_nat (length (dir_ example_3)) = 2 ^ global_depth_ example_3 ∧
  ∀ a b, buckets example_3 !! a = Some b →
    0 ≤ GetDepth b ≤ GetGlobalDepth example_3 ∧
    Z.of_nat (slots_of a example_3) = 2 ^ (GetGlobalDepth example_3 - GetDepth b).
Proof.
  split; [reflexivity |].
  exact (directory_invariant std_hash 1 example_3 example_3_reachable).
Defined.

Lemma GetNumBuckets_always_one_witness :
  length (buckets example_3) = 3%nat ∧ GetNumBuckets example_3 = 1.
Proof.
  split; [reflexivity |].
  exact (GetNumBuckets_always_one std_hash 1 example_3 example_3_reachable).
Defined.

End Hash_facts.

(** * Extendible hash table: the table as a map *)

Module Hash_props.

Import Hash Hash_facts.

Section Content.

Context {K V : Type} `{EqDecision K}.
Variable hash : K → Z.

Implicit Types (t : ExtendibleHashTable K V) (b : Bucket K V).

(** The directory slot of a key, and the bucket that the slot holds. *)
Definition slot t (key : K) : Z := hash key mod 2 ^ global_depth_ t.

Definition home t (key : K) : option nat := zlookup (dir_ t) (slot t key).

(** Every entry sits in the bucket that the directory gives for its key,
    and no bucket holds more entries than its capacity. *)
Record content_ok t : Prop := mk_content_ok {
  co_inv : inv t;
  co_depth : global_depth_ t < 31;
  co_keys : keys_ok t;
  co_sized : Forall (λ b, Z.of_nat (length (list_ b)) ≤ size_ b ∧ size_ b = bucket_size_ t)
                    (buckets t);
  co_placed : ∀ a b key, buckets t !! a = Some b → key ∈ (list_ b).*1 → home t key = Some a
}.

Lemma IndexOf_slot t key :
  0 ≤ global_depth_ t < 31 → IndexOf hash key t = Some (slot t key).
Proof.
  intros Hg. unfold IndexOf, shl1, slot.
  rewrite assert_true by (apply andb_true_iff; split; [apply Z.leb_le | apply Z.ltb_lt]; lia).
  cbn [mbind option_bind]. f_equal.
  rewrite <- Z.land_ones by lia. f_equal. rewrite Z.ones_equiv. lia.
Qed.

Lemma inv_depth_nonneg t : inv t → 0 ≤ global_depth_ t.
Proof. by intros (? & _). Qed.

Lemma slot_range t key : inv t → 0 ≤ slot t key < 2 ^ global_depth_ t.
Proof.
  intros (Hg & _). unfold slot. apply Z.mod_pos_bound. apply Z.pow_pos_nonneg; lia.
Qed.

Lemma home_Some t key :
  inv t → ∃ a b, home t key = Some a ∧ buckets t !! a = Some b.
Proof.
  intros Hinv. pose proof (slot_range t key Hinv) as Hr.
  destruct Hinv as (Hg & Hl & Hs & _). unfold home.
  destruct (zlookup (dir_ t) (slot t key)) as [a |] eqn:Ha.
  - destruct (Hs _ _ Ha) as (d & Hd & _). rewrite list_lookup_fmap in Hd.
    destruct (buckets t !! a) as [b |] eqn:Hb; [by exists a, b | done].
  - unfold zlookup in Ha. destruct (Z.ltb_spec (slot t key) 0); [lia |].
    apply lookup_ge_None in Ha. lia.
Qed.

(** [Find] looks the key up in its home bucket. *)
Lemma Find_home t key a b :
  content_ok t → home t key = Some a → buckets t !! a = Some b →
  Find hash key t = Some (snd <$> List.find (has_key key) (list_ b)).
Proof.
  intros [Hinv Hgd Hk Hsz Hpl] Ha Hb. unfold Find.
  rewrite IndexOf_slot by (split; [by apply inv_depth_nonneg | done]).
  cbn [mbind option_bind]. unfold home in Ha. rewrite Ha. cbn [mbind option_bind].
  rewrite Hb. cbn [mbind option_bind]. unfold Bucket_Find.
  rewrite Forall_forall in Hsz.
  destruct (Hsz b) as [Hlen _]; [by eapply list_elem_of_lookup_2 |].
  rewrite assert_true by (by apply Z.leb_le). done.
Qed.

Lemma content_ok_new bucket_size :
  0 ≤ bucket_size → content_ok (new (K := K) (V := V) bucket_size).
Proof.
  intros Hs. split.
  - apply inv_new.
  - done.
  - apply (reachable_keys_ok hash bucket_size). constructor.
  - cbn. apply Forall_singleton. cbn. lia.
  - intros a b key Hb Hkey. cbn in Hb. destruct a; [| done]. injection Hb as <-.
    cbn in Hkey. by apply elem_of_nil in Hkey.
Qed.

(** A bucket is replaced by one with the same depth and capacity whose
    keys belong there. *)
Lemma content_ok_store t a b b' :
  content_ok t → buckets t !! a = Some b →
  depth_ b' = depth_ b → size_ b' = size_ b →
  Z.of_nat (length (list_ b')) ≤ size_ b' → NoDup (list_ b').*1 →
  (∀ key, key ∈ (list_ b').*1 → home t key = Some a) →
  content_ok (set_buckets (<[a := b']> (buckets t)) t).
Proof.
  intros [Hinv Hgd Hk Hsz Hpl] Hb Hd Hs Hlen Hnd Hhome.
  pose proof (lookup_lt_Some _ _ _ Hb) as Hlt. split.
  - eapply same_frame_inv; [| done]. by eapply same_frame_store.
  - done.
  - by apply keys_ok_store.
  - cbn [set_buckets buckets bucket_size_]. apply Forall_insert; [done |].
    split; [done |]. rewrite Hs. rewrite Forall_forall in Hsz.
    apply (Hsz b). by eapply list_elem_of_lookup_2.
  - intros c bc key Hc Hkey. cbn [set_buckets buckets] in Hc.
    change (home (set_buckets _ t) key) with (home t key).
    destruct (decide (c = a)) as [-> | Hne].
    + rewrite list_lookup_insert_eq in Hc by done. injection Hc as <-. by apply Hhome.
    + rewrite list_lookup_insert_ne in Hc by done. by eapply Hpl.
Qed.

Lemma Find_store t a b' key :
  content_ok (set_buckets (<[a := b']> (buckets t)) t) →
  content_ok t → (a < length (buckets t))%nat →
  Find hash key (set_buckets (<[a := b']> (buckets t)) t)
  = if decide (home t key = Some a)
    then Some (snd <$> List.find (has_key key) (list_ b'))
    else Find hash key t.
Proof.
  intros Hok' Hok Hlt.
  destruct (home_Some t key (co_inv _ Hok)) as (c & bc & Hc & Hbc).
  case_decide as Hh.
  - apply (Find_home _ key a b'); [done | exact Hh |].
    cbn [set_buckets buckets]. by apply list_lookup_insert_eq.
  - rewrite (Find_home t key c bc) by done.
    apply (Find_home _ key c bc); [done | exact Hc |].
    cbn [set_buckets buckets]. rewrite list_lookup_insert_ne; [done |]. congruence.
Qed.

(** Looking up another key in a bucket that [key] was erased from,
    assigned in or appended to. *)
Lemma find_erase_ne (key key' : K) (l l' : list (K * V)) :
  erase_first key l = Some l' → key' ≠ key →
  List.find (has_key key') l' = List.find (has_key key') l.
Proof.
  revert l'. induction l as [| kv l IH]; intros l'; [done |]. cbn [erase_first].
  unfold has_key at 1. case_bool_decide as Hk.
  - intros [= <-] Hne. cbn [List.find]. unfold has_key at 2.
    rewrite bool_decide_eq_false_2 by congruence. done.
  - intros H0 Hne. apply fmap_Some in H0 as (l0 & H0 & ->). cbn [List.find].
    rewrite (IH _ H0 Hne). done.
Qed.

Lemma find_assign_ne (key key' : K) (value : V) (l l' : list (K * V)) :
  assign_first key value l = Some l' → key' ≠ key →
  List.find (has_key key') l' = List.find (has_key key') l.
Proof.
  revert l'. induction l as [| kv l IH]; intros l'; [done |]. cbn [assign_first].
  unfold has_key at 1. case_bool_decide as Hk.
  - intros [= <-] Hne. cbn [List.find]. unfold has_key at 1 3. cbn [fst].
    rewrite !bool_decide_eq_false_2 by congruence. done.
  - intros H0 Hne. apply fmap_Some in H0 as (l0 & H0 & ->). cbn [List.find].
    rewrite (IH _ H0 Hne). done.
Qed.

Lemma find_snoc_ne (key key' : K) (value : V) (l : list (K * V)) :
  key' ≠ key →
  List.find (has_key key') (l ++ [(key, value)]) = List.find (has_key key') l.
Proof.
  intros Hne. induction l as [| kv l IH]; cbn [app List.find].
  - unfold has_key. cbn [fst]. by rewrite bool_decide_eq_false_2 by congruence.
  - by rewrite IH.
Qed.

Lemma erase_first_keys (key : K) (l l' : list (K * V)) :
  erase_first key l = Some l' → l'.*1 ⊆ l.*1.
Proof.
  revert l'. induction l as [| kv l IH]; intros l'; [done |]. cbn [erase_first].
  destruct (has_key key kv).
  - intros [= <-]. cbn [fmap list_fmap]. intros x Hx. by right.
  - intros H0. apply fmap_Some in H0 as (l0 & H0 & ->). cbn [fmap list_fmap].
    intros x [-> | Hx]%elem_of_cons; [by left |]. right. by apply (IH _ H0).
Qed.

Lemma erase_first_None (key : K) (l : list (K * V)) :
  erase_first key l = None → key ∉ l.*1.
Proof.
  induction l as [| kv l IH]; [intros _; apply not_elem_of_nil |]. cbn [erase_first].
  unfold has_key at 1. case_bool_decide as Hk; [done |].
  intros H0. apply fmap_None in H0. cbn [fmap list_fmap].
  apply not_elem_of_cons. split; [congruence | by apply IH].
Qed.

Lemma erase_first_found (key : K) (l l' : list (K * V)) :
  erase_first key l = Some l' → ∃ v, List.find (has_key key) l = Some (key, v).
Proof.
  revert l'. induction l as [| kv l IH]; intros l'; [done |]. cbn [erase_first List.find].
  destruct (has_key key kv) eqn:Hk.
  - intros _. exists kv.2. apply bool_decide_eq_true in Hk.
    destruct kv as [k v]. cbn in *. by subst.
  - intros H0. apply fmap_Some in H0 as (l0 & H0 & _). by eapply IH.
Qed.

Lemma Find_content_total t key : content_ok t → ∃ o, Find hash key t = Some o.
Proof.
  intros Hok. destruct (home_Some t key (co_inv _ Hok)) as (a & b & Ha & Hb).
  rewrite (Find_home _ _ _ _ Hok Ha Hb). eauto.
Qed.

(** *** [Remove] *)

Lemma Remove_content t key :
  content_ok t →
  ∃ found t',
    Remove hash key t = Some (found, t') ∧
    content_ok t' ∧
    (if found then ∃ v, Find hash key t = Some (Some v)
     else Find hash key t = Some None ∧ t' = t) ∧
    ∀ key', Find hash key' t'
            = if decide (key' = key) then Some None else Find hash key' t.
Proof.
  intros Hok. pose proof Hok as [Hinv Hgd Hk Hsz Hpl].
  destruct (home_Some t key Hinv) as (a & b & Ha & Hb).
  pose proof (lookup_lt_Some _ _ _ Hb) as Hlt.
  pose proof (Find_home t key a b Hok Ha Hb) as Hfind.
  unfold Remove. rewrite IndexOf_slot by (split; [by apply inv_depth_nonneg | done]).
  cbn [mbind option_bind]. unfold home in Ha. rewrite Ha. cbn [mbind option_bind].
  rewrite Hb. cbn [mbind option_bind]. unfold Bucket_Remove.
  rewrite Forall_forall in Hsz.
  destruct (Hsz b) as [Hlen Hsize]; [by eapply list_elem_of_lookup_2 |].
  rewrite assert_true by (by apply Z.leb_le). cbn [mbind option_bind].
  destruct (erase_first key (list_ b)) as [l |] eqn:He.
  - cbn [mbind option_bind]. eexists _, _. split; [done |].
    pose proof (erase_first_Some _ _ _ He) as [Hl Hnd].
    destruct (Hnd (keys_ok_lookup _ _ _ Hk Hb)) as [Hnd' Hout].
    assert (content_ok (set_buckets (<[a := mkBucket (size_ b) (depth_ b) l]> (buckets t)) t))
      as Hok'.
    { apply (content_ok_store t a b); try done; cbn [list_ size_].
      - lia.
      - intros key0 Hkey0. apply (Hpl a b); [done |]. by eapply erase_first_keys. }
    split; [done |]. split.
    + destruct (erase_first_found _ _ _ He) as [v Hv]. exists v. by rewrite Hfind, Hv.
    + intros key'. rewrite Find_store by done. cbn [list_].
      destruct (decide (key' = key)) as [-> | Hne].
      * rewrite decide_True by done. by rewrite find_has_key_None.
      * case_decide as Hh; [| done].
        rewrite (find_erase_ne _ _ _ _ He Hne).
        symmetry. by apply (Find_home t key' a b).
  - cbn [mbind option_bind]. eexists _, _. split; [done |].
    assert (set_buckets (<[a := b]> (buckets t)) t = t) as ->.
    { rewrite list_insert_id by done. by destruct t. }
    split; [done |].
    assert (Find hash key t = Some None) as Hnone.
    { rewrite Hfind, find_has_key_None; [done |]. by apply erase_first_None. }
    split; [done |]. intros key'. case_decide as Hkk; [by subst | done].
Qed.

(** *** [Insert] into a bucket *)

Lemma Bucket_Insert_cases (key : K) (value : V) b :
  Z.of_nat (length (list_ b)) ≤ size_ b →
  (∃ l, assign_first key value (list_ b) = Some l ∧
        Bucket_Insert key value b = (true, mkBucket (size_ b) (depth_ b) l)) ∨
  (assign_first key value (list_ b) = None ∧
   Z.of_nat (length (list_ b)) < size_ b ∧
   Bucket_Insert key value b
   = (true, mkBucket (size_ b) (depth_ b) (list_ b ++ [(key, value)]))) ∨
  (assign_first key value (list_ b) = None ∧
   Z.of_nat (length (list_ b)) = size_ b ∧
   Bucket_Insert key value b = (false, b)).
Proof.
  intros Hlen. unfold Bucket_Insert, IsOverflow, IsFull.
  rewrite (proj2 (Z.ltb_ge _ _)) by done.
  destruct (assign_first key value (list_ b)) as [l |]; [left; eauto |]. right.
  destruct (Z.eqb_spec (Z.of_nat (length (list_ b))) (size_ b)); [right | left]; split_and!;
    try done; lia.
Qed.

(** [Insert] when the bucket takes the entry. *)
Lemma Insert_store_content t key value a b b' :
  content_ok t → home t key = Some a → buckets t !! a = Some b →
  Bucket_Insert key value b = (true, b') →
  content_ok (set_buckets (<[a := b']> (buckets t)) t) ∧
  ∀ key', Find hash key' (set_buckets (<[a := b']> (buckets t)) t)
          = if decide (key' = key) then Some (Some value) else Find hash key' t.
Proof.
  intros Hok Ha Hb Hins. pose proof Hok as [Hinv Hgd Hk Hsz Hpl].
  pose proof (lookup_lt_Some _ _ _ Hb) as Hlt.
  rewrite Forall_forall in Hsz.
  destruct (Hsz b) as [Hlen Hsize]; [by eapply list_elem_of_lookup_2 |].
  pose proof (keys_ok_lookup _ _ _ Hk Hb) as Hnd.
  destruct (Bucket_Insert_cases key value b Hlen)
    as [(l & Has & Hbi) | [(Has & Hroom & Hbi) | (_ & _ & Hbi)]];
    rewrite Hbi in Hins; [| | done]; injection Hins as <-.
  - pose proof (assign_first_Some _ _ _ _ Has) as (Hkeys & Hl & Hf).
    assert (content_ok (set_buckets (<[a := mkBucket (size_ b) (depth_ b) l]> (buckets t)) t))
      as Hok'.
    { apply (content_ok_store t a b); try done; cbn [list_ size_].
      - lia.
      - by rewrite Hkeys.
      - intros key0 Hkey0. apply (Hpl a b); [done |]. by rewrite <- Hkeys. }
    split; [done |]. intros key'. rewrite Find_store by done. cbn [list_].
    destruct (decide (key' = key)) as [-> | Hne].
    + rewrite decide_True by done. by rewrite Hf.
    + case_decide as Hh; [| done]. rewrite (find_assign_ne _ _ _ _ _ Has Hne).
      symmetry. by apply (Find_home t key' a b).
  - pose proof (assign_first_None _ _ _ Has) as Hout.
    assert (content_ok (set_buckets
              (<[a := mkBucket (size_ b) (depth_ b) (list_ b ++ [(key, value)])]> (buckets t)) t))
      as Hok'.
    { apply (content_ok_store t a b); try done; cbn [list_ size_].
      - rewrite length_app. cbn [length]. lia.
      - rewrite fmap_app. apply NoDup_app. split; [done |]. split; [| apply NoDup_singleton].
        intros x Hx Hin. cbn in Hin. apply list_elem_of_singleton in Hin as ->. done.
      - intros key0. rewrite fmap_app, elem_of_app. cbn.
        intros [Hin | ->%list_elem_of_singleton]; [by apply (Hpl a b) | done]. }
    split; [done |]. intros key'. rewrite Find_store by done. cbn [list_].
    destruct (decide (key' = key)) as [-> | Hne].
    + rewrite decide_True by done. by rewrite find_has_key_snoc.
    + case_decide as Hh; [| done]. rewrite (find_snoc_ne _ _ _ _ Hne).
      symmetry. by apply (Find_home t key' a b).
Qed.

(** *** Splitting a bucket *)

(** [Split], up to the loop that re-inserts the entries: the directory is
    doubled if it has to be, the slots that agree with the pair index on
    the new number of low bits hold the new bucket, and the bucket that is
    split is emptied. *)
Lemma Split_spec bucket_no bucket t t' b0 :
  inv t → zlookup (dir_ t) bucket_no = Some bucket → buckets t !! bucket = Some b0 →
  Split hash bucket_no bucket t = Some t' →
  ∃ gd1 dir1 dir4,
    global_depth_ t ≤ gd1 < 31 ∧ depth_ b0 < gd1 ∧
    dir_ok gd1 dir1 (depth_ <$> buckets t) ∧
    zlookup dir1 bucket_no = Some bucket ∧
    (∀ j, 0 ≤ j < 2 ^ gd1 → zlookup dir1 j = zlookup (dir_ t) (j mod 2 ^ global_depth_ t)) ∧
    (∀ j, zlookup dir4 j =
          if decide (0 ≤ j < 2 ^ gd1 ∧
                     low_eq (depth_ b0 + 1) j (Z.lxor bucket_no (2 ^ depth_ b0)))
          then Some (length (buckets t)) else zlookup dir1 j) ∧
    redistribute hash (list_ b0)
      (mkTable gd1 (bucket_size_ t) (num_buckets_ t) dir4
         (<[bucket := mkBucket (size_ b0) (depth_ b0 + 1) []]> (buckets t)
          ++ [mkBucket (bucket_size_ t) (depth_ b0 + 1) []])) = Some t'.
Proof.
  intros Hinv Hslot Hb0. unfold Split. rewrite Hb0. cbn [mbind option_bind]. intros H0.
  apply bind_Some in H0 as (t1 & Ht1 & H0).
  apply bind_Some in H0 as (p & Hp & H0).
  apply bind_Some in H0 as (dir2 & Hdir2 & H0). cbn [dir_ set_dir set_buckets buckets] in H0.
  apply bind_Some in H0 as (index_diff & Hdiff & H0).
  apply bind_Some in H0 as (dir_size & Hsize & H0).
  apply bind_Some in H0 as (dir3 & Hdir3 & H0).
  apply bind_Some in H0 as (dir4 & Hdir4 & H0).
  cbn [GetDepth IncrementDepth depth_ global_depth_ set_buckets set_dir dir_ buckets
       bucket_size_ GetCopiedItems ClearItems list_ size_] in *.
  remember (depth_ b0) as d eqn:Hdeq.
  assert ((depth_ <$> buckets t) !! bucket = Some d) as Hdp
    by (by rewrite list_lookup_fmap, Hb0, Hdeq).
  assert (length (buckets t) = length (depth_ <$> buckets t)) as Hlenb
    by (by rewrite length_fmap).
  unfold inv in Hinv. remember (depth_ <$> buckets t) as dp eqn:Hdpeq.
  pose proof Hinv as (Hg & Hl & Hs & _).
  destruct (Hs _ _ Hslot) as (d0 & Hd0 & Hd0g & _).
  rewrite Hdp in Hd0. injection Hd0 as <-.
  assert (0 < 2 ^ global_depth_ t) as Hpowg by (apply Z.pow_pos_nonneg; lia).
  assert (∃ gd1 dir1,
             global_depth_ t1 = gd1 ∧ dir_ t1 = dir1 ∧
             buckets t1 = <[bucket := mkBucket (size_ b0) (d + 1) (list_ b0)]> (buckets t) ∧
             num_buckets_ t1 = num_buckets_ t ∧ bucket_size_ t1 = bucket_size_ t ∧
             global_depth_ t ≤ gd1 ∧
             dir_ok gd1 dir1 dp ∧ d < gd1 ∧ zlookup dir1 bucket_no = Some bucket ∧
             (∀ j, 0 ≤ j < 2 ^ gd1 →
                   zlookup dir1 j = zlookup (dir_ t) (j mod 2 ^ global_depth_ t)))
    as (gd1 & dir1 & Hgd1 & Hdir1 & Hbk1 & Hnb1 & Hbs1 & Hge1 & Hok1 & Hdg1 & Hslot1 & Hmod1).
  { destruct (Z.ltb_spec (global_depth_ t) (d + 1)) as [Hlt | Hge].
    - apply bind_Some in Ht1 as (n & Hn & Ht1).
      apply bind_Some in Ht1 as (dir1 & Hgrow & Ht1). injection Ht1 as <-.
      apply shl1_Some in Hn as [Hn ->]. cbn [dir_ set_buckets] in Hgrow.
      apply grow_dir_spec in Hgrow; [| lia].
      rewrite drop_0, take_ge in Hgrow by lia. subst dir1.
      exists (global_depth_ t + 1), (dir_ t ++ dir_ t).
      split_and!; try done; try lia; try (by cbn; rewrite ?Hdeq).
      + by apply dir_ok_double.
      + rewrite (zlookup_app_double _ (global_depth_ t)); try done.
        * pose proof (zlookup_Some _ _ _ Hslot) as [Hr _]. by rewrite Z.mod_small by lia.
        * pose proof (zlookup_Some _ _ _ Hslot) as [Hr _].
          rewrite Z.pow_add_r, Z.pow_1_r by lia. lia.
      + intros j Hj. by apply zlookup_app_double.
    - injection Ht1 as <-. exists (global_depth_ t), (dir_ t).
      split_and!; try done; try lia; try (by cbn; rewrite ?Hdeq).
      intros j Hj. by rewrite Z.mod_small. }
  rewrite Hgd1, Hdir1, Hbk1, Hbs1 in *.
  apply shl1_Some in Hdiff as [Hdr ->]. apply shl1_Some in Hsize as [Hgr ->].
  unfold PairIndex in Hp. apply bind_Some in Hp as (m & Hm & Hp).
  apply shl1_Some in Hm as [_ ->]. injection Hp as <-.
  replace (d + 1 - 1) with d in * by lia.
  remember (Z.lxor bucket_no (2 ^ d)) as p eqn:Hpeq.
  rewrite length_insert in *.
  pose proof Hok1 as (_ & Hl1 & _ & _).
  pose proof (zstore_Some _ _ _ _ Hdir2) as [Hpr _].
  pose proof (zlookup_zstore _ _ _ _ p Hdir2) as Hp2. rewrite decide_True in Hp2 by done.
  assert (0 < 2 ^ (d + 1)) as Hpow by (apply Z.pow_pos_nonneg; lia).
  apply rewire_down_spec with (a := length (buckets t)) in Hdir3 as [Hlen3 Hj3];
    [| lia | done | apply low_eq_sub | lia].
  assert (zlookup dir3 p = Some (length (buckets t))) as Hp3.
  { rewrite Hj3. case_decide; [lia | done]. }
  apply rewire_up_spec with (a := length (buckets t)) in Hdir4 as [Hlen4 Hj4];
    [| lia | done | apply low_eq_add | lia].
  exists gd1, dir1, dir4. split_and!; try done; try lia.
  - intros j. rewrite Hj4, Hj3, (zlookup_zstore _ _ _ _ j Hdir2).
    pose proof (low_eq_refl (d + 1) p) as Hpp.
    destruct (decide (j = p)) as [Hjp | Hjp].
    { rewrite Hjp. repeat case_decide; try done; destruct_and?; try lia.
      all: exfalso; match goal with H : ¬ (_ ∧ _) |- _ => apply H; split; [lia | done] end. }
    repeat case_decide; try done; destruct_and?; try lia.
    all: try (exfalso; match goal with H : ¬ (_ ∧ _) |- _ => apply H; split; [lia | done] end).
    exfalso. apply Hjp. apply (low_eq_near (d + 1)); [lia | done |].
    destruct (decide (j ≤ p - 2 ^ (d + 1))); [tauto |].
    destruct (decide (p + 2 ^ (d + 1) ≤ j)); [tauto |]. lia.
  - rewrite <- H0. f_equal. unfold set_dir, set_buckets, ClearItems, IncrementDepth.
    cbn [global_depth_ bucket_size_ num_buckets_ dir_ buckets size_ depth_ list_].
    rewrite Hgd1, Hbs1, Hnb1, <- Hdeq. f_equal.
    rewrite insert_app_l by (rewrite length_insert; by eapply lookup_lt_Some).
    by rewrite list_insert_insert_eq.
Qed.

Lemma assign_first_notin (key : K) (value : V) (l : list (K * V)) :
  key ∉ l.*1 → assign_first key value l = None.
Proof.
  induction l as [| kv l IH]; [done |]. cbn [fmap list_fmap assign_first].
  rewrite not_elem_of_cons. intros [Hne Hl]. unfold has_key.
  rewrite bool_decide_eq_false_2 by congruence. by rewrite IH.
Qed.

Lemma find_filter_key (key : K) (P : K * V → Prop) `{∀ kv, Decision (P kv)} (l : list (K * V)) :
  (∀ kv, kv ∈ l → kv.1 = key → P kv) →
  List.find (has_key key) (filter P l) = List.find (has_key key) l.
Proof.
  induction l as [| kv l IH]; intros HP; [done |].
  rewrite filter_cons. cbn [List.find]. unfold has_key at 2.
  case_bool_decide as Hk.
  - rewrite decide_True by (apply HP; [by left | done]). cbn [List.find].
    unfold has_key at 1. by rewrite bool_decide_eq_true_2.
  - assert (List.find (has_key key) (filter P l) = List.find (has_key key) l) as IH'
      by (apply IH; intros kv' ? ?; apply HP; [by right | done]).
    destruct (decide (P kv)); [| done]. cbn [List.find]. unfold has_key at 1.
    by rewrite bool_decide_eq_false_2.
Qed.

(** The loop that re-inserts the entries appends each one to the bucket
    of its key, as long as the buckets have room and do not hold the key. *)
Lemma redistribute_spec items t t' :
  0 ≤ global_depth_ t < 31 →
  (∀ key, ∃ a b, home t key = Some a ∧ buckets t !! a = Some b) →
  NoDup items.*1 →
  (∀ a b, buckets t !! a = Some b →
          Z.of_nat (length (list_ b))
          + Z.of_nat (length (filter (λ kv, home t kv.1 = Some a) items)) ≤ size_ b ∧
          ∀ key, key ∈ items.*1 → home t key = Some a → key ∉ (list_ b).*1) →
  redistribute hash items t = Some t' →
  global_depth_ t' = global_depth_ t ∧ dir_ t' = dir_ t ∧
  bucket_size_ t' = bucket_size_ t ∧
  length (buckets t') = length (buckets t) ∧
  ∀ a b, buckets t !! a = Some b →
         buckets t' !! a
         = Some (mkBucket (size_ b) (depth_ b)
                          (list_ b ++ filter (λ kv, home t kv.1 = Some a) items)).
Proof.
  revert t. induction items as [| [key value] items IH]; intros t Hgd Hhome Hnd Hroom.
  - cbn [redistribute]. intros [= <-]. split_and!; try done.
    intros a b Hb. rewrite filter_nil, app_nil_r. by destruct b.
  - cbn [redistribute]. rewrite IndexOf_slot by done. cbn [mbind option_bind].
    destruct (Hhome key) as (a & b & Ha & Hb). unfold home in Ha. rewrite Ha.
    cbn [mbind option_bind]. rewrite Hb. cbn [mbind option_bind].
    fold (home t key) in Ha.
    cbn [fmap list_fmap fst] in Hnd. apply NoDup_cons in Hnd as [Hkey Hnd].
    destruct (Hroom a b Hb) as [Hlen Hout].
    rewrite filter_cons_True in Hlen by done. cbn [length] in Hlen.
    assert (key ∉ (list_ b).*1) as Hkb by (apply Hout; [by left | done]).
    assert (Bucket_Insert key value b
            = (true, mkBucket (size_ b) (depth_ b) (list_ b ++ [(key, value)]))) as ->.
    { destruct (Bucket_Insert_cases key value b ltac:(lia))
        as [(l & Has & _) | [(_ & _ & ->) | (_ & Hfull & _)]]; [| done | lia].
      by rewrite assign_first_notin in Has. }
    set (b1 := mkBucket (size_ b) (depth_ b) (list_ b ++ [(key, value)])).
    set (t1 := set_buckets (<[a := b1]> (buckets t)) t).
    pose proof (lookup_lt_Some _ _ _ Hb) as Hlt.
    intros Hred. apply (IH t1) in Hred as (Hg' & Hd' & Hbs' & Hlen' & Hbk'); try done.
    + split_and!; try done; [rewrite Hlen'; apply length_insert |].
      intros c bc Hc. destruct (decide (c = a)) as [-> | Hne].
      * rewrite Hb in Hc. injection Hc as <-.
        rewrite (Hbk' a b1) by (by apply list_lookup_insert_eq).
        rewrite filter_cons_True by done. cbn [size_ depth_ list_ b1].
        by rewrite <- app_assoc.
      * rewrite (Hbk' c bc) by (cbn; by rewrite list_lookup_insert_ne).
        rewrite filter_cons_False; [done |]. cbn. congruence.
    + intros key'. destruct (Hhome key') as (c & bc & Hc & Hbc).
      destruct (decide (c = a)) as [-> | Hne].
      * exists a, b1. split; [done |]. by apply list_lookup_insert_eq.
      * exists c, bc. split; [done |]. cbn. by rewrite list_lookup_insert_ne.
    + intros c bc Hc. cbn [t1 set_buckets buckets] in Hc.
      change (home t1) with (home t).
      destruct (decide (c = a)) as [-> | Hne].
      * rewrite list_lookup_insert_eq in Hc by done. injection Hc as <-.
        cbn [b1 list_ size_]. rewrite length_app. cbn [length]. split; [lia |].
        intros key' Hin Hh. rewrite fmap_app, elem_of_app. cbn.
        intros [Hin' | ->%list_elem_of_singleton]; [| done].
        revert Hin'. apply Hout; [by right | done].
      * rewrite list_lookup_insert_ne in Hc by done.
        destruct (Hroom c bc Hc) as [Hlenc Houtc].
        rewrite filter_cons_False in Hlenc by (cbn; congruence).
        split; [done |]. intros key' Hin. apply Houtc. by right.
Qed.

Lemma filter_nil_forall {A} (P : A → Prop) `{∀ x, Decision (P x)} (l : list A) :
  (∀ x, x ∈ l → ¬ P x) → filter P l = [].
Proof.
  induction l as [| x l IH]; intros HP; [done |].
  rewrite filter_cons_False by (apply HP; by left). apply IH. intros y Hy. apply HP. by right.
Qed.

Lemma elem_of_fst {A B} (l : list (A * B)) kv : kv ∈ l → kv.1 ∈ l.*1.
Proof. intros Hin. apply list_elem_of_fmap. by exists kv. Qed.

(** A split moves entries between the bucket and its new sibling only,
    and every key is found as before. *)
Lemma Split_content t bucket_no bucket b0 t' :
  content_ok t → zlookup (dir_ t) bucket_no = Some bucket →
  buckets t !! bucket = Some b0 →
  Split hash bucket_no bucket t = Some t' →
  content_ok t' ∧ ∀ key, Find hash key t' = Find hash key t.
Proof.
  intros Hok Hslot Hb0 Hsplit. pose proof Hok as [Hinv Hgd Hk Hsz Hpl].
  destruct (Split_spec _ _ _ _ _ Hinv Hslot Hb0 Hsplit)
    as (gd1 & dir1 & dir4 & Hgd1 & Hd1 & Hok1 & Hslot1 & Hmod1 & Hdir4 & Hred).
  pose proof (Split_inv hash _ _ _ _ Hinv Hslot Hsplit) as (Hinv' & _ & _).
  pose proof (Split_keys hash _ _ _ _ Hk Hsplit) as Hk'.
  pose proof (inv_depth_nonneg _ Hinv) as Hg0.
  remember (depth_ b0) as d eqn:Hdeq.
  remember (Z.lxor bucket_no (2 ^ d)) as p eqn:Hpeq.
  remember (length (buckets t)) as sib eqn:Hsib.
  set (E := mkBucket (size_ b0) (d + 1) ([] : list (K * V))) in *.
  set (S := mkBucket (bucket_size_ t) (d + 1) ([] : list (K * V))) in *.
  set (t2 := mkTable gd1 (bucket_size_ t) (num_buckets_ t) dir4
                     (<[bucket := E]> (buckets t) ++ [S])) in *.
  pose proof (lookup_lt_Some _ _ _ Hb0) as Hblt.
  rewrite Forall_forall in Hsz.
  destruct (Hsz b0) as [Hlen0 Hsize0]; [by eapply list_elem_of_lookup_2 |].
  assert (0 < 2 ^ gd1) as Hpow1 by (apply Z.pow_pos_nonneg; lia).
  assert (∀ key, 0 ≤ slot t2 key < 2 ^ gd1) as Hrange
    by (intros key; apply Z.mod_pos_bound; done).
  (* the depth of the bucket, and the slots that held it *)
  destruct Hok1 as (_ & Hl1 & Hs1 & _).
  destruct (Hs1 _ _ Hslot1) as (d' & Hd' & Hd'g & Hchar).
  rewrite list_lookup_fmap, Hb0 in Hd'. cbn in Hd'. injection Hd' as Hd'. subst d'.
  rewrite <- Hdeq in Hd'g, Hchar.
  assert (∀ key, zlookup dir1 (slot t2 key) = home t key) as HA.
  { intros key. rewrite Hmod1 by apply Hrange. unfold home, slot. f_equal.
    cbn [global_depth_ t2]. apply (low_eq_mod (global_depth_ t) gd1). lia. }
  assert (∀ key, home t2 key
                 = if decide (low_eq (d + 1) (slot t2 key) p) then Some sib else home t key)
    as HB.
  { intros key. unfold home at 1. cbn [dir_ t2]. rewrite Hdir4, HA.
    pose proof (Hrange key). repeat case_decide; try done; tauto. }
  assert (∀ key, low_eq (d + 1) (slot t2 key) p → home t key = Some bucket) as HC.
  { intros key Hlow. rewrite <- HA. apply Hchar; [apply Hrange |].
    eapply low_eq_trans; [apply (low_eq_le d (d + 1)); [lia | exact Hlow] |].
    rewrite Hpeq. apply pair_low_eq. lia. }
  assert (∀ key c, home t key = Some c → c ≠ bucket → home t2 key = Some c) as HD.
  { intros key c Hc Hne. rewrite HB. case_decide as Hlow; [| done].
    apply HC in Hlow. congruence. }
  assert (∀ key, home t key = Some bucket →
                 home t2 key = Some bucket ∨ home t2 key = Some sib) as HE.
  { intros key Hh. rewrite HB. case_decide; [by right | by left]. }
  assert (∀ key c, home t key = Some c → (c < sib)%nat) as Hlt.
  { intros key c Hc. destruct (home_Some t key Hinv) as (c' & bc & Hc' & Hbc).
    rewrite Hc in Hc'. injection Hc' as <-. rewrite Hsib. by eapply lookup_lt_Some. }
  (* the buckets before the entries are re-inserted *)
  assert (∀ c bc, buckets t2 !! c = Some bc →
                  c = bucket ∧ bc = E ∨ c = sib ∧ bc = S ∨
                  c ≠ bucket ∧ (c < sib)%nat ∧ buckets t !! c = Some bc) as Hcases.
  { intros c bc. cbn [buckets t2]. intros Hc.
    destruct (decide (c < sib)%nat) as [Hcl | Hcg].
    - rewrite lookup_app_l in Hc by (rewrite length_insert; lia).
      destruct (decide (c = bucket)) as [-> | Hne].
      + rewrite list_lookup_insert_eq in Hc by done. left. split; congruence.
      + rewrite list_lookup_insert_ne in Hc by done. right. right. done.
    - rewrite lookup_app_r in Hc by (rewrite length_insert; lia).
      rewrite length_insert, <- Hsib in Hc.
      destruct (c - sib)%nat as [| n] eqn:Hn; [| by destruct n].
      right. left. split; [lia | by injection Hc]. }
  assert (buckets t2 !! bucket = Some E) as HbE.
  { cbn [buckets t2]. rewrite lookup_app_l by (rewrite length_insert; lia).
    by apply list_lookup_insert_eq. }
  assert (buckets t2 !! sib = Some S) as HbS.
  { cbn [buckets t2]. rewrite lookup_app_r by (rewrite length_insert; lia).
    by rewrite length_insert, <- Hsib, Nat.sub_diag. }
  assert (∀ c bc, c ≠ bucket → buckets t !! c = Some bc → buckets t2 !! c = Some bc) as HbO.
  { intros c bc Hne Hc. cbn [buckets t2].
    rewrite lookup_app_l by (rewrite length_insert; by eapply lookup_lt_Some).
    by rewrite list_lookup_insert_ne. }
  assert (∀ key, key ∈ (list_ b0).*1 →
                 home t2 key = Some bucket ∨ home t2 key = Some sib) as Hitems.
  { intros key Hin. apply HE. by apply (Hpl bucket b0). }
  assert (∀ c, c ≠ bucket → c ≠ sib →
               filter (λ kv : K * V, home t2 kv.1 = Some c) (list_ b0) = []) as Hnone.
  { intros c Hc1 Hc2. apply filter_nil_forall. intros kv Hin Hh.
    destruct (Hitems kv.1 (elem_of_fst _ _ Hin)); congruence. }
  assert (∀ a b, buckets t2 !! a = Some b →
                 Z.of_nat (length (list_ b))
                 + Z.of_nat (length (filter (λ kv, home t2 kv.1 = Some a) (list_ b0))) ≤ size_ b ∧
                 size_ b = bucket_size_ t ∧
                 ∀ key, key ∈ (list_ b0).*1 → home t2 key = Some a → key ∉ (list_ b).*1)
    as Hroom.
  { intros c bc Hc.
    pose proof (length_filter (λ kv : K * V, home t2 kv.1 = Some c) (list_ b0)) as Hfl.
    destruct (Hcases c bc Hc) as [[-> ->] | [[-> ->] | (Hne & Hcl & Hbc)]].
    - cbn [E list_ size_ length]. split; [lia |]. split; [done |].
      intros key _ _. apply not_elem_of_nil.
    - cbn [S list_ size_ length]. split; [lia |]. split; [done |].
      intros key _ _. apply not_elem_of_nil.
    - rewrite Hnone by (done || lia). cbn [length].
      destruct (Hsz bc) as [Hlenc Hsizec]; [by eapply list_elem_of_lookup_2 |].
      split; [lia |]. split; [done |]. intros key Hin Hh.
      destruct (Hitems key Hin); [congruence |].
      assert (c = sib) by congruence. lia. }
  apply redistribute_spec in Hred as (Hg' & Hdir' & Hbs' & Hlen' & Hbk').
  2:{ cbn [global_depth_ t2]. lia. }
  2:{ intros key. destruct (home_Some t key Hinv) as (c & bc & Hc & Hbc).
      destruct (decide (c = bucket)) as [-> | Hne].
      - destruct (HE key Hc) as [Hh | Hh]; rewrite Hh; eauto.
      - exists c, bc. split; [by apply HD | by apply HbO]. }
  2:{ by apply (keys_ok_lookup _ _ _ Hk Hb0). }
  2:{ intros a b Hb. destruct (Hroom a b Hb) as (? & _ & ?). done. }
  cbn [global_depth_ dir_ bucket_size_ t2] in Hg', Hdir', Hbs'.
  assert (∀ key, home t' key = home t2 key) as Hh'.
  { intros key. unfold home, slot. by rewrite Hg', Hdir'. }
  assert (content_ok t') as Hok'.
  { split; try done.
    - lia.
    - apply Forall_lookup. intros c b' Hc.
      destruct (buckets t2 !! c) as [bc |] eqn:Hbc.
      + rewrite (Hbk' c bc Hbc) in Hc. injection Hc as <-. cbn [list_ size_].
        destruct (Hroom c bc Hbc) as (Hle & Hsize & _).
        rewrite length_app. split; [lia |]. by rewrite Hbs'.
      + apply lookup_ge_None in Hbc. apply lookup_lt_Some in Hc. lia.
    - intros c b' key Hc Hkey. rewrite Hh'.
      destruct (buckets t2 !! c) as [bc |] eqn:Hbc.
      2:{ apply lookup_ge_None in Hbc. apply lookup_lt_Some in Hc. lia. }
      rewrite (Hbk' c bc Hbc) in Hc. injection Hc as <-. cbn [list_] in Hkey.
      rewrite fmap_app, elem_of_app in Hkey. destruct Hkey as [Hkey | Hkey].
      + destruct (Hcases c bc Hbc) as [[-> ->] | [[-> ->] | (Hne & Hcl & Hbc0)]].
        * by apply elem_of_nil in Hkey.
        * by apply elem_of_nil in Hkey.
        * apply HD; [| done]. by apply (Hpl c bc).
      + apply list_elem_of_fmap in Hkey as (kv & -> & Hin).
        by apply list_elem_of_filter in Hin as [Hh _]. }
  split; [done |]. intros key.
  destruct (home_Some t key Hinv) as (c & bc & Hc & Hbc).
  rewrite (Find_home t key c bc) by done.
  destruct (decide (c = bucket)) as [-> | Hne].
  - rewrite Hb0 in Hbc. injection Hbc as <-.
    assert (∃ c' bc', home t2 key = Some c' ∧ buckets t2 !! c' = Some bc' ∧ list_ bc' = [])
      as (c' & bc' & Hc' & Hbc' & Hnil).
    { destruct (HE key Hc) as [Hh | Hh]; rewrite Hh; eauto. }
    rewrite (Find_home t' key c' _ Hok' ltac:(by rewrite Hh') (Hbk' c' bc' Hbc')).
    cbn [list_]. rewrite Hnil, app_nil_l. f_equal. f_equal.
    apply find_filter_key. intros kv _ ->. done.
  - rewrite (Find_home t' key c _ Hok'
               ltac:(rewrite Hh'; by apply HD) (Hbk' c bc (HbO c bc Hne Hbc))).
    cbn [list_]. rewrite Hnone; [by rewrite app_nil_r | done |].
    apply Hlt in Hc. lia.
Qed.

(** *** [Insert] *)

Lemma Insert_content fuel key value t t' :
  content_ok t → Insert hash fuel key value t = Some t' →
  content_ok t' ∧
  ∀ key', Find hash key' t'
          = if decide (key' = key) then Some (Some value) else Find hash key' t.
Proof.
  revert t. induction fuel as [| fuel IH]; intros t Hok; cbn [Insert]; [done |].
  pose proof Hok as [Hinv Hgd Hk Hsz Hpl].
  rewrite IndexOf_slot by (split; [by apply inv_depth_nonneg | done]).
  cbn [mbind option_bind].
  destruct (home_Some t key Hinv) as (a & b & Ha & Hb). unfold home in Ha. rewrite Ha.
  cbn [mbind option_bind]. rewrite Hb. cbn [mbind option_bind]. fold (home t key) in Ha.
  destruct (Bucket_Insert key value b) as [success b'] eqn:Hins. destruct success.
  - intros [= <-]. by eapply Insert_store_content.
  - intros H0. apply bind_Some in H0 as (t1 & Hsplit & H0).
    destruct (Split_content t _ a b t1 Hok Ha Hb Hsplit) as [Hok1 Hfind1].
    destruct (IH t1 Hok1 H0) as [Hok' Hfind']. split; [done |].
    intros key'. rewrite Hfind'. case_decide; [done | apply Hfind1].
Qed.

Lemma reachable_content bucket_size t :
  0 ≤ bucket_size → reachable hash bucket_size t → content_ok t.
Proof.
  intros Hs. induction 1 as [| t fuel key value t' _ IH Hins
                             | t key found t' _ IH Hrm | t key value _ IH _].
  - by apply content_ok_new.
  - by apply (Insert_content _ _ _ _ _ IH Hins).
  - destruct (Remove_content t key IH) as (found' & t0 & Hrm' & Hok & _).
    rewrite Hrm in Hrm'. by injection Hrm' as -> ->.
  - done.
Qed.


(** *** The table as a map *)

(** A client's calls that change the table, and the table after a list of
    them; [fuel] bounds the retries of each [Insert]. *)
Inductive table_op : Type :=
| TInsert (key : K) (value : V)
| TRemove (key : K).

Definition table_exec (fuel : nat) (o : table_op) t : option (ExtendibleHashTable K V) :=
  match o with
  | TInsert key value => Insert hash fuel key value t
  | TRemove key => snd <$> Remove hash key t
  end.

Fixpoint table_run (fuel : nat) (ops : list table_op) t : option (ExtendibleHashTable K V) :=
  match ops with
  | [] => Some t
  | o :: ops' => t' ← table_exec fuel o t; table_run fuel ops' t'
  end.

(** The map that the same calls build: the last value inserted for a key
    since its last removal. *)
Definition model_exec (o : table_op) (m : K → option V) : K → option V :=
  match o with
  | TInsert key value => λ key', if decide (key' = key) then Some value else m key'
  | TRemove key => λ key', if decide (key' = key) then None else m key'
  end.

Fixpoint model_run (ops : list table_op) (m : K → option V) : K → option V :=
  match ops with
  | [] => m
  | o :: ops' => model_run ops' (model_exec o m)
  end.

Lemma table_exec_content fuel o t t' :
  content_ok t → table_exec fuel o t = Some t' →
  content_ok t' ∧
  ∀ m, (∀ key, Find hash key t = Some (m key)) →
       ∀ key, Find hash key t' = Some (model_exec o m key).
Proof.
  intros Hok. destruct o as [key value | key]; cbn [table_exec model_exec].
  - intros Hins. destruct (Insert_content _ _ _ _ _ Hok Hins) as [Hok' Hfind].
    split; [done |]. intros m Hm key'. rewrite Hfind. by case_decide.
  - destruct (Remove_content t key Hok) as (found & t0 & -> & Hok' & _ & Hfind).
    cbn. intros [= <-]. split; [done |].
    intros m Hm key'. rewrite Hfind. by case_decide.
Qed.

Lemma table_run_content fuel ops t t' :
  content_ok t → table_run fuel ops t = Some t' →
  content_ok t' ∧
  ∀ m, (∀ key, Find hash key t = Some (m key)) →
       ∀ key, Find hash key t' = Some (model_run ops m key).
Proof.
  revert t. induction ops as [| o ops IH]; intros t Hok; cbn [table_run model_run].
  - by intros [= <-].
  - intros H0. apply bind_Some in H0 as (t1 & Hexec & Hrun).
    destruct (table_exec_content _ _ _ _ Hok Hexec) as [Hok1 Hm1].
    destruct (IH t1 Hok1 Hrun) as [Hok' Hm']. split; [done |].
    intros m Hm. apply Hm', Hm1, Hm.
Qed.

Lemma Find_new bucket_size key :
  0 ≤ bucket_size → Find hash key (new bucket_size : ExtendibleHashTable K V) = Some None.
Proof.
  intros Hs. pose proof (content_ok_new bucket_size Hs) as Hok.
  destruct (home_Some (new bucket_size) key (co_inv _ Hok)) as (a & b & Ha & Hb).
  rewrite (Find_home _ _ _ _ Hok Ha Hb).
  destruct a as [| a]; [| done]. by injection Hb as <-.
Qed.

(** X9. On a table reached from the constructor by insertions, removals
    and lookups, a successful [Insert] of [key] with [value] makes [Find]
    give [value] for [key], and leaves the answer of [Find] for every other
    key as it was, whatever buckets were split and however often the
    directory was doubled on the way. *)
Theorem Insert_then_Find bucket_size fuel key value t t' :
  0 ≤ bucket_size → reachable hash bucket_size t →
  Insert hash fuel key value t = Some t' →
  ∀ key', Find hash key' t'
          = if decide (key' = key) then Some (Some value) else Find hash key' t.
Proof.
  intros Hs Hr Hins.
  by apply (Insert_content _ _ _ _ _ (reachable_content _ _ Hs Hr) Hins).
Qed.

(** X10. On a reachable table [Remove] always completes.  It returns true
    exactly if [Find] had a value for the key, and false, leaving the table
    as it was, if not.  Afterwards [Find] gives nothing for the key, and
    what it gave before for every other key. *)
Theorem Remove_then_Find bucket_size key t :
  0 ≤ bucket_size → reachable hash bucket_size t →
  ∃ found t',
    Remove hash key t = Some (found, t') ∧
    (if found then ∃ v, Find hash key t = Some (Some v)
     else Find hash key t = Some None ∧ t' = t) ∧
    ∀ key', Find hash key' t'
            = if decide (key' = key) then Some None else Find hash key' t.
Proof.
  intros Hs Hr.
  destruct (Remove_content t key (reachable_content _ _ Hs Hr))
    as (found & t' & Hrm & _ & Hf & Hfind).
  by exists found, t'.
Qed.

(** X11. The table is a map: after any list of insertions and removals
    on a new table, [Find] completes for every key and gives the value of
    the last insertion for the key that no removal of the key follows, and
    nothing if there is none. *)
Theorem table_is_a_map bucket_size fuel ops t :
  0 ≤ bucket_size →
  table_run fuel ops (new bucket_size) = Some t →
  ∀ key, Find hash key t = Some (model_run ops (λ _, None) key).
Proof.
  intros Hs Hrun.
  destruct (table_run_content _ _ _ _ (content_ok_new _ Hs) Hrun) as [_ Hm].
  apply Hm. intros key. by apply Find_new.
Qed.

(** X12. In a reachable table every bucket has the capacity given to the
    constructor and holds at most that many entries, no bucket holds two
    entries with the same key, every entry lies in the bucket that the
    directory slot of its key points to, and the global depth is below 31. *)
Theorem reachable_layout bucket_size t :
  0 ≤ bucket_size → reachable hash bucket_size t →
  global_depth_ t < 31 ∧
  ∀ a b, buckets t !! a = Some b →
    size_ b = bucket_size ∧
    Z.of_nat (length (list_ b)) ≤ bucket_size ∧
    NoDup (list_ b).*1 ∧
    ∀ key, key ∈ (list_ b).*1 →
      zlookup (dir_ t) (hash key mod 2 ^ global_depth_ t) = Some a.
Proof.
  intros Hs Hr. pose proof (reachable_content _ _ Hs Hr) as [Hinv Hgd Hk Hsz Hpl].
  split; [done |]. intros a b Hb.
  rewrite Forall_forall in Hsz.
  destruct (Hsz b) as [Hlen Hsize]; [by eapply list_elem_of_lookup_2 |].
  assert (bucket_size_ t = bucket_size) as Hbs.
  { clear -Hr. induction Hr as [| t fuel key value t' Hr IH Hins
                               | t key found t' Hr IH Hrm |]; [done | | | done].
    - pose proof (reachable_inv _ _ _ Hr) as [Hinv _].
      by destruct (Insert_inv _ _ _ _ _ _ Hinv Hins) as (_ & _ & ->).
    - by destruct (Remove_frame _ _ _ _ _ Hrm) as (_ & _ & _ & _ & ->). }
  split_and!; [congruence | lia | | intros key Hkey; by eapply Hpl].
  unfold keys_ok in Hk. rewrite Forall_lookup in Hk. by eapply Hk.
Qed.

(** X13. On a reachable table an [Insert] for a key that [Find] has a
    value for, or for a key whose bucket has room, completes in the first
    round: it splits no bucket and leaves the global depth, the directory
    and the local depths as they were. *)
Theorem Insert_without_split bucket_size fuel key value t :
  0 ≤ bucket_size → reachable hash bucket_size t →
  (∃ v, Find hash key t = Some (Some v)) ∨
  (∃ a b, zlookup (dir_ t) (hash key mod 2 ^ global_depth_ t) = Some a ∧
          buckets t !! a = Some b ∧ Z.of_nat (length (list_ b)) < bucket_size_ t) →
  ∃ t', Insert hash (S fuel) key value t = Some t' ∧
        global_depth_ t' = global_depth_ t ∧ dir_ t' = dir_ t ∧
        depth_ <$> buckets t' = depth_ <$> buckets t.
Proof.
  intros Hs Hr Hcase. pose proof (reachable_content _ _ Hs Hr) as Hok.
  pose proof Hok as [Hinv Hgd Hk Hsz Hpl].
  destruct (home_Some t key Hinv) as (a & b & Ha & Hb).
  pose proof (lookup_lt_Some _ _ _ Hb) as Hlt.
  rewrite Forall_forall in Hsz.
  destruct (Hsz b) as [Hlen Hsize]; [by eapply list_elem_of_lookup_2 |].
  assert (∃ b', Bucket_Insert key value b = (true, b') ∧ depth_ b' = depth_ b)
    as (b' & Hins & Hd).
  { destruct (Bucket_Insert_cases key value b Hlen)
      as [(l & _ & ->) | [(_ & _ & ->) | (Hnone & Hfull & _)]]; [by eexists | by eexists |].
    exfalso. destruct Hcase as [[v Hv] | (a' & b0 & Ha' & Hb' & Hroom)].
    - rewrite (Find_home _ _ _ _ Hok Ha Hb) in Hv.
      rewrite find_has_key_None in Hv by by eapply assign_first_None. done.
    - fold (slot t key) in Ha'. fold (home t key) in Ha'.
      rewrite Ha in Ha'. injection Ha' as <-. rewrite Hb in Hb'. injection Hb' as <-. lia. }
  exists (set_buckets (<[a := b']> (buckets t)) t). split.
  - cbn [Insert]. rewrite IndexOf_slot by (split; [by apply inv_depth_nonneg | done]).
    cbn [mbind option_bind]. unfold home in Ha. rewrite Ha. cbn [mbind option_bind].
    rewrite Hb. cbn [mbind option_bind]. by rewrite Hins.
  - split_and!; [done | done |]. cbn. rewrite list_fmap_insert, Hd.
    apply list_insert_id. by rewrite list_lookup_fmap, Hb.
Qed.

End Content.

Lemma Insert_then_Find_witness :
  ∃ t', Insert std_hash 4 5 15 example_3 = Some t' ∧
    ∀ key', Find std_hash key' t'
            = if decide (key' = 5) then Some (Some 15) else Find std_hash key' example_3.
Proof.
  eexists. split; [vm_compute; reflexivity |].
  apply (Insert_then_Find std_hash 1 4 5 15 example_3); [lia | | vm_compute; reflexivity].
  exact example_3_reachable.
Defined.

Lemma Remove_then_Find_witness :
  ∃ found t',
    Remove std_hash 1 example_3 = Some (found, t') ∧
    (if found then ∃ v, Find std_hash 1 example_3 = Some (Some v)
     else Find std_hash 1 example_3 = Some None ∧ t' = example_3) ∧
    ∀ key', Find std_hash key' t'
            = if decide (key' = 1) then Some None else Find std_hash key' example_3.
Proof.
  apply (Remove_then_Find std_hash 1 1 example_3); [lia |].
  exact example_3_reachable.
Defined.

Definition example_ops : list (@table_op Z Z) :=
  [TInsert 0 10; TInsert 1 11; TRemove 0; TInsert 2 12; TInsert 1 13].

Lemma table_is_a_map_witness :
  ∃ t, table_run std_hash 4 example_ops (new 1) = Some t ∧
    ∀ key, Find std_hash key t = Some (model_run example_ops (λ _, None) key).
Proof.
  eexists. split; [vm_compute; reflexivity |].
  apply (table_is_a_map std_hash 1 4 example_ops); [lia | vm_compute; reflexivity].
Defined.

Lemma reachable_layout_witness :
  global_depth_ example_3 < 31 ∧
  ∀ a b, buckets example_3 !! a = Some b →
    size_ b = 1 ∧
    Z.of_nat (length (list_ b)) ≤ 1 ∧
    NoDup (list_ b).*1 ∧
    ∀ key, key ∈ (list_ b).*1 →
      zlookup (dir_ example_3) (std_hash key mod 2 ^ global_depth_ example_3) = Some a.
Proof.
  apply (reachable_layout std_hash 1 example_3); [lia |].
  exact example_3_reachable.
Defined.

Lemma Insert_without_split_witness :
  ∃ t', Insert std_hash 1 1 21 example_3 = Some t' ∧
        global_depth_ t' = global_depth_ example_3 ∧ dir_ t' = dir_ example_3 ∧
        depth_ <$> buckets t' = depth_ <$> buckets example_3.
Proof.
  apply (Insert_without_split std_hash 1 0 1 21 example_3); [lia | |].
  - exact example_3_reachable.
  - left. exists 11. vm_compute; reflexivity.
Defined.

End Hash_props.

(** ** The buffer pool manager *)

Module BPM_facts.

Import BPM.

Section Pool.

Variable hash : Z → Z.
Variable PAGE_SIZE : nat.

Abbreviation new := (new PAGE_SIZE).
Abbreviation ResetPage := (ResetPage hash PAGE_SIZE).
Abbreviation InitPage := (InitPage hash).
Abbreviation NewPgImp := (NewPgImp hash PAGE_SIZE).
Abbreviation FetchPgImp := (FetchPgImp hash PAGE_SIZE).
Abbreviation UnpinPgImp := (UnpinPgImp hash).
Abbreviation FlushPgImp := (FlushPgImp hash).
Abbreviation DeletePgImp := (DeletePgImp hash PAGE_SIZE).
Abbreviation exec := (exec hash PAGE_SIZE).
Abbreviation run := (run hash PAGE_SIZE).

(** *** Pin counts and evictability (C1) *)

(** The pin count of frame [g], if there is such a frame. *)
Definition pins (s : BufferPoolManagerInstance) (g : Z) : option Z :=
  pin_count_ <$> get_page g s.

Lemma pins_get s g pg c : get_page g s = Some pg → pins s g = Some c → pin_count_ pg = c.
Proof. unfold pins. intros ->. simpl. congruence. Qed.

Definition frame_ok (r : LRUK.LRUKReplacer) (g : Z) (c : Z) : Prop :=
  0 ≤ c ∧ (0 < c → LRUK.node_evictable r g = false).

Definition pin_inv_but (X : Z → Prop) (s : BufferPoolManagerInstance) : Prop :=
  LRUK.heap_ok (replacer_ s) ∧
  ∀ g c, ¬ X g → pins s g = Some c → frame_ok (replacer_ s) g c.

Definition pin_inv : BufferPoolManagerInstance → Prop := pin_inv_but (λ _, False).

Lemma pin_inv_weaken X s : pin_inv s → pin_inv_but X s.
Proof.
  intros [Hh Hp]. split; [done |]. intros g c _ Hc. apply Hp; [tauto | done].
Qed.

Lemma pin_inv_but_ext X s s' :
  replacer_ s' = replacer_ s →
  (∀ g, ¬ X g → pins s' g = pins s g) →
  pin_inv_but X s → pin_inv_but X s'.
Proof.
  intros Hr Hp [Hh Hi]. split; rewrite Hr; [done |].
  intros g c Hg. rewrite Hp by done. by apply Hi.
Qed.

Lemma put_page_Some f pg s s' :
  put_page f pg s = Some s' →
  s' = set_pages (<[Z.to_nat f := pg]> (pages_ s)) s ∧
  ∀ g, get_page g s' = if decide (g = f) then Some pg else get_page g s.
Proof.
  unfold put_page. intros H. apply bind_Some in H as (l & Hl & H).
  injection H as <-. split.
  - by apply zstore_Some in Hl as [_ ->].
  - intros g. unfold get_page. simpl. by apply zlookup_zstore.
Qed.

Lemma put_page_pins f pg s s' g :
  put_page f pg s = Some s' →
  pins s' g = if decide (g = f) then Some (pin_count_ pg) else pins s g.
Proof.
  intros [_ H]%put_page_Some. unfold pins. rewrite H.
  by destruct (decide (g = f)).
Qed.

Lemma put_page_replacer f pg s s' :
  put_page f pg s = Some s' → replacer_ s' = replacer_ s.
Proof. by intros [-> _]%put_page_Some. Qed.

(** A write to frame [f] that keeps its pin count keeps the invariant. *)
Lemma pin_inv_but_put X f pg pg' s s' :
  get_page f s = Some pg → pin_count_ pg' = pin_count_ pg →
  put_page f pg' s = Some s' →
  pin_inv_but X s → pin_inv_but X s'.
Proof.
  intros Hg Hc Hp. apply pin_inv_but_ext; [by eapply put_page_replacer |].
  intros g _. rewrite (put_page_pins _ _ _ _ _ Hp).
  destruct (decide (g = f)) as [-> |]; [| done].
  unfold pins. by rewrite Hg, Hc.
Qed.

Lemma evictable_false_mono (r r' : LRUK.LRUKReplacer) g :
  (LRUK.node_evictable r' g = true → LRUK.node_evictable r g = true) →
  LRUK.node_evictable r g = false → LRUK.node_evictable r' g = false.
Proof. destruct (LRUK.node_evictable r' g); [| done]. intros H. by rewrite H. Qed.

Lemma pin_inv_GetVictimPage X f s s' :
  GetVictimPage s = Some (f, s') →
  pin_inv_but X s → pin_inv_but X s' ∧ pages_ s' = pages_ s.
Proof.
  unfold GetVictimPage. intros H [Hh Hi]. destruct (free_list_ s) as [| f0 rest].
  - apply bind_Some in H as ([o r] & He & H).
    assert (pages_ s' = pages_ s ∧ replacer_ s' = r) as [Hp Hr]
      by (destruct o; by simplify_eq).
    split; [| done]. split; rewrite Hr.
    + eapply LRUK_facts.heap_ok_Evict; eauto.
    + intros g c Hg Hc. unfold pins, get_page in Hc. rewrite Hp in Hc.
      destruct (Hi g c Hg Hc) as [H0 H1]. split; [done |]. intros Hpos.
      eapply evictable_false_mono; [eapply LRUK_facts.Evict_evictable; eauto | auto].
  - apply bind_Some in H as (pg & Hg & H).
    apply bind_Some in H as ([] & _ & H). by simplify_eq.
Qed.

Lemma ResetPage_Some f s b s' :
  ResetPage f s = Some (b, s') →
  replacer_ s' = replacer_ s ∧ free_list_ s' = free_list_ s ∧
  next_page_id_ s' = next_page_id_ s ∧
  ∀ g, g ≠ f → get_page g s' = get_page g s.
Proof.
  unfold ResetPage. intros H. apply bind_Some in H as (pg & Hg & H).
  case_bool_decide; [by simplify_eq |].
  apply bind_Some in H as ([found pt] & Hrm & H). simpl in H.
  destruct found; [| by simplify_eq].
  apply bind_Some in H as (s1 & Hput & H). injection H as <- <-.
  apply put_page_Some in Hput as [-> Hget].
  repeat split; try (by destruct (is_dirty_ pg)).
  intros g Hne. rewrite Hget. destruct (decide (g = f)); [done |].
  by destruct (is_dirty_ pg).
Qed.

Lemma pin_inv_ResetPage f s b s' :
  ResetPage f s = Some (b, s') → pin_inv_but (λ g, g = f) s → pin_inv_but (λ g, g = f) s'.
Proof.
  intros (Hr & _ & _ & Hg)%ResetPage_Some. apply pin_inv_but_ext; [done |].
  intros g Hne. unfold pins. by rewrite Hg.
Qed.

Lemma InitPage_Some fuel f p s s' :
  InitPage fuel f p s = Some s' →
  ∃ pg pt,
    get_page f s = Some pg ∧
    page_id_ pg = INVALID_PAGE_ID ∧ is_dirty_ pg = false ∧ pin_count_ pg = 0 ∧
    Hash.Insert hash fuel p f (page_table_ s) = Some pt ∧
    s' = set_page_table pt
           (set_pages (<[Z.to_nat f := set_pin_count 1 (set_page_id p pg)]> (pages_ s)) s) ∧
    ∀ g, get_page g s' =
         if decide (g = f) then Some (set_pin_count 1 (set_page_id p pg)) else get_page g s.
Proof.
  unfold InitPage. intros H. apply bind_Some in H as (pg & Hg & H).
  apply bind_Some in H as ([] & Ha & H). apply assert_Some in Ha.
  apply bind_Some in H as (s1 & Hput & H).
  apply bind_Some in H as (pt & Hins & H). injection H as <-.
  apply put_page_Some in Hput as [-> Hget].
  apply andb_true_iff in Ha as [Ha Hpin]. apply andb_true_iff in Ha as [Hid Hd].
  apply bool_decide_eq_true in Hid. apply negb_true_iff in Hd.
  apply Z.eqb_eq in Hpin. exists pg, pt. done.
Qed.

Lemma pin_inv_InitPage fuel f p s s' :
  InitPage fuel f p s = Some s' →
  pin_inv_but (λ g, g = f) s →
  pin_inv_but (λ g, g = f) s' ∧ pins s' f = Some 1.
Proof.
  intros (pg & pt & Hg & _ & _ & _ & _ & -> & Hget)%InitPage_Some Hi. split.
  - revert Hi. apply pin_inv_but_ext; [done |]. intros g Hne.
    unfold pins. rewrite Hget. by destruct (decide (g = f)).
  - unfold pins. rewrite Hget. by destruct (decide (f = f)).
Qed.

Lemma pin_inv_UpdateFrameInfo f c s s' :
  UpdateFrameInfo f c s = Some s' →
  pin_inv_but (λ g, g = f) s →
  pins s f = Some c →
  0 ≤ c →
  (1 < c → LRUK.node_evictable (replacer_ s) f = false) →
  pin_inv s' ∧ pages_ s' = pages_ s.
Proof.
  unfold UpdateFrameInfo. intros H [Hh Hi] Hc H0 H1.
  apply bind_Some in H as (r1 & Hra & H).
  apply bind_Some in H as (r2 & Hse & H). injection H as <-.
  split; [| done].
  pose proof (LRUK_facts.heap_ok_RecordAccess _ _ _ Hh Hra) as Hh1.
  assert (LRUK.heap_ok r2) as Hh2.
  { destruct (c =? 1); [eapply LRUK_facts.heap_ok_SetEvictable; eauto | by simplify_eq]. }
  split; [done |]. intros g d _ Hd.
  change (pins s g = Some d) in Hd. simpl.
  destruct (decide (g = f)) as [-> | Hne].
  - rewrite Hc in Hd. injection Hd as <-. split; [done |]. intros Hpos.
    destruct (Z.eqb_spec c 1) as [-> | Hc1].
    + exact (LRUK_facts.SetEvictable_false_evictable _ _ _ Hh1 Hse).
    + simplify_eq. eapply evictable_false_mono;
        [eapply LRUK_facts.RecordAccess_evictable; eauto | apply H1; lia].
  - destruct (Hi g d Hne Hd) as [Hd0 Hd1]. split; [done |]. intros Hpos.
    assert (LRUK.node_evictable r1 g = false) as Hr1.
    { eapply evictable_false_mono;
        [eapply LRUK_facts.RecordAccess_evictable; eauto | auto]. }
    destruct (c =? 1); [| by simplify_eq].
    by rewrite (LRUK_facts.SetEvictable_evictable_ne _ _ _ _ _ Hse Hne).
Qed.

Lemma pin_inv_new pool_size disk replacer_k bucket_size :
  pin_inv (new pool_size disk replacer_k bucket_size).
Proof.
  split; [apply LRUK_facts.heap_ok_new |].
  intros g c _. unfold pins, get_page, zlookup. simpl.
  destruct (g <? 0); [done |].
  destruct (repeat (new_Page PAGE_SIZE) _ !! _) as [pg |] eqn:Hpg; [| done].
  apply list_elem_of_lookup_2, list_elem_of_In, repeat_spec in Hpg as ->.
  intros [= <-]. split; [done | simpl; lia].
Qed.

Lemma pin_inv_NewPgImp fuel s r s' :
  NewPgImp fuel s = Some (r, s') → pin_inv s → pin_inv s'.
Proof.
  unfold NewPgImp. intros H Hi.
  apply bind_Some in H as ([f s1] & Hv & H). simpl in H.
  apply pin_inv_GetVictimPage with (X := λ _, False) in Hv as [Hi1 _]; [| done].
  case_bool_decide; [by simplify_eq |].
  apply bind_Some in H as ([b s3] & Hreset & H). simpl in H.
  apply bind_Some in H as (s4 & Hinit & H).
  apply bind_Some in H as (pg & Hpg & H).
  apply bind_Some in H as (s5 & Hupd & H). injection H as <- <-.
  apply pin_inv_ResetPage in Hreset; [| by apply pin_inv_weaken].
  apply pin_inv_InitPage in Hinit as [Hi4 Hp4]; [| done].
  assert (pin_count_ pg = 1) as Hc by (by apply (pins_get _ _ _ _ Hpg)).
  rewrite Hc in Hupd.
  apply pin_inv_UpdateFrameInfo in Hupd as [Hi5 _]; [done | done | done | lia | lia].
Qed.

Lemma pin_inv_FetchPgImp fuel p s r s' :
  FetchPgImp fuel p s = Some (r, s') → pin_inv s → pin_inv s'.
Proof.
  unfold FetchPgImp. intros H Hi.
  apply bind_Some in H as (found & Hfind & H). destruct found as [f |].
  - apply bind_Some in H as (pg & Hpg & H).
    apply bind_Some in H as (s1 & Hput & H).
    apply bind_Some in H as (s2 & Hupd & H). injection H as <- <-.
    destruct Hi as [Hh Hi].
    destruct (Hi f (pin_count_ pg)) as [H0 H1]; [tauto | by unfold pins; rewrite Hpg |].
    pose proof (put_page_replacer _ _ _ _ Hput) as Hr.
    apply pin_inv_UpdateFrameInfo in Hupd as [Hi2 _]; [done | | | simpl; lia |].
    + split; rewrite Hr; [done |]. intros g c Hne.
      rewrite (put_page_pins _ _ _ _ g Hput). destruct (decide (g = f)); [done |].
      apply Hi. tauto.
    + rewrite (put_page_pins _ _ _ _ f Hput). by destruct (decide (f = f)).
    + simpl. rewrite Hr. intros ?. apply H1. lia.
  - apply bind_Some in H as ([f s1] & Hv & H). simpl in H.
    apply pin_inv_GetVictimPage with (X := λ _, False) in Hv as [Hi1 _]; [| done].
    case_bool_decide; [by simplify_eq |].
    apply bind_Some in H as ([b s3] & Hreset & H). simpl in H.
    apply bind_Some in H as (s4 & Hinit & H).
    apply bind_Some in H as (pg & Hpg & H).
    apply bind_Some in H as (s5 & Hput & H).
    apply bind_Some in H as (s6 & Hupd & H). injection H as <- <-.
    apply pin_inv_ResetPage in Hreset; [| by apply pin_inv_weaken].
    apply pin_inv_InitPage in Hinit as [Hi4 Hp4]; [| done].
    assert (pin_count_ pg = 1) as Hc by (by apply (pins_get _ _ _ _ Hpg)).
    simpl in Hupd. rewrite Hc in Hupd.
    apply pin_inv_UpdateFrameInfo in Hupd as [Hi6 _]; [done | | | lia | lia].
    + revert Hi4. eapply pin_inv_but_put; [done | | done]. done.
    + rewrite (put_page_pins _ _ _ _ f Hput). destruct (decide (f = f)); [| done].
      simpl. by rewrite Hc.
Qed.

Lemma UnpinFrame_Some f s s' :
  UnpinFrame f s = Some s' →
  ∃ pg s1,
    get_page f s = Some pg ∧ 0 < pin_count_ pg ∧
    put_page f (set_pin_count (pin_count_ pg - 1) pg) s = Some s1 ∧
    if pin_count_ pg - 1 =? 0
    then ∃ r, LRUK.SetEvictable f true (replacer_ s) = Some r ∧ s' = set_replacer r s1
    else s' = s1.
Proof.
  unfold UnpinFrame. intros H. apply bind_Some in H as (pg & Hpg & H).
  apply bind_Some in H as ([] & Ha & H). apply assert_Some, Z.ltb_lt in Ha.
  apply bind_Some in H as (s1 & Hput & H). simpl in H.
  exists pg, s1. repeat split; try done.
  destruct (pin_count_ pg - 1 =? 0); [| by simplify_eq].
  apply bind_Some in H as (r & Hse & H). injection H as <-.
  rewrite (put_page_replacer _ _ _ _ Hput) in Hse. eauto.
Qed.

Lemma pin_inv_UnpinFrame f s s' :
  UnpinFrame f s = Some s' → pin_inv s → pin_inv s'.
Proof.
  intros (pg & s1 & Hpg & Hpos & Hput & H)%UnpinFrame_Some [Hh Hi].
  pose proof (put_page_replacer _ _ _ _ Hput) as Hr.
  destruct (Hi f (pin_count_ pg)) as [H0 H1]; [tauto | by unfold pins; rewrite Hpg |].
  destruct (Z.eqb_spec (pin_count_ pg - 1) 0) as [Hz | Hnz].
  - destruct H as (r & Hse & ->). split; simpl.
    + eapply LRUK_facts.heap_ok_SetEvictable; eauto.
    + intros g c _. change (pins s1 g = Some c → frame_ok r g c).
      rewrite (put_page_pins _ _ _ _ g Hput). destruct (decide (g = f)) as [-> | Hne].
      * intros [= <-]. simpl. split; lia.
      * intros Hc. destruct (Hi g c) as [Hc0 Hc1]; [tauto | done |].
        split; [done |]. intros ?.
        rewrite (LRUK_facts.SetEvictable_evictable_ne _ _ _ _ _ Hse Hne). auto.
  - subst s'. split; rewrite Hr; [done |]. intros g c _.
    rewrite (put_page_pins _ _ _ _ g Hput). destruct (decide (g = f)) as [-> | Hne].
    + intros [= <-]. simpl. split; [lia |]. intros ?. apply H1. lia.
    + apply Hi. tauto.
Qed.

Lemma pin_inv_UnpinPgImp p d s b s' :
  UnpinPgImp p d s = Some (b, s') → pin_inv s → pin_inv s'.
Proof.
  unfold UnpinPgImp. intros H Hi.
  apply bind_Some in H as (found & Hfind & H). destruct found as [f |]; [| by simplify_eq].
  apply bind_Some in H as (pg & Hpg & H).
  apply bind_Some in H as ([] & _ & H).
  destruct (pin_count_ pg =? 0); [by simplify_eq |].
  apply bind_Some in H as (s1 & Hun & H).
  apply bind_Some in H as (s2 & Hd & H). injection H as <- <-.
  apply pin_inv_UnpinFrame in Hun; [| done].
  destruct d; [| by simplify_eq].
  apply bind_Some in Hd as (pg1 & Hpg1 & Hput).
  revert Hun. eapply pin_inv_but_put; [done | | done]. done.
Qed.

Lemma pin_inv_FlushPgImp p s b s' :
  FlushPgImp p s = Some (b, s') → pin_inv s → pin_inv s'.
Proof.
  unfold FlushPgImp. intros H Hi. case_bool_decide; [by simplify_eq |].
  apply bind_Some in H as (found & Hfind & H). destruct found as [f |]; [| by simplify_eq].
  apply bind_Some in H as (pg & Hpg & H).
  apply bind_Some in H as ([] & _ & H).
  apply bind_Some in H as (s1 & Hput & H). injection H as <- <-.
  eapply pin_inv_but_put in Hput; [done | | | done]; done.
Qed.

Lemma pin_inv_FlushAll_loop n f s s' :
  FlushAll_loop n f s = Some s' → pin_inv s → pin_inv s'.
Proof.
  revert f s. induction n as [| n IH]; intros f s H Hi; simpl in H; [by simplify_eq |].
  apply bind_Some in H as (pg & Hpg & H).
  apply bind_Some in H as (s1 & Hs1 & H).
  apply (IH _ _ H). case_bool_decide; [| by simplify_eq].
  eapply pin_inv_but_put in Hs1; [done | | | done]; done.
Qed.

Lemma pin_inv_DeletePgImp p s b s' :
  DeletePgImp p s = Some (b, s') → pin_inv s → pin_inv s'.
Proof.
  unfold DeletePgImp. intros H Hi.
  apply bind_Some in H as (found & Hfind & H). destruct found as [f |]; [| by simplify_eq].
  apply bind_Some in H as (pg & Hpg & H).
  destruct (Z.ltb_spec 0 (pin_count_ pg)) as [| Hpin]; [by simplify_eq |].
  apply bind_Some in H as ([reset s1] & Hreset & H). simpl in H.
  assert (pin_inv s1) as [Hh1 Hi1].
  { unfold ResetPage in Hreset. rewrite Hpg in Hreset. simpl in Hreset.
    case_bool_decide; [by simplify_eq |].
    apply bind_Some in Hreset as ([found pt] & Hrm & Hreset). simpl in Hreset.
    destruct found; [| by simplify_eq].
    apply bind_Some in Hreset as (s2 & Hput & Hreset). injection Hreset as <- <-.
    assert (pin_count_ pg = 0) as Hz.
    { destruct Hi as [_ Hi].
      destruct (Hi f (pin_count_ pg)); [tauto | by unfold pins; rewrite Hpg | lia]. }
    revert Hput. destruct (is_dirty_ pg); intros Hput;
      (eapply (pin_inv_but_put _ f pg) in Hput; [exact Hput | exact Hpg | by rewrite Hz | exact Hi]). }
  destruct reset; [| by simplify_eq].
  apply bind_Some in H as (r & Hrm & H). injection H as <- <-.
  split; simpl.
  - eapply LRUK_facts.heap_ok_Remove; eauto.
  - intros g c _ Hc. change (pins s1 g = Some c) in Hc.
    destruct (Hi1 g c) as [H0 H1]; [tauto | done |]. split; [done |]. intros ?.
    eapply evictable_false_mono; [eapply LRUK_facts.Remove_evictable; eauto | auto].
Qed.

Lemma pin_inv_caller_write f bytes s s' :
  caller_write f bytes s = Some s' → pin_inv s → pin_inv s'.
Proof.
  unfold caller_write. intros H.
  apply bind_Some in H as (pg & Hpg & H).
  apply bind_Some in H as ([] & _ & H).
  eapply pin_inv_but_put; [done | | done]. done.
Qed.

Lemma pin_inv_exec fuel o s r s' :
  exec fuel o s = Some (r, s') → pin_inv s → pin_inv s'.
Proof.
  destruct o; simpl; intros H.
  - apply bind_Some in H as ([x s1] & H1 & H). simplify_eq.
    eauto using pin_inv_NewPgImp.
  - apply bind_Some in H as ([x s1] & H1 & H). simplify_eq.
    eauto using pin_inv_FetchPgImp.
  - apply bind_Some in H as ([x s1] & H1 & H). simplify_eq.
    eauto using pin_inv_UnpinPgImp.
  - apply bind_Some in H as ([x s1] & H1 & H). simplify_eq.
    eauto using pin_inv_FlushPgImp.
  - apply bind_Some in H as (s1 & H1 & H). simplify_eq.
    eauto using pin_inv_FlushAll_loop.
  - apply bind_Some in H as ([x s1] & H1 & H). simplify_eq.
    eauto using pin_inv_DeletePgImp.
  - apply bind_Some in H as (s1 & H1 & H). simplify_eq.
    eauto using pin_inv_caller_write.
Qed.

Lemma run_cons fuel o ops s rs s' :
  run fuel (o :: ops) s = Some (rs, s') →
  ∃ r s1 rs', exec fuel o s = Some (r, s1) ∧ run fuel ops s1 = Some (rs', s') ∧ rs = r :: rs'.
Proof.
  simpl. intros H. apply bind_Some in H as ([r s1] & H1 & H). simpl in H.
  apply bind_Some in H as ([rs' s2] & H2 & H). simpl in H. injection H as <- <-.
  eauto 10.
Qed.

Lemma pin_inv_run fuel ops s rs s' :
  run fuel ops s = Some (rs, s') → pin_inv s → pin_inv s'.
Proof.
  revert s rs. induction ops as [| o ops IH]; intros s rs H Hi.
  - simpl in H. by simplify_eq.
  - apply run_cons in H as (r & s1 & rs' & H1 & H2 & _).
    eauto using pin_inv_exec.
Qed.

(** C1.  After every sequence of public operations on a freshly built
    pool, every frame has a non-negative pin count, and a frame with a
    positive pin count is not flagged evictable in the LRU-K replacer, so
    that [Evict] does not return it. *)
Theorem pinned_frames_not_evictable
    pool_size disk replacer_k bucket_size fuel ops rs s f pg :
  run fuel ops (new pool_size disk replacer_k bucket_size) = Some (rs, s) →
  get_page f s = Some pg →
  0 ≤ pin_count_ pg ∧
  (0 < pin_count_ pg →
   LRUK.node_evictable (replacer_ s) f = false ∧
   ∀ r', LRUK.Evict (replacer_ s) ≠ Some (Some f, r')).
Proof.
  intros Hrun Hpg.
  pose proof (pin_inv_run _ _ _ _ _ Hrun (pin_inv_new _ _ _ _)) as [[Ha _] Hi].
  destruct (Hi f (pin_count_ pg)) as [H0 H1]; [tauto | by unfold pins; rewrite Hpg |].
  split; [done |]. intros Hpos. split; [auto |].
  intros r' He. apply LRUK_facts.Evict_returns_evictable in He; [| done].
  rewrite H1 in He; done.
Qed.

(** *** Single calls (C5, C6, C7) *)

Lemma put_page_total f pg pg0 s :
  get_page f s = Some pg0 →
  put_page f pg s = Some (set_pages (<[Z.to_nat f := pg]> (pages_ s)) s).
Proof.
  unfold get_page, put_page. intros Hg.
  destruct (zstore_is_Some (pages_ s) f pg pg0 Hg) as [l Hl]. rewrite Hl.
  by apply zstore_Some in Hl as [_ ->].
Qed.



(** C6.  [FlushPage(p)] returns false, and changes nothing, when [p] is
    [INVALID_PAGE_ID] or the page table has no entry for [p]; otherwise it
    writes the contents of the frame to disk whatever the dirty flag is,
    clears the dirty flag and returns true.  So in the state that a call
    returning true leaves, the frame of [p] is clean and the disk holds its
    contents.  The frame that the page table gives for [p] holds [p]: the
    call asserts it. *)
Theorem FlushPage_spec s p :
  (p = INVALID_PAGE_ID → FlushPgImp p s = Some (false, s)) ∧
  (p ≠ INVALID_PAGE_ID →
   (Hash.Find hash p (page_table_ s) = Some None → FlushPgImp p s = Some (false, s)) ∧
   (∀ f pg,
       Hash.Find hash p (page_table_ s) = Some (Some f) →
       get_page f s = Some pg → page_id_ pg = p →
       FlushPgImp p s
       = Some (true,
               set_pages (<[Z.to_nat f := mkPage (data_ pg) (page_id_ pg) (pin_count_ pg) false]>
                            (pages_ s))
                 (set_disk_manager (WritePage p (data_ pg) (disk_manager_ s)) s)))) ∧
  (∀ s', FlushPgImp p s = Some (true, s') →
         ∃ f pg',
           Hash.Find hash p (page_table_ s') = Some (Some f) ∧
           get_page f s' = Some pg' ∧ page_id_ pg' = p ∧
           is_dirty_ pg' = false ∧
           ReadPage p (disk_manager_ s') = data_ pg').
Proof.
  unfold FlushPgImp. split_and!.
  - intros ->. by rewrite bool_decide_eq_true_2.
  - intros Hp. rewrite bool_decide_eq_false_2 by done. split.
    + intros ->. done.
    + intros f pg -> Hpg Hid. cbn [mbind option_bind]. rewrite Hpg. cbn [mbind option_bind].
      rewrite assert_true by (by apply bool_decide_eq_true). cbn [mbind option_bind].
      assert (get_page f (set_disk_manager (WritePage p (data_ pg) (disk_manager_ s)) s)
              = Some pg) as Hpg' by exact Hpg.
      by rewrite (put_page_total _ _ _ _ Hpg').
  - intros s' H. case_bool_decide as Hp; [done |].
    apply bind_Some in H as (found & Hfind & H). destruct found as [f |]; [| done].
    apply bind_Some in H as (pg & Hpg & H).
    apply bind_Some in H as ([] & Ha & H).
    apply assert_Some, bool_decide_eq_true in Ha.
    apply bind_Some in H as (s1 & Hput & H). injection H as <-.
    apply put_page_Some in Hput as [-> Hget].
    exists f, (set_is_dirty false pg). split_and!; try done.
    + rewrite Hget. by rewrite decide_True.
    + unfold ReadPage, WritePage. cbn. by rewrite bool_decide_eq_true_2.
Qed.

(** *** The page table and the page ids along a run *)

Lemma GetVictimPage_frame f s s' :
  GetVictimPage s = Some (f, s') →
  pages_ s' = pages_ s ∧ page_table_ s' = page_table_ s ∧
  next_page_id_ s' = next_page_id_ s ∧ disk_manager_ s' = disk_manager_ s.
Proof.
  unfold GetVictimPage. intros H. destruct (free_list_ s) as [| f0 rest].
  - apply bind_Some in H as ([o r] & He & H). destruct o; by simplify_eq.
  - apply bind_Some in H as (pg & Hg & H).
    apply bind_Some in H as ([] & _ & H). by simplify_eq.
Qed.

(** [ResetPage] on a frame that holds a page whose entry is found. *)
Lemma ResetPage_held f s pg pt :
  get_page f s = Some pg → page_id_ pg ≠ INVALID_PAGE_ID →
  Hash.Remove hash (page_id_ pg) (page_table_ s) = Some (true, pt) →
  ResetPage f s
  = Some (true,
          mkBPM (pool_size_ s)
                (<[Z.to_nat f := mkPage (zeroed PAGE_SIZE) INVALID_PAGE_ID 0 false]> (pages_ s))
                pt (replacer_ s) (free_list_ s) (next_page_id_ s)
                (if is_dirty_ pg
                 then WritePage (page_id_ pg) (data_ pg) (disk_manager_ s)
                 else disk_manager_ s)
                (deallocated s)).
Proof.
  intros Hpg Hid Hrm. unfold ResetPage. rewrite Hpg. cbn [mbind option_bind].
  rewrite bool_decide_eq_false_2 by done. rewrite Hrm. cbn [mbind option_bind].
  destruct (is_dirty_ pg).
  - assert (get_page f (set_disk_manager (WritePage (page_id_ pg) (data_ pg) (disk_manager_ (set_page_table pt s))) (set_page_table pt s)) = Some pg) as Hpg' by exact Hpg.
    by rewrite (put_page_total _ _ _ _ Hpg').
  - assert (get_page f (set_page_table pt s) = Some pg) as Hpg' by exact Hpg.
    by rewrite (put_page_total _ _ _ _ Hpg').
Qed.

Lemma ResetPage_cases f s b s' pg :
  get_page f s = Some pg → ResetPage f s = Some (b, s') →
  (page_id_ pg = INVALID_PAGE_ID ∧ b = true ∧ s' = s) ∨
  (page_id_ pg ≠ INVALID_PAGE_ID ∧
   ∃ pt, Hash.Remove hash (page_id_ pg) (page_table_ s) = Some (b, pt) ∧
         if b
         then s' = mkBPM (pool_size_ s)
                     (<[Z.to_nat f := mkPage (zeroed PAGE_SIZE) INVALID_PAGE_ID 0 false]>
                        (pages_ s))
                     pt (replacer_ s) (free_list_ s) (next_page_id_ s)
                     (if is_dirty_ pg
                      then WritePage (page_id_ pg) (data_ pg) (disk_manager_ s)
                      else disk_manager_ s)
                     (deallocated s)
         else s' = set_page_table pt s).
Proof.
  intros Hpg H. destruct (decide (page_id_ pg = INVALID_PAGE_ID)) as [Hid | Hid].
  - left. unfold ResetPage in H. rewrite Hpg in H. cbn [mbind option_bind] in H.
    rewrite bool_decide_eq_true_2 in H by done. by simplify_eq.
  - right. split; [done |].
    destruct (Hash.Remove hash (page_id_ pg) (page_table_ s)) as [[found pt] |] eqn:Hrm.
    + destruct found.
      * rewrite (ResetPage_held _ _ _ _ Hpg Hid Hrm) in H. injection H as <- <-.
        exists pt. done.
      * unfold ResetPage in H. rewrite Hpg in H. cbn [mbind option_bind] in H.
        rewrite bool_decide_eq_false_2 in H by done. rewrite Hrm in H.
        cbn [mbind option_bind] in H. injection H as <- <-. exists pt. done.
    + unfold ResetPage in H. rewrite Hpg in H. cbn [mbind option_bind] in H.
      rewrite bool_decide_eq_false_2 in H by done. by rewrite Hrm in H.
Qed.

Lemma ResetPage_table f s b s' :
  ResetPage f s = Some (b, s') →
  Hash.keys_ok (page_table_ s) →
  Hash.keys_ok (page_table_ s') ∧ next_page_id_ s' = next_page_id_ s.
Proof.
  intros H Hk. assert (∃ pg, get_page f s = Some pg) as [pg Hpg].
  { unfold ResetPage in H. apply bind_Some in H as (pg & Hpg & _). eauto. }
  destruct (ResetPage_cases _ _ _ _ _ Hpg H) as [(_ & _ & ->) | (_ & pt & Hrm & Hs')]; [done |].
  apply Hash_facts.Remove_keys in Hrm; [| done]. destruct b; by subst s'.
Qed.

Lemma InitPage_table fuel f p s s' :
  InitPage fuel f p s = Some s' →
  Hash.keys_ok (page_table_ s) →
  Hash.keys_ok (page_table_ s') ∧ next_page_id_ s' = next_page_id_ s.
Proof.
  intros (pg & pt & _ & _ & _ & _ & Hins & -> & _)%InitPage_Some Hk.
  split; [| done]. by eapply Hash_facts.Insert_keys.
Qed.

Lemma UpdateFrameInfo_frame f c s s' :
  UpdateFrameInfo f c s = Some s' → ∃ r, s' = set_replacer r s.
Proof.
  unfold UpdateFrameInfo. intros H.
  apply bind_Some in H as (r1 & _ & H). apply bind_Some in H as (r2 & _ & H).
  injection H as <-. eauto.
Qed.

Lemma NewPgImp_table fuel s r s' :
  NewPgImp fuel s = Some (r, s') →
  Hash.keys_ok (page_table_ s) →
  Hash.keys_ok (page_table_ s') ∧
  match r with
  | Some (p, _) => p = next_page_id_ s ∧ next_page_id_ s' = next_page_id_ s + 1
  | None => next_page_id_ s' = next_page_id_ s
  end.
Proof.
  unfold NewPgImp. intros H Hk.
  apply bind_Some in H as ([f s1] & Hv & H). cbn [mbind option_bind] in H.
  apply GetVictimPage_frame in Hv as (_ & Ht1 & Hn1 & _).
  case_bool_decide.
  - injection H as <- <-. by rewrite Ht1, Hn1.
  - unfold AllocatePage in H.
    apply bind_Some in H as ([b s3] & Hreset & H). cbn [mbind option_bind] in H.
    apply bind_Some in H as (s4 & Hinit & H).
    apply bind_Some in H as (pg & Hpg & H).
    apply bind_Some in H as (s5 & Hupd & H). injection H as <- <-.
    apply ResetPage_table in Hreset as [Hk3 Hn3]; [| by cbn; rewrite Ht1].
    apply InitPage_table in Hinit as [Hk4 Hn4]; [| done].
    apply UpdateFrameInfo_frame in Hupd as [r ->]. cbn.
    split; [done |]. rewrite Hn1. split; [done |]. rewrite Hn4, Hn3. cbn. lia.
Qed.

Lemma FetchPgImp_table fuel p s r s' :
  FetchPgImp fuel p s = Some (r, s') →
  Hash.keys_ok (page_table_ s) →
  Hash.keys_ok (page_table_ s') ∧ next_page_id_ s' = next_page_id_ s.
Proof.
  unfold FetchPgImp. intros H Hk.
  apply bind_Some in H as (found & Hfind & H). destruct found as [f |].
  - apply bind_Some in H as (pg & Hpg & H).
    apply bind_Some in H as (s1 & Hput & H).
    apply bind_Some in H as (s2 & Hupd & H). injection H as <- <-.
    apply put_page_Some in Hput as [-> _].
    by apply UpdateFrameInfo_frame in Hupd as [r ->].
  - apply bind_Some in H as ([f s1] & Hv & H). cbn [mbind option_bind] in H.
    apply GetVictimPage_frame in Hv as (_ & Ht1 & Hn1 & _).
    case_bool_decide.
    + injection H as <- <-. by rewrite Ht1, Hn1.
    + apply bind_Some in H as ([b s3] & Hreset & H). cbn [mbind option_bind] in H.
      apply bind_Some in H as (s4 & Hinit & H).
      apply bind_Some in H as (pg & Hpg & H).
      apply bind_Some in H as (s5 & Hput & H).
      apply bind_Some in H as (s6 & Hupd & H). injection H as <- <-.
      apply ResetPage_table in Hreset as [Hk3 Hn3]; [| by rewrite Ht1].
      apply InitPage_table in Hinit as [Hk4 Hn4]; [| done].
      apply put_page_Some in Hput as [-> _].
      apply UpdateFrameInfo_frame in Hupd as [r ->]. cbn.
      split; [done |]. by rewrite Hn4, Hn3.
Qed.

Lemma UnpinPgImp_table p d s b s' :
  UnpinPgImp p d s = Some (b, s') →
  page_table_ s' = page_table_ s ∧ next_page_id_ s' = next_page_id_ s.
Proof.
  unfold UnpinPgImp. intros H.
  apply bind_Some in H as (found & Hfind & H). destruct found as [f |]; [| by simplify_eq].
  apply bind_Some in H as (pg & Hpg & H).
  apply bind_Some in H as ([] & _ & H).
  destruct (pin_count_ pg =? 0); [by simplify_eq |].
  apply bind_Some in H as (s1 & Hun & H).
  apply bind_Some in H as (s2 & Hd & H). injection H as <- <-.
  apply UnpinFrame_Some in Hun as (pg0 & s0 & _ & _ & Hput & Hs1).
  apply put_page_Some in Hput as [-> _].
  assert (page_table_ s1 = page_table_ s ∧ next_page_id_ s1 = next_page_id_ s) as [Ht1 Hn1].
  { destruct (_ =? _); [by destruct Hs1 as (r & _ & ->) | by subst s1]. }
  destruct d; [| by simplify_eq].
  apply bind_Some in Hd as (pg1 & Hpg1 & Hput).
  by apply put_page_Some in Hput as [-> _].
Qed.

Lemma FlushPgImp_table p s b s' :
  FlushPgImp p s = Some (b, s') →
  page_table_ s' = page_table_ s ∧ next_page_id_ s' = next_page_id_ s.
Proof.
  unfold FlushPgImp. intros H. case_bool_decide; [by simplify_eq |].
  apply bind_Some in H as (found & Hfind & H). destruct found as [f |]; [| by simplify_eq].
  apply bind_Some in H as (pg & Hpg & H).
  apply bind_Some in H as ([] & _ & H).
  apply bind_Some in H as (s1 & Hput & H). injection H as <- <-.
  by apply put_page_Some in Hput as [-> _].
Qed.

Lemma FlushAll_loop_table n f s s' :
  FlushAll_loop n f s = Some s' →
  page_table_ s' = page_table_ s ∧ next_page_id_ s' = next_page_id_ s.
Proof.
  revert f s. induction n as [| n IH]; intros f s H; cbn [FlushAll_loop] in H;
    [by simplify_eq |].
  apply bind_Some in H as (pg & Hpg & H).
  apply bind_Some in H as (s1 & Hs1 & H).
  apply IH in H as [-> ->]. case_bool_decide; [| by simplify_eq].
  by apply put_page_Some in Hs1 as [-> _].
Qed.

Lemma DeletePgImp_table p s b s' :
  DeletePgImp p s = Some (b, s') →
  Hash.keys_ok (page_table_ s) →
  Hash.keys_ok (page_table_ s') ∧ next_page_id_ s' = next_page_id_ s.
Proof.
  unfold DeletePgImp. intros H Hk.
  apply bind_Some in H as (found & Hfind & H). destruct found as [f |]; [| by simplify_eq].
  apply bind_Some in H as (pg & Hpg & H).
  destruct (0 <? pin_count_ pg); [by simplify_eq |].
  apply bind_Some in H as ([reset s1] & Hreset & H). cbn [mbind option_bind] in H.
  apply ResetPage_table in Hreset as [Hk1 Hn1]; [| done].
  destruct reset; [| by simplify_eq].
  apply bind_Some in H as (r & Hrm & H). by injection H as <- <-.
Qed.

Lemma exec_table fuel o s r s' :
  exec fuel o s = Some (r, s') →
  Hash.keys_ok (page_table_ s) →
  Hash.keys_ok (page_table_ s') ∧
  new_page_ids [r] = (if decide (next_page_id_ s' = next_page_id_ s) then []
                      else [next_page_id_ s]) ∧
  (next_page_id_ s' = next_page_id_ s ∨ next_page_id_ s' = next_page_id_ s + 1).
Proof.
  destruct o; cbn [exec]; intros H Hk.
  - apply bind_Some in H as ([x s1] & H1 & H). injection H as <- <-.
    apply NewPgImp_table in H1 as [Hk1 Hn]; [| done]. split; [done |].
    destruct x as [[p f] |]; cbn.
    + destruct Hn as [-> ->]. rewrite decide_False by lia. auto.
    + rewrite Hn. rewrite decide_True by done. auto.
  - apply bind_Some in H as ([x s1] & H1 & H). injection H as <- <-.
    apply FetchPgImp_table in H1 as [Hk1 ->]; [| done].
    rewrite decide_True by done. auto.
  - apply bind_Some in H as ([x s1] & H1 & H). injection H as <- <-.
    apply UnpinPgImp_table in H1 as [-> ->]. rewrite decide_True by done. auto.
  - apply bind_Some in H as ([x s1] & H1 & H). injection H as <- <-.
    apply FlushPgImp_table in H1 as [-> ->]. rewrite decide_True by done. auto.
  - apply bind_Some in H as (s1 & H1 & H). injection H as <- <-.
    apply FlushAll_loop_table in H1 as [-> ->]. rewrite decide_True by done. auto.
  - apply bind_Some in H as ([x s1] & H1 & H). injection H as <- <-.
    apply DeletePgImp_table in H1 as [Hk1 ->]; [| done].
    rewrite decide_True by done. auto.
  - apply bind_Some in H as (s1 & H1 & H). injection H as <- <-.
    unfold caller_write in H1. apply bind_Some in H1 as (pg & Hpg & H1).
    apply bind_Some in H1 as ([] & _ & H1).
    apply put_page_Some in H1 as [-> _]. cbn. rewrite decide_True by done. auto.
Qed.

(** Along a run the page table keeps one entry per key, and the page ids
    handed out are the successive integers from the counter on. *)
Lemma run_table fuel ops s rs s' :
  run fuel ops s = Some (rs, s') →
  Hash.keys_ok (page_table_ s) → 0 ≤ next_page_id_ s →
  Hash.keys_ok (page_table_ s') ∧
  next_page_id_ s' = next_page_id_ s + Z.of_nat (length (new_page_ids rs)) ∧
  new_page_ids rs = seqZ (next_page_id_ s) (Z.of_nat (length (new_page_ids rs))).
Proof.
  revert s rs. induction ops as [| o ops IH]; intros s rs H Hk Hn.
  - cbn [run] in H. injection H as <- <-. cbn. split; [done |]. split; [lia | done].
  - apply run_cons in H as (r & s1 & rs' & H1 & H2 & ->).
    apply exec_table in H1 as (Hk1 & Hids & Hn1); [| done].
    apply IH in H2 as (Hk' & Hn' & Hids'); [| done | lia].
    split; [done |].
    assert (new_page_ids (r :: rs') = new_page_ids [r] ++ new_page_ids rs') as ->
      by (change (r :: rs') with ([r] ++ rs'); apply omap_app).
    rewrite Hids. destruct (decide (next_page_id_ s1 = next_page_id_ s)) as [He | Hne].
    + cbn [app]. rewrite Hn', He. split; [done |]. by rewrite <- He.
    + assert (next_page_id_ s1 = next_page_id_ s + 1) as He by (by destruct Hn1).
      cbn [app length]. rewrite Hn', He. split; [lia |].
      rewrite Nat2Z.inj_succ, seqZ_cons by lia. f_equal.
      rewrite Z.pred_succ. rewrite Hids' at 1. by rewrite He.
Qed.

Lemma run_keys_ok pool_size disk replacer_k bucket_size fuel ops rs s :
  run fuel ops (new pool_size disk replacer_k bucket_size) = Some (rs, s) →
  Hash.keys_ok (page_table_ s).
Proof.
  intros Hrun. apply run_table in Hrun as [Hk _]; [done | | done].
  apply (Hash_facts.reachable_keys_ok hash bucket_size). constructor.
Qed.

(** [DeletePage(p)] in a state reached from the constructor: it
    returns true and changes nothing when the page table
    has no entry for [p], and returns false and changes nothing when the
    pin count of the mapped frame is positive.  Otherwise, when the mapped
    frame holds the page [p] and [p] is not [INVALID_PAGE_ID], it writes
    the frame to disk if it is dirty, removes the entry of [p] from the
    page table, removes the frame from the replacer, appends it to the
    free list, resets its metadata and its buffer, calls
    [DeallocatePage(p)] and returns true. *)
Theorem DeletePage_spec pool_size disk replacer_k bucket_size fuel ops rs s p :
  run fuel ops (new pool_size disk replacer_k bucket_size) = Some (rs, s) →
  (Hash.Find hash p (page_table_ s) = Some None → DeletePgImp p s = Some (true, s)) ∧
  (∀ f pg,
      Hash.Find hash p (page_table_ s) = Some (Some f) → get_page f s = Some pg →
      (0 < pin_count_ pg → DeletePgImp p s = Some (false, s)) ∧
      (pin_count_ pg ≤ 0 → page_id_ pg = p → p ≠ INVALID_PAGE_ID →
       ∀ r', LRUK.Remove f (replacer_ s) = Some r' →
         ∃ pt,
           Hash.Remove hash p (page_table_ s) = Some (true, pt) ∧
           Hash.Find hash p pt = Some None ∧
           DeletePgImp p s
           = Some (true,
                   mkBPM (pool_size_ s)
                         (<[Z.to_nat f := mkPage (zeroed PAGE_SIZE) INVALID_PAGE_ID 0 false]>
                            (pages_ s))
                         pt r' (free_list_ s ++ [f]) (next_page_id_ s)
                         (if is_dirty_ pg
                          then WritePage p (data_ pg) (disk_manager_ s)
                          else disk_manager_ s)
                         (deallocated s ++ [p])))).
Proof.
  intros Hrun. apply run_keys_ok in Hrun as Hk. unfold DeletePgImp. split.
  - intros ->. done.
  - intros f pg Hfind Hpg. rewrite Hfind. cbn [mbind option_bind].
    rewrite Hpg. cbn [mbind option_bind]. split.
    + intros Hpos. by rewrite (proj2 (Z.ltb_lt _ _)).
    + intros Hpin Hid Hp r' Hr'. rewrite (proj2 (Z.ltb_ge _ _)) by done.
      destruct (Hash_facts.Find_Remove _ _ _ _ Hfind) as [pt Hrm].
      exists pt. split; [done |]. split; [by eapply Hash_facts.Remove_Find |].
      rewrite <- Hid in Hrm, Hp.
      rewrite (ResetPage_held _ _ _ _ Hpg Hp Hrm). cbn [mbind option_bind replacer_].
      rewrite Hr'. cbn [mbind option_bind]. by rewrite Hid.
Qed.

(** *** NewPage (C3) *)

Lemma zlookup_insert_eq {A} (l : list A) i x y :
  zlookup l i = Some y → zlookup (<[Z.to_nat i := x]> l) i = Some x.
Proof.
  intros Hl. destruct (zstore_is_Some l i x y Hl) as [l' Hl'].
  pose proof (zlookup_zstore _ _ _ _ i Hl') as Hz. rewrite decide_True in Hz by done.
  by apply zstore_Some in Hl' as [_ ->].
Qed.

(** What a successful [NewPgImp] has done, step by step. *)
Lemma NewPgImp_Some fuel s p f s' :
  NewPgImp fuel s = Some (Some (p, f), s') →
  p = next_page_id_ s ∧
  ∃ pg pg3 pt3 pt,
    get_page f s = Some pg ∧
    (page_id_ pg = INVALID_PAGE_ID ∧ pg3 = pg ∧ pt3 = page_table_ s ∧
     disk_manager_ s' = disk_manager_ s
     ∨
     page_id_ pg ≠ INVALID_PAGE_ID ∧
     pg3 = mkPage (zeroed PAGE_SIZE) INVALID_PAGE_ID 0 false ∧
     Hash.Remove hash (page_id_ pg) (page_table_ s) = Some (true, pt3) ∧
     disk_manager_ s' = (if is_dirty_ pg
                         then WritePage (page_id_ pg) (data_ pg) (disk_manager_ s)
                         else disk_manager_ s)) ∧
    page_id_ pg3 = INVALID_PAGE_ID ∧ is_dirty_ pg3 = false ∧ pin_count_ pg3 = 0 ∧
    Hash.Insert hash fuel p f pt3 = Some pt ∧
    page_table_ s' = pt ∧
    get_page f s' = Some (set_pin_count 1 (set_page_id p pg3)).
Proof.
  unfold NewPgImp. intros H.
  apply bind_Some in H as ([f0 s1] & Hv & H). cbn [mbind option_bind] in H.
  apply GetVictimPage_frame in Hv as (Hp1 & Ht1 & Hn1 & Hd1).
  case_bool_decide; [done |]. unfold AllocatePage in H.
  apply bind_Some in H as ([b s3] & Hreset & H). cbn [mbind option_bind] in H.
  apply bind_Some in H as (s4 & Hinit & H).
  apply bind_Some in H as (pg4 & Hpg4 & H).
  apply bind_Some in H as (s5 & Hupd & H). injection H as <- <- <-.
  split; [done |].
  apply InitPage_Some in Hinit
    as (pg3 & pt & Hpg3 & Hid3 & Hdirty3 & Hpin3 & Hins & -> & Hget4).
  apply UpdateFrameInfo_frame in Hupd as [r ->].
  set (s2 := set_next_page_id (next_page_id_ s1 + 1) s1) in *.
  assert (∃ pg, get_page f0 s2 = Some pg) as [pg Hpg].
  { unfold ResetPage in Hreset. apply bind_Some in Hreset as (pg & Hpg & _). eauto. }
  assert (get_page f0 s = Some pg) as Hpg0.
  { revert Hpg. unfold get_page, s2. cbn. by rewrite Hp1. }
  exists pg, pg3, (page_table_ s3), pt.
  split; [done |]. split.
  - destruct (ResetPage_cases _ _ _ _ _ Hpg Hreset)
      as [(Hid & _ & ->) | (Hid & pt0 & Hrm & Hs3)].
    + left. rewrite Hpg in Hpg3. injection Hpg3 as <-.
      split; [done |]. split; [done |]. cbn. by rewrite Ht1, Hd1.
    + right. split; [done |]. destruct b.
      * subst s3. unfold get_page in Hpg3, Hpg. cbn [pages_] in Hpg3.
        rewrite (zlookup_insert_eq _ _ _ _ Hpg) in Hpg3.
        injection Hpg3 as <-. split; [done |]. cbn.
        cbn in Hrm. rewrite Ht1 in Hrm. by rewrite Hd1.
      * subst s3. change (get_page f0 s2 = Some pg3) in Hpg3.
        rewrite Hpg in Hpg3. injection Hpg3 as <-. done.
  - split_and!; try done.
    pose proof (Hget4 f0) as Hg. rewrite decide_True in Hg by done. exact Hg.
Qed.

(** What a successful [NewPage] leaves, in a state reached from the
    constructor: the frame it returns has pin count 1 and dirty flag
    false, its buffer is zeroed if the victim frame held a page or was
    zeroed already (a frame that holds no page is not reset), and the page
    table maps the freshly allocated page id to the frame.  If the victim
    held a page, the entry of that page was removed from the page table
    first, and the page was written to disk if it was dirty.  The page ids
    of the successful calls are 0, 1, 2 and so on, in the order of the
    calls. *)
Theorem NewPage_spec pool_size disk replacer_k bucket_size fuel ops rs s p f s' :
  run fuel ops (new pool_size disk replacer_k bucket_size) = Some (rs, s) →
  NewPgImp fuel s = Some (Some (p, f), s') →
  new_page_ids rs ++ [p] = seqZ 0 (Z.of_nat (length (new_page_ids rs)) + 1) ∧
  ∃ pg pg',
    get_page f s = Some pg ∧ get_page f s' = Some pg' ∧
    page_id_ pg' = p ∧ pin_count_ pg' = 1 ∧ is_dirty_ pg' = false ∧
    (page_id_ pg ≠ INVALID_PAGE_ID ∨ data_ pg = zeroed PAGE_SIZE →
     data_ pg' = zeroed PAGE_SIZE) ∧
    Hash.Find hash p (page_table_ s') = Some (Some f) ∧
    (page_id_ pg ≠ INVALID_PAGE_ID →
     ∃ pt,
       Hash.Remove hash (page_id_ pg) (page_table_ s) = Some (true, pt) ∧
       Hash.Find hash (page_id_ pg) pt = Some None ∧
       Hash.Insert hash fuel p f pt = Some (page_table_ s') ∧
       disk_manager_ s' = (if is_dirty_ pg
                           then WritePage (page_id_ pg) (data_ pg) (disk_manager_ s)
                           else disk_manager_ s)).
Proof.
  intros Hrun Hnew.
  pose proof (run_keys_ok _ _ _ _ _ _ _ _ Hrun) as Hk.
  apply run_table in Hrun as (_ & Hn & Hids);
    [| apply (Hash_facts.reachable_keys_ok hash bucket_size); constructor | done].
  change (next_page_id_ (new pool_size disk replacer_k bucket_size)) with 0 in Hn, Hids.
  apply NewPgImp_Some in Hnew
    as (-> & pg & pg3 & pt3 & pt & Hpg & Hcase & Hid3 & Hdirty3 & Hpin3 & Hins & Hpt & Hpg').
  split.
  - rewrite seqZ_app by lia. rewrite <- Hids. f_equal.
    rewrite Hn. by rewrite Z.add_0_l.
  - exists pg, (set_pin_count 1 (set_page_id (next_page_id_ s) pg3)).
    split_and!; try done.
    + intros Hz. destruct Hcase as [(Hid & -> & _) | (_ & -> & _)]; [| done].
      cbn. destruct Hz; done.
    + rewrite Hpt. by eapply Hash_facts.Insert_Find.
    + intros Hid. destruct Hcase as [(Hid' & _) | (_ & _ & Hrm & Hdisk)]; [done |].
      exists pt3. split_and!; try done; [| by rewrite Hpt].
      by eapply Hash_facts.Remove_Find.
Qed.

End Pool.

(** A pool of two frames with four-byte pages over an all-zero disk:
    two pages are created and the first one is unpinned. *)
Lemma pinned_frames_not_evictable_witness :
  ∃ rs s pg,
    run Hash.std_hash 4 8 [OpNewPage; OpNewPage; OpUnpinPage 0 false]
        (new 4 2 (λ _, zeroed 4) 2 4) = Some (rs, s) ∧
    get_page 1 s = Some pg ∧
    0 ≤ pin_count_ pg ∧
    (0 < pin_count_ pg →
     LRUK.node_evictable (replacer_ s) 1 = false ∧
     ∀ r', LRUK.Evict (replacer_ s) ≠ Some (Some 1, r')).
Proof.
  eexists _, _, _. split; [vm_compute; reflexivity |].
  split; [vm_compute; reflexivity |].
  eapply (pinned_frames_not_evictable Hash.std_hash 4 2 (λ _, zeroed 4) 2 4 8
            [OpNewPage; OpNewPage; OpUnpinPage 0 false]);
    vm_compute; reflexivity.
Defined.

(** A pool of one frame: a page is created, written to and unpinned as
    dirty; the next [NewPage] takes its frame. *)
Lemma NewPage_spec_witness :
  ∃ rs s s',
    run Hash.std_hash 4 8
        [OpNewPage; OpWrite 0 [Byte.x01; Byte.x02; Byte.x03; Byte.x04]; OpUnpinPage 0 true]
        (new 4 1 (λ _, zeroed 4) 2 4) = Some (rs, s) ∧
    NewPgImp Hash.std_hash 4 8 s = Some (Some (1, 0), s') ∧
    new_page_ids rs ++ [1] = seqZ 0 (Z.of_nat (length (new_page_ids rs)) + 1) ∧
    ∃ pg pg',
      get_page 0 s = Some pg ∧ get_page 0 s' = Some pg' ∧
      page_id_ pg' = 1 ∧ pin_count_ pg' = 1 ∧ is_dirty_ pg' = false ∧
      (page_id_ pg ≠ INVALID_PAGE_ID ∨ data_ pg = zeroed 4 → data_ pg' = zeroed 4) ∧
      Hash.Find Hash.std_hash 1 (page_table_ s') = Some (Some 0) ∧
      (page_id_ pg ≠ INVALID_PAGE_ID →
       ∃ pt,
         Hash.Remove Hash.std_hash (page_id_ pg) (page_table_ s) = Some (true, pt) ∧
         Hash.Find Hash.std_hash (page_id_ pg) pt = Some None ∧
         Hash.Insert Hash.std_hash 8 1 0 pt = Some (page_table_ s') ∧
         disk_manager_ s' = (if is_dirty_ pg
                             then WritePage (page_id_ pg) (data_ pg) (disk_manager_ s)
                             else disk_manager_ s)).
Proof.
  eexists _, _, _. split; [vm_compute; reflexivity |].
  split; [vm_compute; reflexivity |].
  apply (NewPage_spec Hash.std_hash 4 1 (λ _, zeroed 4) 2 4 8
           [OpNewPage; OpWrite 0 [Byte.x01; Byte.x02; Byte.x03; Byte.x04]; OpUnpinPage 0 true]);
    vm_compute; reflexivity.
Defined.

(** C3.  The code at the failing input, a pool of one frame with
    four-byte pages: after [FetchPage(INVALID_PAGE_ID)], a write of the
    bytes 1 2 3 4 by the caller that holds the pin, and
    [UnpinPage(INVALID_PAGE_ID, false)], the frame holds no page for
    [ResetPage], which returns at once.  [NewPage] takes the frame, gives it
    page 0 with pin count 1, and returns it with the bytes of the last
    caller in its buffer, not with zeroes; and the page table still has the
    entry of [INVALID_PAGE_ID] for the frame, beside the new one. *)
Lemma NewPage_after_sentinel_fetch_not_zeroed :
  ∃ s pg,
    run Hash.std_hash 4 8
        [OpFetchPage INVALID_PAGE_ID;
         OpWrite 0 [Byte.x01; Byte.x02; Byte.x03; Byte.x04];
         OpUnpinPage INVALID_PAGE_ID false;
         OpNewPage]
        (new 4 1 (λ _, zeroed 4) 2 4)
    = Some ([RetFetchPage (Some 0); RetVoid; RetBool true; RetNewPage (Some (0, 0))], s) ∧
    get_page 0 s = Some pg ∧
    data_ pg = [Byte.x01; Byte.x02; Byte.x03; Byte.x04] ∧
    zeroed 4 = [Byte.x00; Byte.x00; Byte.x00; Byte.x00] ∧
    page_id_ pg = 0 ∧ pin_count_ pg = 1 ∧
    Hash.Find Hash.std_hash 0 (page_table_ s) = Some (Some 0) ∧
    Hash.Find Hash.std_hash INVALID_PAGE_ID (page_table_ s) = Some (Some 0).
Proof.
  eexists _, _. split; [vm_compute; reflexivity |]. split; [vm_compute; reflexivity |].
  split_and!; vm_compute; reflexivity.
Qed.


(** The page created first is written to by its caller and flushed. *)
Lemma FlushPage_spec_witness :
  ∃ rs s pg,
    run Hash.std_hash 4 8
        [OpNewPage; OpWrite 0 [Byte.x01; Byte.x02; Byte.x03; Byte.x04]]
        (new 4 2 (λ _, zeroed 4) 2 4) = Some (rs, s) ∧
    Hash.Find Hash.std_hash 0 (page_table_ s) = Some (Some 0) ∧
    get_page 0 s = Some pg ∧ page_id_ pg = 0 ∧
    FlushPgImp Hash.std_hash 0 s
    = Some (true,
            set_pages (<[Z.to_nat 0 := mkPage (data_ pg) (page_id_ pg) (pin_count_ pg) false]>
                         (pages_ s))
              (set_disk_manager (WritePage 0 (data_ pg) (disk_manager_ s)) s)).
Proof.
  eexists _, _, _. split; [vm_compute; reflexivity |].
  split; [vm_compute; reflexivity |]. split; [vm_compute; reflexivity |].
  split; [reflexivity |].
  eapply (proj1 (proj2 (FlushPage_spec Hash.std_hash _ 0))).
  - unfold INVALID_PAGE_ID. lia.
  - vm_compute; reflexivity.
  - vm_compute; reflexivity.
  - reflexivity.
Defined.

(** A pool of one frame: the page is created, written to, unpinned as
    dirty and deleted. *)
Lemma DeletePage_spec_witness :
  ∃ rs s pg r',
    run Hash.std_hash 4 8
        [OpNewPage; OpWrite 0 [Byte.x01; Byte.x02; Byte.x03; Byte.x04]; OpUnpinPage 0 true]
        (new 4 1 (λ _, zeroed 4) 2 4) = Some (rs, s) ∧
    Hash.Find Hash.std_hash 0 (page_table_ s) = Some (Some 0) ∧
    get_page 0 s = Some pg ∧ pin_count_ pg = 0 ∧ page_id_ pg = 0 ∧
    LRUK.Remove 0 (replacer_ s) = Some r' ∧
    ∃ pt,
      Hash.Remove Hash.std_hash 0 (page_table_ s) = Some (true, pt) ∧
      Hash.Find Hash.std_hash 0 pt = Some None ∧
      DeletePgImp Hash.std_hash 4 0 s
      = Some (true,
              mkBPM (pool_size_ s)
                    (<[Z.to_nat 0 := mkPage (zeroed 4) INVALID_PAGE_ID 0 false]> (pages_ s))
                    pt r' (free_list_ s ++ [0]) (next_page_id_ s)
                    (if is_dirty_ pg
                     then WritePage 0 (data_ pg) (disk_manager_ s)
                     else disk_manager_ s)
                    (deallocated s ++ [0])).
Proof.
  eexists _, _, _, _. split; [vm_compute; reflexivity |].
  split; [vm_compute; reflexivity |]. split; [vm_compute; reflexivity |].
  split; [reflexivity |]. split; [reflexivity |]. split; [vm_compute; reflexivity |].
  eapply (λ Hrun Hfind Hpg Hpin Hid Hp Hrm,
            proj2 (proj2 (DeletePage_spec Hash.std_hash 4 1 (λ _, zeroed 4) 2 4 8
                            [OpNewPage; OpWrite 0 [Byte.x01; Byte.x02; Byte.x03; Byte.x04];
                             OpUnpinPage 0 true] _ _ 0 Hrun)
                     0 _ Hfind Hpg) Hpin Hid Hp _ Hrm).
  - vm_compute; reflexivity.
  - vm_compute; reflexivity.
  - vm_compute; reflexivity.
  - simpl; lia.
  - reflexivity.
  - unfold INVALID_PAGE_ID; lia.
  - vm_compute; reflexivity.
Defined.

(** C7.  The code at the failing input, a pool of one frame: after
    [FetchPage(INVALID_PAGE_ID)] and [UnpinPage(INVALID_PAGE_ID, false)],
    the frame of the entry is not pinned, and [ResetPage] returns true at
    once for it.  [DeletePage(INVALID_PAGE_ID)] returns true, appends the
    frame to the free list and calls [DeallocatePage], and the page table
    still has the entry, which now leads to a frame of the free list.  A
    [FetchPage(INVALID_PAGE_ID)] then pins that frame, and the next
    [NewPage] takes it from the free list and fails the assertion of
    [InitPage]. *)
Lemma DeletePage_sentinel_keeps_entry :
  (∃ s,
    run Hash.std_hash 4 8
        [OpFetchPage INVALID_PAGE_ID; OpUnpinPage INVALID_PAGE_ID false;
         OpDeletePage INVALID_PAGE_ID]
        (new 4 1 (λ _, zeroed 4) 2 4)
    = Some ([RetFetchPage (Some 0); RetBool true; RetBool true], s) ∧
    Hash.Find Hash.std_hash INVALID_PAGE_ID (page_table_ s) = Some (Some 0) ∧
    free_list_ s = [0] ∧ deallocated s = [INVALID_PAGE_ID]) ∧
  run Hash.std_hash 4 8
      [OpFetchPage INVALID_PAGE_ID; OpUnpinPage INVALID_PAGE_ID false;
       OpDeletePage INVALID_PAGE_ID; OpFetchPage INVALID_PAGE_ID; OpNewPage]
      (new 4 1 (λ _, zeroed 4) 2 4)
  = None.
Proof.
  split; [| vm_compute; reflexivity].
  eexists. split; [vm_compute; reflexivity |]. split; [vm_compute; reflexivity |].
  split; reflexivity.
Qed.

End BPM_facts.

(** * Buffer pool manager: states reached from the constructor *)

Module BPM_props.

Import BPM BPM_facts.

(** *** The frames that the replacer tracks *)

Lemma RecordAccess_members B r f r' g :
  LRUK.wf B r → 0 ≤ B → B + 1 < 2 ^ 64 → LRUK.RecordAccess f r = Some r' →
  g ∈ LRUK.all_nodes r' → g ∈ LRUK.all_nodes r ∨ g = f.
Proof.
  intros Hwf HB0 HB Hr. pose proof Hr as Hr'. unfold LRUK.RecordAccess in Hr'.
  apply bind_Some in Hr' as (u & Hf%LRUK_facts.assert_le_Some & _).
  unfold LRUK.all_nodes. rewrite !elem_of_app.
  destruct (decide (f ∈ LRUK.all_nodes r)) as [Hin | Hin].
  - apply (LRUK.wf_nodes _ _ Hwf) in Hin as [n Hn].
    destruct (LRUK_facts.RecordAccess_tracked B r f n) as (r0 & Hr0 & _ & _ & _ & Hl);
      try done.
    assert (r0 = r') as -> by congruence.
    repeat case_decide; destruct Hl as [-> ->];
      rewrite ?elem_of_cons, ?list_elem_of_filter; tauto.
  - pose proof (LRUK_facts.RecordAccess_untracked B r f Hwf HB0 Hf Hin) as Hu.
    case_decide.
    + assert (r' = r) as -> by congruence. tauto.
    + destruct Hu as (r0 & Hr0 & _ & _ & _ & Hl).
      assert (r0 = r') as -> by congruence.
      case_decide; destruct Hl as [-> ->]; rewrite ?elem_of_cons; tauto.
Qed.

Lemma SetEvictable_members B r f b r' :
  LRUK.wf B r → LRUK.SetEvictable f b r = Some r' →
  LRUK.all_nodes r' = LRUK.all_nodes r.
Proof.
  intros Hwf Hr. pose proof Hr as Hr'. unfold LRUK.SetEvictable in Hr'.
  apply bind_Some in Hr' as (u & Hf%LRUK_facts.assert_le_Some & _).
  destruct (LRUK_props.SetEvictable_spec B r f b Hwf Hf) as (r0 & Hr0 & Hh & Hb & _).
  assert (r0 = r') as -> by congruence. unfold LRUK.all_nodes. by rewrite Hh, Hb.
Qed.

Lemma Remove_members B r f r' g :
  LRUK.wf B r → LRUK.Remove f r = Some r' →
  g ∈ LRUK.all_nodes r' → g ∈ LRUK.all_nodes r.
Proof.
  intros Hwf Hr. pose proof Hr as Hr'. unfold LRUK.Remove in Hr'.
  apply bind_Some in Hr' as (u & Hf%LRUK_facts.assert_le_Some & _).
  destruct (LRUK_props.Remove_spec B r f Hwf Hf) as (r0 & Hr0 & _ & Hsame & Hrm).
  assert (r0 = r') as -> by congruence.
  destruct (decide (f ∈ LRUK.all_nodes r)) as [Hin | Hin]; [| by rewrite Hsame by tauto].
  destruct (LRUK.node_evictable r f) eqn:Hev; [| by rewrite Hsame by tauto].
  destruct (Hrm Hin eq_refl) as (_ & Hh & Hb & _).
  unfold LRUK.all_nodes. rewrite Hh, Hb, !elem_of_app, !list_elem_of_filter. tauto.
Qed.

Lemma Evict_members B r o r' g :
  LRUK.wf B r → LRUK.Evict r = Some (o, r') →
  g ∈ LRUK.all_nodes r' → g ∈ LRUK.all_nodes r.
Proof.
  intros Hwf Hr.
  destruct (LRUK_facts.Evict_spec B r Hwf)
    as [[He _] | (a & l1 & l2 & r0 & ih & Hl & _ & _ & _ & He & _ & Hh & Hb & _)].
  - by assert (r' = r) as -> by congruence.
  - assert (r0 = r') as -> by congruence.
    unfold LRUK.all_nodes. rewrite Hh, Hb. rewrite !elem_of_app.
    destruct ih; rewrite Hl, !elem_of_app, ?elem_of_cons; tauto.
Qed.

Section Pool.

Variable hash : Z → Z.
Variable PAGE_SIZE : nat.

Abbreviation new := (new PAGE_SIZE).
Abbreviation ResetPage := (ResetPage hash PAGE_SIZE).
Abbreviation InitPage := (InitPage hash).
Abbreviation NewPgImp := (NewPgImp hash PAGE_SIZE).
Abbreviation FetchPgImp := (FetchPgImp hash PAGE_SIZE).
Abbreviation UnpinPgImp := (UnpinPgImp hash).
Abbreviation FlushPgImp := (FlushPgImp hash).
Abbreviation DeletePgImp := (DeletePgImp hash PAGE_SIZE).
Abbreviation exec := (exec hash PAGE_SIZE).
Abbreviation run := (run hash PAGE_SIZE).
Abbreviation Find := (Hash.Find hash).

(** *** The page table and the frames *)

(** The frames are as many as the pool size says, the page table is a
    well-formed map, and an entry of the page table leads to a frame of
    the pool, which holds the page of the entry unless its key is the
    sentinel. *)
Record table_ok (pool_size : Z) (s : BufferPoolManagerInstance) : Prop := mk_table_ok {
  to_size : pool_size_ s = pool_size;
  to_frames : Z.of_nat (length (pages_ s)) = pool_size;
  to_table : Hash_props.content_ok hash (page_table_ s);
  to_resident : ∀ p f, Find p (page_table_ s) = Some (Some f) →
      ∃ pg, get_page f s = Some pg ∧ (p ≠ INVALID_PAGE_ID → page_id_ pg = p)
}.

Lemma table_ok_ext n s s' :
  pool_size_ s' = pool_size_ s → pages_ s' = pages_ s → page_table_ s' = page_table_ s →
  table_ok n s → table_ok n s'.
Proof.
  intros H1 H2 H3 [Hs Hf Ht Hr]. split; rewrite ?H1, ?H2, ?H3; try done.
  intros p f Hp. destruct (Hr p f Hp) as (pg & Hg & Hid).
  exists pg. split; [| done]. unfold get_page. by rewrite H2.
Qed.

Lemma get_page_range n f s pg :
  table_ok n s → get_page f s = Some pg → 0 ≤ f < n.
Proof. intros [_ Hf _ _] [Hr _]%zlookup_Some. lia. Qed.

Lemma in_range_size_t n f : 0 ≤ f < n → n < 2 ^ 64 → to_size_t f ≤ n.
Proof. intros Hf Hn. unfold to_size_t. rewrite wrap64_small by lia. lia. Qed.

Lemma table_ok_put n f pg pg' s s' :
  get_page f s = Some pg → page_id_ pg' = page_id_ pg →
  put_page f pg' s = Some s' →
  table_ok n s → table_ok n s'.
Proof.
  intros Hg Hid Hput [Hs Hf Ht Hr].
  pose proof (put_page_Some _ _ _ _ Hput) as [-> Hget]. split; cbn; try done.
  - by rewrite length_insert.
  - intros p g Hp. destruct (Hr p g Hp) as (pg0 & Hg0 & Hid0).
    change (∃ pg1, get_page g (set_pages (<[Z.to_nat f := pg']> (pages_ s)) s) = Some pg1
                   ∧ (p ≠ INVALID_PAGE_ID → page_id_ pg1 = p)).
    rewrite Hget. destruct (decide (g = f)) as [-> | Hne]; [| eauto].
    exists pg'. split; [done |]. rewrite Hid. rewrite Hg in Hg0. injection Hg0 as <-. done.
Qed.

Lemma table_ok_new pool_size disk replacer_k bucket_size :
  0 ≤ pool_size → 0 ≤ bucket_size →
  table_ok pool_size (new pool_size disk replacer_k bucket_size).
Proof.
  intros Hn Hb. split.
  - done.
  - cbn. rewrite repeat_length. lia.
  - by apply Hash_props.content_ok_new.
  - intros p f. change (page_table_ _) with (Hash.new bucket_size : Hash.ExtendibleHashTable Z Z).
    by rewrite Hash_props.Find_new.
Qed.

Lemma GetVictimPage_same f s s' :
  GetVictimPage s = Some (f, s') →
  pool_size_ s' = pool_size_ s ∧ pages_ s' = pages_ s ∧ page_table_ s' = page_table_ s ∧
  next_page_id_ s' = next_page_id_ s ∧ disk_manager_ s' = disk_manager_ s ∧
  deallocated s' = deallocated s.
Proof.
  unfold GetVictimPage. intros H. destruct (free_list_ s) as [| f0 rest].
  - apply bind_Some in H as ([o r] & He & H). destruct o; by simplify_eq.
  - apply bind_Some in H as (pg & Hg & H).
    apply bind_Some in H as ([] & _ & H). by simplify_eq.
Qed.

Lemma table_ok_GetVictimPage n f s s' :
  GetVictimPage s = Some (f, s') → table_ok n s → table_ok n s'.
Proof.
  intros (H1 & H2 & H3 & _)%GetVictimPage_same. by apply table_ok_ext.
Qed.

Lemma set_page_table_id s : set_page_table (page_table_ s) s = s.
Proof. by destruct s. Qed.

(** [ResetPage] on a frame of a coherent pool: it completes; it fails
    only for a frame whose page has no entry, and then changes nothing. *)
Lemma ResetPage_ok n f s pg :
  table_ok n s → get_page f s = Some pg →
  ∃ b s', ResetPage f s = Some (b, s') ∧ table_ok n s' ∧
    (b = false → s' = s ∧ page_id_ pg ≠ INVALID_PAGE_ID ∧
                 Find (page_id_ pg) (page_table_ s) = Some None) ∧
    (b = true → page_id_ pg = INVALID_PAGE_ID ∧ s' = s ∨
                page_id_ pg ≠ INVALID_PAGE_ID ∧
                (∃ v, Find (page_id_ pg) (page_table_ s) = Some (Some v)) ∧
                (∀ p, Find p (page_table_ s')
                      = if decide (p = page_id_ pg) then Some None
                        else Find p (page_table_ s)) ∧
                get_page f s' = Some (mkPage (zeroed PAGE_SIZE) INVALID_PAGE_ID 0 false)).
Proof.
  intros Hok Hpg. pose proof Hok as [Hs Hf Ht Hr].
  destruct (decide (page_id_ pg = INVALID_PAGE_ID)) as [Hid | Hid].
  { exists true, s. unfold ResetPage, BPM.ResetPage. rewrite Hpg. cbn [mbind option_bind].
    rewrite bool_decide_eq_true_2 by done. split_and!; [done | done | done | by left]. }
  destruct (Hash_props.Remove_content hash (page_table_ s) (page_id_ pg) Ht)
    as (found & pt & Hrm & Hpt & Hfound & Hfind).
  destruct found.
  - rewrite (ResetPage_held _ _ _ _ _ _ Hpg Hid Hrm).
    eexists true, _. split; [done |]. split_and!; [| done |].
    + split; cbn; [done | by rewrite length_insert | done |].
      intros p g. rewrite Hfind. case_decide as Hp; [done |]. intros Hg.
      destruct (Hr p g Hg) as (pg0 & Hg0 & Hid0).
      unfold get_page. cbn [pages_].
      destruct (decide (g = f)) as [-> | Hne].
      * rewrite (zlookup_insert_eq _ _ _ _ Hpg). eexists. split; [done |].
        intros Hp1. exfalso. apply Hp. rewrite Hpg in Hg0. injection Hg0 as <-.
        by rewrite Hid0.
      * exists pg0. split; [| done]. unfold get_page in Hg0.
        apply zlookup_Some in Hg0 as [Hrange Hg0]. apply zlookup_Some in Hpg as [Hrange' _].
        unfold zlookup. rewrite (proj2 (Z.ltb_ge _ _)) by lia.
        rewrite list_lookup_insert_ne by lia. done.
    + intros _. right. split_and!; [done | done | done |].
      unfold get_page. cbn [pages_]. by apply (zlookup_insert_eq _ _ _ _ Hpg).
  - destruct Hfound as [Hnone ->]. exists false, s.
    unfold ResetPage, BPM.ResetPage. rewrite Hpg. cbn [mbind option_bind].
    rewrite bool_decide_eq_false_2 by done. rewrite Hrm. cbn [mbind option_bind].
    rewrite set_page_table_id. done.
Qed.

Lemma table_ok_ResetPage n f s b s' :
  ResetPage f s = Some (b, s') → table_ok n s → table_ok n s'.
Proof.
  intros H Hok. assert (∃ pg, get_page f s = Some pg) as [pg Hpg].
  { unfold ResetPage, BPM.ResetPage in H. apply bind_Some in H as (pg & Hpg & _). eauto. }
  destruct (ResetPage_ok n f s pg Hok Hpg) as (b0 & s0 & H0 & Hok0 & _). congruence.
Qed.

Lemma table_ok_InitPage n fuel f p s s' :
  InitPage fuel f p s = Some s' → table_ok n s →
  table_ok n s' ∧
  ∀ q, Find q (page_table_ s')
       = if decide (q = p) then Some (Some f) else Find q (page_table_ s).
Proof.
  intros (pg & pt & Hpg & Hid & _ & _ & Hins & -> & Hget)%InitPage_Some [Hs Hf Ht Hr].
  destruct (Hash_props.Insert_content hash _ _ _ _ _ Ht Hins) as [Hpt Hfind].
  split; [| done]. split; cbn; [done | by rewrite length_insert | done |].
  intros q g. rewrite Hfind. rewrite Hget.
  destruct (decide (q = p)) as [-> | Hq].
  - intros [= <-]. rewrite decide_True by done. eexists. split; [done |]. done.
  - intros Hg. destruct (Hr q g Hg) as (pg0 & Hg0 & Hid0).
    destruct (decide (g = f)) as [-> | Hne]; [| eauto].
    eexists. split; [done |]. intros Hq1. exfalso.
    rewrite Hpg in Hg0. injection Hg0 as <-. rewrite Hid0 in Hid; done.
Qed.

Lemma table_ok_UpdateFrameInfo n f c s s' :
  UpdateFrameInfo f c s = Some s' → table_ok n s → table_ok n s'.
Proof. intros [r ->]%UpdateFrameInfo_frame. by apply table_ok_ext. Qed.

Lemma table_ok_NewPgImp n fuel s r s' :
  NewPgImp fuel s = Some (r, s') → table_ok n s → table_ok n s'.
Proof.
  unfold NewPgImp, BPM.NewPgImp. intros H Hok.
  apply bind_Some in H as ([f s1] & Hv & H). cbn in H.
  apply (table_ok_GetVictimPage n) in Hv; [| done].
  case_bool_decide; [by simplify_eq |].
  apply bind_Some in H as ([b s3] & Hreset & H). cbn in H.
  apply bind_Some in H as (s4 & Hinit & H).
  apply bind_Some in H as (pg & Hpg & H).
  apply bind_Some in H as (s5 & Hupd & H). injection H as <- <-.
  apply (table_ok_ResetPage n) in Hreset; [| by apply (table_ok_ext n s1)].
  apply (table_ok_InitPage n) in Hinit as [Hinit _]; [| done].
  by eapply table_ok_UpdateFrameInfo.
Qed.

Lemma table_ok_FetchPgImp n fuel p s r s' :
  FetchPgImp fuel p s = Some (r, s') → table_ok n s → table_ok n s'.
Proof.
  unfold FetchPgImp, BPM.FetchPgImp. intros H Hok.
  apply bind_Some in H as (found & Hfind & H). destruct found as [f |].
  - apply bind_Some in H as (pg & Hpg & H).
    apply bind_Some in H as (s1 & Hput & H).
    apply bind_Some in H as (s2 & Hupd & H). injection H as <- <-.
    eapply table_ok_UpdateFrameInfo; [done |].
    eapply table_ok_put; [done | | done | done]. done.
  - apply bind_Some in H as ([f s1] & Hv & H). cbn in H.
    apply (table_ok_GetVictimPage n) in Hv; [| done].
    case_bool_decide; [by simplify_eq |].
    apply bind_Some in H as ([b s3] & Hreset & H). cbn in H.
    apply bind_Some in H as (s4 & Hinit & H).
    apply bind_Some in H as (pg & Hpg & H).
    apply bind_Some in H as (s5 & Hput & H).
    apply bind_Some in H as (s6 & Hupd & H). injection H as <- <-.
    apply (table_ok_ResetPage n) in Hreset; [| done].
    apply (table_ok_InitPage n) in Hinit as [Hinit _]; [| done].
    eapply table_ok_UpdateFrameInfo; [done |].
    eapply table_ok_put; [done | | done | done]. done.
Qed.

Lemma table_ok_UnpinFrame n f s s' :
  UnpinFrame f s = Some s' → table_ok n s → table_ok n s'.
Proof.
  intros (pg & s1 & Hpg & Hpos & Hput & H)%UnpinFrame_Some Hok.
  assert (table_ok n s1) as Hok1 by (eapply table_ok_put; [done | | done | done]; done).
  destruct (pin_count_ pg - 1 =? 0); [| by subst].
  destruct H as (r & _ & ->). by apply (table_ok_ext n s1).
Qed.

Lemma table_ok_UnpinPgImp n p d s b s' :
  UnpinPgImp p d s = Some (b, s') → table_ok n s → table_ok n s'.
Proof.
  unfold UnpinPgImp, BPM.UnpinPgImp. intros H Hok.
  apply bind_Some in H as (found & Hfind & H). destruct found as [f |]; [| by simplify_eq].
  apply bind_Some in H as (pg & Hpg & H).
  apply bind_Some in H as ([] & _ & H).
  destruct (pin_count_ pg =? 0); [by simplify_eq |].
  apply bind_Some in H as (s1 & Hunpin & H).
  apply bind_Some in H as (s2 & Hd & H). injection H as <- <-.
  apply (table_ok_UnpinFrame n) in Hunpin; [| done].
  destruct d; [| by simplify_eq].
  apply bind_Some in Hd as (pg1 & Hpg1 & Hput).
  eapply table_ok_put; [done | | done | done]. done.
Qed.

Lemma table_ok_FlushPgImp n p s b s' :
  FlushPgImp p s = Some (b, s') → table_ok n s → table_ok n s'.
Proof.
  unfold FlushPgImp, BPM.FlushPgImp. intros H Hok.
  case_bool_decide; [by simplify_eq |].
  apply bind_Some in H as (found & Hfind & H). destruct found as [f |]; [| by simplify_eq].
  apply bind_Some in H as (pg & Hpg & H).
  apply bind_Some in H as ([] & _ & H).
  apply bind_Some in H as (s1 & Hput & H). injection H as <- <-.
  eapply table_ok_put; [| | done |]; [exact Hpg | done |]. by apply (table_ok_ext n s).
Qed.

Lemma table_ok_FlushAll_loop n k f s s' :
  FlushAll_loop k f s = Some s' → table_ok n s → table_ok n s'.
Proof.
  revert f s. induction k as [| k IH]; intros f s; cbn [FlushAll_loop].
  - by intros [= <-].
  - intros H Hok. apply bind_Some in H as (pg & Hpg & H).
    apply bind_Some in H as (s1 & H1 & H). apply (IH _ _ H).
    case_bool_decide; [| by simplify_eq].
    eapply table_ok_put; [| | done |]; [exact Hpg | done |]. by apply (table_ok_ext n s).
Qed.

Lemma table_ok_DeletePgImp n p s b s' :
  DeletePgImp p s = Some (b, s') → table_ok n s → table_ok n s'.
Proof.
  unfold DeletePgImp, BPM.DeletePgImp. intros H Hok.
  apply bind_Some in H as (found & Hfind & H). destruct found as [f |]; [| by simplify_eq].
  apply bind_Some in H as (pg & Hpg & H).
  destruct (0 <? pin_count_ pg); [by simplify_eq |].
  apply bind_Some in H as ([reset s1] & Hreset & H). cbn in H.
  apply (table_ok_ResetPage n) in Hreset; [| done].
  destruct reset; [| by simplify_eq].
  apply bind_Some in H as (r & Hr & H). injection H as <- <-.
  by apply (table_ok_ext n s1).
Qed.

Lemma table_ok_caller_write n f bytes s s' :
  caller_write f bytes s = Some s' → table_ok n s → table_ok n s'.
Proof.
  unfold caller_write. intros H Hok. apply bind_Some in H as (pg & Hpg & H).
  apply bind_Some in H as ([] & _ & H).
  eapply table_ok_put; [done | | done | done]. done.
Qed.

Lemma table_ok_exec n fuel o s r s' :
  exec fuel o s = Some (r, s') → table_ok n s → table_ok n s'.
Proof.
  destruct o; cbn [BPM.exec]; intros H Hok.
  - apply bind_Some in H as ([r0 s0] & H0 & H). simplify_eq. by eapply table_ok_NewPgImp.
  - apply bind_Some in H as ([r0 s0] & H0 & H). simplify_eq. by eapply table_ok_FetchPgImp.
  - apply bind_Some in H as ([r0 s0] & H0 & H). simplify_eq. by eapply table_ok_UnpinPgImp.
  - apply bind_Some in H as ([r0 s0] & H0 & H). simplify_eq. by eapply table_ok_FlushPgImp.
  - apply bind_Some in H as (s0 & H0 & H). simplify_eq.
    unfold FlushAllPgsImp in H0. by eapply table_ok_FlushAll_loop.
  - apply bind_Some in H as ([r0 s0] & H0 & H). simplify_eq. by eapply table_ok_DeletePgImp.
  - apply bind_Some in H as (s0 & H0 & H). simplify_eq. by eapply table_ok_caller_write.
Qed.

Lemma table_ok_run n fuel ops s rs s' :
  run fuel ops s = Some (rs, s') → table_ok n s → table_ok n s'.
Proof.
  revert s rs. induction ops as [| o ops IH]; intros s rs H Hok.
  - cbn in H. by simplify_eq.
  - apply run_cons in H as (r & s1 & rs' & H1 & H2 & ->).
    eapply IH; [done |]. by eapply table_ok_exec.
Qed.

(** *** The replacer of the pool *)

(** The replacer is well formed, with [n] frames, after at most [B]
    operations of the pool. *)
Definition rep_ok (B n : Z) (s : BufferPoolManagerInstance) : Prop :=
  LRUK.wf B (replacer_ s) ∧ LRUK.replacer_size_ (replacer_ s) = n.

Lemma rep_ok_mono B B' n s : rep_ok B n s → B ≤ B' → rep_ok B' n s.
Proof. intros [Hwf Hn] HB. split; [by eapply LRUK_facts.wf_mono | done]. Qed.

Lemma rep_ok_ext B n s s' : replacer_ s' = replacer_ s → rep_ok B n s → rep_ok B n s'.
Proof. unfold rep_ok. by intros ->. Qed.

Lemma rep_ok_put B n f pg s s' : put_page f pg s = Some s' → rep_ok B n s → rep_ok B n s'.
Proof. intros H. apply rep_ok_ext. by eapply put_page_replacer. Qed.

Lemma rep_ok_GetVictimPage B n f s s' :
  GetVictimPage s = Some (f, s') → rep_ok B n s → rep_ok B n s'.
Proof.
  unfold GetVictimPage. intros H [Hwf Hn]. destruct (free_list_ s) as [| f0 rest].
  - apply bind_Some in H as ([o r] & He & H).
    assert (replacer_ s' = r) as Hr by (destruct o; by simplify_eq).
    unfold rep_ok. rewrite Hr.
    split; [by eapply LRUK_facts.Evict_wf |].
    by destruct (LRUK_props.Evict_params _ _ _ He) as [-> _].
  - apply bind_Some in H as (pg & Hg & H).
    apply bind_Some in H as ([] & _ & H). by simplify_eq.
Qed.

Lemma rep_ok_ResetPage B n f s b s' :
  ResetPage f s = Some (b, s') → rep_ok B n s → rep_ok B n s'.
Proof. intros (Hr & _)%ResetPage_Some. by apply rep_ok_ext. Qed.

Lemma rep_ok_InitPage B n fuel f p s s' :
  InitPage fuel f p s = Some s' → rep_ok B n s → rep_ok B n s'.
Proof.
  intros (pg & pt & _ & _ & _ & _ & _ & -> & _)%InitPage_Some. by apply rep_ok_ext.
Qed.

Lemma rep_ok_UpdateFrameInfo B n f c s s' :
  0 ≤ B → B + 1 < 2 ^ 64 →
  UpdateFrameInfo f c s = Some s' → rep_ok B n s → rep_ok (B + 1) n s'.
Proof.
  unfold UpdateFrameInfo. intros HB0 HB H [Hwf Hn].
  apply bind_Some in H as (r1 & Hra & H).
  apply bind_Some in H as (r2 & Hse & H). injection H as <-.
  pose proof (LRUK_facts.RecordAccess_wf _ _ _ _ Hwf HB0 HB Hra) as Hwf1.
  destruct (LRUK_props.RecordAccess_params _ _ _ Hra) as [Hn1 _].
  destruct (c =? 1).
  - split; [by eapply LRUK_facts.SetEvictable_wf |]. cbn.
    destruct (LRUK_props.SetEvictable_params _ _ _ _ Hse) as [-> _]. congruence.
  - injection Hse as <-. split; [done |]. cbn. congruence.
Qed.

Lemma rep_ok_UnpinFrame B n f s s' :
  UnpinFrame f s = Some s' → rep_ok B n s → rep_ok B n s'.
Proof.
  intros (pg & s1 & Hpg & Hpos & Hput & H)%UnpinFrame_Some [Hwf Hn].
  destruct (pin_count_ pg - 1 =? 0).
  - destruct H as (r & Hse & ->). split; [by eapply LRUK_facts.SetEvictable_wf |]. cbn.
    destruct (LRUK_props.SetEvictable_params _ _ _ _ Hse) as [-> _]. done.
  - subst s'. by eapply rep_ok_put.
Qed.

Lemma rep_ok_FlushAll_loop B n k f s s' :
  FlushAll_loop k f s = Some s' → rep_ok B n s → rep_ok B n s'.
Proof.
  revert f s. induction k as [| k IH]; intros f s; cbn [FlushAll_loop].
  - by intros [= <-].
  - intros H Hok. apply bind_Some in H as (pg & Hpg & H).
    apply bind_Some in H as (s1 & H1 & H). apply (IH _ _ H).
    case_bool_decide; [| by simplify_eq].
    eapply rep_ok_put; [done |]. by apply (rep_ok_ext B n s).
Qed.

Lemma rep_ok_exec B n fuel o s r s' :
  0 ≤ B → B + 1 < 2 ^ 64 →
  exec fuel o s = Some (r, s') → rep_ok B n s → rep_ok (B + 1) n s'.
Proof.
  intros HB0 HB. destruct o as [| p | p d | p | | p | f bytes]; cbn [BPM.exec]; intros H Hok.
  - apply bind_Some in H as ([r0 s0] & H0 & H). simplify_eq.
    unfold NewPgImp, BPM.NewPgImp in H0.
    apply bind_Some in H0 as ([f s1] & Hv & H). cbn in H.
    apply (rep_ok_GetVictimPage B n) in Hv; [| done].
    case_bool_decide; [simplify_eq; eapply rep_ok_mono; [done | lia] |].
    apply bind_Some in H as ([b s3] & Hreset & H). cbn in H.
    apply bind_Some in H as (s4 & Hinit & H).
    apply bind_Some in H as (pg & Hpg & H).
    apply bind_Some in H as (s5 & Hupd & H). injection H as <- <-.
    apply (rep_ok_ResetPage B n) in Hreset; [| by apply (rep_ok_ext B n s1)].
    apply (rep_ok_InitPage B n) in Hinit; [| done].
    by eapply rep_ok_UpdateFrameInfo.
  - apply bind_Some in H as ([r0 s0] & H0 & H). simplify_eq.
    unfold FetchPgImp, BPM.FetchPgImp in H0.
    apply bind_Some in H0 as (found & Hfind & H). destruct found as [f |].
    + apply bind_Some in H as (pg & Hpg & H).
      apply bind_Some in H as (s1 & Hput & H).
      apply bind_Some in H as (s2 & Hupd & H). injection H as <- <-.
      eapply rep_ok_UpdateFrameInfo; [done | done | done |]. by eapply rep_ok_put.
    + apply bind_Some in H as ([f s1] & Hv & H). cbn in H.
      apply (rep_ok_GetVictimPage B n) in Hv; [| done].
      case_bool_decide; [simplify_eq; eapply rep_ok_mono; [done | lia] |].
      apply bind_Some in H as ([b s3] & Hreset & H). cbn in H.
      apply bind_Some in H as (s4 & Hinit & H).
      apply bind_Some in H as (pg & Hpg & H).
      apply bind_Some in H as (s5 & Hput & H).
      apply bind_Some in H as (s6 & Hupd & H). injection H as <- <-.
      apply (rep_ok_ResetPage B n) in Hreset; [| done].
      apply (rep_ok_InitPage B n) in Hinit; [| done].
      eapply rep_ok_UpdateFrameInfo; [done | done | done |]. by eapply rep_ok_put.
  - apply bind_Some in H as ([r0 s0] & H0 & H). simplify_eq.
    apply (rep_ok_mono B); [| lia].
    unfold UnpinPgImp, BPM.UnpinPgImp in H0.
    apply bind_Some in H0 as (found & Hfind & H). destruct found as [f |]; [| by simplify_eq].
    apply bind_Some in H as (pg & Hpg & H).
    apply bind_Some in H as ([] & _ & H).
    destruct (pin_count_ pg =? 0); [by simplify_eq |].
    apply bind_Some in H as (s1 & Hunpin & H).
    apply bind_Some in H as (s2 & Hd & H). injection H as <- <-.
    apply (rep_ok_UnpinFrame B n) in Hunpin; [| done].
    destruct d; [| by simplify_eq].
    apply bind_Some in Hd as (pg1 & Hpg1 & Hput). by eapply rep_ok_put.
  - apply bind_Some in H as ([r0 s0] & H0 & H). simplify_eq.
    apply (rep_ok_mono B); [| lia].
    unfold FlushPgImp, BPM.FlushPgImp in H0.
    case_bool_decide as Hp; [by simplify_eq |].
    apply bind_Some in H0 as (found & Hfind & H). destruct found as [f |]; [| by simplify_eq].
    apply bind_Some in H as (pg & Hpg & H).
    apply bind_Some in H as ([] & _ & H).
    apply bind_Some in H as (s1 & Hput & H). injection H as <- <-.
    eapply rep_ok_put; [done |]. by apply (rep_ok_ext B n s).
  - apply bind_Some in H as (s0 & H0 & H). simplify_eq.
    apply (rep_ok_mono B); [| lia].
    unfold FlushAllPgsImp in H0. by eapply rep_ok_FlushAll_loop.
  - apply bind_Some in H as ([r0 s0] & H0 & H). simplify_eq.
    apply (rep_ok_mono B); [| lia].
    unfold DeletePgImp, BPM.DeletePgImp in H0.
    apply bind_Some in H0 as (found & Hfind & H). destruct found as [f |]; [| by simplify_eq].
    apply bind_Some in H as (pg & Hpg & H).
    destruct (0 <? pin_count_ pg); [by simplify_eq |].
    apply bind_Some in H as ([reset s1] & Hreset & H). cbn in H.
    apply (rep_ok_ResetPage B n) in Hreset as [Hwf Hn]; [| done].
    destruct reset; [| by simplify_eq].
    apply bind_Some in H as (r1 & Hr & H). injection H as <- <-.
    split; [by eapply LRUK_facts.Remove_wf |]. cbn.
    by destruct (LRUK_props.Remove_params _ _ _ Hr) as [-> _].
  - apply bind_Some in H as (s0 & H0 & H). simplify_eq.
    apply (rep_ok_mono B); [| lia].
    unfold caller_write in H0. apply bind_Some in H0 as (pg & Hpg & H).
    apply bind_Some in H as ([] & _ & H). by eapply rep_ok_put.
Qed.

Lemma rep_ok_run B n fuel ops s rs s' :
  0 ≤ B → B + Z.of_nat (length ops) < 2 ^ 64 →
  run fuel ops s = Some (rs, s') → rep_ok B n s →
  rep_ok (B + Z.of_nat (length ops)) n s'.
Proof.
  revert B s rs. induction ops as [| o ops IH]; intros B s rs HB0 HB H Hok.
  - cbn in H. simplify_eq. cbn. by rewrite Z.add_0_r.
  - apply run_cons in H as (r & s1 & rs' & H1 & H2 & ->).
    cbn [length] in *. rewrite Nat2Z.inj_succ in *.
    apply (rep_ok_exec B n) in H1; [| lia | lia | done].
    apply (IH (B + 1)) in H2; [| lia | lia | done].
    by replace (B + Z.succ (Z.of_nat (length ops))) with (B + 1 + Z.of_nat (length ops)) by lia.
Qed.

Lemma rep_ok_new pool_size disk replacer_k bucket_size :
  0 ≤ pool_size < 2 ^ 64 → 1 ≤ replacer_k < 2 ^ 64 →
  rep_ok 0 pool_size (new pool_size disk replacer_k bucket_size).
Proof. intros Hn Hk. split; [by apply LRUK_facts.wf_constructor | done]. Qed.

(** The replacer tracks frames of the pool only. *)
Definition track_ok (n : Z) (s : BufferPoolManagerInstance) : Prop :=
  ∀ g, g ∈ LRUK.all_nodes (replacer_ s) → 0 ≤ g < n.

Lemma track_ok_ext n s s' : replacer_ s' = replacer_ s → track_ok n s → track_ok n s'.
Proof. unfold track_ok. by intros ->. Qed.

Lemma track_ok_put n f pg s s' : put_page f pg s = Some s' → track_ok n s → track_ok n s'.
Proof. intros H. apply track_ok_ext. by eapply put_page_replacer. Qed.

Lemma track_ok_GetVictimPage B n f s s' :
  rep_ok B n s → GetVictimPage s = Some (f, s') → track_ok n s → track_ok n s'.
Proof.
  unfold GetVictimPage. intros [Hwf Hn] H Ht. destruct (free_list_ s) as [| f0 rest].
  - apply bind_Some in H as ([o r] & He & H).
    assert (replacer_ s' = r) as Hr by (destruct o; by simplify_eq).
    intros g. rewrite Hr. intros Hg. apply Ht. by eapply Evict_members.
  - apply bind_Some in H as (pg & Hg & H).
    apply bind_Some in H as ([] & _ & H). by simplify_eq.
Qed.

Lemma track_ok_UpdateFrameInfo B n f c s s' :
  rep_ok B n s → 0 ≤ B → B + 1 < 2 ^ 64 → 0 ≤ f < n →
  UpdateFrameInfo f c s = Some s' → track_ok n s → track_ok n s'.
Proof.
  unfold UpdateFrameInfo. intros [Hwf Hn] HB0 HB Hf H Ht.
  apply bind_Some in H as (r1 & Hra & H).
  apply bind_Some in H as (r2 & Hse & H). injection H as <-.
  pose proof (LRUK_facts.RecordAccess_wf _ _ _ _ Hwf HB0 HB Hra) as Hwf1.
  assert (LRUK.all_nodes r2 = LRUK.all_nodes r1) as Heq.
  { destruct (c =? 1); [by eapply SetEvictable_members | by simplify_eq]. }
  intros g. cbn [replacer_ set_replacer]. rewrite Heq. intros Hg.
  destruct (RecordAccess_members _ _ _ _ _ Hwf HB0 HB Hra Hg) as [Hg' | ->]; [by apply Ht | done].
Qed.

Lemma track_ok_UnpinFrame B n f s s' :
  rep_ok B n s → UnpinFrame f s = Some s' → track_ok n s → track_ok n s'.
Proof.
  intros [Hwf Hn] (pg & s1 & Hpg & Hpos & Hput & H)%UnpinFrame_Some Ht.
  destruct (pin_count_ pg - 1 =? 0).
  - destruct H as (r & Hse & ->). intros g. cbn [replacer_ set_replacer].
    rewrite (SetEvictable_members _ _ _ _ _ Hwf Hse). apply Ht.
  - subst s'. by eapply track_ok_put.
Qed.

Lemma track_ok_FlushAll_loop n k f s s' :
  FlushAll_loop k f s = Some s' → track_ok n s → track_ok n s'.
Proof.
  revert f s. induction k as [| k IH]; intros f s; cbn [FlushAll_loop].
  - by intros [= <-].
  - intros H Hok. apply bind_Some in H as (pg & Hpg & H).
    apply bind_Some in H as (s1 & H1 & H). apply (IH _ _ H).
    case_bool_decide; [| by simplify_eq].
    eapply track_ok_put; [done |]. by apply (track_ok_ext n s).
Qed.

Lemma track_ok_exec B n fuel o s r s' :
  table_ok n s → rep_ok B n s → 0 ≤ B → B + 1 < 2 ^ 64 →
  exec fuel o s = Some (r, s') → track_ok n s → track_ok n s'.
Proof.
  intros Htab Hrep HB0 HB.
  destruct o as [| p | p d | p | | p | f bytes]; cbn [BPM.exec]; intros H Hok.
  - apply bind_Some in H as ([r0 s0] & H0 & H). simplify_eq.
    unfold NewPgImp, BPM.NewPgImp in H0.
    apply bind_Some in H0 as ([f s1] & Hv & H). cbn in H.
    pose proof (track_ok_GetVictimPage _ _ _ _ _ Hrep Hv Hok) as Hok1.
    pose proof (rep_ok_GetVictimPage _ _ _ _ _ Hv Hrep) as Hrep1.
    pose proof (table_ok_GetVictimPage _ _ _ _ Hv Htab) as Htab1.
    case_bool_decide; [by simplify_eq |].
    apply bind_Some in H as ([b s3] & Hreset & H). cbn in H.
    apply bind_Some in H as (s4 & Hinit & H).
    apply bind_Some in H as (pg & Hpg & H).
    apply bind_Some in H as (s5 & Hupd & H). injection H as <- <-.
    assert (table_ok n s3) as Htab3.
    { eapply table_ok_ResetPage; [done |]. by apply (table_ok_ext n s1). }
    assert (rep_ok B n s3) as Hrep3.
    { eapply rep_ok_ResetPage; [done |]. by apply (rep_ok_ext B n s1). }
    destruct (table_ok_InitPage n _ _ _ _ _ Hinit Htab3) as [Htab4 _].
    pose proof (rep_ok_InitPage B n _ _ _ _ _ Hinit Hrep3) as Hrep4.
    eapply (track_ok_UpdateFrameInfo B n); [done | done | done | | done |].
    + exact (get_page_range _ _ _ _ Htab4 Hpg).
    + apply (track_ok_ext n s3); [by apply InitPage_Some in Hinit as (? & ? & _ & _ & _ & _ & _ & -> & _) |].
      apply (track_ok_ext n s1); [| done].
      by apply ResetPage_Some in Hreset as (-> & _).
  - apply bind_Some in H as ([r0 s0] & H0 & H). simplify_eq.
    unfold FetchPgImp, BPM.FetchPgImp in H0.
    apply bind_Some in H0 as (found & Hfind & H). destruct found as [f |].
    + apply bind_Some in H as (pg & Hpg & H).
      apply bind_Some in H as (s1 & Hput & H).
      apply bind_Some in H as (s2 & Hupd & H). injection H as <- <-.
      eapply (track_ok_UpdateFrameInfo B n); [by eapply rep_ok_put | done | done | | done |].
      * exact (get_page_range _ _ _ _ Htab Hpg).
      * by eapply track_ok_put.
    + apply bind_Some in H as ([f s1] & Hv & H). cbn in H.
      pose proof (track_ok_GetVictimPage _ _ _ _ _ Hrep Hv Hok) as Hok1.
      pose proof (rep_ok_GetVictimPage _ _ _ _ _ Hv Hrep) as Hrep1.
      pose proof (table_ok_GetVictimPage _ _ _ _ Hv Htab) as Htab1.
      case_bool_decide; [by simplify_eq |].
      apply bind_Some in H as ([b s3] & Hreset & H). cbn in H.
      apply bind_Some in H as (s4 & Hinit & H).
      apply bind_Some in H as (pg & Hpg & H).
      apply bind_Some in H as (s5 & Hput & H).
      apply bind_Some in H as (s6 & Hupd & H). injection H as <- <-.
      pose proof (table_ok_ResetPage n _ _ _ _ Hreset Htab1) as Htab3.
      pose proof (rep_ok_ResetPage B n _ _ _ _ Hreset Hrep1) as Hrep3.
      destruct (table_ok_InitPage n _ _ _ _ _ Hinit Htab3) as [Htab4 _].
      pose proof (rep_ok_InitPage B n _ _ _ _ _ Hinit Hrep3) as Hrep4.
      eapply (track_ok_UpdateFrameInfo B n); [by eapply rep_ok_put | done | done | | done |].
      * exact (get_page_range _ _ _ _ Htab4 Hpg).
      * eapply track_ok_put; [done |].
        apply (track_ok_ext n s3); [by apply InitPage_Some in Hinit as (? & ? & _ & _ & _ & _ & _ & -> & _) |].
        apply (track_ok_ext n s1); [| done].
        by apply ResetPage_Some in Hreset as (-> & _).
  - apply bind_Some in H as ([r0 s0] & H0 & H). simplify_eq.
    unfold UnpinPgImp, BPM.UnpinPgImp in H0.
    apply bind_Some in H0 as (found & Hfind & H). destruct found as [f |]; [| by simplify_eq].
    apply bind_Some in H as (pg & Hpg & H).
    apply bind_Some in H as ([] & _ & H).
    destruct (pin_count_ pg =? 0); [by simplify_eq |].
    apply bind_Some in H as (s1 & Hunpin & H).
    apply bind_Some in H as (s2 & Hd & H). injection H as <- <-.
    apply (track_ok_UnpinFrame B n) in Hunpin; [| done | done].
    destruct d; [| by simplify_eq].
    apply bind_Some in Hd as (pg1 & Hpg1 & Hput). by eapply track_ok_put.
  - apply bind_Some in H as ([r0 s0] & H0 & H). simplify_eq.
    unfold FlushPgImp, BPM.FlushPgImp in H0.
    case_bool_decide as Hp; [by simplify_eq |].
    apply bind_Some in H0 as (found & Hfind & H). destruct found as [f |]; [| by simplify_eq].
    apply bind_Some in H as (pg & Hpg & H).
    apply bind_Some in H as ([] & _ & H).
    apply bind_Some in H as (s1 & Hput & H). injection H as <- <-.
    eapply track_ok_put; [done |]. by apply (track_ok_ext n s).
  - apply bind_Some in H as (s0 & H0 & H). simplify_eq.
    unfold FlushAllPgsImp in H0. by eapply track_ok_FlushAll_loop.
  - apply bind_Some in H as ([r0 s0] & H0 & H). simplify_eq.
    unfold DeletePgImp, BPM.DeletePgImp in H0.
    apply bind_Some in H0 as (found & Hfind & H). destruct found as [f |]; [| by simplify_eq].
    apply bind_Some in H as (pg & Hpg & H).
    destruct (0 <? pin_count_ pg); [by simplify_eq |].
    apply bind_Some in H as ([reset s1] & Hreset & H). cbn in H.
    pose proof (rep_ok_ResetPage B n _ _ _ _ Hreset Hrep) as [Hwf1 Hn1].
    assert (track_ok n s1) as Hok1.
    { apply (track_ok_ext n s); [| done]. by apply ResetPage_Some in Hreset as (-> & _). }
    destruct reset; [| by simplify_eq].
    apply bind_Some in H as (r1 & Hr & H). injection H as <- <-.
    intros g Hg. apply Hok1. by eapply Remove_members.
  - apply bind_Some in H as (s0 & H0 & H). simplify_eq.
    unfold caller_write in H0. apply bind_Some in H0 as (pg & Hpg & H).
    apply bind_Some in H as ([] & _ & H). by eapply track_ok_put.
Qed.

Lemma track_ok_run B n fuel ops s rs s' :
  table_ok n s → rep_ok B n s → 0 ≤ B → B + Z.of_nat (length ops) < 2 ^ 64 →
  run fuel ops s = Some (rs, s') → track_ok n s → track_ok n s'.
Proof.
  revert B s rs. induction ops as [| o ops IH]; intros B s rs Htab Hrep HB0 HB H Hok.
  - cbn in H. by simplify_eq.
  - apply run_cons in H as (r & s1 & rs' & H1 & H2 & ->).
    cbn [length] in *. rewrite Nat2Z.inj_succ in *.
    apply (IH (B + 1) s1 rs'); [by eapply table_ok_exec | | lia | lia | done |].
    + eapply rep_ok_exec; [| | done | done]; lia.
    + eapply (track_ok_exec B); [done | done | | | done | done]; lia.
Qed.

(** *** States reached from the constructor *)

(** The parameters of a pool, and the states that a run of [ops] reaches
    from it. *)
Record params_ok (pool_size replacer_k bucket_size : Z) : Prop := mk_params_ok {
  pa_pool : 0 ≤ pool_size < 2 ^ 64;
  pa_k : 1 ≤ replacer_k < 2 ^ 64;
  pa_bucket : 0 ≤ bucket_size
}.

Lemma run_ok pool_size disk replacer_k bucket_size fuel ops rs s :
  params_ok pool_size replacer_k bucket_size →
  Z.of_nat (length ops) < 2 ^ 64 →
  run fuel ops (new pool_size disk replacer_k bucket_size) = Some (rs, s) →
  table_ok pool_size s ∧ rep_ok (Z.of_nat (length ops)) pool_size s ∧ pin_inv s ∧
  track_ok pool_size s.
Proof.
  intros [Hn Hk Hb] Hlen Hrun. split_and!.
  - eapply table_ok_run; [done |]. apply table_ok_new; lia.
  - apply (rep_ok_run 0 pool_size) in Hrun; [done | done | lia |]. by apply rep_ok_new.
  - eapply pin_inv_run; [done |]. apply pin_inv_new.
  - eapply (track_ok_run 0); [| | | | done |]; [apply table_ok_new; lia | by apply rep_ok_new
                                               | done | lia |].
    intros g Hg. by apply elem_of_nil in Hg.
Qed.

(** X14. In every state that a run of operations reaches from the
    constructor, a lookup in the page table completes, and an entry that
    it finds leads to a frame of the pool; unless the key of the entry is
    [INVALID_PAGE_ID], that frame holds the page of the key.  The number
    of frames is [pool_size]. *)
Theorem resident_frame_holds_page pool_size disk replacer_k bucket_size fuel ops rs s :
  0 ≤ pool_size → 0 ≤ bucket_size →
  run fuel ops (new pool_size disk replacer_k bucket_size) = Some (rs, s) →
  pool_size_ s = pool_size ∧ Z.of_nat (length (pages_ s)) = pool_size ∧
  ∀ p, ∃ found,
    Find p (page_table_ s) = Some found ∧
    ∀ f, found = Some f →
      0 ≤ f < pool_size ∧
      ∃ pg, get_page f s = Some pg ∧ (p ≠ INVALID_PAGE_ID → page_id_ pg = p).
Proof.
  intros Hn Hb Hrun.
  assert (table_ok pool_size s) as Hok
    by (eapply table_ok_run; [done |]; by apply table_ok_new).
  pose proof Hok as [Hs Hf Ht Hr]. split_and!; [done | done |].
  intros p. destruct (Hash_props.Find_content_total hash _ p Ht) as [found Hfind].
  exists found. split; [done |]. intros f ->.
  destruct (Hr p f Hfind) as (pg & Hpg & Hid).
  split; [by eapply get_page_range | eauto].
Qed.

(** *** Calls that always complete *)

Lemma UnpinFrame_total B n f s pg :
  table_ok n s → rep_ok B n s → n < 2 ^ 64 →
  get_page f s = Some pg → 0 < pin_count_ pg →
  is_Some (UnpinFrame f s).
Proof.
  intros Hok [Hwf Hn] Hlt Hpg Hpos. unfold UnpinFrame. rewrite Hpg. cbn [mbind option_bind].
  rewrite assert_true by by apply Z.ltb_lt. cbn [mbind option_bind].
  rewrite (put_page_total _ _ _ _ Hpg). cbn [mbind option_bind].
  case_match; [| by eexists].
  destruct (LRUK_props.SetEvictable_total B (replacer_ s) f true Hwf) as [r Hr].
  { rewrite Hn. apply in_range_size_t; [by eapply get_page_range | done]. }
  cbn [replacer_ set_pages]. rewrite Hr. by eexists.
Qed.

(** X15. In a state reached from the constructor, [UnpinPage(p, d)] for
    a page id other than [INVALID_PAGE_ID] completes: no assertion fails.
    It returns true exactly if the page table has an entry for [p] and the
    pin count of its frame is positive, and it changes nothing when it
    returns false. *)
Theorem UnpinPage_completes pool_size disk replacer_k bucket_size fuel ops rs s p d :
  params_ok pool_size replacer_k bucket_size →
  Z.of_nat (length ops) < 2 ^ 64 →
  run fuel ops (new pool_size disk replacer_k bucket_size) = Some (rs, s) →
  p ≠ INVALID_PAGE_ID →
  ∃ b s',
    UnpinPgImp p d s = Some (b, s') ∧
    (b = true ↔ ∃ f pg, Find p (page_table_ s) = Some (Some f) ∧
                         get_page f s = Some pg ∧ 0 < pin_count_ pg) ∧
    (b = false → s' = s).
Proof.
  intros Hpa Hlen Hrun Hp.
  destruct (run_ok _ _ _ _ _ _ _ _ Hpa Hlen Hrun) as (Hok & Hrep & Hpin & _).
  pose proof Hok as [Hs Hf Ht Hr].
  destruct (Hash_props.Find_content_total hash _ p Ht) as [found Hfind].
  unfold UnpinPgImp, BPM.UnpinPgImp. rewrite Hfind. cbn [mbind option_bind].
  destruct found as [f |].
  - destruct (Hr p f Hfind) as (pg & Hpg & Hid). specialize (Hid Hp).
    rewrite Hpg. cbn [mbind option_bind].
    rewrite assert_true by by apply bool_decide_eq_true. cbn [mbind option_bind].
    destruct (Z.eqb_spec (pin_count_ pg) 0) as [Hz | Hnz].
    + exists false, s. split_and!; [done | | done].
      split; [done |]. intros (f' & pg' & [= <-] & Hpg' & Hpos).
      rewrite Hpg in Hpg'. injection Hpg' as <-. lia.
    + destruct Hpin as [_ Hpin].
      destruct (Hpin f (pin_count_ pg)) as [H0 _]; [tauto | by unfold pins; rewrite Hpg |].
      destruct (UnpinFrame_total _ _ f s pg Hok Hrep (proj2 (pa_pool _ _ _ Hpa)) Hpg)
        as [s1 Hs1]; [lia |].
      rewrite Hs1. cbn [mbind option_bind].
      assert (∃ s2, (if d then pg1 ← get_page f s1; put_page f (set_is_dirty true pg1) s1
                     else Some s1) = Some s2) as [s2 Hs2].
      { destruct d; [| by eexists].
        pose proof (table_ok_UnpinFrame _ _ _ _ Hs1 Hok) as Hok1.
        assert (∃ pg1, get_page f s1 = Some pg1) as [pg1 Hpg1].
        { apply UnpinFrame_Some in Hs1 as (pg0 & s0 & _ & _ & Hput & Hcase).
          apply put_page_Some in Hput as [-> Hget].
          specialize (Hget f). rewrite decide_True in Hget by done.
          destruct (pin_count_ pg0 - 1 =? 0); [destruct Hcase as (r & _ & ->) | subst s1];
            eexists; exact Hget. }
        rewrite Hpg1. cbn [mbind option_bind].
        rewrite (put_page_total _ _ _ _ Hpg1). by eexists. }
      rewrite Hs2. cbn [mbind option_bind]. exists true, s2.
      split_and!; [done | | done]. split; [| done]. intros _.
      exists f, pg. split_and!; [done | done | lia].
  - exists false, s. split_and!; [done | | done].
    split; [done |]. by intros (f' & pg' & [=] & _).
Qed.

(** X16. In a state reached from the constructor, [FlushPage(p)]
    completes: no assertion fails.  It returns true exactly if [p] is not
    [INVALID_PAGE_ID] and the page table has an entry for [p]; then the
    frame of the entry is clean afterwards and the disk holds its bytes
    under [p].  It changes nothing when it returns false. *)
Theorem FlushPage_completes pool_size disk replacer_k bucket_size fuel ops rs s p :
  0 ≤ pool_size → 0 ≤ bucket_size →
  run fuel ops (new pool_size disk replacer_k bucket_size) = Some (rs, s) →
  ∃ b s',
    FlushPgImp p s = Some (b, s') ∧
    (b = true ↔ p ≠ INVALID_PAGE_ID ∧ ∃ f, Find p (page_table_ s) = Some (Some f)) ∧
    (b = false → s' = s) ∧
    (b = true →
     ∃ f pg, Find p (page_table_ s') = Some (Some f) ∧ get_page f s = Some pg ∧
             get_page f s' = Some (set_is_dirty false pg) ∧
             page_id_ pg = p ∧
             ReadPage p (disk_manager_ s') = data_ pg).
Proof.
  intros Hn Hb Hrun.
  assert (table_ok pool_size s) as Hok
    by (eapply table_ok_run; [done |]; by apply table_ok_new).
  pose proof Hok as [Hs Hf Ht Hr].
  unfold FlushPgImp, BPM.FlushPgImp. case_bool_decide as Hp.
  { exists false, s. split_and!; [done | | done | done]. split; [done | tauto]. }
  destruct (Hash_props.Find_content_total hash _ p Ht) as [found Hfind].
  rewrite Hfind. cbn [mbind option_bind]. destruct found as [f |].
  - destruct (Hr p f Hfind) as (pg & Hpg & Hid). specialize (Hid Hp).
    rewrite Hpg. cbn [mbind option_bind].
    rewrite assert_true by by apply bool_decide_eq_true. cbn [mbind option_bind].
    set (s1 := set_disk_manager _ s).
    assert (get_page f s1 = Some pg) as Hpg1 by done.
    rewrite (put_page_total _ _ _ _ Hpg1). cbn [mbind option_bind].
    eexists true, _. split; [done |]. split_and!; [| done |].
    + split; [| done]. intros _. eauto.
    + intros _. exists f, pg. split_and!; [done | done | | done |].
      * unfold get_page. cbn [pages_ set_pages]. by apply (zlookup_insert_eq _ _ _ _ Hpg).
      * subst s1. unfold ReadPage, WritePage.
        cbn [disk_manager_ set_pages set_disk_manager]. by rewrite bool_decide_eq_true_2.
  - exists false, s. split_and!; [done | | done | done].
    split; [done |]. by intros [_ [f [=]]].
Qed.

(** X17. In a state reached from the constructor, [DeletePage(p)] for a
    page id other than [INVALID_PAGE_ID] completes: no assertion fails.
    It returns false exactly if the page table has an entry for [p] and
    the frame of the entry is pinned, and then it changes nothing.  When
    it returns true the page table has no entry for [p] afterwards, and
    the entries of all other pages are as before. *)
Theorem DeletePage_completes pool_size disk replacer_k bucket_size fuel ops rs s p :
  params_ok pool_size replacer_k bucket_size →
  Z.of_nat (length ops) < 2 ^ 64 →
  run fuel ops (new pool_size disk replacer_k bucket_size) = Some (rs, s) →
  p ≠ INVALID_PAGE_ID →
  ∃ b s',
    DeletePgImp p s = Some (b, s') ∧
    (b = false ↔ ∃ f pg, Find p (page_table_ s) = Some (Some f) ∧
                          get_page f s = Some pg ∧ 0 < pin_count_ pg) ∧
    (b = false → s' = s) ∧
    (b = true → ∀ q, Find q (page_table_ s')
                     = if decide (q = p) then Some None else Find q (page_table_ s)).
Proof.
  intros Hpa Hlen Hrun Hp.
  destruct (run_ok _ _ _ _ _ _ _ _ Hpa Hlen Hrun) as (Hok & Hrep & Hpin & _).
  pose proof Hok as [Hs Hf Ht Hr].
  destruct (Hash_props.Find_content_total hash _ p Ht) as [found Hfind].
  unfold DeletePgImp, BPM.DeletePgImp. rewrite Hfind. cbn [mbind option_bind].
  destruct found as [f |].
  - destruct (Hr p f Hfind) as (pg & Hpg & Hid). specialize (Hid Hp).
    rewrite Hpg. cbn [mbind option_bind].
    destruct (Z.ltb_spec 0 (pin_count_ pg)) as [Hpos | Hz].
    { exists false, s. split_and!; [done | | done | done]. split; [| done]. eauto. }
    destruct (ResetPage_ok _ f s pg Hok Hpg) as (b & s1 & Hreset & Hok1 & Hfalse & Htrue).
    rewrite Hreset. cbn [mbind option_bind]. destruct b.
    + destruct Htrue as [[Hinv _] | (_ & _ & Hfind1 & _)]; [done | congruence |].
      destruct (LRUK_props.Remove_total (Z.of_nat (length ops)) (replacer_ s1) f) as [r Hrm].
      { apply (rep_ok_ResetPage _ _ _ _ _ _ Hreset Hrep). }
      { rewrite (proj2 (rep_ok_ResetPage _ _ _ _ _ _ Hreset Hrep)).
        apply in_range_size_t; [exact (get_page_range _ _ _ _ Hok Hpg) | apply Hpa]. }
      rewrite Hrm. cbn [mbind option_bind]. eexists true, _. split; [done |].
      split_and!; [| done |].
      * split; [done |]. intros (f' & pg' & [= <-] & Hpg' & Hpos).
        rewrite Hpg in Hpg'. injection Hpg' as <-. lia.
      * intros _ q. cbn. rewrite Hfind1. by rewrite Hid.
    + destruct Hfalse as (_ & _ & Hnone); [done |]. rewrite Hid in Hnone. congruence.
  - exists true, s. split_and!; [done | | done |].
    + split; [done |]. by intros (f' & pg' & [=] & _).
    + intros _ q. case_decide as Hq; [by subst q | done].
Qed.

(** *** FlushAllPages *)

(** What the loop of [FlushAllPgsImp] does to one frame and, for it, to
    the disk. *)
Definition flushed (pg : Page) : Page :=
  if bool_decide (page_id_ pg ≠ INVALID_PAGE_ID) then set_is_dirty false pg else pg.

Definition written (d : Disk) (pg : Page) : Disk :=
  if bool_decide (page_id_ pg ≠ INVALID_PAGE_ID)
  then WritePage (page_id_ pg) (data_ pg) d else d.

Lemma FlushAll_loop_spec rest : ∀ done s,
  pages_ s = done ++ rest →
  FlushAll_loop (length rest) (Z.of_nat (length done)) s
  = Some (set_disk_manager (foldl written (disk_manager_ s) rest)
            (set_pages (done ++ (flushed <$> rest)) s)).
Proof.
  induction rest as [| pg rest IH]; intros done s Hp; cbn [FlushAll_loop length].
  - cbn. rewrite app_nil_r in Hp |- *. rewrite <- Hp. by destruct s.
  - assert (get_page (Z.of_nat (length done)) s = Some pg) as Hpg.
    { unfold get_page, zlookup. rewrite (proj2 (Z.ltb_ge _ _)) by lia.
      rewrite Nat2Z.id, Hp, lookup_app_r by lia. by rewrite Nat.sub_diag. }
    rewrite Hpg. cbn [mbind option_bind].
    assert (<[length done := flushed pg]> (pages_ s) = (done ++ [flushed pg]) ++ rest) as Hins.
    { rewrite Hp, insert_app_r_alt by lia. rewrite Nat.sub_diag. cbn.
      by rewrite <- app_assoc. }
    assert (Z.of_nat (length done) + 1 = Z.of_nat (length (done ++ [flushed pg]))) as Hlen
      by (rewrite length_app; cbn; lia).
    unfold flushed, written in *. cbn [fmap list_fmap foldl].
    case_bool_decide as Hid.
    + set (s1 := set_disk_manager _ s).
      assert (get_page (Z.of_nat (length done)) s1 = Some pg) as Hpg1 by done.
      rewrite (put_page_total _ _ _ _ Hpg1). cbn [mbind option_bind].
      rewrite Nat2Z.id, Hlen.
      rewrite (IH (done ++ [set_is_dirty false pg]) _) by (subst s1; cbn; by rewrite Hins).
      f_equal. subst s1. destruct s. cbn. by rewrite <- app_assoc.
    + cbn [mbind option_bind]. rewrite list_insert_id in Hins
        by (rewrite Hp, lookup_app_r by lia; by rewrite Nat.sub_diag).
      rewrite Hlen. rewrite (IH (done ++ [pg]) _) by done.
      f_equal. destruct s. cbn. by rewrite <- app_assoc.
Qed.

Lemma foldl_written_other p l : ∀ d,
  (∀ pg, pg ∈ l → page_id_ pg ≠ p) → foldl written d l p = d p.
Proof.
  induction l as [| pg l IH]; intros d Hl; [done |]. cbn [foldl].
  rewrite IH by (intros pg' Hpg'; apply Hl; by right).
  unfold written. case_bool_decide; [| done]. unfold WritePage.
  rewrite bool_decide_eq_false_2; [done |]. intros ->. by apply (Hl pg); [left |].
Qed.

Lemma foldl_written_last l1 pg l2 d :
  page_id_ pg ≠ INVALID_PAGE_ID →
  (∀ pg', pg' ∈ l2 → page_id_ pg' ≠ page_id_ pg) →
  foldl written d (l1 ++ pg :: l2) (page_id_ pg) = data_ pg.
Proof.
  intros Hid Hl2. rewrite foldl_app. cbn [foldl].
  rewrite foldl_written_other by done. unfold written.
  rewrite bool_decide_eq_true_2 by done. unfold WritePage.
  by rewrite bool_decide_eq_true_2.
Qed.

(** X18. In a state reached from the constructor, [FlushAllPages]
    completes.  It clears the dirty flag of every frame that holds a page
    and changes nothing else in the pool.  On the disk, a page that no
    frame holds is as before, and a page that frames hold has the bytes of
    the last of these frames. *)
Theorem FlushAllPages_spec pool_size disk replacer_k bucket_size fuel ops rs s :
  0 ≤ pool_size → 0 ≤ bucket_size →
  run fuel ops (new pool_size disk replacer_k bucket_size) = Some (rs, s) →
  ∃ s',
    FlushAllPgsImp s = Some s' ∧
    (∀ f, get_page f s'
          = (λ pg, if bool_decide (page_id_ pg ≠ INVALID_PAGE_ID)
                   then mkPage (data_ pg) (page_id_ pg) (pin_count_ pg) false
                   else pg) <$> get_page f s) ∧
    (∀ p, (∀ f pg, get_page f s = Some pg → page_id_ pg ≠ INVALID_PAGE_ID →
                   page_id_ pg ≠ p) →
          ReadPage p (disk_manager_ s') = ReadPage p (disk_manager_ s)) ∧
    (∀ f pg, get_page f s = Some pg → page_id_ pg ≠ INVALID_PAGE_ID →
             (∀ g pg', f < g → get_page g s = Some pg' → page_id_ pg' ≠ page_id_ pg) →
             ReadPage (page_id_ pg) (disk_manager_ s') = data_ pg) ∧
    page_table_ s' = page_table_ s ∧ replacer_ s' = replacer_ s ∧
    free_list_ s' = free_list_ s ∧ next_page_id_ s' = next_page_id_ s.
Proof.
  intros Hn Hb Hrun.
  assert (table_ok pool_size s) as Hok
    by (eapply table_ok_run; [done |]; by apply table_ok_new).
  pose proof Hok as [Hs Hf Ht Hr].
  eexists. split.
  { unfold FlushAllPgsImp. rewrite Hs, <- Hf, Nat2Z.id.
    exact (FlushAll_loop_spec (pages_ s) [] s eq_refl). }
  cbn [app length]. split_and!; try done.
  - intros f. unfold get_page, zlookup. cbn [pages_ set_pages set_disk_manager].
    destruct (f <? 0); [done |]. rewrite list_lookup_fmap.
    by destruct (pages_ s !! Z.to_nat f).
  - intros p Hp. unfold ReadPage. cbn [disk_manager_ set_disk_manager].
    assert (∀ l d, (∀ pg, pg ∈ l → page_id_ pg ≠ INVALID_PAGE_ID → page_id_ pg ≠ p) →
                   foldl written d l p = d p) as Hgen.
    { induction l as [| pg l IH]; intros d Hl; [done |]. cbn [foldl].
      rewrite IH by (intros pg' Hpg'; apply Hl; by right).
      unfold written. case_bool_decide as Hid; [| done]. unfold WritePage.
      rewrite bool_decide_eq_false_2; [done |]. intros ->. by apply (Hl pg); [left | |]. }
    apply Hgen. intros pg [i Hi]%list_elem_of_lookup_1. apply (Hp (Z.of_nat i)).
    unfold get_page, zlookup. rewrite (proj2 (Z.ltb_ge _ _)) by lia. by rewrite Nat2Z.id.
  - intros f pg Hpg Hid Hlast. unfold ReadPage. cbn [disk_manager_ set_disk_manager].
    apply zlookup_Some in Hpg as [Hrange Hpg].
    rewrite <- (take_drop_middle _ _ _ Hpg). apply foldl_written_last; [done |].
    intros pg' [i Hi]%list_elem_of_lookup_1. rewrite lookup_drop in Hi.
    apply (Hlast (Z.of_nat (S (Z.to_nat f) + i))); [lia |].
    unfold get_page, zlookup. rewrite (proj2 (Z.ltb_ge _ _)) by lia. by rewrite Nat2Z.id.
Qed.

(** *** FetchPage *)

Lemma UpdateFrameInfo_total B n f c s :
  table_ok n s → rep_ok B n s → 0 ≤ B → B + 1 < 2 ^ 64 → n < 2 ^ 64 → 0 ≤ f < n →
  ∃ r, UpdateFrameInfo f c s = Some (set_replacer r s).
Proof.
  intros Hok [Hwf Hn] HB0 HB Hlt Hf. unfold UpdateFrameInfo.
  assert (to_size_t f ≤ LRUK.replacer_size_ (replacer_ s)) as Hr
    by (rewrite Hn; by apply in_range_size_t).
  destruct (LRUK_props.RecordAccess_total B (replacer_ s) f Hwf HB0 HB Hr) as [r1 Hr1].
  rewrite Hr1. cbn [mbind option_bind].
  destruct (c =? 1); [| by eexists].
  pose proof (LRUK_facts.RecordAccess_wf _ _ _ _ Hwf HB0 HB Hr1) as Hwf1.
  destruct (LRUK_props.RecordAccess_params _ _ _ Hr1) as [Hn1 _].
  destruct (LRUK_props.SetEvictable_total (B + 1) r1 f false Hwf1) as [r2 Hr2];
    [by rewrite Hn1 |].
  rewrite Hr2. by eexists.
Qed.

(** X19. In a state reached from the constructor, [FetchPage(p)] for a
    page that the page table has an entry for completes and returns the
    frame of the entry.  It adds one to the pin count of the frame and
    changes only the replacer besides: no frame is evicted, nothing is
    read from or written to the disk, and the bytes and the dirty flag of
    the frame are as before.  Afterwards the frame is not evictable. *)
Theorem FetchPage_resident pool_size disk replacer_k bucket_size fuel ops rs s fuel' p f :
  params_ok pool_size replacer_k bucket_size →
  Z.of_nat (length ops) + 1 < 2 ^ 64 →
  run fuel ops (new pool_size disk replacer_k bucket_size) = Some (rs, s) →
  Find p (page_table_ s) = Some (Some f) →
  ∃ pg r',
    get_page f s = Some pg ∧
    FetchPgImp fuel' p s
    = Some (Some f,
            set_replacer r'
              (set_pages (<[Z.to_nat f := mkPage (data_ pg) (page_id_ pg)
                                            (pin_count_ pg + 1) (is_dirty_ pg)]>
                            (pages_ s)) s)) ∧
    LRUK.node_evictable r' f = false.
Proof.
  intros Hpa Hlen Hrun Hfind.
  assert (Z.of_nat (length ops) < 2 ^ 64) as Hlen' by lia.
  destruct (run_ok _ _ _ _ _ _ _ _ Hpa Hlen' Hrun) as (Hok & Hrep & Hpin & _).
  destruct (to_resident _ _ Hok p f Hfind) as (pg & Hpg & _).
  pose proof (get_page_range _ _ _ _ Hok Hpg) as Hf.
  set (pg1 := mkPage (data_ pg) (page_id_ pg) (pin_count_ pg + 1) (is_dirty_ pg)).
  set (s1 := set_pages (<[Z.to_nat f := pg1]> (pages_ s)) s).
  assert (put_page f pg1 s = Some s1) as Hput by exact (put_page_total _ _ _ _ Hpg).
  destruct (UpdateFrameInfo_total (Z.of_nat (length ops)) pool_size f (pin_count_ pg1) s1)
    as [r' Hr']; [exact (table_ok_put _ _ pg pg1 _ _ Hpg eq_refl Hput Hok)
                 | exact (rep_ok_put _ _ _ _ _ _ Hput Hrep) | lia | lia | apply Hpa | done |].
  assert (FetchPgImp fuel' p s = Some (Some f, set_replacer r' s1)) as Hfetch.
  { unfold FetchPgImp, BPM.FetchPgImp. rewrite Hfind. cbn [mbind option_bind].
    rewrite Hpg. cbn [mbind option_bind].
    change (set_pin_count (pin_count_ pg + 1) pg) with pg1.
    rewrite Hput. cbn [mbind option_bind]. by rewrite Hr'. }
  exists pg, r'. split_and!; [done | done |].
  destruct (pin_inv_FetchPgImp _ _ _ _ _ _ _ Hfetch Hpin) as [_ Hi].
  destruct (Hi f (pin_count_ pg1)) as [_ H1]; [tauto | |].
  - unfold pins, get_page. cbn [pages_ set_replacer set_pages s1].
    by rewrite (zlookup_insert_eq _ _ _ _ Hpg).
  - apply H1. cbn. destruct Hpin as [_ Hpin].
    destruct (Hpin f (pin_count_ pg)) as [H0 _]; [tauto | by unfold pins; rewrite Hpg | lia].
Qed.

Lemma GetVictimPage_unpinned f s s' pg :
  pin_inv s → GetVictimPage s = Some (f, s') → f ≠ INVALID_FRAME_ID →
  get_page f s = Some pg → page_id_ pg ≠ INVALID_PAGE_ID → pin_count_ pg = 0.
Proof using Type.
  intros [[Ha _] Hi] H Hf Hpg Hid. unfold GetVictimPage in H.
  destruct (free_list_ s) as [| f0 rest].
  - apply bind_Some in H as ([o r] & He & H). destruct o as [a |]; [| by simplify_eq].
    assert (a = f) as -> by by simplify_eq.
    apply LRUK_facts.Evict_returns_evictable in He; [| done].
    destruct (Hi f (pin_count_ pg)) as [H0 H1]; [by intros [] | by unfold pins; rewrite Hpg |].
    destruct (decide (0 < pin_count_ pg)) as [Hpos | Hz]; [| lia].
    rewrite H1 in He; done.
  - apply bind_Some in H as (pg0 & Hg & H).
    apply bind_Some in H as ([] & Ha0%assert_Some & H). simplify_eq.
    apply bool_decide_eq_true in Ha0.
    change (get_page f s = Some pg0) in Hg. congruence.
Qed.

(** X20. When [FetchPage(p)], called in a state reached from the
    constructor for a page that the page table has no entry for, returns a
    frame, then that frame was not pinned.  If it was dirty, its bytes were
    written to the disk under the page id it held.  The frame now holds
    [p] with the bytes that the disk has for [p], pin count 1 and a clear
    dirty flag, and it is not evictable; the page table maps [p] to it and
    has lost the entry of the page the frame held; no other frame has
    changed. *)
Theorem FetchPage_miss_spec pool_size disk replacer_k bucket_size fuel ops rs s fuel' p f s' :
  0 ≤ pool_size → 0 ≤ bucket_size →
  run fuel ops (new pool_size disk replacer_k bucket_size) = Some (rs, s) →
  Find p (page_table_ s) = Some None →
  FetchPgImp fuel' p s = Some (Some f, s') →
  ∃ pg,
    get_page f s = Some pg ∧ pin_count_ pg = 0 ∧
    get_page f s' = Some (mkPage (ReadPage p (disk_manager_ s')) p 1 false) ∧
    (∀ g, g ≠ f → get_page g s' = get_page g s) ∧
    disk_manager_ s' = (if is_dirty_ pg
                        then WritePage (page_id_ pg) (data_ pg) (disk_manager_ s)
                        else disk_manager_ s) ∧
    (∀ q, Find q (page_table_ s')
          = if decide (q = p) then Some (Some f)
            else if decide (q = page_id_ pg ∧ q ≠ INVALID_PAGE_ID) then Some None
            else Find q (page_table_ s)) ∧
    LRUK.node_evictable (replacer_ s') f = false.
Proof.
  intros Hn Hb Hrun Hfind Hfetch.
  assert (table_ok pool_size s) as Hok
    by (eapply table_ok_run; [done |]; by apply table_ok_new).
  assert (pin_inv s) as Hpin by (eapply pin_inv_run; [done |]; apply pin_inv_new).
  pose proof (pin_inv_FetchPgImp _ _ _ _ _ _ _ Hfetch Hpin) as [_ Hpin'].
  unfold FetchPgImp, BPM.FetchPgImp in Hfetch. rewrite Hfind in Hfetch.
  cbn [mbind option_bind] in Hfetch.
  apply bind_Some in Hfetch as ([f0 s1] & Hv & H). cbn [mbind option_bind] in H.
  case_bool_decide as Hf0; [done |].
  apply bind_Some in H as ([b s3] & Hreset & H). cbn [mbind option_bind] in H.
  apply bind_Some in H as (s4 & Hinit & H).
  apply bind_Some in H as (pg4 & Hpg4 & H).
  apply bind_Some in H as (s5 & Hput & H).
  apply bind_Some in H as (s6 & Hupd & H). injection H as <- <-.
  pose proof (table_ok_GetVictimPage _ _ _ _ Hv Hok) as Hok1.
  pose proof (GetVictimPage_same _ _ _ Hv) as (_ & Hp1 & Ht1 & _ & Hd1 & _).
  assert (∃ pg, get_page f0 s1 = Some pg) as [pg Hpg1].
  { unfold ResetPage, BPM.ResetPage in Hreset.
    apply bind_Some in Hreset as (pg & Hpg & _). eauto. }
  assert (get_page f0 s = Some pg) as Hpg by (unfold get_page in *; by rewrite <- Hp1).
  pose proof (table_ok_ResetPage _ _ _ _ _ Hreset Hok1) as Hok3.
  apply InitPage_Some in Hinit
    as (pg3 & pt & Hpg3 & Hid3 & Hdirty3 & Hpin3 & Hins & -> & Hget4).
  destruct (Hash_props.Insert_content hash _ _ _ _ _ (to_table _ _ Hok3) Hins)
    as [_ Hfind4].
  pose proof (Hget4 f0) as Hg4. rewrite decide_True in Hg4 by done.
  rewrite Hg4 in Hpg4. injection Hpg4 as <-.
  apply put_page_Some in Hput as [-> Hget5].
  apply UpdateFrameInfo_frame in Hupd as [r ->].
  exists pg.
  assert (pin_count_ pg = 0 ∧
          (∀ g, g ≠ f0 → get_page g s3 = get_page g s) ∧
          disk_manager_ s3 = (if is_dirty_ pg
                              then WritePage (page_id_ pg) (data_ pg) (disk_manager_ s)
                              else disk_manager_ s) ∧
          ∀ q, Find q (page_table_ s3)
               = if decide (q = page_id_ pg ∧ q ≠ INVALID_PAGE_ID) then Some None
                 else Find q (page_table_ s)) as (Hpin0 & Hothers & Hdisk & Hfind3).
  { destruct (ResetPage_cases _ _ _ _ _ _ _ Hpg1 Hreset)
      as [(Hid & _ & ->) | (Hid & pt0 & Hrm & Hs3)].
    - assert (pg3 = pg) as -> by congruence.
      split_and!; [done | | by rewrite Hdirty3, Hd1 |].
      + intros g _. unfold get_page. by rewrite Hp1.
      + intros q. rewrite Ht1. rewrite decide_False; [done |]. intros [-> ?]. done.
    - destruct b.
      + split; [by eapply GetVictimPage_unpinned |].
        destruct (Hash_props.Remove_content hash _ (page_id_ pg) (to_table _ _ Hok1))
          as (found & pt1 & Hrm1 & _ & _ & Hfind1).
        rewrite Hrm in Hrm1. injection Hrm1 as <- <-.
        subst s3. cbn [disk_manager_ page_table_]. split_and!.
        * intros g Hg. unfold get_page. cbn [pages_].
          rewrite <- Hp1. unfold zlookup. destruct (g <? 0) eqn:Hneg; [done |].
          apply Z.ltb_ge in Hneg. apply zlookup_Some in Hpg1 as [Hr1 _].
          rewrite list_lookup_insert_ne by lia. done.
        * by rewrite Hd1.
        * intros q. rewrite Hfind1, Ht1.
          destruct (decide (q = page_id_ pg)) as [-> | Hq].
          -- by rewrite decide_True.
          -- rewrite decide_False; [done |]. tauto.
      + subst s3. change (get_page f0 s1 = Some pg3) in Hpg3.
        assert (pg3 = pg) as -> by congruence. done. }
  split_and!; [done | done | | | | |].
  - change (get_page f0 (set_pages (<[Z.to_nat f0 :=
              set_data (ReadPage p (disk_manager_ s3)) (set_pin_count 1 (set_page_id p pg3))]>
              (pages_ (set_page_table pt (set_pages
                 (<[Z.to_nat f0 := set_pin_count 1 (set_page_id p pg3)]> (pages_ s3)) s3))))
              (set_page_table pt (set_pages
                 (<[Z.to_nat f0 := set_pin_count 1 (set_page_id p pg3)]> (pages_ s3)) s3)))
            = Some (mkPage (ReadPage p (disk_manager_ s3)) p 1 false)).
    rewrite Hget5, decide_True by done.
    unfold set_data, set_pin_count, set_page_id, ReadPage. cbn. by rewrite Hdirty3.
  - intros g Hg.
    change (get_page g (set_pages (<[Z.to_nat f0 :=
              set_data (ReadPage p (disk_manager_ s3)) (set_pin_count 1 (set_page_id p pg3))]>
              (pages_ (set_page_table pt (set_pages
                 (<[Z.to_nat f0 := set_pin_count 1 (set_page_id p pg3)]> (pages_ s3)) s3))))
              (set_page_table pt (set_pages
                 (<[Z.to_nat f0 := set_pin_count 1 (set_page_id p pg3)]> (pages_ s3)) s3)))
            = get_page g s).
    rewrite Hget5, decide_False by done. rewrite Hget4, decide_False by done. by apply Hothers.
  - exact Hdisk.
  - intros q. cbn [page_table_ set_replacer set_pages set_page_table].
    rewrite Hfind4. case_decide; [done |]. apply Hfind3.
  - destruct (Hpin' f0 1) as [_ H1]; [tauto | | by apply H1].
    unfold pins.
    change (pin_count_ <$> get_page f0 (set_pages (<[Z.to_nat f0 :=
              set_data (ReadPage p (disk_manager_ s3)) (set_pin_count 1 (set_page_id p pg3))]>
              (pages_ (set_page_table pt (set_pages
                 (<[Z.to_nat f0 := set_pin_count 1 (set_page_id p pg3)]> (pages_ s3)) s3))))
              (set_page_table pt (set_pages
                 (<[Z.to_nat f0 := set_pin_count 1 (set_page_id p pg3)]> (pages_ s3)) s3)))
            = Some 1).
    rewrite Hget5, decide_True by done. done.
Qed.

(** *** No frame to give *)

Lemma set_replacer_id s : set_replacer (replacer_ s) s = s.
Proof. by destruct s. Qed.

Lemma Evict_victim_tracked B r a r' :
  LRUK.wf B r → LRUK.Evict r = Some (Some a, r') →
  a ∈ LRUK.all_nodes r ∧ LRUK.node_evictable r a = true.
Proof.
  intros Hwf He.
  destruct (LRUK_facts.Evict_spec B r Hwf)
    as [[He' _] | (a0 & l1 & l2 & r0 & ih & Hl & Hev & _ & _ & He' & _)]; [congruence |].
  assert (a0 = a) as -> by congruence. split; [| done].
  unfold LRUK.all_nodes. rewrite elem_of_app.
  destruct ih; [left | right]; rewrite Hl, elem_of_app, elem_of_cons; tauto.
Qed.

Lemma Evict_none_size B r r' :
  LRUK.wf B r → LRUK.Evict r = Some (None, r') → r' = r ∧ LRUK.Size r = 0.
Proof.
  intros Hwf He.
  destruct (LRUK_facts.Evict_spec B r Hwf)
    as [[He' Hall] | (a0 & l1 & l2 & r0 & ih & _ & _ & _ & _ & He' & _)]; [| congruence].
  split; [congruence |]. unfold LRUK.Size. rewrite (LRUK.wf_curr _ _ Hwf).
  unfold LRUK.count_evictable. clear -Hall.
  induction Hall as [| x l Hx _ IH]; [done |].
  rewrite filter_cons_False by (rewrite Hx; done). exact IH.
Qed.

Lemma GetVictimPage_invalid B n s s' :
  table_ok n s → rep_ok B n s → track_ok n s →
  GetVictimPage s = Some (INVALID_FRAME_ID, s') →
  s' = s ∧ free_list_ s = [] ∧ LRUK.Size (replacer_ s) = 0.
Proof.
  intros Hok [Hwf Hn] Ht H. unfold GetVictimPage in H.
  destruct (free_list_ s) as [| f0 rest].
  - apply bind_Some in H as ([o r] & He & H). destruct o as [a |].
    + exfalso. assert (a = INVALID_FRAME_ID) as -> by by simplify_eq.
      destruct (Evict_victim_tracked _ _ _ _ Hwf He) as [Hin _].
      apply Ht in Hin. unfold INVALID_FRAME_ID in Hin. lia.
    + destruct (Evict_none_size _ _ _ Hwf He) as [-> Hsize].
      injection H as <-. by rewrite set_replacer_id.
  - exfalso. apply bind_Some in H as (pg & Hg & H).
    apply bind_Some in H as ([] & _ & H). injection H as -> _.
    apply zlookup_Some in Hg as [Hr _]. unfold INVALID_FRAME_ID in Hr. lia.
Qed.

Lemma GetVictimPage_exhausted B n s :
  table_ok n s → rep_ok B n s → track_ok n s → pin_inv s →
  free_list_ s = [] → Forall (λ pg, 0 < pin_count_ pg) (pages_ s) →
  GetVictimPage s = Some (INVALID_FRAME_ID, s).
Proof.
  intros Hok [Hwf Hn] Ht [_ Hi] Hfree Hpinned. unfold GetVictimPage. rewrite Hfree.
  destruct (LRUK_facts.Evict_spec B _ Hwf)
    as [[He _] | (a & l1 & l2 & r0 & ih & Hl & Hev & _ & _ & He & _)].
  - rewrite He. cbn [mbind option_bind]. by rewrite set_replacer_id.
  - exfalso. destruct (Evict_victim_tracked _ _ _ _ Hwf He) as [Hin _].
    apply Ht in Hin.
    assert (is_Some (get_page a s)) as [pg Hpg].
    { unfold get_page, zlookup. rewrite (proj2 (Z.ltb_ge _ _)) by lia.
      apply lookup_lt_is_Some. pose proof (to_frames _ _ Hok). lia. }
    destruct (Hi a (pin_count_ pg)) as [_ H1]; [tauto | by unfold pins; rewrite Hpg |].
    rewrite H1 in Hev; [done |]. apply zlookup_Some in Hpg as [_ Hpg].
    rewrite Forall_lookup in Hpinned. by eapply Hpinned.
Qed.

(** X21. In a state reached from the constructor in which the free list
    is empty and every frame is pinned, [NewPage] returns no frame, and so
    does [FetchPage] for a page that the page table has no entry for.
    Neither call changes anything: no frame is evicted and no page id is
    used up. *)
Theorem pool_exhausted pool_size disk replacer_k bucket_size fuel ops rs s fuel' :
  params_ok pool_size replacer_k bucket_size →
  Z.of_nat (length ops) < 2 ^ 64 →
  run fuel ops (new pool_size disk replacer_k bucket_size) = Some (rs, s) →
  free_list_ s = [] →
  Forall (λ pg, 0 < pin_count_ pg) (pages_ s) →
  NewPgImp fuel' s = Some (None, s) ∧
  ∀ p, Find p (page_table_ s) = Some None → FetchPgImp fuel' p s = Some (None, s).
Proof.
  intros Hpa Hlen Hrun Hfree Hpinned.
  destruct (run_ok _ _ _ _ _ _ _ _ Hpa Hlen Hrun) as (Hok & Hrep & Hpin & Htr).
  pose proof (GetVictimPage_exhausted _ _ _ Hok Hrep Htr Hpin Hfree Hpinned) as Hv.
  split.
  - unfold NewPgImp, BPM.NewPgImp. rewrite Hv. cbn [mbind option_bind].
    by rewrite bool_decide_eq_true_2.
  - intros p Hfind. unfold FetchPgImp, BPM.FetchPgImp. rewrite Hfind.
    cbn [mbind option_bind]. rewrite Hv. cbn [mbind option_bind].
    by rewrite bool_decide_eq_true_2.
Qed.

End Pool.
(** A pool of two frames with four-byte pages over an all-zero disk. *)
Definition example_pool : BufferPoolManagerInstance := new 4 2 (λ _, zeroed 4) 2 4.

Definition example_bytes : list Byte.byte := [Byte.x01; Byte.x02; Byte.x03; Byte.x04].

Lemma example_params : params_ok 2 2 4.
Proof. split; lia. Defined.

Lemma resident_frame_holds_page_witness :
  ∃ rs s,
    run Hash.std_hash 4 8 [OpNewPage; OpNewPage; OpUnpinPage 0 false] example_pool
    = Some (rs, s) ∧
    pool_size_ s = 2 ∧ Z.of_nat (length (pages_ s)) = 2 ∧
    ∀ p, ∃ found,
      Hash.Find Hash.std_hash p (page_table_ s) = Some found ∧
      ∀ f, found = Some f →
        0 ≤ f < 2 ∧
        ∃ pg, get_page f s = Some pg ∧ (p ≠ INVALID_PAGE_ID → page_id_ pg = p).
Proof.
  eexists _, _. split; [vm_compute; reflexivity |].
  eapply (resident_frame_holds_page Hash.std_hash 4 2 (λ _, zeroed 4) 2 4 8
           [OpNewPage; OpNewPage; OpUnpinPage 0 false]); [lia | lia |].
  vm_compute; reflexivity.
Defined.

Lemma UnpinPage_completes_witness :
  ∃ rs s,
    run Hash.std_hash 4 8 [OpNewPage; OpNewPage] example_pool = Some (rs, s) ∧
    ∃ b s',
      UnpinPgImp Hash.std_hash 1 true s = Some (b, s') ∧
      (b = true ↔ ∃ f pg, Hash.Find Hash.std_hash 1 (page_table_ s) = Some (Some f) ∧
                           get_page f s = Some pg ∧ 0 < pin_count_ pg) ∧
      (b = false → s' = s).
Proof.
  eexists _, _. split; [vm_compute; reflexivity |].
  eapply (UnpinPage_completes Hash.std_hash 4 2 (λ _, zeroed 4) 2 4 8 [OpNewPage; OpNewPage]).
  - exact example_params.
  - simpl; lia.
  - vm_compute; reflexivity.
  - unfold INVALID_PAGE_ID; lia.
Defined.

Lemma FlushPage_completes_witness :
  ∃ rs s,
    run Hash.std_hash 4 8 [OpNewPage; OpWrite 0 example_bytes] example_pool = Some (rs, s) ∧
    ∃ b s',
      FlushPgImp Hash.std_hash 0 s = Some (b, s') ∧
      (b = true ↔ 0 ≠ INVALID_PAGE_ID ∧
                  ∃ f, Hash.Find Hash.std_hash 0 (page_table_ s) = Some (Some f)) ∧
      (b = false → s' = s) ∧
      (b = true →
       ∃ f pg, Hash.Find Hash.std_hash 0 (page_table_ s') = Some (Some f) ∧
               get_page f s = Some pg ∧
               get_page f s' = Some (set_is_dirty false pg) ∧
               page_id_ pg = 0 ∧
               ReadPage 0 (disk_manager_ s') = data_ pg).
Proof.
  eexists _, _. split; [vm_compute; reflexivity |].
  eapply (FlushPage_completes Hash.std_hash 4 2 (λ _, zeroed 4) 2 4 8
           [OpNewPage; OpWrite 0 example_bytes]); [lia | lia |].
  vm_compute; reflexivity.
Defined.

Lemma DeletePage_completes_witness :
  ∃ rs s,
    run Hash.std_hash 4 8 [OpNewPage; OpNewPage; OpUnpinPage 1 true] example_pool
    = Some (rs, s) ∧
    ∃ b s',
      DeletePgImp Hash.std_hash 4 1 s = Some (b, s') ∧
      (b = false ↔ ∃ f pg, Hash.Find Hash.std_hash 1 (page_table_ s) = Some (Some f) ∧
                            get_page f s = Some pg ∧ 0 < pin_count_ pg) ∧
      (b = false → s' = s) ∧
      (b = true → ∀ q, Hash.Find Hash.std_hash q (page_table_ s')
                       = if decide (q = 1) then Some None
                         else Hash.Find Hash.std_hash q (page_table_ s)).
Proof.
  eexists _, _. split; [vm_compute; reflexivity |].
  eapply (DeletePage_completes Hash.std_hash 4 2 (λ _, zeroed 4) 2 4 8
           [OpNewPage; OpNewPage; OpUnpinPage 1 true]).
  - exact example_params.
  - simpl; lia.
  - vm_compute; reflexivity.
  - unfold INVALID_PAGE_ID; lia.
Defined.

Lemma FlushAllPages_spec_witness :
  ∃ rs s,
    run Hash.std_hash 4 8 [OpNewPage; OpWrite 0 example_bytes; OpUnpinPage 0 true] example_pool
    = Some (rs, s) ∧
    ∃ s',
      FlushAllPgsImp s = Some s' ∧
      (∀ f, get_page f s'
            = (λ pg, if bool_decide (page_id_ pg ≠ INVALID_PAGE_ID)
                     then mkPage (data_ pg) (page_id_ pg) (pin_count_ pg) false
                     else pg) <$> get_page f s) ∧
      (∀ p, (∀ f pg, get_page f s = Some pg → page_id_ pg ≠ INVALID_PAGE_ID →
                     page_id_ pg ≠ p) →
            ReadPage p (disk_manager_ s') = ReadPage p (disk_manager_ s)) ∧
      (∀ f pg, get_page f s = Some pg → page_id_ pg ≠ INVALID_PAGE_ID →
               (∀ g pg', f < g → get_page g s = Some pg' → page_id_ pg' ≠ page_id_ pg) →
               ReadPage (page_id_ pg) (disk_manager_ s') = data_ pg) ∧
      page_table_ s' = page_table_ s ∧ replacer_ s' = replacer_ s ∧
      free_list_ s' = free_list_ s ∧ next_page_id_ s' = next_page_id_ s.
Proof.
  eexists _, _. split; [vm_compute; reflexivity |].
  eapply (FlushAllPages_spec Hash.std_hash 4 2 (λ _, zeroed 4) 2 4 8
           [OpNewPage; OpWrite 0 example_bytes; OpUnpinPage 0 true]); [lia | lia |].
  vm_compute; reflexivity.
Defined.

Lemma FetchPage_resident_witness :
  ∃ rs s,
    run Hash.std_hash 4 8 [OpNewPage; OpUnpinPage 0 false] example_pool = Some (rs, s) ∧
    Hash.Find Hash.std_hash 0 (page_table_ s) = Some (Some 0) ∧
    ∃ pg r',
      get_page 0 s = Some pg ∧
      FetchPgImp Hash.std_hash 4 8 0 s
      = Some (Some 0,
              set_replacer r'
                (set_pages (<[Z.to_nat 0 := mkPage (data_ pg) (page_id_ pg)
                                              (pin_count_ pg + 1) (is_dirty_ pg)]>
                              (pages_ s)) s)) ∧
      LRUK.node_evictable r' 0 = false.
Proof.
  eexists _, _. split; [vm_compute; reflexivity |].
  split; [vm_compute; reflexivity |].
  eapply (FetchPage_resident Hash.std_hash 4 2 (λ _, zeroed 4) 2 4 8
           [OpNewPage; OpUnpinPage 0 false] _ _ 8 0 0).
  - exact example_params.
  - simpl; lia.
  - vm_compute; reflexivity.
  - vm_compute; reflexivity.
Defined.

(** A pool of one frame: the page created first is written to and unpinned
    as dirty, and the fetch of another page takes its frame. *)
Lemma FetchPage_miss_spec_witness :
  ∃ rs s s',
    run Hash.std_hash 4 8 [OpNewPage; OpWrite 0 example_bytes; OpUnpinPage 0 true]
        (new 4 1 (λ _, zeroed 4) 2 4) = Some (rs, s) ∧
    Hash.Find Hash.std_hash 5 (page_table_ s) = Some None ∧
    FetchPgImp Hash.std_hash 4 8 5 s = Some (Some 0, s') ∧
    ∃ pg,
      get_page 0 s = Some pg ∧ pin_count_ pg = 0 ∧
      get_page 0 s' = Some (mkPage (ReadPage 5 (disk_manager_ s')) 5 1 false) ∧
      (∀ g, g ≠ 0 → get_page g s' = get_page g s) ∧
      disk_manager_ s' = (if is_dirty_ pg
                          then WritePage (page_id_ pg) (data_ pg) (disk_manager_ s)
                          else disk_manager_ s) ∧
      (∀ q, Hash.Find Hash.std_hash q (page_table_ s')
            = if decide (q = 5) then Some (Some 0)
              else if decide (q = page_id_ pg ∧ q ≠ INVALID_PAGE_ID) then Some None
              else Hash.Find Hash.std_hash q (page_table_ s)) ∧
      LRUK.node_evictable (replacer_ s') 0 = false.
Proof.
  eexists _, _, _. split; [vm_compute; reflexivity |].
  split; [vm_compute; reflexivity |]. split; [vm_compute; reflexivity |].
  eapply (FetchPage_miss_spec Hash.std_hash 4 1 (λ _, zeroed 4) 2 4 8
           [OpNewPage; OpWrite 0 example_bytes; OpUnpinPage 0 true] _ _ 8 5 0).
  - lia.
  - lia.
  - vm_compute; reflexivity.
  - vm_compute; reflexivity.
  - vm_compute; reflexivity.
Defined.

Lemma pool_exhausted_witness :
  ∃ rs s,
    run Hash.std_hash 4 8 [OpNewPage; OpNewPage] example_pool = Some (rs, s) ∧
    free_list_ s = [] ∧
    NewPgImp Hash.std_hash 4 8 s = Some (None, s) ∧
    ∀ p, Hash.Find Hash.std_hash p (page_table_ s) = Some None →
         FetchPgImp Hash.std_hash 4 8 p s = Some (None, s).
Proof.
  eexists _, _. split; [vm_compute; reflexivity |]. split; [reflexivity |].
  eapply (pool_exhausted Hash.std_hash 4 2 (λ _, zeroed 4) 2 4 8 [OpNewPage; OpNewPage]).
  - exact example_params.
  - simpl; lia.
  - vm_compute; reflexivity.
  - reflexivity.
  - apply (bool_decide_unpack _). vm_compute; reflexivity.
Defined.

End BPM_props.

(** * Buffer pool manager: pages and the replacer *)

Module BPM_live.

Import BPM BPM_facts BPM_props.

(** *** Frames that hold a page stay with the replacer *)

(** A frame of the pool that the replacer does not track leaves room in
    the replacer. *)
Lemma replacer_has_room B n r f :
  LRUK.wf B r → LRUK.replacer_size_ r = n →
  (∀ g, g ∈ LRUK.all_nodes r → 0 ≤ g < n) →
  0 ≤ f < n → f ∉ LRUK.all_nodes r →
  Z.of_nat (length (LRUK.all_nodes r)) ≠ LRUK.replacer_size_ r.
Proof.
  intros Hwf Hn Ht Hf Hin.
  assert (f :: LRUK.all_nodes r ⊆+ seqZ 0 n) as Hsub.
  { apply NoDup_submseteq.
    - constructor; [done | apply (LRUK.wf_nodup _ _ Hwf)].
    - intros x [-> | Hx]%elem_of_cons; apply elem_of_seqZ; [lia |].
      specialize (Ht x Hx). lia. }
  apply submseteq_length in Hsub. rewrite length_seqZ in Hsub. cbn [length] in Hsub. lia.
Qed.

(** [RecordAccess] of a frame of the pool leaves it tracked, and the
    nodes of the other frames as they were. *)
Lemma RecordAccess_nodes B n r f r' :
  LRUK.wf B r → LRUK.replacer_size_ r = n →
  (∀ g, g ∈ LRUK.all_nodes r → 0 ≤ g < n) →
  0 ≤ B → B + 1 < 2 ^ 64 → 0 ≤ f < n →
  LRUK.RecordAccess f r = Some r' →
  ∃ x, LRUK.nodes r' = <[f := x]> (LRUK.nodes r) ∧
       (∀ y, LRUK.nodes r !! f = Some y → LRUK.evictable_ x = LRUK.evictable_ y).
Proof.
  intros Hwf Hn Ht HB0 HB Hf Hr. pose proof Hr as Hr'. unfold LRUK.RecordAccess in Hr'.
  apply bind_Some in Hr' as (u & Hrange%LRUK_facts.assert_le_Some & _).
  destruct (decide (f ∈ LRUK.all_nodes r)) as [Hin | Hin].
  - apply (LRUK.wf_nodes _ _ Hwf) in Hin as [y Hy].
    destruct (LRUK_facts.RecordAccess_tracked B r f y) as (r0 & Hr0 & _ & Hnodes & _);
      try done.
    assert (r0 = r') as -> by congruence. eexists. split; [done |].
    intros y' Hy'. cbn. congruence.
  - pose proof (LRUK_facts.RecordAccess_untracked B r f Hwf HB0 Hrange Hin) as Hu.
    rewrite decide_False in Hu by by eapply replacer_has_room.
    destruct Hu as (r0 & Hr0 & _ & Hnodes & _).
    assert (r0 = r') as -> by congruence. eexists. split; [done |].
    intros y Hy. exfalso. apply Hin. apply (LRUK.wf_nodes _ _ Hwf). by eexists.
Qed.

Lemma SetEvictable_nodes B r f b r' :
  LRUK.wf B r → LRUK.SetEvictable f b r = Some r' →
  (∀ g, g ≠ f → LRUK.nodes r' !! g = LRUK.nodes r !! g) ∧
  (∀ y, LRUK.nodes r !! f = Some y →
        ∃ x, LRUK.nodes r' !! f = Some x ∧ LRUK.evictable_ x = b).
Proof.
  intros Hwf Hr. pose proof Hr as Hr'. unfold LRUK.SetEvictable in Hr'.
  apply bind_Some in Hr' as (u & Hf%LRUK_facts.assert_le_Some & _).
  destruct (LRUK_props.SetEvictable_spec B r f b Hwf Hf)
    as (r0 & Hr0 & _ & _ & _ & _ & Hoth & _ & Hset).
  assert (r0 = r') as -> by congruence. split; [done |].
  intros y Hy. destruct (Hset y Hy) as [-> _]. by eexists.
Qed.

Lemma Remove_nodes B r f r' :
  LRUK.wf B r → LRUK.Remove f r = Some r' →
  ∀ g, g ≠ f → LRUK.nodes r' !! g = LRUK.nodes r !! g.
Proof.
  intros Hwf Hr. pose proof Hr as Hr'. unfold LRUK.Remove in Hr'.
  apply bind_Some in Hr' as (u & Hf%LRUK_facts.assert_le_Some & _).
  destruct (LRUK_props.Remove_spec B r f Hwf Hf) as (r0 & Hr0 & _ & Hsame & Hrm).
  assert (r0 = r') as -> by congruence. intros g Hg.
  destruct (decide (f ∈ LRUK.all_nodes r)) as [Hin | Hin]; [| by rewrite Hsame by tauto].
  destruct (LRUK.node_evictable r f) eqn:Hev; [| by rewrite Hsame by tauto].
  destruct (Hrm Hin eq_refl) as (-> & _). by rewrite lookup_delete_ne.
Qed.

Lemma Evict_nodes B r o r' :
  LRUK.wf B r → LRUK.Evict r = Some (o, r') →
  ∀ g, o ≠ Some g → LRUK.nodes r' !! g = LRUK.nodes r !! g.
Proof.
  intros Hwf Hr g Hg.
  destruct (LRUK_facts.Evict_spec B r Hwf)
    as [[He _] | (a & l1 & l2 & r0 & ih & _ & _ & _ & _ & He & _ & _ & _ & Hnodes & _)].
  - by assert (r' = r) as -> by congruence.
  - assert (r0 = r' ∧ o = Some a) as [-> ->] by (split; congruence).
    rewrite Hnodes, lookup_delete_ne; [done | congruence].
Qed.

Section Pool.

Variable hash : Z → Z.
Variable PAGE_SIZE : nat.

Abbreviation new := (new PAGE_SIZE).
Abbreviation ResetPage := (ResetPage hash PAGE_SIZE).
Abbreviation InitPage := (InitPage hash).
Abbreviation NewPgImp := (NewPgImp hash PAGE_SIZE).
Abbreviation FetchPgImp := (FetchPgImp hash PAGE_SIZE).
Abbreviation UnpinPgImp := (UnpinPgImp hash).
Abbreviation FlushPgImp := (FlushPgImp hash).
Abbreviation DeletePgImp := (DeletePgImp hash PAGE_SIZE).
Abbreviation exec := (exec hash PAGE_SIZE).
Abbreviation run := (run hash PAGE_SIZE).
Abbreviation Find := (Hash.Find hash).
Abbreviation table_ok := (table_ok hash).

(** Every frame outside [X] that holds a page has a node in the replacer,
    and the node is evictable if the frame is not pinned. *)
Definition live_but (X : Z → Prop) (s : BufferPoolManagerInstance) : Prop :=
  ∀ f pg, ¬ X f → get_page f s = Some pg → page_id_ pg ≠ INVALID_PAGE_ID →
    ∃ x, LRUK.nodes (replacer_ s) !! f = Some x ∧
         (pin_count_ pg = 0 → LRUK.evictable_ x = true).

Definition live_ok : BufferPoolManagerInstance → Prop := live_but (λ _, False).

Lemma live_weaken X s : live_ok s → live_but X s.
Proof. intros H f pg _. apply H. tauto. Qed.

Lemma live_but_ext X s s' :
  replacer_ s' = replacer_ s → pages_ s' = pages_ s → live_but X s → live_but X s'.
Proof. unfold live_but, get_page. by intros -> ->. Qed.

(** A write to a frame outside the scope of the invariant. *)
Lemma live_but_put_out (X : Z → Prop) f pg s s' :
  X f → put_page f pg s = Some s' → live_but X s → live_but X s'.
Proof.
  intros Hf Hput Hl g pg' Hg. pose proof (put_page_replacer _ _ _ _ Hput) as Hr.
  apply put_page_Some in Hput as [_ Hget]. rewrite Hget, Hr.
  destruct (decide (g = f)) as [-> | Hne]; [done |]. by apply Hl.
Qed.

(** A write that keeps the page id of the frame and does not unpin it. *)
Lemma live_but_put X f pg pg' s s' :
  get_page f s = Some pg → page_id_ pg' = page_id_ pg →
  (pin_count_ pg' = 0 → pin_count_ pg = 0) →
  put_page f pg' s = Some s' → live_but X s → live_but X s'.
Proof.
  intros Hpg Hid Hpin Hput Hl g pg0 Hg. pose proof (put_page_replacer _ _ _ _ Hput) as Hr.
  apply put_page_Some in Hput as [_ Hget]. rewrite Hget, Hr.
  destruct (decide (g = f)) as [-> | Hne]; [| by apply Hl].
  intros [= <-] Hid'. rewrite Hid in Hid'.
  destruct (Hl f pg Hg Hpg Hid') as (x & Hx & Hev). exists x. split; [done |]. auto.
Qed.

Lemma live_GetVictimPage B n f s s' :
  rep_ok B n s → GetVictimPage s = Some (f, s') → live_ok s → live_but (λ g, g = f) s'.
Proof.
  unfold GetVictimPage. intros [Hwf Hn] H Hl. destruct (free_list_ s) as [| f0 rest].
  - apply bind_Some in H as ([o r] & He & H).
    assert (replacer_ s' = r ∧ pages_ s' = pages_ s ∧ (∀ a, o = Some a → a = f))
      as (Hr & Hp & Ho) by (destruct o; simplify_eq; split_and!; try done; congruence).
    intros g pg Hg. unfold get_page. rewrite Hp, Hr. intros Hpg Hid.
    rewrite (Evict_nodes _ _ _ _ Hwf He g); [apply Hl; [tauto | done | done] |].
    intros ->. apply Hg. by apply Ho.
  - apply bind_Some in H as (pg & Hg & H).
    apply bind_Some in H as ([] & _ & H). injection H as <- <-.
    apply live_weaken. by apply (live_but_ext _ s).
Qed.

Lemma live_ResetPage f s b s' :
  ResetPage f s = Some (b, s') → live_but (λ g, g = f) s → live_but (λ g, g = f) s'.
Proof.
  intros (Hr & _ & _ & Hg)%ResetPage_Some Hl g pg Hne. rewrite Hg, Hr by done.
  by apply Hl.
Qed.

Lemma live_InitPage fuel f p s s' :
  InitPage fuel f p s = Some s' → live_but (λ g, g = f) s → live_but (λ g, g = f) s'.
Proof.
  intros (pg & pt & _ & _ & _ & _ & _ & -> & Hget)%InitPage_Some Hl g pg' Hne.
  rewrite Hget, decide_False by done. by apply Hl.
Qed.

(** [UpdateFrameInfo] for a pinned frame brings the frame back into the
    scope of the invariant. *)
Lemma live_UpdateFrameInfo B n f c s s' pg :
  rep_ok B n s → track_ok n s → 0 ≤ B → B + 1 < 2 ^ 64 →
  get_page f s = Some pg → 0 < pin_count_ pg → 0 ≤ f < n →
  UpdateFrameInfo f c s = Some s' →
  live_but (λ g, g = f) s → live_ok s'.
Proof.
  unfold UpdateFrameInfo. intros [Hwf Hn] Ht HB0 HB Hpg Hpos Hf H Hl.
  apply bind_Some in H as (r1 & Hra & H).
  apply bind_Some in H as (r2 & Hse & H). injection H as <-.
  destruct (RecordAccess_nodes _ _ _ _ _ Hwf Hn Ht HB0 HB Hf Hra) as (x & Hnodes & _).
  pose proof (LRUK_facts.RecordAccess_wf _ _ _ _ Hwf HB0 HB Hra) as Hwf1.
  assert ((∀ g, g ≠ f → LRUK.nodes r2 !! g = LRUK.nodes (replacer_ s) !! g) ∧
          is_Some (LRUK.nodes r2 !! f)) as [Hoth Hsome].
  { destruct (c =? 1).
    - destruct (SetEvictable_nodes _ _ _ _ _ Hwf1 Hse) as [Hoth Hset]. split.
      + intros g Hg. rewrite Hoth, Hnodes by done. by rewrite lookup_insert_ne.
      + destruct (Hset x) as (x' & -> & _); [by rewrite Hnodes, lookup_insert_eq |].
        by eexists.
    - injection Hse as <-. rewrite Hnodes. split.
      + intros g Hg. by rewrite lookup_insert_ne.
      + rewrite lookup_insert_eq. by eexists. }
  intros g pg' _. change (get_page g s = Some pg' → page_id_ pg' ≠ INVALID_PAGE_ID →
    ∃ x0, LRUK.nodes r2 !! g = Some x0 ∧ (pin_count_ pg' = 0 → LRUK.evictable_ x0 = true)).
  destruct (decide (g = f)) as [-> | Hne].
  - intros Hpg' _. destruct Hsome as [x' Hx']. exists x'. split; [done |].
    assert (pg' = pg) as -> by congruence. lia.
  - rewrite Hoth by done. by apply Hl.
Qed.

Lemma live_UnpinFrame B n f s s' :
  rep_ok B n s → UnpinFrame f s = Some s' → live_ok s → live_ok s'.
Proof.
  intros [Hwf Hn] (pg & s1 & Hpg & Hpos & Hput & H)%UnpinFrame_Some Hl.
  pose proof (put_page_replacer _ _ _ _ Hput) as Hr.
  pose proof (put_page_Some _ _ _ _ Hput) as [-> Hget].
  destruct (Z.eqb_spec (pin_count_ pg - 1) 0) as [Hz | Hnz].
  - destruct H as (r & Hse & ->).
    destruct (SetEvictable_nodes _ _ _ _ _ Hwf Hse) as [Hoth Hset].
    intros g pg' _.
    change (get_page g (set_pages (<[Z.to_nat f := set_pin_count (pin_count_ pg - 1) pg]>
                                     (pages_ s)) s) = Some pg' →
            page_id_ pg' ≠ INVALID_PAGE_ID →
            ∃ x, LRUK.nodes r !! g = Some x ∧
                 (pin_count_ pg' = 0 → LRUK.evictable_ x = true)).
    rewrite Hget. destruct (decide (g = f)) as [-> | Hne].
    + intros [= <-] Hid. destruct (Hl f pg) as (y & Hy & _); [tauto | done | done |].
      destruct (Hset y Hy) as (x & Hx & Hb). eauto.
    + rewrite Hoth by done. apply Hl. tauto.
  - subst s'.
    eapply (live_but_put _ f pg (set_pin_count (pin_count_ pg - 1) pg));
      [done | done | | done | done].
    cbn. lia.
Qed.

Lemma live_FlushAll_loop k f s s' :
  FlushAll_loop k f s = Some s' → live_ok s → live_ok s'.
Proof.
  revert f s. induction k as [| k IH]; intros f s; cbn [FlushAll_loop].
  - by intros [= <-].
  - intros H Hok. apply bind_Some in H as (pg & Hpg & H).
    apply bind_Some in H as (s1 & H1 & H). apply (IH _ _ H).
    case_bool_decide; [| by simplify_eq].
    eapply (live_but_put _ f pg (set_is_dirty false pg)); [| | | done |];
      [exact Hpg | done | done |].
    by apply (live_but_ext _ s).
Qed.

Lemma live_exec B n fuel o s r s' :
  table_ok n s → rep_ok B n s → track_ok n s → pin_inv s →
  0 ≤ B → B + 1 < 2 ^ 64 →
  exec fuel o s = Some (r, s') → live_ok s → live_ok s'.
Proof.
  intros Htab Hrep Htr Hpin HB0 HB.
  destruct o as [| p | p d | p | | p | f bytes]; cbn [BPM.exec]; intros H Hok.
  - apply bind_Some in H as ([r0 s0] & H0 & H). simplify_eq.
    unfold NewPgImp, BPM.NewPgImp in H0.
    apply bind_Some in H0 as ([f s1] & Hv & H). cbn in H.
    pose proof (live_GetVictimPage _ _ _ _ _ Hrep Hv Hok) as Hok1.
    pose proof (track_ok_GetVictimPage _ _ _ _ _ Hrep Hv Htr) as Htr1.
    pose proof (rep_ok_GetVictimPage _ _ _ _ _ Hv Hrep) as Hrep1.
    pose proof (table_ok_GetVictimPage _ _ _ _ _ Hv Htab) as Htab1.
    case_bool_decide as Hf.
    { injection H as <- <-. subst f.
      destruct (GetVictimPage_invalid _ _ _ _ _ Htab Hrep Htr Hv) as (-> & _). done. }
    apply bind_Some in H as ([b s3] & Hreset & H). cbn in H.
    apply bind_Some in H as (s4 & Hinit & H).
    apply bind_Some in H as (pg & Hpg & H).
    apply bind_Some in H as (s5 & Hupd & H). injection H as <- <-.
    assert (table_ok n s3) as Htab3.
    { eapply table_ok_ResetPage; [done |]. by apply (table_ok_ext _ n s1). }
    assert (rep_ok B n s3) as Hrep3.
    { eapply rep_ok_ResetPage; [done |]. by apply (rep_ok_ext B n s1). }
    assert (table_ok n s4) as Htab4 by (by eapply table_ok_InitPage).
    assert (rep_ok B n s4) as Hrep4 by (by eapply rep_ok_InitPage).
    pose proof Hinit as (pg3 & pt & _ & _ & _ & _ & _ & Hs4 & Hget4)%InitPage_Some.
    pose proof (Hget4 f) as Hg4. rewrite decide_True in Hg4 by done.
    assert (pg = set_pin_count 1 (set_page_id (next_page_id_ s1) pg3)) as Hpgeq by congruence.
    eapply (live_UpdateFrameInfo B n f _ s4 _ pg); try done.
    + apply (track_ok_ext n s3); [by rewrite Hs4 |].
      apply (track_ok_ext n s1); [| done]. by apply ResetPage_Some in Hreset as (-> & _).
    + rewrite Hpgeq. cbn. lia.
    + exact (get_page_range _ _ _ _ _ Htab4 Hpg).
    + eapply live_InitPage; [done |]. eapply live_ResetPage; [done |].
      by apply (live_but_ext _ s1).
  - apply bind_Some in H as ([r0 s0] & H0 & H). simplify_eq.
    unfold FetchPgImp, BPM.FetchPgImp in H0.
    apply bind_Some in H0 as (found & Hfind & H). destruct found as [f |].
    + apply bind_Some in H as (pg & Hpg & H).
      apply bind_Some in H as (s1 & Hput & H).
      apply bind_Some in H as (s2 & Hupd & H). injection H as <- <-.
      destruct Hpin as [_ Hpin].
      destruct (Hpin f (pin_count_ pg)) as [Hp0 _]; [tauto | by unfold pins; rewrite Hpg |].
      pose proof (put_page_Some _ _ _ _ Hput) as [_ Hget1].
      pose proof (Hget1 f) as Hg1. rewrite decide_True in Hg1 by done.
      eapply (live_UpdateFrameInfo B n f _ s1); try done.
      * by eapply rep_ok_put.
      * by eapply track_ok_put.
      * cbn. lia.
      * exact (get_page_range _ _ _ _ _ Htab Hpg).
      * eapply live_but_put_out; [| done |]; [done | by apply live_weaken].
    + apply bind_Some in H as ([f s1] & Hv & H). cbn in H.
      pose proof (live_GetVictimPage _ _ _ _ _ Hrep Hv Hok) as Hok1.
      pose proof (track_ok_GetVictimPage _ _ _ _ _ Hrep Hv Htr) as Htr1.
      pose proof (rep_ok_GetVictimPage _ _ _ _ _ Hv Hrep) as Hrep1.
      pose proof (table_ok_GetVictimPage _ _ _ _ _ Hv Htab) as Htab1.
      case_bool_decide as Hf.
      { injection H as <- <-. subst f.
        destruct (GetVictimPage_invalid _ _ _ _ _ Htab Hrep Htr Hv) as (-> & _). done. }
      apply bind_Some in H as ([b s3] & Hreset & H). cbn in H.
      apply bind_Some in H as (s4 & Hinit & H).
      apply bind_Some in H as (pg & Hpg & H).
      apply bind_Some in H as (s5 & Hput & H).
      apply bind_Some in H as (s6 & Hupd & H). injection H as <- <-.
      assert (table_ok n s3) as Htab3 by (by eapply table_ok_ResetPage).
      assert (rep_ok B n s3) as Hrep3 by (by eapply rep_ok_ResetPage).
      assert (table_ok n s4) as Htab4 by (by eapply table_ok_InitPage).
      assert (rep_ok B n s4) as Hrep4 by (by eapply rep_ok_InitPage).
      pose proof Hinit as (pg3 & pt & _ & _ & _ & _ & _ & Hs4 & Hget4)%InitPage_Some.
      pose proof (Hget4 f) as Hg4. rewrite decide_True in Hg4 by done.
      assert (pg = set_pin_count 1 (set_page_id p pg3)) as Hpgeq by congruence.
      pose proof (put_page_Some _ _ _ _ Hput) as [_ Hget5].
      pose proof (Hget5 f) as Hg5. rewrite decide_True in Hg5 by done.
      eapply (live_UpdateFrameInfo B n f _ s5); try done.
      * by eapply rep_ok_put.
      * eapply track_ok_put; [done |].
        apply (track_ok_ext n s3); [by rewrite Hs4 |].
        apply (track_ok_ext n s1); [| done]. by apply ResetPage_Some in Hreset as (-> & _).
      * rewrite Hpgeq. cbn. lia.
      * exact (get_page_range _ _ _ _ _ Htab4 Hpg).
      * eapply live_but_put_out; [| done |]; [done |].
        eapply live_InitPage; [done |]. by eapply live_ResetPage.
  - apply bind_Some in H as ([r0 s0] & H0 & H). simplify_eq.
    unfold UnpinPgImp, BPM.UnpinPgImp in H0.
    apply bind_Some in H0 as (found & Hfind & H). destruct found as [f |]; [| by simplify_eq].
    apply bind_Some in H as (pg & Hpg & H).
    apply bind_Some in H as ([] & _ & H).
    destruct (pin_count_ pg =? 0); [by simplify_eq |].
    apply bind_Some in H as (s1 & Hunpin & H).
    apply bind_Some in H as (s2 & Hd & H). injection H as <- <-.
    apply (live_UnpinFrame B n) in Hunpin; [| done | done].
    destruct d; [| by simplify_eq].
    apply bind_Some in Hd as (pg1 & Hpg1 & Hput).
    eapply (live_but_put _ f pg1 (set_is_dirty true pg1)); [done | done | | done | done]. done.
  - apply bind_Some in H as ([r0 s0] & H0 & H). simplify_eq.
    unfold FlushPgImp, BPM.FlushPgImp in H0.
    case_bool_decide as Hp; [by simplify_eq |].
    apply bind_Some in H0 as (found & Hfind & H). destruct found as [f |]; [| by simplify_eq].
    apply bind_Some in H as (pg & Hpg & H).
    apply bind_Some in H as ([] & _ & H).
    apply bind_Some in H as (s1 & Hput & H). injection H as <- <-.
    eapply (live_but_put _ f pg (set_is_dirty false pg)); [| | | done |];
      [exact Hpg | done | done |].
    by apply (live_but_ext _ s).
  - apply bind_Some in H as (s0 & H0 & H). simplify_eq.
    unfold FlushAllPgsImp in H0. by eapply live_FlushAll_loop.
  - apply bind_Some in H as ([r0 s0] & H0 & H). simplify_eq.
    unfold DeletePgImp, BPM.DeletePgImp in H0.
    apply bind_Some in H0 as (found & Hfind & H). destruct found as [f |]; [| by simplify_eq].
    apply bind_Some in H as (pg & Hpg & H).
    destruct (0 <? pin_count_ pg); [by simplify_eq |].
    apply bind_Some in H as ([reset s1] & Hreset & H). cbn in H.
    destruct (ResetPage_ok hash PAGE_SIZE n f s pg Htab Hpg)
      as (b & s1' & Hreset' & _ & Hfalse & Htrue).
    rewrite Hreset in Hreset'. injection Hreset' as <- <-.
    assert (rep_ok B n s1) as [Hwf1 Hn1] by (by eapply rep_ok_ResetPage).
    destruct reset; [| injection H as <- <-; by destruct Hfalse as [-> _]].
    apply bind_Some in H as (r1 & Hr & H). injection H as <- <-.
    assert (∃ pg1, get_page f s1 = Some pg1 ∧ page_id_ pg1 = INVALID_PAGE_ID)
      as (pg1 & Hpg1 & Hid1).
    { destruct Htrue as [[Hid ->] | (_ & _ & _ & Hg)]; [done | by eexists | by eexists]. }
    pose proof (live_ResetPage _ _ _ _ Hreset (live_weaken _ _ Hok)) as Hl1.
    intros g pg' _.
    change (get_page g s1 = Some pg' → page_id_ pg' ≠ INVALID_PAGE_ID →
            ∃ x, LRUK.nodes r1 !! g = Some x ∧
                 (pin_count_ pg' = 0 → LRUK.evictable_ x = true)).
    destruct (decide (g = f)) as [-> | Hne]; [congruence |].
    rewrite (Remove_nodes _ _ _ _ Hwf1 Hr) by done. by apply Hl1.
  - apply bind_Some in H as (s0 & H0 & H). simplify_eq.
    unfold caller_write in H0. apply bind_Some in H0 as (pg & Hpg & H).
    apply bind_Some in H as ([] & _ & H).
    eapply (live_but_put _ f pg (set_data bytes pg)); [done | done | | done | done]. done.
Qed.

Lemma live_run B n fuel ops s rs s' :
  table_ok n s → rep_ok B n s → track_ok n s → pin_inv s →
  0 ≤ B → B + Z.of_nat (length ops) < 2 ^ 64 →
  run fuel ops s = Some (rs, s') → live_ok s → live_ok s'.
Proof.
  revert B s rs. induction ops as [| o ops IH]; intros B s rs Htab Hrep Htr Hpin HB0 HB H Hok.
  - cbn in H. by simplify_eq.
  - apply run_cons in H as (r & s1 & rs' & H1 & H2 & ->).
    cbn [length] in *. rewrite Nat2Z.inj_succ in *.
    apply (IH (B + 1) s1 rs'); [by eapply table_ok_exec | | | by eapply pin_inv_exec
                               | lia | lia | done |].
    + eapply rep_ok_exec; [| | done | done]; lia.
    + eapply (track_ok_exec _ _ B); [done | done | | | done | done]; lia.
    + eapply (live_exec B); [done | done | done | done | | | done | done]; lia.
Qed.

Lemma live_new pool_size disk replacer_k bucket_size :
  live_ok (new pool_size disk replacer_k bucket_size).
Proof.
  intros f pg _ Hpg Hid. exfalso. apply Hid.
  unfold get_page in Hpg. apply zlookup_Some in Hpg as [_ Hpg]. cbn in Hpg.
  by apply list_elem_of_lookup_2, list_elem_of_In, repeat_spec in Hpg as ->.
Qed.

Lemma run_live pool_size disk replacer_k bucket_size fuel ops rs s :
  params_ok pool_size replacer_k bucket_size →
  Z.of_nat (length ops) < 2 ^ 64 →
  run fuel ops (new pool_size disk replacer_k bucket_size) = Some (rs, s) →
  live_ok s.
Proof.
  intros Hpa Hlen Hrun. pose proof Hpa as [Hn Hk Hb].
  eapply (live_run 0); [| | | | | | done |].
  - apply table_ok_new; lia.
  - by apply rep_ok_new.
  - intros g Hg. by apply elem_of_nil in Hg.
  - apply pin_inv_new.
  - done.
  - lia.
  - apply live_new.
Qed.

(** X22. In a state reached from the constructor, every frame that holds
    a page is tracked by the replacer, and it is evictable exactly if its
    pin count is 0: a pinned page is never a candidate for eviction, and an
    unpinned page always is. *)
Theorem page_evictable_iff_unpinned
    pool_size disk replacer_k bucket_size fuel ops rs s f pg :
  params_ok pool_size replacer_k bucket_size →
  Z.of_nat (length ops) < 2 ^ 64 →
  run fuel ops (new pool_size disk replacer_k bucket_size) = Some (rs, s) →
  get_page f s = Some pg → page_id_ pg ≠ INVALID_PAGE_ID →
  LRUK.tracked (replacer_ s) f ∧
  (LRUK.node_evictable (replacer_ s) f = true ↔ pin_count_ pg = 0).
Proof.
  intros Hpa Hlen Hrun Hpg Hid.
  destruct (run_ok _ _ _ _ _ _ _ _ _ _ Hpa Hlen Hrun) as (Hok & [Hwf _] & [_ Hpin] & _).
  pose proof (run_live _ _ _ _ _ _ _ _ Hpa Hlen Hrun) as Hl.
  destruct (Hl f pg) as (x & Hx & Hev); [tauto | done | done |].
  destruct (Hpin f (pin_count_ pg)) as [H0 H1]; [tauto | by unfold pins; rewrite Hpg |].
  split.
  - apply (LRUK_facts.wf_tracked _ _ _ Hwf), (LRUK.wf_nodes _ _ Hwf). by eexists.
  - unfold LRUK.node_evictable in *. rewrite Hx in *. split; [| done].
    intros Hx'. destruct (decide (0 < pin_count_ pg)) as [Hpos | Hz]; [| lia].
    rewrite H1 in Hx'; done.
Qed.

(** X23. In a state reached from the constructor, [NewPage] and
    [FetchPage] return no frame only when the free list is empty and every
    frame that holds a page is pinned (so that [Size()] of the replacer is
    0), and for [FetchPage] when the page table has no entry for the page.
    They leave the pool as it was then. *)
Theorem no_frame_only_when_exhausted
    pool_size disk replacer_k bucket_size fuel ops rs s fuel' :
  params_ok pool_size replacer_k bucket_size →
  Z.of_nat (length ops) < 2 ^ 64 →
  run fuel ops (new pool_size disk replacer_k bucket_size) = Some (rs, s) →
  (∀ s', NewPgImp fuel' s = Some (None, s') →
         s' = s ∧ free_list_ s = [] ∧ LRUK.Size (replacer_ s) = 0 ∧
         ∀ f pg, get_page f s = Some pg → page_id_ pg ≠ INVALID_PAGE_ID →
                 0 < pin_count_ pg) ∧
  (∀ p s', FetchPgImp fuel' p s = Some (None, s') →
           s' = s ∧ Find p (page_table_ s) = Some None ∧
           free_list_ s = [] ∧ LRUK.Size (replacer_ s) = 0 ∧
           ∀ f pg, get_page f s = Some pg → page_id_ pg ≠ INVALID_PAGE_ID →
                   0 < pin_count_ pg).
Proof.
  intros Hpa Hlen Hrun.
  destruct (run_ok _ _ _ _ _ _ _ _ _ _ Hpa Hlen Hrun) as (Hok & Hrep & Hpin & Htr).
  pose proof (run_live _ _ _ _ _ _ _ _ Hpa Hlen Hrun) as Hl.
  assert (LRUK.Size (replacer_ s) = 0 →
          ∀ f pg, get_page f s = Some pg → page_id_ pg ≠ INVALID_PAGE_ID →
                  0 < pin_count_ pg) as Hall.
  { intros Hsize f pg Hpg Hid. destruct Hrep as [Hwf _]. destruct Hpin as [_ Hpin].
    destruct (Hl f pg) as (x & Hx & Hev); [tauto | done | done |].
    destruct (Hpin f (pin_count_ pg)) as [H0 _]; [tauto | by unfold pins; rewrite Hpg |].
    destruct (decide (pin_count_ pg = 0)) as [Hz | Hnz]; [| lia]. exfalso.
    unfold LRUK.Size in Hsize. rewrite (LRUK.wf_curr _ _ Hwf) in Hsize.
    assert (LRUK.count_evictable (replacer_ s) (LRUK.all_nodes (replacer_ s)) = 0%nat)
      as Hcount by lia.
    apply LRUK_facts.count_evictable_zero in Hcount. rewrite Forall_forall in Hcount.
    specialize (Hcount f). unfold LRUK.node_evictable in Hcount. rewrite Hx in Hcount.
    rewrite Hev in Hcount by done.
    assert (true = false) by (apply Hcount, (LRUK.wf_nodes _ _ Hwf); by eexists). done. }
  split.
  - intros s' H. unfold NewPgImp, BPM.NewPgImp in H.
    apply bind_Some in H as ([f s1] & Hv & H). cbn [mbind option_bind] in H.
    case_bool_decide as Hf.
    + injection H as <-. subst f.
      destruct (GetVictimPage_invalid _ _ _ _ _ Hok Hrep Htr Hv) as (-> & ? & ?).
      split_and!; [done | done | done | by apply Hall].
    + unfold AllocatePage in H.
      apply bind_Some in H as ([b s3] & _ & H). cbn [mbind option_bind] in H.
      apply bind_Some in H as (s4 & _ & H). apply bind_Some in H as (pg & _ & H).
      apply bind_Some in H as (s5 & _ & H). done.
  - intros p s' H. unfold FetchPgImp, BPM.FetchPgImp in H.
    apply bind_Some in H as (found & Hfind & H). destruct found as [f |].
    + apply bind_Some in H as (pg & _ & H). apply bind_Some in H as (s1 & _ & H).
      apply bind_Some in H as (s2 & _ & H). done.
    + apply bind_Some in H as ([f s1] & Hv & H). cbn [mbind option_bind] in H.
      case_bool_decide as Hf.
      * injection H as <-. subst f.
        destruct (GetVictimPage_invalid _ _ _ _ _ Hok Hrep Htr Hv) as (-> & ? & ?).
        split_and!; [done | done | done | done | by apply Hall].
      * apply bind_Some in H as ([b s3] & _ & H). cbn [mbind option_bind] in H.
        apply bind_Some in H as (s4 & _ & H). apply bind_Some in H as (pg & _ & H).
        apply bind_Some in H as (s5 & _ & H). apply bind_Some in H as (s6 & _ & H). done.
Qed.

(** *** The frame that NewPage takes *)

Lemma GetVictimPage_cases f s s' :
  GetVictimPage s = Some (f, s') → f ≠ INVALID_FRAME_ID →
  match free_list_ s with
  | f0 :: rest =>
      f = f0 ∧ s' = set_free_list rest s ∧
      ∃ pg, get_page f s = Some pg ∧ page_id_ pg = INVALID_PAGE_ID
  | [] => ∃ r, LRUK.Evict (replacer_ s) = Some (Some f, r) ∧ s' = set_replacer r s
  end.
Proof.
  unfold GetVictimPage. intros H Hf. destruct (free_list_ s) as [| f0 rest].
  - apply bind_Some in H as ([o r] & He & H). destruct o as [a |]; [| by simplify_eq].
    injection H as <- <-. by exists r.
  - apply bind_Some in H as (pg & Hg & H).
    apply bind_Some in H as ([] & Ha%assert_Some & H). injection H as <- <-.
    apply bool_decide_eq_true in Ha. split_and!; [done | done |]. by exists pg.
Qed.

(** X24. When [NewPage] returns a frame in a state reached from the
    constructor, that frame was not pinned, and no other frame has changed.
    With a non-empty free list it is the head of the free list, it held no
    page, and nothing is written to the disk; with an empty free list it was
    evictable in the replacer.  The page table gains the entry of the new
    page, loses the entry of the page the frame held, and is unchanged
    otherwise; the next page id is one more than the one handed out; the
    frame is not evictable afterwards. *)
Theorem NewPage_takes_unpinned_frame
    pool_size disk replacer_k bucket_size fuel ops rs s fuel' p f s' :
  0 ≤ pool_size → 0 ≤ bucket_size →
  run fuel ops (new pool_size disk replacer_k bucket_size) = Some (rs, s) →
  NewPgImp fuel' s = Some (Some (p, f), s') →
  ∃ pg,
    get_page f s = Some pg ∧ pin_count_ pg = 0 ∧
    (∀ g, g ≠ f → get_page g s' = get_page g s) ∧
    (∀ q, Find q (page_table_ s')
          = if decide (q = p) then Some (Some f)
            else if decide (q = page_id_ pg ∧ q ≠ INVALID_PAGE_ID) then Some None
            else Find q (page_table_ s)) ∧
    next_page_id_ s' = p + 1 ∧
    LRUK.node_evictable (replacer_ s') f = false ∧
    match free_list_ s with
    | f0 :: rest =>
        f = f0 ∧ free_list_ s' = rest ∧ page_id_ pg = INVALID_PAGE_ID ∧
        disk_manager_ s' = disk_manager_ s
    | [] => free_list_ s' = [] ∧ LRUK.node_evictable (replacer_ s) f = true
    end.
Proof.
  intros Hn Hb Hrun Hnew.
  assert (table_ok pool_size s) as Hok
    by (eapply table_ok_run; [done |]; by apply table_ok_new).
  assert (pin_inv s) as Hpin by (eapply pin_inv_run; [done |]; apply pin_inv_new).
  pose proof (pin_inv_NewPgImp _ _ _ _ _ _ Hnew Hpin) as [_ Hpin'].
  unfold NewPgImp, BPM.NewPgImp in Hnew.
  apply bind_Some in Hnew as ([f0 s1] & Hv & H). cbn [mbind option_bind] in H.
  case_bool_decide as Hf0; [done |]. unfold AllocatePage in H.
  apply bind_Some in H as ([b s3] & Hreset & H). cbn [mbind option_bind] in H.
  apply bind_Some in H as (s4 & Hinit & H).
  apply bind_Some in H as (pg4 & Hpg4 & H).
  apply bind_Some in H as (s5 & Hupd & H). injection H as <- <- <-.
  set (s2 := set_next_page_id (next_page_id_ s1 + 1) s1) in *.
  pose proof (table_ok_GetVictimPage _ _ _ _ _ Hv Hok) as Hok1.
  assert (table_ok pool_size s2) as Hok2 by by apply (table_ok_ext _ _ s1).
  pose proof (GetVictimPage_same _ _ _ Hv) as (_ & Hp1 & Ht1 & Hnext1 & Hd1 & _).
  assert (∃ pg, get_page f0 s2 = Some pg) as [pg Hpg2].
  { unfold ResetPage, BPM.ResetPage in Hreset.
    apply bind_Some in Hreset as (pg & Hpg & _). eauto. }
  assert (get_page f0 s = Some pg) as Hpg by (unfold get_page in *; by rewrite <- Hp1).
  assert (table_ok pool_size s3) as Hok3 by by eapply table_ok_ResetPage.
  pose proof (ResetPage_Some _ _ _ _ _ _ Hreset) as (_ & Hfree3 & Hnext3 & _).
  apply InitPage_Some in Hinit
    as (pg3 & pt & Hpg3 & Hid3 & Hdirty3 & Hpin3 & Hins & -> & Hget4).
  destruct (Hash_props.Insert_content hash _ _ _ _ _ (to_table _ _ _ Hok3) Hins)
    as [_ Hfind4].
  pose proof (Hget4 f0) as Hg4. rewrite decide_True in Hg4 by done.
  rewrite Hg4 in Hpg4. injection Hpg4 as <-.
  apply UpdateFrameInfo_frame in Hupd as [r ->].
  exists pg.
  assert (pin_count_ pg = 0 ∧
          (∀ g, g ≠ f0 → get_page g s3 = get_page g s) ∧
          (page_id_ pg = INVALID_PAGE_ID → disk_manager_ s3 = disk_manager_ s) ∧
          ∀ q, Find q (page_table_ s3)
               = if decide (q = page_id_ pg ∧ q ≠ INVALID_PAGE_ID) then Some None
                 else Find q (page_table_ s)) as (Hpin0 & Hothers & Hdisk & Hfind3).
  { destruct (ResetPage_cases _ _ _ _ _ _ _ Hpg2 Hreset)
      as [(Hid & _ & ->) | (Hid & pt0 & Hrm & Hs3)].
    - assert (pg3 = pg) as -> by congruence.
      split_and!; [done | | by intros _; rewrite <- Hd1 |].
      + intros g _. unfold get_page. cbn. by rewrite Hp1.
      + intros q. cbn. rewrite Ht1. rewrite decide_False; [done |]. intros [-> ?]. done.
    - destruct b.
      + split; [exact (GetVictimPage_unpinned _ _ _ _ Hpin Hv Hf0 Hpg Hid) |].
        destruct (Hash_props.Remove_content hash _ (page_id_ pg) (to_table _ _ _ Hok2))
          as (found & pt1 & Hrm1 & _ & _ & Hfind1).
        rewrite Hrm in Hrm1. injection Hrm1 as <- <-.
        subst s3. cbn [disk_manager_ page_table_]. split_and!; [| done |].
        * intros g Hg. unfold get_page. cbn [pages_ s2 set_next_page_id].
          rewrite <- Hp1. unfold zlookup. destruct (g <? 0) eqn:Hneg; [done |].
          apply Z.ltb_ge in Hneg. apply zlookup_Some in Hpg2 as [Hr1 _].
          rewrite list_lookup_insert_ne by lia. done.
        * intros q. rewrite Hfind1. cbn [page_table_ s2 set_next_page_id]. rewrite Ht1.
          destruct (decide (q = page_id_ pg)) as [-> | Hq].
          -- by rewrite decide_True.
          -- rewrite decide_False; [done |]. tauto.
      + subst s3. change (get_page f0 s2 = Some pg3) in Hpg3.
        assert (pg3 = pg) as -> by congruence. done. }
  split_and!; [done | done | | | | |].
  - intros g Hg.
    change (get_page g (set_page_table pt (set_pages
              (<[Z.to_nat f0 := set_pin_count 1 (set_page_id (next_page_id_ s1) pg3)]>
                 (pages_ s3)) s3)) = get_page g s).
    rewrite Hget4, decide_False by done. by apply Hothers.
  - intros q. cbn [page_table_ set_replacer set_pages set_page_table].
    rewrite Hfind4. case_decide; [done |]. apply Hfind3.
  - cbn [next_page_id_ set_replacer set_pages set_page_table]. rewrite Hnext3. done.
  - destruct (Hpin' f0 1) as [_ H1]; [tauto | | by apply H1].
    unfold pins.
    change (pin_count_ <$> get_page f0 (set_page_table pt (set_pages
              (<[Z.to_nat f0 := set_pin_count 1 (set_page_id (next_page_id_ s1) pg3)]>
                 (pages_ s3)) s3)) = Some 1).
    rewrite Hget4, decide_True by done. done.
  - pose proof (GetVictimPage_cases _ _ _ Hv Hf0) as Hcase.
    cbn [free_list_ set_replacer set_pages set_page_table]. rewrite Hfree3.
    destruct (free_list_ s) as [| f1 rest] eqn:Hfl.
    + destruct Hcase as (r0 & He & Hs1). split; [by unfold s2; rewrite Hs1 |].
      destruct Hpin as [[Ha _] _]. by eapply LRUK_facts.Evict_returns_evictable.
    + destruct Hcase as (-> & Hs1 & pg' & Hpg' & Hid').
      assert (pg' = pg) as -> by congruence.
      split_and!; [done | by unfold s2; rewrite Hs1 | done |].
      cbn [disk_manager_ set_replacer set_pages set_page_table]. by apply Hdisk.
Qed.

End Pool.

Lemma NewPage_takes_unpinned_frame_witness :
  ∃ rs s s',
    run Hash.std_hash 4 8 [OpNewPage; OpNewPage; OpUnpinPage 0 true] example_pool
    = Some (rs, s) ∧
    NewPgImp Hash.std_hash 4 8 s = Some (Some (2, 0), s') ∧
    ∃ pg,
      get_page 0 s = Some pg ∧ pin_count_ pg = 0 ∧
      (∀ g, g ≠ 0 → get_page g s' = get_page g s) ∧
      (∀ q, Hash.Find Hash.std_hash q (page_table_ s')
            = if decide (q = 2) then Some (Some 0)
              else if decide (q = page_id_ pg ∧ q ≠ INVALID_PAGE_ID) then Some None
              else Hash.Find Hash.std_hash q (page_table_ s)) ∧
      next_page_id_ s' = 2 + 1 ∧
      LRUK.node_evictable (replacer_ s') 0 = false ∧
      match free_list_ s with
      | f0 :: rest =>
          0 = f0 ∧ free_list_ s' = rest ∧ page_id_ pg = INVALID_PAGE_ID ∧
          disk_manager_ s' = disk_manager_ s
      | [] => free_list_ s' = [] ∧ LRUK.node_evictable (replacer_ s) 0 = true
      end.
Proof.
  eexists _, _, _. split; [vm_compute; reflexivity |].
  split; [vm_compute; reflexivity |].
  eapply (NewPage_takes_unpinned_frame Hash.std_hash 4 2 (λ _, zeroed 4) 2 4 8
            [OpNewPage; OpNewPage; OpUnpinPage 0 true] _ _ 8 2 0).
  - lia.
  - lia.
  - vm_compute; reflexivity.
  - vm_compute; reflexivity.
Defined.

Lemma page_evictable_iff_unpinned_witness :
  ∃ rs s pg,
    run Hash.std_hash 4 8 [OpNewPage; OpNewPage; OpUnpinPage 1 true] example_pool
    = Some (rs, s) ∧
    get_page 1 s = Some pg ∧ page_id_ pg = 1 ∧
    LRUK.tracked (replacer_ s) 1 ∧
    (LRUK.node_evictable (replacer_ s) 1 = true ↔ pin_count_ pg = 0).
Proof.
  eexists _, _, _. split; [vm_compute; reflexivity |].
  split; [vm_compute; reflexivity |]. split; [reflexivity |].
  eapply (page_evictable_iff_unpinned Hash.std_hash 4 2 (λ _, zeroed 4) 2 4 8
            [OpNewPage; OpNewPage; OpUnpinPage 1 true] _ _ 1).
  - exact example_params.
  - simpl; lia.
  - vm_compute; reflexivity.
  - vm_compute; reflexivity.
  - unfold INVALID_PAGE_ID; simpl; lia.
Defined.

Lemma no_frame_only_when_exhausted_witness :
  ∃ rs s,
    run Hash.std_hash 4 8 [OpNewPage; OpNewPage] example_pool = Some (rs, s) ∧
    (∀ s', NewPgImp Hash.std_hash 4 8 s = Some (None, s') →
           s' = s ∧ free_list_ s = [] ∧ LRUK.Size (replacer_ s) = 0 ∧
           ∀ f pg, get_page f s = Some pg → page_id_ pg ≠ INVALID_PAGE_ID →
                   0 < pin_count_ pg) ∧
    (∀ p s', FetchPgImp Hash.std_hash 4 8 p s = Some (None, s') →
             s' = s ∧ Hash.Find Hash.std_hash p (page_table_ s) = Some None ∧
             free_list_ s = [] ∧ LRUK.Size (replacer_ s) = 0 ∧
             ∀ f pg, get_page f s = Some pg → page_id_ pg ≠ INVALID_PAGE_ID →
                     0 < pin_count_ pg).
Proof.
  eexists _, _. split; [vm_compute; reflexivity |].
  eapply (no_frame_only_when_exhausted Hash.std_hash 4 2 (λ _, zeroed 4) 2 4 8
            [OpNewPage; OpNewPage]).
  - exact example_params.
  - simpl; lia.
  - vm_compute; reflexivity.
Defined.

End BPM_live.

